(* ===== verification/_CoqProject ===== *)
-Q . S2P
Prelude.v
GoStrings.v
NetIP.v
Scanner.v
PortSpec.v
Effects.v
Parallel.v
Framing.v
Messages.v
Sessions.v
SubID.v
Sys.v
Cgroup.v
Parent.v
Child.v
Handshake.v
Handover.v
Manager.v
BuiltinParent.v
SlirpPort.v
GvisorPort.v
Api.v
PortMsg.v
PortChild.v
Routing.v
Connect.v
UdpProxy.v
PortProxy.v
UdpPort.v
Bicopy.v
NetConfig.v
NetDrivers.v
DhcpLease.v
GvisorNet.v
NetInfo.v
ParentNet.v
Disabled.v
Cli.v
ExitStatus.v
Ctl.v
SigProxy.v
Help.v
TestSuite.v
