(* ===== verification/Prelude.v ===== *)
(** * RootlessKit: a verification development

    RootlessKit runs a command as if by root, in a user namespace.  The process
    that the user starts is the parent.  It starts itself again in new
    namespaces (the child), and the two go through a handshake of six messages
    over two pipes, while the parent sets up the ID maps, the network and the
    published ports.  The child, once it has the message it waits for, mounts,
    configures its network and runs the target command; the parent serves a
    REST API over a UNIX socket meanwhile, by which ports are added and removed,
    and exits with the status of the command.  The files of this development
    follow the packages of the program.  Paths are relative to src/.

    ** How programs are modelled

    Code that computes is a function: parsers, validators, tables, the bytes of
    a message.  Go's ints are numbers of type Z, with the wrap-around of 64 (or
    32) bits written out where arithmetic can leave the range; strings and byte
    slices are lists of bytes; an error is a value of [Prelude.error], with the
    format string, its arguments and what it wraps; a panic is an error too.

    Code that calls the kernel, runs commands or talks to drivers is a program
    over a signature of calls (Effects.v): a tree of calls and responses.
    Nothing is assumed of the responses unless a theorem says so, so that a
    statement about all behaviours covers every error path.  [defer]red calls
    are part of the program.  Four signatures are used: [Sys.sys] for the parent,
    the child, the network drivers and the command line, [PortMsg.sock] for the
    builtin port driver, one in Ctl.v for the clients of the API and one in
    TestSuite.v for the tests of the port drivers.
    [tracks d p s Q] is the main tool: a protocol automaton [d] started in [s]
    accepts every behaviour of [p] and ends as [Q] says.  Goroutines that share
    state are step relations on a state, one step per critical section or
    blocking call, with an invariant over the reachable states; what one
    goroutine holds is part of the state.  Two programs that run to their end side by
    side are [par] of Parallel.v, with a schedule: a protocol whose state can be
    split is shown for each of them alone.

    ** The files

    Foundations.
    - Prelude.v: strings, errors, results, 64-bit arithmetic, tactics.
    - GoStrings.v, NetIP.v, Scanner.v: what the program uses of Go's strings,
      strconv, filepath, net and text/scanner.
    - Effects.v: programs, behaviours, [tracks], [only], [returns], [exec].
    - Parallel.v: two programs interleaved, and the rule for their protocols.
    - Sessions.v: two programs that talk over two queues: each follows the
      dual of the other's script, so no message is unexpected and they do not
      both wait for each other.
    - Sys.v: the calls of the kernel and the drivers.

    The handshake.
    - Framing.v (pkg/lowlevelmsgutil): messages behind their length.
    - Messages.v (pkg/messages): the union of messages, Send, Recv, WaitFor.
    - SubID.v (pkg/parent/idtools, pkg/parent/dynidtools, the ID map of
      pkg/parent/parent.go): sub-IDs and the arguments of newuidmap.
    - Cgroup.v (pkg/parent/cgrouputil), Parent.v (pkg/parent/parent.go, warn.go):
      the parent, from [Parent] down to each call of the kernel.
    - Child.v (pkg/child, pkg/copyup, pkg/common): the child, the reaper,
      copy-up.
    - Handshake.v: the parent and the child (before and after it executes itself
      again) as two parties of Sessions.v.
    - Handover.v: the same two with the messages themselves in the pipes
      ([pipes_refine]: an execution is one of Handshake.v when only the types are
      seen), and what the child does with what the parent's drivers said.
    - SigProxy.v (pkg/sigproxy): the signals that are forwarded.
    - ExitStatus.v: the status of the command, through child and parent.

    Ports.
    - PortSpec.v (pkg/port, pkg/port/portutil): specifications and their
      validation.
    - Manager.v (port.Manager of pkg/port/port.go): the interface of a port
      driver and its contract [ManagerSpec], an abstract table of ports.
    - BuiltinParent.v, SlirpPort.v, GvisorPort.v (pkg/port/builtin/parent,
      pkg/port/slirp4netns, pkg/port/gvisortapvsock): the drivers, each a
      [Manager] that keeps the contract, and the interleavings of concurrent
      calls.
    - Api.v (pkg/api, pkg/httputil): the handlers and the client; the client is
      again a [Manager].
    - PortMsg.v, PortChild.v (pkg/port/builtin/msg, pkg/port/builtin/child): how
      the parent gets a connected socket out of the child's namespace.
    - Routing.v: the goroutines of the child with the memory that they share.
    - Connect.v: both sides of one such request at the same time, joined by their
      socket.
    - PortProxy.v, Bicopy.v, UdpProxy.v, UdpPort.v (pkg/port/builtin/parent/tcp
      and udp): the proxies, copying, sessions and stopping.  In the program of
      PortProxy.v that handles one TCP connection, the copying is one call; its
      goroutines are in Bicopy.v.

    Networks.
    - NetConfig.v (pkg/network/iputils, parseCIDR of cmd/rootlesskit).
    - NetDrivers.v (pkg/network/none, slirp4netns, pasta, lxcusernic, vpnkit,
      parentutils), DhcpLease.v (the renewal of lxcusernic), GvisorNet.v
      (pkg/network/gvisortapvsock).
    - NetInfo.v: what the drivers tell the API.
    - ParentNet.v: the parent linked with a network driver.
    - Disabled.v (the files whose names end in _disabled.go): the stubs that
      stand for the network and port drivers that a build tag leaves out.

    Commands.
    - Cli.v (cmd/rootlesskit, its unshare and pkg/systemd/activation helpers): the
      options of the two processes and the roles of the executable.
    - Ctl.v (cmd/rootlessctl, cmd/rootlesskit-docker-proxy).
    - Help.v (cmd/rootlesskit/category.go, and the lists of drivers and the log
      writers of main.go).

    Tests.
    - TestSuite.v (pkg/port/testsuite): the conformance tests that a port driver
      is run through, their processes and goroutines.

    ** What is shown

    The handshake: neither process receives a message that it does not wait for
    ([handshake_no_unexpected_message]), and a process waits for ever only when
    the other one has returned an error; when neither has, both return well
    ([handshake_no_deadlock]).  Both include the change of program when the child
    executes itself, which has to give it capabilities: there is an environment
    in which it does not, and then the two wait for each other
    ([reexec_without_caps_deadlocks]); and a child that fails can leave the parent
    waiting ([failed_child_blocks_parent]).  The descriptors survive their way
    through the environment.  What the messages carry gets through: the child's drivers
    are called with what the parent's have said, and its devices get the
    addresses that its network driver answers ([handover]); with a driver that
    the build leaves out, no network is ever announced
    ([disabled_network_fails]).  The target command starts last
    ([Child_starts_last]) and its status is that of rootlesskit, but for a later
    failure of the shutdown, which is reported instead of a success
    ([exit_status_propagates]).

    Resources: whatever fails, the parent releases its network, signal handler,
    lock and state directory; when it succeeds also the API server and the port
    driver, and of its pipes only the end that it writes to ([Parent_releases]).
    Linked with a driver that keeps its promise, as slirp4netns, vpnkit and pasta
    do, the helpers of the driver are killed and then waited for
    ([parent_releases_helpers]); the child side of the
    builtin driver closes every descriptor ([serve_conn_closes]); the parent
    publishes its PID file and socket in the right order ([Parent_publishes]).

    Port management: each driver, and the client of the API, refines the abstract
    table of ports ([builtin_implements_Manager], [slirp_implements_Manager],
    [gvisor_implements_Manager], [client_refines_driver]).  For the last two
    drivers the theorems also say what is forwarded: what the table records.
    slirp4netns keeps the contract as long as no reply is lost, and each call has
    an effect that is stated without that proviso ([slirp_lost_reply] is what can
    happen); gvisor-tap-vsock keeps it for calls made one at a time
    ([gvisor_remove_during_add]).  Under concurrent calls of the builtin driver the
    tables stay consistent, sockets have one owner and no two ports of one address
    listen ([builtin_table_ok], [builtin_sockets_owned], [builtin_ports_exclusive]).
    The goroutines of the child set up the policy routing at most once, before any
    of them relies on it, and none of them is stuck ([routing_setup_once],
    [goroutines_complete]).  Stopping a port comes to an end in every execution
    that goes on to schedule the goroutine that has to notice it
    ([tcp_stop_completes], [udp_stop_completes]), and so does the copying of a
    stopped TCP connection ([bicopy_ends]).

    Data: specifications and messages survive printing and parsing, nothing
    panics, lengths are bounded ([ParsePortSpec_render],
    [ParsePortSpec_no_panic], [UnmarshalFromReader_sound]); the ID map is a
    bijection ([newuidmap_bijective]); bytes, frames and datagrams are passed on in
    order, and answers go to the client of their session ([bicopy_copies],
    [frames_roundtrip], [udp_sessions]), where clients that differ only in the zone
    of their IPv6 address share a session ([udp_zone_confusion]); the descriptor that the parent gets for a port is one of
    a connection to the target of that port, and it gets one when nothing fails
    ([connection_handed], [connection_completes]).

    Configuration: the parent and the child make agreeing options from one
    command line ([cli_options_agree]), and the drivers are those that it names, in
    a table of pairs ([cli_drivers_accepted]); addresses lie in the network when
    the prefix allows it ([child_addresses_fit]); a DHCP lease is renewed again and
    again, in time ([lxc_lease_renewed]).

    Tests: the conformance tests end every process they start, and the tests that
    go to their end have removed every port and stopped the driver, in every
    interleaving of their goroutines ([tests_clean_up]); they repeat an attempt
    only when it may succeed, and report the last answer ([add_port_attempts]).

    Lemmas that record a defect state it positively, as a run or a value that
    the code has: for instance [Cli.rejected_leaves_state_dir],
    [PortProxy.tcp_connection_leaks], [UdpProxy.udp_conn_after_close].

    ** Fuel and bounds

    Loops over data recurse on the data or on a bound computed from it: the
    scanner and the parsers use the length of the input, and their theorems have
    no hypothesis on fuel. Loops that repeat a system call until it is not
    interrupted, poll a helper or wait for children take a fuel that a theorem
    quantifies over: safety statements hold for every fuel, since a shorter run
    is a prefix of a longer one, and the error returned when it is spent is one
    of its own: a loop without bound has the behaviours of some fuel for as long
    as it runs, and the error is one more that the theorems allow (Connect.v
    asks for a fuel that is not zero, and counts an interrupted call as a
    failure in [connection_completes]). Where ending is claimed it is proved:
    [reap_collects] (the reaper needs as many rounds as there are processes to
    collect), [bicopy_ends], [tcp_stop_completes], [udp_stop_completes] (a
    measure on the states, and what is asked of the scheduler). Loops that are
    meant to run for ever (accept loops, the DHCP renewal) are followed for a
    given number of rounds. [DhcpLease.float64] covers positive numbers whose
    exponent is far from its limits, which a duration of 63 bits is.

    ** Parameters

    What is not in the repository is a parameter or a call: JSON codecs
    ([JsonCodec], with the law that decoding inverts encoding up to what JSON
    cannot carry, and [JsonDecoder], which reads the first value of a stream),
    control messages ([Cmsg], [CmsgLaws]), slirp4netns and the services of
    gvisor-tap-vsock as functions on their own state (with the laws [slirp_api],
    in which a request may be served and its reply be lost, and [forwarder]),
    the parsers of flags, the DHCP and vpnkit libraries as calls, the iteration
    order of a Go map as any permutation. Each law is shown to hold of a
    concrete instance in the witness of the property that uses it.

    ** Not modelled

    - The text of most log lines, the version constant, the usage texts of the
      flags.
    - Reading /proc/self/mountinfo (a library): the mounts of a type are the
      response of a call; the filter that the program gives to the library is
      in Cgroup.v.
    - The connection that transparentDial makes is one call; what it gives to
      the dialler of the library is in PortChild.v.
    - In TestSuite.v, the output of nc on its way through the pipes: a read
      may answer anything.
    - Formatting of tables in rootlessctl; HTTP itself (a request and a response
      writer stand for it). *)
From stdpp Require Export base gmap strings list numbers tactics fin_maps.
From Stdlib Require Export ZArith Lia Ascii.

#[global] Open Scope Z_scope.
#[global] Open Scope list_scope.

(** ** Go strings

    A Go string is a sequence of bytes, so it is a list of 8-bit [ascii].
    String literals are written as usual and coerced. *)
Abbreviation str := (list ascii).
Definition lit (s : string) : str := String.list_ascii_of_string s.
Coercion lit : string >-> list.

(** a string between double quotes *)
Definition quoted (s : str) : str := "034"%char :: s ++ ["034"%char].

(** ** Go errors

    An error is kept structured: the format string and arguments of
    [errors.New]/[fmt.Errorf], the error wrapped by [%w], or an error value
    that comes from the kernel or from a library ([Extern]), or the error of a
    process that ended with a wait status ([Exit]).  The arguments
    kept are the strings and numbers; structs and errors printed with [%v] are
    left out.  [Panic] is the
    run-time panic of an out-of-range slice or index expression. *)
Inductive fmtarg : Set :=
  | AStr (s : str)
  | AInt (z : Z).

Inductive error : Set :=
  | Errorf (fmt : str) (args : list fmtarg)
  | Wrapf (fmt : str) (args : list fmtarg) (inner : error)
  | Extern (what : str)
  | Exit (ws : Z)
  | Panic (why : str).

#[export] Instance fmtarg_eq_dec : EqDecision fmtarg.
Proof. solve_decision. Defined.
#[export] Instance error_eq_dec : EqDecision error.
Proof. solve_decision. Defined.

(** [errors.New(s)] *)
Definition errors_New (s : str) : error := Errorf s [].

(** [errors.Unwrap(err)] *)
Definition errors_Unwrap (e : error) : option error :=
  match e with Wrapf _ _ i => Some i | _ => None end.

(** [errors.Is(err, target)] for a comparable target *)
Fixpoint errors_Is (e target : error) : bool :=
  bool_decide (e = target) ||
  match e with Wrapf _ _ i => errors_Is i target | _ => false end.

(** ** Results: the Go pair [(T, error)] of which exactly one is meaningful *)
Inductive result (A : Type) : Type :=
  | Ok (a : A)
  | Err (e : error).
Arguments Ok {A} a.
Arguments Err {A} e.

#[export] Instance result_eq_dec {A} `{EqDecision A} : EqDecision (result A).
Proof. solve_decision. Defined.

Definition rbind {A B} (m : result A) (f : A -> result B) : result B :=
  match m with Ok a => f a | Err e => Err e end.

Definition is_ok {A} (m : result A) : bool :=
  match m with Ok _ => true | Err _ => false end.

(** the code's [if err != nil { return fmt.Errorf(... %w, err) }] *)
Definition on_err {A} (m : result A) (f : error -> error) : result A :=
  match m with Ok a => Ok a | Err e => Err (f e) end.

Declare Scope go_scope.
Delimit Scope go_scope with go.
Notation "x <-? m ;; k" := (rbind m (fun x => k))
  (at level 100, m at next level, right associativity) : go_scope.
Notation "'guard?' b 'orelse' e ;; k" := (if b then k else Err e)
  (at level 100, b at next level, e at next level, right associativity) : go_scope.
#[global] Open Scope go_scope.

Lemma rbind_ok_inv {A B} (m : result A) (f : A -> result B) b :
  rbind m f = Ok b -> exists a, m = Ok a /\ f a = Ok b.
Proof. destruct m; [eauto | discriminate]. Qed.

Lemma guard_ok_inv {A} (c : bool) (m : result A) e b :
  (if c then m else Err e) = Ok b -> c = true /\ m = Ok b.
Proof. destruct c; [auto | discriminate]. Qed.

Lemma on_err_ok {A} (m : result A) f a : on_err m f = Ok a <-> m = Ok a.
Proof. destruct m; split; simpl; congruence. Qed.

(** [inv_ok] splits every successful monadic composition in the context. *)
Ltac inv_ok :=
  repeat match goal with
  | H : rbind _ _ = Ok _ |- _ =>
      let a := fresh "a" in let H1 := fresh "E" in
      apply rbind_ok_inv in H as (a & H1 & H)
  | H : (if ?c then _ else Err _) = Ok _ |- _ =>
      let H1 := fresh "G" in apply guard_ok_inv in H as [H1 H]
  | H : on_err _ _ = Ok _ |- _ => apply on_err_ok in H
  | H : Ok _ = Ok _ |- _ => injection H as H
  | H : Err _ = Ok _ |- _ => discriminate H
  | H : Ok _ = Err _ |- _ => discriminate H
  end.

(** [break_match] destructs the scrutinee of a [match] or [if] of the goal,
    [break_match_in] the one of a hypothesis. *)
Ltac break_match :=
  match goal with
  | |- context [match ?x with _ => _ end] =>
      lazymatch x with context [match _ with _ => _ end] => fail | _ => idtac end;
      destruct x eqn:?
  end.
Ltac break_match_in H :=
  match type of H with
  | context [match ?x with _ => _ end] =>
      lazymatch x with context [match _ with _ => _ end] => fail | _ => idtac end;
      destruct x eqn:?
  end.

(** Boolean tests in the context become propositions. *)
Ltac bool_props :=
  repeat match goal with
  | H : _ && _ = true |- _ => apply andb_true_iff in H as [? ?]
  | H : _ || _ = false |- _ => apply orb_false_iff in H as [? ?]
  | H : negb _ = true |- _ => apply negb_true_iff in H
  | H : negb _ = false |- _ => apply negb_false_iff in H
  | H : bool_decide _ = true |- _ => apply bool_decide_eq_true_1 in H
  | H : bool_decide _ = false |- _ => apply bool_decide_eq_false_1 in H
  | H : (_ <=? _)%Z = true |- _ => apply Z.leb_le in H
  | H : (_ <=? _)%Z = false |- _ => apply Z.leb_gt in H
  | H : (_ <? _)%Z = true |- _ => apply Z.ltb_lt in H
  | H : (_ <? _)%Z = false |- _ => apply Z.ltb_ge in H
  | H : (_ =? _)%Z = true |- _ => apply Z.eqb_eq in H
  | H : (_ =? _)%Z = false |- _ => apply Z.eqb_neq in H
  end.

(** ** Go integers of a fixed width *)

(** [int] and [int64] (64-bit targets) *)
Definition int_min : Z := - 2 ^ 63.
Definition int_max : Z := 2 ^ 63 - 1.
Definition in_int64 (z : Z) : bool := (int_min <=? z) && (z <=? int_max).

(** two's-complement wrap-around of a 64-bit result *)
Definition wrap64 (z : Z) : Z := (z + 2 ^ 63) mod 2 ^ 64 - 2 ^ 63.
(** conversion to [uint32] *)
Definition wrap32u (z : Z) : Z := z mod 2 ^ 32.

Lemma wrap64_id z : in_int64 z = true -> wrap64 z = z.
Proof.
  unfold in_int64, wrap64, int_min, int_max. intros H. bool_props.
  rewrite Z.mod_small; lia.
Qed.

Lemma wrap32u_id z : 0 <= z < 2 ^ 32 -> wrap32u z = z.
Proof. apply Z.mod_small. Qed.

(** ** Executions

    An execution that goes on for ever is a sequence of states; there is none
    from a state that is accessible for the converse of the steps. *)
Definition infinite {S : Type} (R : S -> S -> Prop) (r : nat -> S) : Prop := forall n, R (r n) (r (Datatypes.S n)).

Lemma infinite_not_acc {S} (R : S -> S -> Prop) r n : infinite R r -> ~ Acc (fun b a => R a b) (r n).
Proof.
  intros Hr Ha. remember (r n) as s eqn:E. revert n E. induction Ha as [s _ IH]. intros n ->. by eapply (IH _ (Hr n)).
Qed.

Lemma infinite_invariant {S} (R : S -> S -> Prop) (P : S -> Prop) r :
  infinite R r -> (forall s s', P s -> R s s' -> P s') -> P (r O) -> forall n, P (r n).
Proof. intros Hr HP H0 n. induction n as [|n IH]; [done|]. by eapply HP. Qed.

(** ** Finite case analysis on bytes *)

Definition all_ascii : list ascii := map ascii_of_nat (seq 0 256).

Lemma elem_of_all_ascii c : c ∈ all_ascii.
Proof.
  unfold all_ascii. apply list_elem_of_In, in_map_iff.
  exists (nat_of_ascii c). split; [apply ascii_nat_embedding|].
  apply in_seq. pose proof (nat_ascii_bounded c). lia.
Qed.

(** A decidable property of bytes holds when it holds of the 256 bytes. *)
Lemma ascii_forall (P : ascii -> bool) :
  forallb P all_ascii = true -> forall c, P c = true.
Proof.
  intros H c. rewrite forallb_forall in H.
  apply H, list_elem_of_In, elem_of_all_ascii.
Qed.

(** ** Lists *)

Lemma Forall_app_r {A} (P : A -> Prop) l1 l2 : Forall P (l1 ++ l2) -> Forall P l2.
Proof. intros H. by apply Forall_app in H as [_ ?]. Qed.
Lemma Forall_app_l {A} (P : A -> Prop) l1 l2 : Forall P (l1 ++ l2) -> Forall P l1.
Proof. intros H. by apply Forall_app in H as [? _]. Qed.

Lemma concat_map_if {A B} (p : A -> bool) (g : A -> B) l :
  concat (map (fun x => if p x then [] else [g x]) l) = map g (List.filter (fun x => negb (p x)) l).
Proof. induction l as [|x l IH]; simpl; [done|]. rewrite IH. by destruct (p x). Qed.

(** [find_index p l] is the index of the first element that satisfies [p]. *)
Fixpoint find_index {A} (p : A -> bool) (l : list A) : option nat :=
  match l with
  | [] => None
  | x :: l' => if p x then Some 0%nat else S <$> find_index p l'
  end.

Lemma find_index_spec {A} (p : A -> bool) l i :
  find_index p l = Some i ->
  exists a x b, l = a ++ x :: b /\ length a = i /\ p x = true /\
                forallb (fun y => negb (p y)) a = true.
Proof.
  revert i; induction l as [|y l IH]; simpl; intros i H; [discriminate|].
  destruct (p y) eqn:Ey.
  - injection H as <-. exists [], y, l. auto.
  - destruct (find_index p l) as [j|] eqn:Ej; [|discriminate].
    injection H as <-. destruct (IH j eq_refl) as (a & x & b & -> & <- & Hx & Ha).
    exists (y :: a), x, b. simpl. by rewrite Ey, Ha.
Qed.

Lemma find_index_none {A} (p : A -> bool) l :
  find_index p l = None <-> forallb (fun y => negb (p y)) l = true.
Proof.
  induction l as [|y l IH]; simpl; [done|].
  destruct (p y); simpl; [done|]. rewrite <- IH.
  destruct (find_index p l); simpl; split; congruence.
Qed.

Lemma find_index_app_here {A} (p : A -> bool) a x b :
  forallb (fun y => negb (p y)) a = true -> p x = true ->
  find_index p (a ++ x :: b) = Some (length a).
Proof.
  induction a as [|y a IH]; simpl; intros Ha Hx; [by rewrite Hx|].
  bool_props. by rewrite H, IH.
Qed.

(** ** Automation shared by the components *)
Create HintDb go discriminated.
Create Rewrite HintDb go_rw.
#[export] Hint Resolve wrap64_id wrap32u_id elem_of_all_ascii : go.
#[export] Hint Rewrite @on_err_ok : go_rw.
