(* ===== verification/GoStrings.v ===== *)
(** * The Go standard library's string functions that RootlessKit uses

    [strings], [strconv], [path/filepath] and the line reader of
    [bufio.Scanner], on byte strings.  White space is the ASCII white space of
    [unicode.IsSpace]; bytes above 127 count as ordinary characters. *)
From S2P Require Import Prelude.

(** ** Package strings *)
Module strings.

Fixpoint HasPrefix (s p : str) {struct p} : bool :=
  match p, s with
  | [], _ => true
  | c :: p', d :: s' => bool_decide (c = d) && HasPrefix s' p'
  | _ :: _, [] => false
  end.

Definition HasSuffix (s p : str) : bool := HasPrefix (rev s) (rev p).

Definition TrimPrefix (s p : str) : str :=
  if HasPrefix s p then drop (length p) s else s.

Definition TrimSuffix (s p : str) : str :=
  if HasSuffix s p then take (length s - length p) s else s.

Fixpoint Contains (s p : str) : bool :=
  HasPrefix s p || match s with [] => false | _ :: s' => Contains s' p end.

(** [strings.LastIndex(s, sep)] for a one-byte separator; -1 when absent. *)
Definition LastIndex (s : str) (c : ascii) : Z :=
  match find_index (fun x => bool_decide (x = c)) (rev s) with
  | Some i => Z.of_nat (length s) - 1 - Z.of_nat i
  | None => -1
  end.

(** [strings.Split(s, sep)] for a one-byte separator. *)
Fixpoint Split (s : str) (c : ascii) : list str :=
  match s with
  | [] => [[]]
  | x :: s' =>
      if bool_decide (x = c) then [] :: Split s' c
      else match Split s' c with
           | w :: ws => (x :: w) :: ws
           | [] => [[x]]
           end
  end.

Definition is_space (c : ascii) : bool :=
  match nat_of_ascii c with
  | 9 | 10 | 11 | 12 | 13 | 32 => true
  | _ => false
  end%nat.

Fixpoint trim_left (s : str) : str :=
  match s with
  | [] => []
  | c :: s' => if is_space c then trim_left s' else s
  end.

Definition TrimSpace (s : str) : str := rev (trim_left (rev (trim_left s))).

(** [strings.Fields(s)]: the maximal runs of non-space bytes. *)
Fixpoint fields_aux (s cur : str) : list str :=
  match s with
  | [] => match cur with [] => [] | _ => [rev cur] end
  | c :: s' =>
      if is_space c then
        match cur with [] => fields_aux s' [] | _ => rev cur :: fields_aux s' [] end
      else fields_aux s' (c :: cur)
  end.
Definition Fields (s : str) : list str := fields_aux s [].

(** [strings.ReplaceAll(s, old, new)] for one-byte [old] and [new]. *)
Definition ReplaceAll (s : str) (old new : ascii) : str :=
  map (fun c => if bool_decide (c = old) then new else c) s.

(** [strings.Join(l, sep)] *)
Fixpoint Join (l : list str) (sep : str) : str :=
  match l with
  | [] => []
  | [w] => w
  | w :: l' => w ++ sep ++ Join l' sep
  end.

End strings.

(** [s[lo:hi]]; out-of-range bounds panic. *)
Definition slice (s : str) (lo hi : Z) : result str :=
  if (0 <=? lo) && (lo <=? hi) && (hi <=? Z.of_nat (length s))
  then Ok (take (Z.to_nat (hi - lo)) (drop (Z.to_nat lo) s))
  else Err (Panic "slice bounds out of range").

(** ** Package strconv *)
Module strconv.

Definition is_digit (c : ascii) : bool :=
  (48 <=? nat_of_ascii c)%nat && (nat_of_ascii c <=? 57)%nat.
Definition digit_val (c : ascii) : N := N.of_nat (nat_of_ascii c - 48).
Definition digit_char (d : N) : ascii := ascii_of_N (48 + d).

(** Decimal digits of [n], most significant first, in front of [acc]; [fuel]
    bounds the number of digits by the number of bits. *)
Fixpoint dec (fuel : nat) (n : N) (acc : str) : str :=
  match fuel with
  | O => acc
  | S f =>
      let acc' := digit_char (n mod 10) :: acc in
      if (n <? 10)%N then acc' else dec f (n / 10)%N acc'
  end.
Definition itoa_N (n : N) : str := dec (S (N.size_nat n)) n [].

(** [strconv.Itoa] *)
Definition Itoa (z : Z) : str :=
  if z <? 0 then "-"%char :: itoa_N (Z.to_N (- z)) else itoa_N (Z.to_N z).

Definition dec_step (a : N) (c : ascii) : N := (10 * a + digit_val c)%N.
Definition dec_val (s : str) : N := fold_left dec_step s 0%N.

Definition ErrSyntax : error := Extern "invalid syntax".
Definition ErrRange : error := Extern "value out of range".

(** the unsigned part of [strconv.Atoi]: one or more decimal digits *)
Definition parse_digits (s : str) : option N :=
  match s with
  | [] => None
  | _ => if forallb is_digit s then Some (dec_val s) else None
  end.

(** [strconv.Atoi] (and [strconv.ParseInt(s, 10, 64)]) on 64-bit targets *)
Definition Atoi (s : str) : result Z :=
  let signed (neg : bool) (ds : str) :=
    match parse_digits ds with
    | None => Err ErrSyntax
    | Some n =>
        let z := if neg then (- Z.of_N n) else Z.of_N n in
        if in_int64 z then Ok z else Err ErrRange
    end in
  match s with
  | "-"%char :: ds => signed true ds
  | "+"%char :: ds => signed false ds
  | _ => signed false s
  end.

(** [strconv.ParseBool] *)
Definition ParseBool (s : str) : result bool :=
  if bool_decide (s ∈ [lit "1"; lit "t"; lit "T"; lit "TRUE"; lit "true"; lit "True"]) then Ok true
  else if bool_decide (s ∈ [lit "0"; lit "f"; lit "F"; lit "FALSE"; lit "false"; lit "False"]) then Ok false
  else Err ErrSyntax.

(** [strconv.FormatBool] *)
Definition FormatBool (b : bool) : str := if b then "true" else "false".

End strconv.

(** ** Package bufio: the lines a [bufio.Scanner] yields

    A trailing carriage return is dropped, an unterminated last line counts
    when it is not empty, and a line that does not fit the 64 KiB buffer stops
    the scan with [bufio.ErrTooLong]. *)
Module bufio.

Definition MaxScanTokenSize : Z := 65536.
Definition ErrTooLong : error := Extern "bufio.Scanner: token too long".

Definition drop_cr (l : str) : str :=
  match rev l with
  | "013"%char :: r => rev r
  | _ => l
  end.

Definition raw_lines (s : str) : list str :=
  let ls := strings.Split s "010"%char in
  match rev ls with
  | [] :: r => rev r
  | _ => ls
  end.

Fixpoint scan_lines (ls : list str) : list str * option error :=
  match ls with
  | [] => ([], None)
  | l :: ls' =>
      if MaxScanTokenSize <=? Z.of_nat (length l) then ([], Some ErrTooLong)
      else let '(r, e) := scan_lines ls' in (drop_cr l :: r, e)
  end.

Definition lines (s : str) : list str * option error := scan_lines (raw_lines s).

End bufio.

(** ** Package path/filepath

    [Clean] works on the slash-separated components: empty and "." components
    vanish, ".." removes the previous component, and stays only at the front
    of a relative path. *)
Module filepath.

Definition sep : ascii := "/"%char.

(** [out] is the list of the components kept so far, last one first. *)
Fixpoint clean_comps (rooted : bool) (cs out : list str) : list str :=
  match cs with
  | [] => rev out
  | c :: cs' =>
      if bool_decide (c = []) || bool_decide (c = lit ".") then clean_comps rooted cs' out
      else if bool_decide (c = lit "..") then
        match out with
        | o :: out' =>
            if bool_decide (o = lit "..") then clean_comps rooted cs' (c :: out)
            else clean_comps rooted cs' out'
        | [] => if rooted then clean_comps rooted cs' [] else clean_comps rooted cs' [c]
        end
      else clean_comps rooted cs' (c :: out)
  end.

Definition IsAbs (p : str) : bool := strings.HasPrefix p "/".

Definition Clean (p : str) : str :=
  let comps := clean_comps (IsAbs p) (strings.Split p sep) [] in
  if IsAbs p then sep :: strings.Join comps "/"
  else match comps with [] => "." | _ => strings.Join comps "/" end.

(** [filepath.Join]: empty elements are ignored *)
Definition Join (elems : list str) : str :=
  match filter (fun e => e <> []) elems with
  | [] => []
  | es => Clean (strings.Join es "/")
  end.

Fixpoint strip_trailing (p : str) : str :=
  match p with
  | "/"%char :: p' => strip_trailing p'
  | _ => p
  end.

(** [filepath.Base] *)
Definition Base (p : str) : str :=
  match p with
  | [] => "."
  | _ =>
      match rev (strip_trailing (rev p)) with
      | [] => "/"
      | q => match find_index (fun c => bool_decide (c = sep)) (rev q) with
             | Some i => drop (length q - i) q
             | None => q
             end
      end
  end.

End filepath.

(** ** Facts *)

Lemma HasPrefix_app p s : strings.HasPrefix (p ++ s) p = true.
Proof.
  induction p as [|c p IH]; simpl; [done|]. by rewrite bool_decide_eq_true_2, IH.
Qed.

Lemma HasPrefix_spec s p :
  strings.HasPrefix s p = true <-> exists r, s = p ++ r.
Proof.
  split; [|intros [r ->]; apply HasPrefix_app].
  revert s; induction p as [|c p IH]; simpl; intros s H; [by exists s|].
  destruct s as [|d s]; [discriminate|]. bool_props. subst.
  destruct (IH _ H0) as [r ->]. by exists r.
Qed.

Lemma HasSuffix_spec s p :
  strings.HasSuffix s p = true <-> exists r, s = r ++ p.
Proof.
  unfold strings.HasSuffix. rewrite HasPrefix_spec. split; intros [r H].
  - exists (rev r). apply (f_equal (@rev _)) in H.
    by rewrite rev_app_distr, !rev_involutive in H.
  - exists (rev r). by rewrite H, rev_app_distr.
Qed.

Lemma TrimSuffix_app s p : strings.TrimSuffix (s ++ p) p = s.
Proof.
  unfold strings.TrimSuffix.
  assert (strings.HasSuffix (s ++ p) p = true) as -> by (apply HasSuffix_spec; eauto).
  rewrite length_app, take_app_length'; [done|lia].
Qed.

Lemma TrimPrefix_app s p : strings.TrimPrefix (p ++ s) p = s.
Proof. unfold strings.TrimPrefix. by rewrite HasPrefix_app, drop_app_length. Qed.

(** *** Split and Join *)

Definition lacks (c : ascii) (s : str) : bool := forallb (fun x => negb (bool_decide (x = c))) s.

Lemma lacks_app c s t : lacks c (s ++ t) = lacks c s && lacks c t.
Proof. apply forallb_app. Qed.

Lemma Split_not_nil s c : strings.Split s c <> [].
Proof.
  destruct s as [|x s]; simpl; [done|].
  case_bool_decide; [done|]. by destruct (strings.Split s c).
Qed.

Lemma Split_lacks s c : lacks c s = true -> strings.Split s c = [s].
Proof.
  induction s as [|x s IH]; simpl; [done|]. intros H. bool_props.
  rewrite bool_decide_eq_false_2 by done. by rewrite IH.
Qed.

Lemma Split_app w s c : lacks c w = true -> strings.Split (w ++ c :: s) c = w :: strings.Split s c.
Proof.
  induction w as [|x w IH]; simpl.
  - intros _. by rewrite bool_decide_eq_true_2.
  - intros H. bool_props. rewrite bool_decide_eq_false_2 by done. by rewrite IH.
Qed.

(** Splitting what was joined with a separator that no field contains. *)
Lemma Split_Join ws c :
  ws <> [] -> forallb (lacks c) ws = true -> strings.Split (strings.Join ws [c]) c = ws.
Proof.
  induction ws as [|w ws IH]; [done|]. intros _ H. simpl in H. bool_props.
  destruct ws as [|v ws]; [by apply Split_lacks|].
  change (strings.Join (w :: v :: ws) [c]) with (w ++ c :: strings.Join (v :: ws) [c]).
  rewrite Split_app by done. f_equal. apply IH; done.
Qed.

Lemma Split_Forall_lacks s c : Forall (fun w => lacks c w = true) (strings.Split s c).
Proof.
  induction s as [|x s IH]; simpl; [by repeat constructor|].
  case_bool_decide as Hx; [by constructor|].
  destruct (strings.Split s c) as [|w ws]; [by repeat constructor; simpl; rewrite bool_decide_eq_false_2|].
  inversion IH; subst. constructor; [|done]. simpl. by rewrite bool_decide_eq_false_2.
Qed.

(** *** LastIndex *)

Lemma rev_cons_inv {A} (s a b : list A) c : rev s = a ++ c :: b -> s = rev b ++ c :: rev a.
Proof.
  intros H. apply (f_equal (@rev _)) in H. rewrite rev_involutive, rev_app_distr in H.
  simpl in H. by rewrite <- app_assoc in H.
Qed.

Lemma LastIndex_app s t c :
  lacks c t = true -> strings.LastIndex (s ++ c :: t) c = Z.of_nat (length s).
Proof.
  intros Ht. unfold strings.LastIndex.
  rewrite rev_app_distr. simpl. rewrite <- app_assoc. simpl.
  rewrite find_index_app_here.
  - rewrite length_rev, length_app. simpl. lia.
  - apply forallb_forall. intros x Hx. apply in_rev in Hx. unfold lacks in Ht.
    rewrite forallb_forall in Ht. by apply Ht.
  - by apply bool_decide_eq_true_2.
Qed.

Lemma LastIndex_neg s c : strings.LastIndex s c < 0 <-> lacks c s = true.
Proof.
  unfold strings.LastIndex. destruct (find_index _ _) as [i|] eqn:E.
  - apply find_index_spec in E as (a & x & b & Hr & <- & Hx & Ha). bool_props. subst x.
    assert (s = rev b ++ c :: rev a) as ->.
    { by apply rev_cons_inv. }
    rewrite length_app, lacks_app. simpl. rewrite bool_decide_eq_true_2 by done. simpl.
    rewrite andb_false_r, length_rev. rewrite length_rev. split; [lia|done].
  - apply find_index_none in E. split; [intros _|lia].
    unfold lacks. rewrite forallb_forall in *. intros x Hx. apply E. by apply in_rev in Hx.
Qed.

(** Where the last occurrence is: everything after it lacks the separator. *)
Lemma LastIndex_split s c i :
  strings.LastIndex s c = i -> 0 <= i ->
  exists a b, s = a ++ c :: b /\ lacks c b = true /\ Z.of_nat (length a) = i.
Proof.
  unfold strings.LastIndex. destruct (find_index _ _) as [k|] eqn:E; [|lia].
  intros <- _. apply find_index_spec in E as (a & x & b & Hr & <- & Hx & Ha). bool_props. subst x.
  assert (s = rev b ++ c :: rev a) as ->.
  { rewrite <- (rev_involutive s), Hr, rev_app_distr. simpl. by rewrite <- app_assoc. }
  exists (rev b), (rev a). split; [done|]. split.
  - unfold lacks. rewrite forallb_forall in *. intros x Hx. apply Ha. by apply in_rev in Hx.
  - rewrite length_app. simpl. rewrite !length_rev. lia.
Qed.

Lemma slice_app a b c : slice (a ++ b ++ c) (Z.of_nat (length a)) (Z.of_nat (length a + length b)) = Ok b.
Proof.
  unfold slice. rewrite !length_app.
  destruct (_ && _) eqn:E.
  - f_equal. rewrite Nat2Z.id, drop_app_length.
    replace (Z.to_nat _) with (length b) by lia. apply take_app_length.
  - apply andb_false_iff in E as [E|E]; [apply andb_false_iff in E as [E|E]|]; bool_props; lia.
Qed.

(** *** Itoa and Atoi *)

Lemma digit_char_spec d : (d < 10)%N ->
  strconv.is_digit (strconv.digit_char d) = true /\ strconv.digit_val (strconv.digit_char d) = d.
Proof.
  intros H.
  assert (forallb (fun d => strconv.is_digit (strconv.digit_char d) &&
            (strconv.digit_val (strconv.digit_char d) =? d)%N) (map N.of_nat (seq 0 10)) = true)
    as Hall by (vm_compute; reflexivity).
  rewrite forallb_forall in Hall. specialize (Hall d).
  rewrite andb_true_iff, N.eqb_eq in Hall. apply Hall.
  apply in_map_iff. exists (N.to_nat d). rewrite in_seq. lia.
Qed.

Lemma dec_digits fuel n acc :
  forallb strconv.is_digit acc = true -> forallb strconv.is_digit (strconv.dec fuel n acc) = true.
Proof.
  revert n acc; induction fuel as [|f IH]; intros n acc H; simpl; [done|].
  assert (n mod 10 < 10)%N as [Hd _]%digit_char_spec by (apply N.mod_lt; lia).
  destruct (n <? 10)%N; [|apply IH]; simpl; by rewrite Hd.
Qed.

Lemma dec_value fuel n acc :
  (n < 2 ^ N.of_nat fuel)%N ->
  fold_left strconv.dec_step (strconv.dec fuel n acc) 0%N = fold_left strconv.dec_step acc n.
Proof.
  revert n acc; induction fuel as [|f IH]; intros n acc H; simpl.
  - simpl in H. by replace n with 0%N by lia.
  - assert (n mod 10 < 10)%N as [_ Hv]%digit_char_spec by (apply N.mod_lt; lia).
    destruct (n <? 10)%N eqn:E.
    + apply N.ltb_lt in E. rewrite N.mod_small in * by done. simpl.
      unfold strconv.dec_step at 2. by rewrite Hv.
    + apply N.ltb_ge in E. rewrite IH.
      * simpl. unfold strconv.dec_step at 2. rewrite Hv. f_equal.
        pose proof (N.div_mod n 10). lia.
      * rewrite Nat2N.inj_succ, N.pow_succ_r' in H.
        apply N.Div0.div_lt_upper_bound. lia.
Qed.

Lemma itoa_N_value n : strconv.dec_val (strconv.itoa_N n) = n.
Proof.
  unfold strconv.dec_val, strconv.itoa_N. rewrite dec_value; [done|].
  rewrite Nat2N.inj_succ, N.pow_succ_r'.
  assert (n < 2 ^ N.of_nat (N.size_nat n))%N; [|lia].
  destruct n as [|p]; [simpl; lia|].
  pose proof (N.size_gt (N.pos p)) as Hs. simpl in *.
  assert (N.pos (Pos.size p) = N.of_nat (Pos.size_nat p)) as <-; [|done].
  clear Hs. induction p; simpl; lia.
Qed.

Lemma dec_not_nil fuel n acc : strconv.dec (S fuel) n acc <> [].
Proof.
  revert n acc; induction fuel as [|f IH]; intros n acc.
  - simpl. by destruct (n <? 10)%N.
  - change (strconv.dec (S (S f)) n acc) with
      (if (n <? 10)%N then strconv.digit_char (n mod 10) :: acc
       else strconv.dec (S f) (n / 10)%N (strconv.digit_char (n mod 10) :: acc)).
    destruct (n <? 10)%N; [done|apply IH].
Qed.

Lemma itoa_N_digits n :
  exists c s, strconv.itoa_N n = c :: s /\ forallb strconv.is_digit (c :: s) = true.
Proof.
  pose proof (dec_digits (S (N.size_nat n)) n [] eq_refl) as H.
  pose proof (dec_not_nil (N.size_nat n) n []) as Hn.
  unfold strconv.itoa_N. destruct (strconv.dec _ _ _) as [|c s]; [done|eauto].
Qed.

Lemma parse_digits_itoa n : strconv.parse_digits (strconv.itoa_N n) = Some n.
Proof.
  destruct (itoa_N_digits n) as (c & s & E & H). unfold strconv.parse_digits.
  pose proof (itoa_N_value n) as V. rewrite E in *. by rewrite H, V.
Qed.

Lemma digit_not_sign c : strconv.is_digit c = true -> c <> "-"%char /\ c <> "+"%char.
Proof. intros H. split; intros ->; vm_compute in H; discriminate. Qed.

(** A string of digits is parsed as an unsigned number. *)
Lemma Atoi_digits s n :
  strconv.parse_digits s = Some n ->
  strconv.Atoi s = if in_int64 (Z.of_N n) then Ok (Z.of_N n) else Err strconv.ErrRange.
Proof.
  intros H. unfold strconv.Atoi. destruct s as [|c s]; [discriminate|].
  assert (strconv.is_digit c = true) as [H1 H2]%digit_not_sign.
  { unfold strconv.parse_digits in H. destruct (forallb _ _) eqn:E; [|discriminate].
    simpl in E. by bool_props. }
  destruct c as [[] [] [] [] [] [] [] []]; first [by rewrite H | done].
Qed.

(** Every [int] survives [Itoa] followed by [Atoi]. *)
Lemma Atoi_Itoa z : in_int64 z = true -> strconv.Atoi (strconv.Itoa z) = Ok z.
Proof.
  intros H. unfold strconv.Itoa. destruct (z <? 0) eqn:E; bool_props.
  - simpl. rewrite parse_digits_itoa.
    rewrite Z2N.id by lia. replace (- - z) with z by lia. by rewrite H.
  - rewrite (Atoi_digits _ (Z.to_N z)) by apply parse_digits_itoa.
    rewrite Z2N.id by lia. by rewrite H.
Qed.

(** [Atoi] only yields 64-bit integers. *)
Lemma Atoi_range s z : strconv.Atoi s = Ok z -> in_int64 z = true.
Proof.
  unfold strconv.Atoi. intros H.
  repeat break_match_in H; congruence.
Qed.

(** Distinct integers have distinct decimal forms. *)
Lemma itoa_N_inj n m : strconv.itoa_N n = strconv.itoa_N m -> n = m.
Proof. intros H. by rewrite <- (itoa_N_value n), H, itoa_N_value. Qed.

Lemma Itoa_inj a b : strconv.Itoa a = strconv.Itoa b -> a = b.
Proof.
  unfold strconv.Itoa. intros H.
  destruct (itoa_N_digits (Z.to_N a)) as (ca & sa & Ea & Ha).
  destruct (itoa_N_digits (Z.to_N b)) as (cb & sb & Eb & Hb).
  simpl in Ha, Hb. bool_props.
  destruct (a <? 0) eqn:E1, (b <? 0) eqn:E2; bool_props.
  - injection H as H%itoa_N_inj. lia.
  - rewrite Eb in H. injection H as <- _. by vm_compute in H2.
  - rewrite Ea in H. injection H as -> _. by vm_compute in H0.
  - apply itoa_N_inj in H. lia.
Qed.

#[export] Hint Resolve Atoi_range Split_not_nil : go.
#[export] Hint Rewrite @TrimSuffix_app @TrimPrefix_app HasPrefix_app : go_rw.
