(* ===== verification/NetIP.v ===== *)
(** * Package net: IP addresses

    The part of Go's [net] package that RootlessKit uses: [net.ParseIP],
    [IP.To4], [IP.String], [IP.Equal], [IP.IsLoopback],
    [net.JoinHostPort] and [net.SplitHostPort].  A [net.IP] is its list of bytes; the nil IP is the
    empty list. *)
From S2P Require Import Prelude GoStrings.

Module net.

Abbreviation IP := (list Z).

Definition is_hex (c : ascii) : bool :=
  let n := nat_of_ascii c in
  ((48 <=? n) && (n <=? 57) || (65 <=? n) && (n <=? 70) || (97 <=? n) && (n <=? 102))%nat.

Definition hex_val (c : ascii) : Z :=
  let n := Z.of_nat (nat_of_ascii c) in
  if n <=? 57 then n - 48 else if n <=? 70 then n - 55 else n - 87.

(** one decimal field of a dotted address: no leading zero, at most 255 *)
Definition parse_octet (s : str) : option Z :=
  match s with
  | [] => None
  | c :: t =>
      if negb (forallb strconv.is_digit s) then None
      else if bool_decide (c = "0"%char) && negb (bool_decide (t = [])) then None
      else let v := Z.of_N (strconv.dec_val s) in
           if 255 <? v then None else Some v
  end.

Definition parseIPv4 (s : str) : option IP :=
  match strings.Split s "."%char with
  | [a; b; c; d] =>
      match parse_octet a, parse_octet b, parse_octet c, parse_octet d with
      | Some a, Some b, Some c, Some d => Some [a; b; c; d]
      | _, _, _, _ => None
      end
  | _ => None
  end.

Fixpoint span_hex (s : str) : str * str :=
  match s with
  | c :: s' => if is_hex c then let '(d, r) := span_hex s' in (c :: d, r) else ([], s)
  | [] => ([], [])
  end.

Definition hex_num (ds : str) : Z := fold_left (fun a c => 16 * a + hex_val c) ds 0.

(** The group loop of [netip.parseIPv6]: [ip] is what has been read so far,
    [ell] the position of "::" and [fuel] the number of groups still allowed. *)
Fixpoint v6_loop (fuel : nat) (ip : IP) (ell : option nat) (s : str) : option (IP * option nat) :=
  match fuel with
  | O => match s with [] => Some (ip, ell) | _ => None end
  | S f =>
      let '(ds, rest) := span_hex s in
      if bool_decide (ds = []) || (4 <? length ds)%nat then None
      else
        let ip' := ip ++ [hex_num ds / 256; hex_num ds mod 256] in
        match rest with
        | [] => Some (ip', ell)
        | "."%char :: _ =>
            if bool_decide (ell = None) && negb (bool_decide (length ip = 12%nat)) then None
            else if (16 <? length ip + 4)%nat then None
            else match parseIPv4 s with
                 | Some q => Some (ip ++ q, ell)
                 | None => None
                 end
        | ":"%char :: s' =>
            match s' with
            | [] => None
            | ":"%char :: s'' =>
                if bool_decide (ell = None) then
                  match s'' with
                  | [] => Some (ip', Some (length ip'))
                  | _ => v6_loop f ip' (Some (length ip')) s''
                  end
                else None
            | _ => v6_loop f ip' ell s'
            end
        | _ => None
        end
  end.

(** expansion of the ellipsis *)
Definition v6_finish (r : IP * option nat) : option IP :=
  let '(ip, ell) := r in
  if (length ip <? 16)%nat then
    match ell with
    | None => None
    | Some e => Some (take e ip ++ replicate (16 - length ip) 0 ++ drop e ip)
    end
  else match ell with None => Some ip | Some _ => None end.

Definition parseIPv6 (s : str) : option IP :=
  match s with
  | ":"%char :: ":"%char :: [] => Some (replicate 16 0)
  | ":"%char :: ":"%char :: s' => v6_loop 8 [] (Some 0%nat) s' ≫= v6_finish
  | _ => v6_loop 8 [] None s ≫= v6_finish
  end.

(** the 16-byte form of an IPv4 address *)
Definition v4InV6Prefix : IP := [0; 0; 0; 0; 0; 0; 0; 0; 0; 0; 255; 255].

(** [net.ParseIP]: the first of '.', ':' and '%' selects the syntax, and an
    address with a zone is not an [IP]. *)
Definition ParseIP (s : str) : option IP :=
  match find_index (fun c => bool_decide (c = "."%char) || bool_decide (c = ":"%char)
                             || bool_decide (c = "%"%char)) s ≫= fun i => s !! i with
  | Some "."%char => (fun q => v4InV6Prefix ++ q) <$> parseIPv4 s
  | Some ":"%char => if lacks "%"%char s then parseIPv6 s else None
  | _ => None
  end.

(** [IP.To4]: the 4-byte form, [None] when the address is not IPv4 *)
Definition To4 (ip : IP) : option IP :=
  if bool_decide (length ip = 4%nat) then Some ip
  else if bool_decide (length ip = 16%nat) && bool_decide (take 12 ip = v4InV6Prefix)
  then Some (drop 12 ip) else None.

Definition IPv4len : nat := 4.

Definition hex_digit (d : Z) : ascii :=
  if d <? 10 then ascii_of_nat (48 + Z.to_nat d) else ascii_of_nat (87 + Z.to_nat d).

(** lower-case hexadecimal without leading zeros, for 16-bit groups *)
Definition hex16 (v : Z) : str :=
  let ds := [hex_digit (v / 4096); hex_digit (v / 256 mod 16); hex_digit (v / 16 mod 16)] in
  let fix strip (l : str) : str :=
    match l with
    | "0"%char :: l' => strip l'
    | _ => l
    end in
  strip ds ++ [hex_digit (v mod 16)].

Fixpoint v6_groups (ip : IP) : list Z :=
  match ip with
  | a :: b :: r => (256 * a + b) :: v6_groups r
  | _ => []
  end.

Fixpoint zero_run (gs : list Z) : nat :=
  match gs with
  | 0 :: r => S (zero_run r)
  | _ => 0%nat
  end.

(** the first longest run of at least two zero groups: (start, length) *)
Definition longest_zeros (gs : list Z) : option (nat * nat) :=
  fold_left (fun best i =>
    let l := zero_run (drop i gs) in
    if (2 <=? l)%nat && match best with Some (_, l') => (l' <? l)%nat | None => true end
    then Some (i, l) else best) (seq 0 (length gs)) None.

Definition join_groups (gs : list Z) : str := strings.Join (map hex16 gs) ":".

Definition string6 (ip : IP) : str :=
  let gs := v6_groups ip in
  match longest_zeros gs with
  | None => join_groups gs
  | Some (i, l) => join_groups (take i gs) ++ "::" ++ join_groups (drop (i + l) gs)
  end.

Definition string4 (ip : IP) : str := strings.Join (map strconv.Itoa ip) ".".

(** [IP.String] (addresses of 0, 4 and 16 bytes) *)
Definition String (ip : IP) : str :=
  match ip with
  | [] => "<nil>"
  | _ => match To4 ip with Some q => string4 q | None => string6 ip end
  end.

(** [IP.Equal]: an IPv4 address equals its 16-byte form *)
Definition Equal (a b : IP) : bool :=
  match To4 a, To4 b with
  | Some x, Some y => bool_decide (x = y)
  | None, None => bool_decide (a = b)
  | _, _ => false
  end.

Definition IPv6loopback : IP := replicate 15 0 ++ [1].

(** [IP.IsLoopback] *)
Definition IsLoopback (ip : IP) : bool :=
  match To4 ip with
  | Some (a :: _) => bool_decide (a = 127)
  | Some [] => false
  | None => bool_decide (ip = IPv6loopback)
  end.

(** [net.JoinHostPort] *)
Definition JoinHostPort (host port : str) : str :=
  if lacks ":"%char host then host ++ ":" ++ port
  else "[" ++ host ++ "]:" ++ port.

(** [net.SplitHostPort] *)
Definition addrErr (why : str) : error := Extern why.
Definition missingPort : error := addrErr "missing port in address".
Definition tooManyColons : error := addrErr "too many colons in address".

(** No bracket where none is expected: [s] from the host on, [s'] after it. *)
Definition no_brackets (s s' host port : str) : result (str * str) :=
  guard? lacks "["%char s orelse addrErr "unexpected '[' in address" ;;
  guard? lacks "]"%char s' orelse addrErr "unexpected ']' in address" ;;
  Ok (host, port).

Definition SplitHostPort (hostport : str) : result (str * str) :=
  let i := strings.LastIndex hostport ":"%char in
  if i <? 0 then Err missingPort
  else
    let i := Z.to_nat i in
    let port := drop (S i) hostport in
    match hostport with
    | "["%char :: _ =>
        match find_index (fun c => bool_decide (c = "]"%char)) hostport with
        | None => Err (addrErr "missing ']' in address")
        | Some e =>
            if bool_decide (S e = length hostport) then Err missingPort
            else if bool_decide (S e = i)
            then no_brackets (drop 1 hostport) (drop (S e) hostport) (drop 1 (take e hostport)) port
            else if bool_decide (hostport !! S e = Some ":"%char) then Err tooManyColons else Err missingPort
        end
    | _ =>
        let host := take i hostport in
        if lacks ":"%char host then no_brackets hostport hostport host port else Err tooManyColons
    end.

End net.

Example SplitHostPort_examples :
  map net.SplitHostPort [lit "10.0.2.100:80"; lit "[::1]:8080"; lit "::1:80"; lit "[::1]"; lit "localhost"] =
  [Ok (lit "10.0.2.100", lit "80"); Ok (lit "::1", lit "8080"); Err net.tooManyColons; Err net.missingPort;
   Err net.missingPort].
Proof. vm_compute. reflexivity. Qed.

(** What [JoinHostPort] writes, [SplitHostPort] reads. *)
Lemma SplitHostPort_JoinHostPort host port :
  lacks "["%char host = true -> lacks "]"%char host = true ->
  lacks ":"%char port = true -> lacks "["%char port = true -> lacks "]"%char port = true ->
  net.SplitHostPort (net.JoinHostPort host port) = Ok (host, port).
Proof.
  intros H1 H2 Pc P1 P2. unfold net.JoinHostPort. destruct (lacks ":"%char host) eqn:Hc.
  - change (lit ":" ++ port) with (":"%char :: port). unfold net.SplitHostPort. rewrite LastIndex_app by done.
    destruct (Z.ltb_spec (Z.of_nat (length host)) 0); [lia|]. rewrite Nat2Z.id.
    assert (Hb : net.no_brackets (host ++ ":"%char :: port) (host ++ ":"%char :: port) host port = Ok (host, port)).
    { unfold net.no_brackets. rewrite !lacks_app, H1, H2. simpl in *. by rewrite P1, P2. }
    assert (Ht : take (length host) (host ++ ":"%char :: port) = host) by apply take_app_length.
    assert (Hd : drop (S (length host)) (host ++ ":"%char :: port) = port).
    { rewrite <- (Nat.add_1_r (length host)), drop_app_add. done. }
    rewrite Ht, Hd, Hc, Hb. destruct host as [|c host]; [done|]. cbn [lacks forallb] in H1.
    apply andb_true_iff in H1 as [Hx _]. apply negb_true_iff, bool_decide_eq_false in Hx. clear -Hx. cbn [app].
    destruct c as [[] [] [] [] [] [] [] []]; done.
  - change (lit "[" ++ host ++ lit "]:" ++ port) with ("["%char :: host ++ "]"%char :: ":"%char :: port).
    assert (El : "["%char :: host ++ "]"%char :: ":"%char :: port =
                 ("["%char :: host ++ ["]"%char]) ++ ":"%char :: port) by (simpl; by rewrite <- app_assoc).
    assert (Ei : strings.LastIndex ("["%char :: host ++ "]"%char :: ":"%char :: port) ":"%char =
                 Z.of_nat (S (S (length host)))).
    { rewrite El, LastIndex_app by done. simpl. rewrite length_app. simpl. lia. }
    unfold net.SplitHostPort. cbv zeta. rewrite Ei.
    destruct (Z.ltb_spec (Z.of_nat (S (S (length host)))) 0); [lia|]. rewrite Nat2Z.id.
    rewrite (find_index_app_here _ ("["%char :: host) "]"%char (":"%char :: port)) by done. simpl length.
    rewrite bool_decide_eq_false_2 by (rewrite length_app; simpl; lia).
    rewrite bool_decide_eq_true_2 by (rewrite ?length_app; simpl; lia).
    simpl drop. simpl take. rewrite !drop_0, take_app_length.
    rewrite <- (Nat.add_1_r (length host)), <- (Nat.add_1_r (length host + 1)), <- Nat.add_assoc, !drop_app_add.
    unfold net.no_brackets. rewrite lacks_app, H1. simpl. by rewrite P1, P2.
Qed.

Definition mkIPv4 (a b c d : Z) : net.IP := net.v4InV6Prefix ++ [a; b; c; d].

Definition is_byte (z : Z) : bool := (0 <=? z) && (z <=? 255).

(** The bytes an address is written with. *)
Definition ip_char (c : ascii) : bool :=
  net.is_hex c || bool_decide (c = "."%char) || bool_decide (c = ":"%char).

Example ParseIP_v4 : net.ParseIP "127.0.0.1" = Some (mkIPv4 127 0 0 1).
Proof. vm_compute. reflexivity. Qed.
Example ParseIP_bad : map (fun s => net.ParseIP (lit s))
  ["127.0.0.01"; "1.2.3"; "1.2.3.256"; ""; "foo"; "fe80::1%eth0"; "1::2::3"; ":1:2"; "1:2:3:4:5:6:7::8"]%string
  = replicate 9 None.
Proof. vm_compute. reflexivity. Qed.
Example String_v6 : net.String <$> net.ParseIP "FD00:0:0:1::0:0:3" = Some (lit "fd00:0:0:1::3").
Proof. vm_compute. reflexivity. Qed.
Example String_v6' : net.String <$> net.ParseIP "::ffff:1.2.3.4" = Some (lit "1.2.3.4").
Proof. vm_compute. reflexivity. Qed.

(** ** The byte alphabet of the accepted addresses *)

Lemma parse_octet_chars s v : net.parse_octet s = Some v -> forallb ip_char s = true.
Proof.
  unfold net.parse_octet. destruct s as [|c t]; [done|].
  destruct (forallb strconv.is_digit (c :: t)) eqn:E; simpl negb; cbv iota; [|discriminate].
  intros _. rewrite forallb_forall in *. intros x Hx.
  specialize (E x Hx). clear Hx. revert x E.
  assert (forall x, implb (strconv.is_digit x) (ip_char x) = true) as H
    by (apply ascii_forall; vm_compute; reflexivity).
  intros x E. specialize (H x). by rewrite E in H.
Qed.

Lemma strings_Join_Split s c : strings.Join (strings.Split s c) [c] = s.
Proof.
  induction s as [|x s IH]; simpl; [done|]. case_bool_decide as Hx.
  - subst. pose proof (Split_not_nil s c). destruct (strings.Split s c) eqn:E; [done|].
    simpl in *. by rewrite <- IH.
  - destruct (strings.Split s c) as [|w ws] eqn:E; [by apply Split_not_nil in E|].
    destruct ws; simpl in *; by rewrite <- IH.
Qed.

Lemma parseIPv4_chars s q : net.parseIPv4 s = Some q -> forallb ip_char s = true.
Proof.
  unfold net.parseIPv4. rewrite <- (strings_Join_Split s "."%char) at 2.
  destruct (strings.Split s "."%char) as [|a [|b [|c [|d [|? ?]]]]]; try discriminate.
  destruct (net.parse_octet a) eqn:Ea, (net.parse_octet b) eqn:Eb,
    (net.parse_octet c) eqn:Ec, (net.parse_octet d) eqn:Ed; try discriminate.
  intros _. cbn [strings.Join]. rewrite !forallb_app.
  rewrite (parse_octet_chars _ _ Ea), (parse_octet_chars _ _ Eb),
    (parse_octet_chars _ _ Ec), (parse_octet_chars _ _ Ed). reflexivity.
Qed.

Lemma span_hex_spec s ds r :
  net.span_hex s = (ds, r) -> s = ds ++ r /\ forallb ip_char ds = true.
Proof.
  revert ds r; induction s as [|c s IH]; simpl; intros ds r H.
  - by injection H as <- <-.
  - destruct (net.is_hex c) eqn:E.
    + destruct (net.span_hex s) as [d r'] eqn:Es. injection H as <- <-.
      destruct (IH _ _ eq_refl) as [-> Hd]. split; [done|]. simpl. unfold ip_char at 1. by rewrite E, Hd.
    + by injection H as <- <-.
Qed.

Lemma v6_loop_chars fuel ip ell s r :
  net.v6_loop fuel ip ell s = Some r -> forallb ip_char s = true.
Proof.
  revert ip ell s; induction fuel as [|f IH]; intros ip ell s H; cbn [net.v6_loop] in H.
  - by destruct s.
  - destruct (net.span_hex s) as [ds rest] eqn:Es.
    destruct (span_hex_spec _ _ _ Es) as [Hs Hds].
    destruct (_ || _); [discriminate|].
    destruct rest as [|c s']; [rewrite Hs, forallb_app, Hds; reflexivity|].
    assert (c = "."%char \/ c = ":"%char) as [-> | ->].
    { destruct c as [[] [] [] [] [] [] [] []]; try discriminate; auto. }
    + destruct (_ && _); [discriminate|]. destruct (_ <? _)%nat; [discriminate|].
      destruct (net.parseIPv4 s) eqn:E4; [|discriminate]. by eapply parseIPv4_chars.
    + rewrite Hs, forallb_app, Hds. simpl. destruct s' as [|c' s'']; [done|].
      destruct (decide (c' = ":"%char)) as [->|Hc].
      * destruct (bool_decide _); [|discriminate].
        destruct s'' as [|c3 s3]; [done|]. apply IH in H. simpl in H |- *. exact H.
      * assert (net.v6_loop f (ip ++ [net.hex_num ds / 256; net.hex_num ds mod 256]) ell (c' :: s'') = Some r) as H'.
        { destruct c' as [[] [] [] [] [] [] [] []]; try exact H; by contradict Hc. }
        by apply IH in H'.
Qed.

Lemma parseIPv6_chars s ip : net.parseIPv6 s = Some ip -> forallb ip_char s = true.
Proof.
  assert (forall r e t, (net.v6_loop r [] e t ≫= net.v6_finish) = Some ip -> forallb ip_char t = true) as Hl.
  { intros r e t H. destruct (net.v6_loop r [] e t) eqn:E; [|discriminate]. by eapply v6_loop_chars. }
  intros H. unfold net.parseIPv6 in H.
  destruct s as [|c s]; [done|].
  destruct (decide (c = ":"%char)) as [->|Hc].
  - destruct s as [|c' s]; [by apply Hl in H|].
    destruct (decide (c' = ":"%char)) as [->|Hc'].
    + destruct s as [|c3 s]; [done|]. apply Hl in H. simpl in *. done.
    + assert ((net.v6_loop 8 [] None (":"%char :: c' :: s) ≫= net.v6_finish) = Some ip) as H'
        by (destruct c' as [[] [] [] [] [] [] [] []]; try exact H; by contradict Hc').
      by apply Hl in H'.
  - assert ((net.v6_loop 8 [] None (c :: s) ≫= net.v6_finish) = Some ip) as H'
      by (destruct c as [[] [] [] [] [] [] [] []]; try exact H; by contradict Hc).
    by apply Hl in H'.
Qed.

(** An accepted address is written with hexadecimal digits, dots and colons. *)
Lemma ParseIP_chars s ip : net.ParseIP s = Some ip -> forallb ip_char s = true.
Proof.
  unfold net.ParseIP. destruct (find_index _ s ≫= _) as [c|]; [|discriminate].
  intros H. assert (c = "."%char \/ c = ":"%char) as [-> | ->].
  { destruct c as [[] [] [] [] [] [] [] []]; try discriminate; auto. }
  - destruct (net.parseIPv4 s) eqn:E; [|discriminate]. by eapply parseIPv4_chars.
  - destruct (lacks _ s); [|discriminate]. by eapply parseIPv6_chars.
Qed.

Lemma ParseIP_not_empty s ip : net.ParseIP s = Some ip -> s <> [].
Proof. by intros H ->. Qed.

(** ** Round trip of dotted addresses *)

Definition octet_check (n : Z) : bool :=
  bool_decide (net.parse_octet (strconv.Itoa n) = Some n)
  && lacks "."%char (strconv.Itoa n)
  && lacks ":"%char (strconv.Itoa n) && lacks "%"%char (strconv.Itoa n).

Lemma octet_checked n : is_byte n = true -> octet_check n = true.
Proof.
  unfold is_byte. intros H. bool_props.
  assert (forallb octet_check (map Z.of_nat (seq 0 256)) = true) as Hall by (vm_compute; reflexivity).
  rewrite forallb_forall in Hall. apply Hall, in_map_iff.
  exists (Z.to_nat n). rewrite in_seq. lia.
Qed.

Lemma octet_facts n : is_byte n = true ->
  net.parse_octet (strconv.Itoa n) = Some n /\ lacks "."%char (strconv.Itoa n) = true
  /\ lacks ":"%char (strconv.Itoa n) = true /\ lacks "%"%char (strconv.Itoa n) = true.
Proof. intros H%octet_checked. unfold octet_check in H. bool_props. auto. Qed.

Lemma parseIPv4_string4 a b c d :
  forallb is_byte [a; b; c; d] = true -> net.parseIPv4 (net.string4 [a; b; c; d]) = Some [a; b; c; d].
Proof.
  simpl. intros H. bool_props.
  destruct (octet_facts a) as (Pa & La & _); [done|]. destruct (octet_facts b) as (Pb & Lb & _); [done|].
  destruct (octet_facts c) as (Pc & Lc & _); [done|]. destruct (octet_facts d) as (Pd & Ld & _); [done|].
  unfold net.parseIPv4, net.string4. change (lit ".") with ["."%char].
  rewrite Split_Join; [|done|simpl; by rewrite La, Lb, Lc, Ld].
  simpl map. cbv iota. by rewrite Pa, Pb, Pc, Pd.
Qed.

(** [net.ParseIP] reads back what [IP.String] prints for an IPv4 address. *)
Lemma ParseIP_string4 a b c d :
  forallb is_byte [a; b; c; d] = true ->
  net.ParseIP (net.string4 [a; b; c; d]) = Some (mkIPv4 a b c d).
Proof.
  intros H. unfold net.ParseIP.
  assert (exists t, net.string4 [a; b; c; d] = strconv.Itoa a ++ "."%char :: t) as [t Ht] by (by eexists).
  pose proof (parseIPv4_string4 _ _ _ _ H) as Hp. rewrite Ht in *.
  simpl in H. bool_props. destruct (octet_facts a) as (_ & L1 & L2 & L3); [done|].
  rewrite find_index_app_here; [|apply forallb_forall|by rewrite bool_decide_eq_true_2].
  - cbn [mbind option_bind]. rewrite list_lookup_middle by done. by rewrite Hp.
  - intros x Hx. unfold lacks in *. rewrite forallb_forall in *.
    specialize (L1 x Hx). specialize (L2 x Hx). specialize (L3 x Hx).
    bool_props. by rewrite !bool_decide_eq_false_2.
Qed.

Lemma To4_mkIPv4 a b c d : net.To4 (mkIPv4 a b c d) = Some [a; b; c; d].
Proof. unfold net.To4, mkIPv4. simpl length. by rewrite bool_decide_eq_false_2, !bool_decide_eq_true_2. Qed.

(** *** Addresses as numbers: [binary.BigEndian] *)
Definition big_endian (b : list Z) : Z := fold_left (fun a x => 256 * a + x) b 0.

Definition be_bytes32 (v : Z) : list Z := [v / 2 ^ 24 mod 256; v / 2 ^ 16 mod 256; v / 2 ^ 8 mod 256; v mod 256].

Lemma big_endian_inj b1 b2 acc1 acc2 :
  length b1 = length b2 -> forallb is_byte b1 = true -> forallb is_byte b2 = true ->
  fold_left (fun a x => 256 * a + x) b1 acc1 = fold_left (fun a x => 256 * a + x) b2 acc2 -> acc1 = acc2 /\ b1 = b2.
Proof.
  revert b2 acc1 acc2; induction b1 as [|x b1 IH]; intros [|y b2] acc1 acc2; simpl; try discriminate; [done|].
  intros [= Hl] [Hx H1]%andb_true_iff [Hy H2]%andb_true_iff H.
  destruct (IH _ _ _ Hl H1 H2 H) as [E ->]. unfold is_byte in *. bool_props.
  assert (x = y /\ acc1 = acc2) as [-> ->] by lia. done.
Qed.

Lemma big_endian4 a b c d : big_endian [a; b; c; d] = 256 * (256 * (256 * a + b) + c) + d.
Proof. unfold big_endian. cbn [fold_left]. lia. Qed.

Lemma be_bytes32_value v : 0 <= v < 2 ^ 32 -> big_endian (be_bytes32 v) = v.
Proof.
  intros H. unfold be_bytes32. rewrite big_endian4.
  pose proof (Z.div_mod v 256). pose proof (Z.div_mod (v / 2 ^ 8) 256). pose proof (Z.div_mod (v / 2 ^ 16) 256).
  assert (v / 2 ^ 16 = v / 2 ^ 8 / 256) by (by rewrite Z.div_div).
  assert (v / 2 ^ 24 = v / 2 ^ 16 / 256) by (by rewrite Z.div_div).
  assert (v / 2 ^ 8 = v / 256) by done.
  assert (0 <= v / 2 ^ 24 < 256) by (split; [apply Z.div_pos; lia|apply Z.div_lt_upper_bound; lia]).
  rewrite (Z.mod_small (v / 2 ^ 24)) by done. lia.
Qed.

Lemma be_bytes32_bytes v : forallb is_byte (be_bytes32 v) = true.
Proof.
  unfold be_bytes32, is_byte. cbn [forallb]. rewrite !andb_true_iff, !Z.leb_le.
  pose proof (Z.mod_pos_bound (v / 2 ^ 24) 256). pose proof (Z.mod_pos_bound (v / 2 ^ 16) 256).
  pose proof (Z.mod_pos_bound (v / 2 ^ 8) 256). pose proof (Z.mod_pos_bound v 256). lia.
Qed.
