(* ===== verification/Scanner.v ===== *)
(** * Package text/scanner: the tokenizer behind [ParsePortSpec]

    [scanner.Scanner] in its default mode ([GoTokens], [GoWhitespace]): white
    space and comments are skipped, and identifiers, numbers, character,
    string and raw-string literals are single tokens.  A scanner state is the
    input that is left.  Scan errors (unterminated literals, malformed
    numbers) are only reported to stderr by the default handler, so they do
    not appear here.  Bytes above 127 count as letters. *)
From S2P Require Import Prelude GoStrings.

Module scanner.

Inductive token : Set :=
  | Ident | Int | Float | Char | TString | RawString
  | Rune (c : ascii).

#[global] Instance token_eq_dec : EqDecision token.
Proof. solve_decision. Defined.

Definition is_letter (c : ascii) : bool :=
  let n := nat_of_ascii c in
  ((65 <=? n) && (n <=? 90) || (97 <=? n) && (n <=? 122) || (128 <=? n))%nat.
Definition is_decimal : ascii -> bool := strconv.is_digit.
Definition is_hexdigit (c : ascii) : bool :=
  let n := nat_of_ascii c in
  ((48 <=? n) && (n <=? 57) || (65 <=? n) && (n <=? 70) || (97 <=? n) && (n <=? 102))%nat.
Definition is_octal (c : ascii) : bool :=
  ((48 <=? nat_of_ascii c) && (nat_of_ascii c <=? 55))%nat.
Definition is_ch (d c : ascii) : bool := bool_decide (c = d).
(** [lower(ch) == d] for a lower-case letter [d] *)
Definition lower_is (d c : ascii) : bool :=
  is_ch d c || is_ch (ascii_of_nat (nat_of_ascii d - 32)) c.

Definition is_ident_start (c : ascii) : bool := is_ch "_"%char c || is_letter c.
Definition is_ident (c : ascii) : bool := is_ident_start c || is_decimal c.

(** [GoWhitespace] *)
Definition is_white (c : ascii) : bool :=
  match nat_of_ascii c with 9 | 10 | 13 | 32 => true | _ => false end%nat.

(** advance while the current character satisfies [p] *)
Fixpoint skip_while (p : ascii -> bool) (s : str) : str :=
  match s with
  | c :: s' => if p c then skip_while p s' else s
  | [] => []
  end.

(** advance over at most [n] characters that satisfy [p] *)
Fixpoint skip_upto (n : nat) (p : ascii -> bool) (s : str) : str :=
  match n, s with
  | S n', c :: s' => if p c then skip_upto n' p s' else s
  | _, _ => s
  end.

(** [s.next()]: drop the current character; stays at the end of the input *)
Definition next (s : str) : str := tail s.
Definition cur_is (p : ascii -> bool) (s : str) : bool :=
  match s with c :: _ => p c | [] => false end.

(** [s.digits(ch, base, _)] *)
Definition digits (hex : bool) (s : str) : str :=
  skip_while (fun c => (if hex then is_hexdigit c else is_decimal c) || is_ch "_"%char c) s.

(** the exponent part of [scanNumber] *)
Definition exponent (s : str) : bool * str :=
  if cur_is (fun c => lower_is "e"%char c || lower_is "p"%char c) s then
    let s := next s in
    let s := if cur_is (fun c => is_ch "+"%char c || is_ch "-"%char c) s then next s else s in
    (true, digits false s)
  else (false, s).

(** [s.scanNumber(ch, seenDot)] at the input [s] *)
Definition scanNumber (s : str) (seenDot : bool) : token * str :=
  let '(hex, s) :=
    if seenDot then (false, s)
    else if cur_is (is_ch "0"%char) s then
      let s := next s in
      if cur_is (lower_is "x"%char) s then (true, next s)
      else if cur_is (lower_is "o"%char) s || cur_is (lower_is "b"%char) s then (false, next s)
      else (false, s)
    else (false, s) in
  let '(seenDot, s) :=
    if seenDot then (true, s)
    else
      let s := digits hex s in
      if cur_is (is_ch "."%char) s then (true, next s) else (false, s) in
  let s := if seenDot then digits hex s else s in
  let '(exp, s) := exponent s in
  (if seenDot || exp then Float else Int, s).

(** [s.scanEscape(quote)], just after the backslash *)
Definition scanEscape (quote : ascii) (s : str) : str :=
  match s with
  | [] => []
  | c :: s' =>
      if bool_decide (c ∈ ["a"; "b"; "f"; "n"; "r"; "t"; "v"; "\"; quote]%char) then s'
      else if is_octal c then skip_upto 3 is_octal s
      else if is_ch "x"%char c then skip_upto 2 is_hexdigit s'
      else if is_ch "u"%char c then skip_upto 4 is_hexdigit s'
      else if is_ch "U"%char c then skip_upto 8 is_hexdigit s'
      else s
  end.

(** [s.scanString(quote)]: the input at the closing quote, the newline or the
    end that stops the literal *)
Fixpoint scanString (fuel : nat) (quote : ascii) (s : str) : str :=
  match fuel, s with
  | S f, c :: s' =>
      if is_ch quote c || is_ch "010"%char c then s
      else if is_ch "\"%char c then scanString f quote (scanEscape quote s')
      else scanString f quote s'
  | _, _ => s
  end.

Definition scanRawString (s : str) : str := skip_while (fun c => negb (is_ch "`"%char c)) s.

(** the general comment of [s.scanComment], after "/*" *)
Fixpoint skip_general (s : str) : str :=
  match s with
  | [] => []
  | c :: s' =>
      if is_ch "*"%char c && cur_is (is_ch "/"%char) s' then next s' else skip_general s'
  end.

Definition scanComment (s : str) : str :=
  if cur_is (is_ch "/"%char) s then skip_while (fun c => negb (is_ch "010"%char c)) (next s)
  else skip_general (next s).

(** One token at [s], which does not start with white space or a comment. *)
Definition scan_token (c : ascii) (s : str) : token * str :=
  if is_ident_start c then (Ident, skip_while is_ident s)
  else if is_decimal c then scanNumber s false
  else if is_ch "034"%char c then (TString, next (scanString (length s) c (next s)))
  else if is_ch "'"%char c then (Char, next (scanString (length s) c (next s)))
  else if is_ch "."%char c then
    if cur_is is_decimal (next s) then scanNumber (next s) true else (Rune c, next s)
  else if is_ch "`"%char c then (RawString, next (scanRawString (next s)))
  else (Rune c, next s).

(** [s.Scan()] followed by [s.TokenText()]: [None] at the end of the input,
    else the token, its text and the input that is left.  [fuel] bounds the
    number of comments skipped. *)
Fixpoint Scan_fuel (fuel : nat) (s : str) : option (token * str * str) :=
  match skip_while is_white s with
  | [] => None
  | (c :: s') as s1 =>
      if is_ch "/"%char c && cur_is (fun d => is_ch "/"%char d || is_ch "*"%char d) s' then
        match fuel with
        | O => None
        | S f => Scan_fuel f (scanComment s')
        end
      else
        let '(t, r) := scan_token c s1 in
        Some (t, take (length s1 - length r) s1, r)
  end.
Definition Scan (s : str) : option (token * str * str) := Scan_fuel (length s) s.

(** [s.Init(src)]: a leading byte order mark is ignored *)
Definition Init (s : str) : str :=
  match s with
  | "239"%char :: "187"%char :: "191"%char :: s' => s'
  | _ => s
  end.

(** All the tokens of an input, with their texts. *)
Fixpoint tokens_fuel (fuel : nat) (s : str) : list (token * str) :=
  match fuel with
  | O => []
  | S f => match Scan s with
           | None => []
           | Some (t, x, r) => (t, x) :: tokens_fuel f r
           end
  end.

End scanner.

(** ** Tokens of plain text

    Text made of letters, digits and dots, up to a delimiter, is cut into
    tokens in some way, but the token texts always spell it out. *)

Definition is_plain (c : ascii) : bool :=
  scanner.is_letter c || scanner.is_decimal c || scanner.is_ch "."%char c.
(** characters that stop a token of plain text *)
Definition is_stop (c : ascii) : bool :=
  bool_decide (c ∈ [":"; "["; "]"]%char).

Definition stops (r : str) : Prop := match r with [] => True | c :: _ => is_stop c = true end.
(** [within w r s]: [s] is a position inside the plain text [w] before [r]. *)
Definition within (w r s : str) : Prop := exists x w', w = x ++ w' /\ s = w' ++ r.

Ltac byte_fact := apply ascii_forall; vm_compute; reflexivity.

Lemma stop_not_plain c : is_stop c = true -> is_plain c = false.
Proof.
  assert (forall c, implb (is_stop c) (negb (is_plain c)) = true) as H by byte_fact.
  intros E. specialize (H c). rewrite E in H. by apply negb_true_iff.
Qed.

Section plain.
Context (w r : str) (Hr : stops r).

Lemma within_refl : within w r (w ++ r).
Proof. by exists [], w. Qed.

(** Consuming a character that is no stop stays in the text. *)
Lemma within_next s (p : ascii -> bool) :
  within w r s -> scanner.cur_is p s = true -> (forall c, is_stop c = true -> p c = false) ->
  within w r (scanner.next s).
Proof.
  intros (x & w' & -> & ->) Hc Hp. destruct w' as [|c w']; simpl in *.
  - destruct r as [|c r']; [discriminate|]. simpl in Hr, Hc. by rewrite Hp in Hc.
  - exists (x ++ [c]), w'. by rewrite <- app_assoc.
Qed.

Lemma within_while s (p : ascii -> bool) :
  within w r s -> (forall c, is_stop c = true -> p c = false) ->
  within w r (scanner.skip_while p s).
Proof.
  intros (x & w' & Hx & ->) Hp. revert x Hx; induction w' as [|c w' IH]; intros x Hx; simpl in *.
  - exists x, []. split; [done|]. destruct r as [|c r']; [done|]. simpl in Hr |- *. by rewrite Hp.
  - destruct (p c); [|by exists x, (c :: w')]. apply (IH (x ++ [c])). by rewrite <- app_assoc.
Qed.
End plain.

Ltac stop_false :=
  let c := fresh "c" in let E := fresh "E" in
  intros c E;
  match goal with |- ?b = false =>
    let F := eval pattern c in b in
    match F with ?f _ =>
      let H := fresh "H" in
      assert (forall c, implb (is_stop c) (negb (f c)) = true) as H by byte_fact;
      specialize (H c); rewrite E in H; by apply negb_true_iff in H
    end
  end.

Lemma digits_plain w r s hex : stops r -> within w r s -> within w r (scanner.digits hex s).
Proof.
  intros Hr H. apply within_while; [done..|]. destruct hex; stop_false.
Qed.

Lemma exponent_plain w r s e s' :
  stops r -> within w r s -> scanner.exponent s = (e, s') -> within w r s'.
Proof.
  intros Hr H. unfold scanner.exponent. destruct (scanner.cur_is _ s) eqn:E.
  - intros [= <- <-]. apply digits_plain; [done|].
    assert (within w r (scanner.next s)) as H' by (eapply within_next; [done..|stop_false]).
    destruct (scanner.cur_is _ (scanner.next s)) eqn:E2; [|done].
    eapply within_next; [done..|stop_false].
  - by intros [= <- <-].
Qed.

Lemma scanNumber_plain w r s dot t s' :
  stops r -> within w r s -> scanner.scanNumber s dot = (t, s') -> within w r s'.
Proof.
  intros Hr H. unfold scanner.scanNumber.
  destruct (if dot then _ else _) as [hex s1] eqn:E1.
  assert (within w r s1) as H1.
  { destruct dot; [by injection E1 as <- <-|].
    destruct (scanner.cur_is (scanner.is_ch "0") s) eqn:E; [|by injection E1 as <- <-].
    assert (within w r (scanner.next s)) as Hn by (eapply within_next; [done..|stop_false]).
    destruct (scanner.cur_is (scanner.lower_is "x") (scanner.next s)) eqn:Ex.
    { injection E1 as <- <-. eapply within_next; [done..|stop_false]. }
    destruct (_ || _) eqn:Eo; injection E1 as <- <-; [|done].
    apply orb_true_iff in Eo as [Eo|Eo]; eapply within_next; try done; stop_false. }
  destruct (if dot then (true, s1) else _) as [dot' s2] eqn:E2.
  assert (within w r s2) as H2.
  { destruct dot; [by injection E2 as <- <-|].
    pose proof (digits_plain w r s1 hex Hr H1) as Hd.
    destruct (scanner.cur_is _ (scanner.digits hex s1)) eqn:E; injection E2 as <- <-; [|done].
    eapply within_next; [done..|stop_false]. }
  destruct (scanner.exponent _) as [e s3] eqn:E3. intros [= <- <-].
  eapply exponent_plain in E3; [done..|]. destruct dot'; [by apply digits_plain|done].
Qed.

(** No function of the scanner moves backwards *)
Lemma skip_while_le p s : (length (scanner.skip_while p s) <= length s)%nat.
Proof. induction s as [|c s IH]; simpl; [done|]. destruct (p c); simpl; lia. Qed.
Lemma next_le s : (length (scanner.next s) <= length s)%nat.
Proof. destruct s; simpl; lia. Qed.

Lemma exponent_le s e s' : scanner.exponent s = (e, s') -> (length s' <= length s)%nat.
Proof.
  unfold scanner.exponent, scanner.digits. intros H. repeat break_match_in H; injection H as <- <-;
    repeat first [ done | etrans; [apply skip_while_le|] | etrans; [apply next_le|] ].
Qed.

Lemma scanNumber_lt s dot t s' :
  scanner.cur_is scanner.is_decimal s = true -> scanner.scanNumber s dot = (t, s') ->
  (length s' < length s)%nat.
Proof.
  destruct s as [|c s]; [discriminate|]. simpl. intros Hc. unfold scanner.scanNumber.
  assert (forall h, (length (scanner.digits h (c :: s)) <= length s)%nat) as Hd.
  { intros h. unfold scanner.digits. simpl.
    assert (forall c, implb (scanner.is_decimal c) (scanner.is_hexdigit c) = true) as Hh by byte_fact.
    specialize (Hh c). rewrite Hc in Hh. simpl in Hh. rewrite Hh, Hc. destruct h; simpl; apply skip_while_le. }
  destruct (if dot then _ else _) as [hex s1] eqn:E1.
  assert (s1 = c :: s \/ (length s1 <= length s)%nat) as H1.
  { destruct dot; [injection E1 as <- <-; by left|].
    destruct (scanner.cur_is _ (c :: s)); [|injection E1 as <- <-; by left]. right. simpl in E1.
    repeat break_match_in E1; injection E1 as <- <-; try apply next_le; done. }
  destruct (if dot then (true, s1) else _) as [dot' s2] eqn:E2.
  assert (forall h, (length (scanner.digits h s1) <= length s)%nat) as Hd1.
  { intros h. destruct H1 as [->|H1]; [apply Hd|]. etrans; [apply skip_while_le|done]. }
  assert (forall h, (length (scanner.digits h s2) <= length s)%nat /\
          (dot' = false -> (length s2 <= length s)%nat)) as Hd2.
  { intros h. destruct dot; [injection E2 as <- <-; split; [apply Hd1|done]|].
    destruct (scanner.cur_is (scanner.is_ch ".") _); injection E2 as <- <-.
    - split; [|done]. etrans; [apply skip_while_le|]. etrans; [apply next_le|]. apply Hd1.
    - split; [|intros _; apply Hd1]. etrans; [apply skip_while_le|]. apply Hd1. }
  destruct (scanner.exponent _) as [e s3] eqn:E3. intros [= <- <-].
  apply exponent_le in E3. destruct (Hd2 hex) as [Ha Hb].
  destruct dot'; simpl; [lia|]. specialize (Hb eq_refl). lia.
Qed.

(** One [Scan] of plain text consumes a nonempty part of it. *)
Lemma Scan_plain c w r :
  stops r -> forallb is_plain (c :: w) = true ->
  exists t x w', scanner.Scan (c :: w ++ r) = Some (t, x, w' ++ r) /\
    c :: w = x ++ w' /\ x <> [] /\ (forall d, t = scanner.Rune d -> d = "."%char).
Proof.
  intros Hr Hw. unfold scanner.Scan. simpl length. cbn [scanner.Scan_fuel].
  assert (is_plain c = true) as Hc by (simpl in Hw; by bool_props).
  assert (forall c, implb (is_plain c)
    (negb (scanner.is_white c) && negb (scanner.is_ch "/" c)
     && negb (scanner.is_ch "034" c) && negb (scanner.is_ch "'" c) && negb (scanner.is_ch "`" c)
     && (scanner.is_ident_start c || scanner.is_decimal c || scanner.is_ch "." c)) = true) as Hcls by byte_fact.
  specialize (Hcls c). rewrite Hc in Hcls. simpl implb in Hcls. bool_props.
  cbn [scanner.skip_while]. rewrite H, H4. cbn [andb].
  destruct (scanner.scan_token c (c :: w ++ r)) as [t r'] eqn:Et.
  assert (within (c :: w) r r' /\ (length r' < length (c :: w ++ r))%nat /\
          (forall d, t = scanner.Rune d -> d = "."%char)) as (Hpl & Hlt & Hrune).
  { assert (within (c :: w) r (c :: w ++ r)) as Hpu by apply (within_refl (c :: w) r).
    unfold scanner.scan_token in Et.
    destruct (scanner.is_ident_start c) eqn:Ei.
    { assert (within (c :: w) r (scanner.skip_while scanner.is_ident (c :: w ++ r))) as Hs
        by (apply within_while; [done..|stop_false]).
      injection Et as <- <-. split; [exact Hs|]. split; [|done].
      simpl. unfold scanner.is_ident at 1. rewrite Ei. simpl.
      pose proof (skip_while_le scanner.is_ident (w ++ r)). lia. }
    destruct (scanner.is_decimal c) eqn:Ed.
    { split; [by eapply scanNumber_plain|]. split; [by eapply scanNumber_lt|].
      intros d ->. unfold scanner.scanNumber in Et. repeat break_match_in Et; congruence. }
    rewrite H3, H2 in Et. rewrite H1 in Et. simpl in H0. rewrite H0 in Et.
    assert (within (c :: w) r (w ++ r)) as Hpn by (by exists [c], w).
    cbn [scanner.next tail] in Et. destruct (scanner.cur_is _ (w ++ r)) eqn:Edot.
    - split; [by eapply scanNumber_plain|].
      split; [apply scanNumber_lt in Et; [simpl; lia|done]|].
      intros d ->. unfold scanner.scanNumber in Et. repeat break_match_in Et; congruence.
    - injection Et as <- <-. split; [done|]. split; [simpl; lia|].
      intros d [= ->]. unfold scanner.is_ch in H0. by bool_props. }
  destruct Hpl as (x & w' & Hx & ->).
  exists t, x, w'. split; [|split; [done|split; [|done]]].
  - assert (c :: w ++ r = x ++ w' ++ r) as Hin by (by rewrite app_assoc, <- Hx).
    rewrite Hin. rewrite take_app_length'; [done|]. rewrite length_app. lia.
  - intros ->. simpl in Hx, Hlt. rewrite <- Hx in Hlt. simpl in Hlt. lia.
Qed.

(** A delimiter is a token by itself. *)
Lemma Scan_stop c r : is_stop c = true -> scanner.Scan (c :: r) = Some (scanner.Rune c, [c], r).
Proof.
  intros H. unfold is_stop in H. bool_props.
  assert (forall x : str, take (length (c :: x) - length x) (c :: x) = [c]) as Ht.
  { intros x. replace (length (c :: x) - length x)%nat with 1%nat by (simpl; lia). done. }
  repeat (apply elem_of_cons in H as [->|H]; [
    unfold scanner.Scan; cbn [length scanner.Scan_fuel]; specialize (Ht r);
    rewrite <- Ht at 1; reflexivity|]).
  by apply elem_of_nil in H.
Qed.

Lemma Scan_nil : scanner.Scan [] = None.
Proof. reflexivity. Qed.

(** ** Termination: every [Scan] consumes input, so the fuel is enough *)

Lemma skip_upto_le n p s : (length (scanner.skip_upto n p s) <= length s)%nat.
Proof.
  revert s; induction n as [|n IH]; intros [|c s]; simpl; try lia.
  destruct (p c); simpl; [|lia]. specialize (IH s). lia.
Qed.

Lemma scanEscape_le q s : (length (scanner.scanEscape q s) <= length s)%nat.
Proof.
  destruct s as [|c s]; [done|]. unfold scanner.scanEscape.
  repeat (case_match; [first [simpl; lia
    | etrans; [apply skip_upto_le|simpl; lia] | idtac]|]); done.
Qed.

Lemma scanString_le f q s : (length (scanner.scanString f q s) <= length s)%nat.
Proof.
  revert s; induction f as [|f IH]; intros [|c s]; simpl; try lia.
  destruct (_ || _); [simpl; lia|]. destruct (scanner.is_ch _ _).
  - etrans; [apply IH|]. pose proof (scanEscape_le q s). lia.
  - etrans; [apply IH|]. lia.
Qed.

Lemma skip_general_le s : (length (scanner.skip_general s) <= length s)%nat.
Proof.
  induction s as [|c s IH]; simpl; [done|].
  destruct (_ && _); [|lia]. pose proof (next_le s). unfold scanner.next in *. lia.
Qed.

Lemma scanComment_lt s : s <> [] -> (length (scanner.scanComment s) < length s)%nat.
Proof.
  intros Hs. unfold scanner.scanComment.
  assert (length (scanner.next s) < length s)%nat by (destruct s; simpl; [done|lia]).
  destruct (scanner.cur_is _ _); [pose proof (skip_while_le (fun c => negb (scanner.is_ch "010" c)) (scanner.next s))
    | pose proof (skip_general_le (scanner.next s))]; lia.
Qed.

Lemma scan_token_lt c s t r :
  scanner.scan_token c (c :: s) = (t, r) -> (length r < length (c :: s))%nat.
Proof.
  unfold scanner.scan_token. cbn [scanner.next tail].
  destruct (scanner.is_ident_start c) eqn:Ei.
  { intros [= <- <-]. simpl. unfold scanner.is_ident at 1. rewrite Ei. simpl.
    pose proof (skip_while_le scanner.is_ident s). lia. }
  destruct (scanner.is_decimal c) eqn:Ed; [intros H; by eapply scanNumber_lt in H|].
  destruct (scanner.is_ch "034" c).
  { intros [= <- <-]. pose proof (next_le (scanner.scanString (length (c :: s)) c s)).
    pose proof (scanString_le (length (c :: s)) c s). unfold scanner.next in *. simpl in *. lia. }
  destruct (scanner.is_ch "'" c).
  { intros [= <- <-]. pose proof (next_le (scanner.scanString (length (c :: s)) c s)).
    pose proof (scanString_le (length (c :: s)) c s). unfold scanner.next in *. simpl in *. lia. }
  destruct (scanner.is_ch "." c).
  { destruct (scanner.cur_is _ s) eqn:E; [|intros [= <- <-]; simpl; lia].
    intros H. eapply scanNumber_lt in H; [simpl; lia|done]. }
  destruct (scanner.is_ch "`" c); intros [= <- <-]; simpl; [|lia].
  pose proof (next_le (scanner.scanRawString s)).
  pose proof (skip_while_le (fun c => negb (scanner.is_ch "`" c)) s).
  unfold scanner.scanRawString, scanner.next in *. lia.
Qed.

Lemma Scan_fuel_lt f s t x r : scanner.Scan_fuel f s = Some (t, x, r) -> (length r < length s)%nat.
Proof.
  revert s; induction f as [|f IH]; intros s; cbn [scanner.Scan_fuel];
    pose proof (skip_while_le scanner.is_white s) as Hle;
    destruct (scanner.skip_while scanner.is_white s) as [|c s'] eqn:Es; try done.
  all: destruct (_ && _) eqn:E; try done.
  all: try (destruct (scanner.scan_token c (c :: s')) as [t' r'] eqn:Et; intros [= <- <- <-];
            apply scan_token_lt in Et; lia).
  intros H. apply IH in H. bool_props.
  assert (s' <> []) as Hne by (by intros ->). apply scanComment_lt in Hne. simpl in Hle. lia.
Qed.

(** Every token takes at least one byte of the input. *)
Lemma Scan_lt s t x r : scanner.Scan s = Some (t, x, r) -> (length r < length s)%nat.
Proof. apply Scan_fuel_lt. Qed.

(** The comment fuel of [Scan] is enough. *)
Lemma Scan_fuel_enough f s : (length s <= f)%nat -> scanner.Scan_fuel f s = scanner.Scan s.
Proof.
  unfold scanner.Scan. intros Hf.
  enough (forall n f1 f2 s, (length s <= n)%nat -> (length s <= f1)%nat -> (length s <= f2)%nat ->
    scanner.Scan_fuel f1 s = scanner.Scan_fuel f2 s) as H by (by apply (H (length s))).
  clear. induction n as [|n IH]; intros f1 f2 s Hn H1 H2.
  { destruct s; [by destruct f1, f2|simpl in Hn; lia]. }
  pose proof (skip_while_le scanner.is_white s) as Hle.
  destruct f1 as [|f1], f2 as [|f2]; cbn [scanner.Scan_fuel];
    destruct (scanner.skip_while scanner.is_white s) as [|c s'] eqn:Es; try done;
    simpl in Hle; try lia.
  destruct (_ && _) eqn:E; [|done]. bool_props.
  assert (s' <> []) as Hne by (by intros ->). apply scanComment_lt in Hne. apply IH; lia.
Qed.
