(* ===== verification/PortSpec.v ===== *)
(** * Packages port and portutil: port specifications

    [port.Spec] and [port.Status] (pkg/port/port.go), and the parser and the
    validator of port specifications (pkg/port/portutil/portutil.go). *)
From S2P Require Import Prelude GoStrings NetIP Scanner.

Module port.

Record Spec : Set := mkSpec {
  Proto : str;
  ParentIP : str;
  ParentPort : Z;
  ChildPort : Z;
  ChildIP : str;
}.

Record Status : Set := mkStatus {
  ID : Z;
  Spec_of : Spec;
}.

#[global] Instance Spec_eq_dec : EqDecision Spec.
Proof. solve_decision. Defined.
#[global] Instance Status_eq_dec : EqDecision Status.
Proof. solve_decision. Defined.

(** What the port drivers compare to detect a conflict. *)
Definition spec_key (s : Spec) : str * str * Z := (Proto s, ParentIP s, ParentPort s).

End port.

Module portutil.
Import port.

Definition protos : list str :=
  map lit ["tcp"; "tcp4"; "tcp6"; "udp"; "udp4"; "udp6"; "sctp"; "sctp4"; "sctp6"]%string.

Definition validateProto (proto : str) : result unit :=
  if bool_decide (proto ∈ protos) then Ok tt
  else Err (Errorf "unknown proto: %q" [AStr proto]).

(** The indices into [parts]. *)
Definition parentIP : nat := 0.
Definition parentPort : nat := 1.
Definition childIP : nat := 2.
Definition childPort : nat := 3.
Definition proto : nat := 4.

(** [parts[index] += text] *)
Definition append_part (parts : list str) (index : nat) (text : str) : result (list str) :=
  match parts !! index with
  | Some p => Ok (<[index := p ++ text]> parts)
  | None => Err (Panic "index out of range")
  end.

Definition out_of_fuel : error := Panic "fuel".

(** The token loop.  [s] is the input left; [fuel] bounds the tokens. *)
Fixpoint parse_loop (fuel : nat) (portSpec s : str) (parts : list str) (index : nat)
    (delimiter : ascii) : result (list str) :=
  match scanner.Scan s with
  | None => Ok parts
  | Some (tok, text, s') =>
      match fuel with
      | O => Err out_of_fuel
      | S f =>
          if (childPort <? index)%nat
          then Err (Errorf "unexpected PortSpec string: %q" [AStr portSpec])
          else if bool_decide (tok = scanner.Rune "["%char) then
            parse_loop f portSpec s' parts index "]"%char
          else if bool_decide (tok = scanner.Rune delimiter) then
            if bool_decide (delimiter = "]"%char) then
              (* skip the next token, which should be a colon delimiter *)
              match scanner.Scan s' with
              | Some (_, _, s'') => parse_loop f portSpec s'' parts (S index) ":"%char
              | None => parse_loop f portSpec [] parts (S index) ":"%char
              end
            else parse_loop f portSpec s' parts (S index) delimiter
          else
            parts' <-? append_part parts index text ;;
            parse_loop f portSpec s' parts' index delimiter
      end
  end.

(** [parts[i]], empty when out of range (it never is: [parts] has five) *)
Definition part (parts : list str) (i : nat) : str := default [] (parts !! i).

Definition ParsePortSpec (portSpec : str) : result Spec :=
  let parts := replicate 5 ([] : str) in
  let protoPos := strings.LastIndex portSpec "/"%char in
  if protoPos <? 0 then Err (Errorf "missing proto in PortSpec string: %q" [AStr portSpec])
  else
    pr <-? slice portSpec (protoPos + 1) (Z.of_nat (length portSpec)) ;;
    let parts := <[proto := pr]> parts in
    _ <-? on_err (validateProto pr) (Wrapf "invalid PortSpec string: %q: %w" [AStr portSpec]) ;;
    let portPos := strings.LastIndex portSpec ":"%char in
    if portPos <? 0 then Err (Errorf "unexpected PortSpec string: %q" [AStr portSpec])
    else
      cp <-? slice portSpec (portPos + 1) protoPos ;;
      let parts := <[childPort := cp]> parts in
      rest <-? slice portSpec 0 portPos ;;
      parts <-? parse_loop (length rest) portSpec (scanner.Init rest) parts parentIP ":"%char ;;
      if negb (bool_decide (part parts parentIP = [])) &&
         bool_decide (net.ParseIP (part parts parentIP) = None)
      then Err (Errorf "unexpected ParentIP in PortSpec string: %q" [AStr portSpec])
      else if negb (bool_decide (part parts childIP = [])) &&
              bool_decide (net.ParseIP (part parts childIP) = None)
      then Err (Errorf "unexpected ParentIP in PortSpec string: %q" [AStr portSpec])
      else
        pp <-? on_err (strconv.Atoi (part parts parentPort))
                 (Wrapf "unexpected ChildPort in PortSpec string: %q: %w" [AStr portSpec]) ;;
        cp <-? on_err (strconv.Atoi (part parts childPort))
                 (Wrapf "unexpected ParentPort in PortSpec string: %q: %w" [AStr portSpec]) ;;
        Ok (mkSpec (part parts proto) (part parts parentIP) pp cp (part parts childIP)).

(** [ValidatePortSpec]: [existing] lists the entries of the map of existing
    ports in the order the iteration visits them. *)
Definition valid_port (p : Z) : bool := negb ((p <=? 0) || (65535 <? p)).

Definition conflicts (spec : Spec) (p : Z * Status) : bool :=
  let sp := Spec_of (snd p) in
  let sameProto := bool_decide (Proto sp = Proto spec) in
  let sameParent := bool_decide (ParentIP sp = ParentIP spec) && (ParentPort sp =? ParentPort spec) in
  sameProto && sameParent.

Definition check_ip (ip : str) (msg : string) : result unit :=
  if negb (bool_decide (ip = [])) && bool_decide (net.ParseIP ip = None)
  then Err (Errorf (lit msg) [AStr ip]) else Ok tt.

Definition ValidatePortSpec (spec : Spec) (existing : list (Z * Status)) : result unit :=
  _ <-? validateProto (Proto spec) ;;
  _ <-? check_ip (ParentIP spec) "invalid ParentIP: %q" ;;
  _ <-? check_ip (ChildIP spec) "invalid ChildIP: %q" ;;
  guard? valid_port (ParentPort spec) orelse Errorf "invalid ParentPort: %q" [AInt (ParentPort spec)] ;;
  guard? valid_port (ChildPort spec) orelse Errorf "invalid ChildPort: %q" [AInt (ChildPort spec)] ;;
  match List.find (conflicts spec) existing with
  | Some (id, _) => Err (Errorf "conflict with ID %d" [AInt id])
  | None => Ok tt
  end.

End portutil.

(** The cases of the repository's own unit test. *)
Example ParsePortSpec_tests :
  map (fun s => match portutil.ParsePortSpec (lit s) with Ok sp => Some sp | Err _ => None end)
    ["127.0.0.1:8080:80/tcp"; "127.0.0.1:8080:10.0.2.100:80/tcp"; "bad";
     "127.0.0.1:8080:80/tcp,127.0.0.1:4040:40/tcp"; "8080"; "[::1]:8080:80/tcp";
     "[::1]:8080:[::2]:80/udp"]%string =
  [Some (port.mkSpec "tcp" "127.0.0.1" 8080 80 "");
   Some (port.mkSpec "tcp" "127.0.0.1" 8080 80 "10.0.2.100"); None; None; None;
   Some (port.mkSpec "tcp" "::1" 8080 80 "");
   Some (port.mkSpec "udp" "::1" 8080 80 "::2")].
Proof. vm_compute. reflexivity. Qed.

Lemma index_le (i : nat) : (i <= 3)%nat -> (portutil.childPort <? i)%nat = false.
Proof. intros H. apply Nat.ltb_ge. unfold portutil.childPort. lia. Qed.

(** ** The token loop does not depend on its fuel *)

Section parse_loop.
Context (portSpec : str).
Implicit Types (s : str) (parts : list str) (d : ascii).

Definition loop s parts index d : result (list str) :=
  portutil.parse_loop (length s) portSpec s parts index d.

Lemma parse_loop_enough f1 f2 s parts index d :
  (length s <= f1)%nat -> (length s <= f2)%nat ->
  portutil.parse_loop f1 portSpec s parts index d = portutil.parse_loop f2 portSpec s parts index d.
Proof.
  revert f2 s parts index d; induction f1 as [|f1 IH]; intros f2 s parts index d H1 H2.
  - destruct s; [by destruct f2|simpl in H1; lia].
  - destruct f2 as [|f2]; [destruct s; [done|simpl in H2; lia]|].
    cbn [portutil.parse_loop]. destruct (scanner.Scan s) as [[[tok text] s']|] eqn:E; [|done].
    apply Scan_lt in E.
    assert (forall parts index d, portutil.parse_loop f1 portSpec s' parts index d =
      portutil.parse_loop f2 portSpec s' parts index d) as H' by (intros; apply IH; lia).
    destruct (_ <? _)%nat; [done|]. destruct (bool_decide _); [apply H'|].
    destruct (bool_decide _); [destruct (bool_decide _); [|apply H']|].
    + destruct (scanner.Scan s') as [[[? ?] s'']|] eqn:E2; [apply Scan_lt in E2|];
        apply IH; simpl; lia.
    + unfold rbind. destruct (portutil.append_part _ _ _); [apply H'|done].
Qed.

Lemma loop_nil parts index d : loop [] parts index d = Ok parts.
Proof. reflexivity. Qed.

Lemma loop_eq s parts index d :
  loop s parts index d =
  match scanner.Scan s with
  | None => Ok parts
  | Some (tok, text, s') =>
      if (portutil.childPort <? index)%nat
      then Err (Errorf "unexpected PortSpec string: %q" [AStr portSpec])
      else if bool_decide (tok = scanner.Rune "["%char) then loop s' parts index "]"%char
      else if bool_decide (tok = scanner.Rune d) then
        if bool_decide (d = "]"%char) then
          match scanner.Scan s' with
          | Some (_, _, s'') => loop s'' parts (S index) ":"%char
          | None => loop [] parts (S index) ":"%char
          end
        else loop s' parts (S index) d
      else
        parts' <-? portutil.append_part parts index text ;; loop s' parts' index d
  end.
Proof.
  unfold loop at 1. destruct (length s) as [|n] eqn:Hs.
  { destruct s; [done|discriminate]. }
  cbn [portutil.parse_loop]. destruct (scanner.Scan s) as [[[tok text] s']|] eqn:E; [|done].
  apply Scan_lt in E.
  assert (forall parts index d, portutil.parse_loop n portSpec s' parts index d =
    loop s' parts index d) as H' by (intros; apply parse_loop_enough; lia).
  destruct (_ <? _)%nat; [done|]. destruct (bool_decide _); [apply H'|].
  destruct (bool_decide _); [destruct (bool_decide _); [|apply H']|].
  - destruct (scanner.Scan s') as [[[? ?] s'']|] eqn:E2; [apply Scan_lt in E2|];
      apply parse_loop_enough; simpl; lia.
  - unfold rbind. destruct (portutil.append_part _ _ _); [apply H'|done].
Qed.

(** The loop fails cleanly: it neither runs out of fuel nor indexes out of
    range. *)
Lemma loop_no_panic s parts index d why :
  length parts = 5%nat -> loop s parts index d <> Err (Panic why).
Proof.
  remember (length s) as n eqn:Hn. revert s Hn parts index d.
  induction n as [n IH] using lt_wf_ind. intros s -> parts index d Hp.
  rewrite loop_eq. destruct (scanner.Scan s) as [[[tok text] s']|] eqn:E; [|done].
  apply Scan_lt in E.
  destruct (portutil.childPort <? index)%nat eqn:Ei; [done|]. apply Nat.ltb_ge in Ei.
  case_bool_decide; [by eapply IH|]. case_bool_decide.
  - case_bool_decide; [|by eapply IH].
    destruct (scanner.Scan s') as [[[? ?] s'']|] eqn:E2; [|by rewrite loop_nil].
    apply Scan_lt in E2. eapply (IH (length s'')); [lia|done..].
  - unfold portutil.append_part.
    destruct (lookup_lt_is_Some_2 parts index) as [p Hpi]; [unfold portutil.childPort in Ei; lia|].
    rewrite Hpi. simpl. eapply IH; [done..|]. by rewrite length_insert.
Qed.

(** The loop never touches the component of the protocol. *)
Lemma loop_proto s parts index d parts' :
  length parts = 5%nat -> loop s parts index d = Ok parts' ->
  parts' !! portutil.proto = parts !! portutil.proto.
Proof.
  remember (length s) as n eqn:Hn. revert s Hn parts index d.
  induction n as [n IH] using lt_wf_ind. intros s -> parts index d Hp.
  rewrite loop_eq. destruct (scanner.Scan s) as [[[tok text] s']|] eqn:E; [|by intros [= <-]].
  apply Scan_lt in E.
  destruct (portutil.childPort <? index)%nat eqn:Ei; [done|]. apply Nat.ltb_ge in Ei.
  assert (forall parts index d, length parts = 5%nat -> loop s' parts index d = Ok parts' ->
    parts' !! portutil.proto = parts !! portutil.proto) as IH' by (intros; eapply (IH (length s')); done).
  case_bool_decide; [by apply IH'|]. case_bool_decide.
  - case_bool_decide; [|by apply IH'].
    destruct (scanner.Scan s') as [[[? ?] s'']|] eqn:E2; [|rewrite loop_nil; by intros [= <-]].
    apply Scan_lt in E2. apply (IH (length s'')); [lia|done..].
  - unfold portutil.append_part. destruct (parts !! index) as [p|]; [|done]. simpl. intros HL.
    apply IH' in HL; [|by rewrite length_insert].
    rewrite HL. apply list_lookup_insert_ne. unfold portutil.childPort, portutil.proto in *. lia.
Qed.

(** Text that a component may contain under the delimiter [d]. *)
Definition text_char d (c : ascii) : bool :=
  is_plain c || (bool_decide (c = ":"%char) && bool_decide (d = "]"%char)).

Lemma plain_prefix (w : str) :
  exists p q, w = p ++ q /\ forallb is_plain p = true /\
    match q with [] => True | c :: _ => is_plain c = false end.
Proof.
  induction w as [|c w (p & q & -> & Hp & Hq)].
  - by exists [], [].
  - destruct (is_plain c) eqn:E.
    + exists (c :: p), q. simpl. by rewrite E.
    + by exists [], (c :: p ++ q).
Qed.

Lemma append_part_app parts index t1 t2 p1 :
  portutil.append_part parts index t1 = Ok p1 ->
  portutil.append_part p1 index t2 = portutil.append_part parts index (t1 ++ t2).
Proof.
  unfold portutil.append_part. destruct (parts !! index) as [p|] eqn:E; [|discriminate].
  intros [= <-]. rewrite list_lookup_insert_eq by (by eapply lookup_lt_Some).
  by rewrite list_insert_insert_eq, app_assoc.
Qed.

(** One token takes a nonempty part of component text, and is no delimiter. *)
Lemma Scan_text c w r d :
  forallb (text_char d) (c :: w) = true -> stops r -> d = ":"%char \/ d = "]"%char ->
  exists t x w', scanner.Scan ((c :: w) ++ r) = Some (t, x, w' ++ r) /\
    c :: w = x ++ w' /\ x <> [] /\ t <> scanner.Rune "["%char /\ t <> scanner.Rune d.
Proof.
  intros Hw Hr Hd. simpl in Hw. apply andb_true_iff in Hw as [Hc Hw].
  destruct (is_plain c) eqn:Epl.
  - destruct (plain_prefix w) as (q1 & q2 & -> & Hq1 & Hq2).
    destruct (Scan_plain c q1 (q2 ++ r)) as (t & x & w' & HS & Hx & Hxn & Hrune).
    + destruct q2 as [|c2 q2]; [done|]. simpl. rewrite forallb_app in Hw.
      simpl in Hw. unfold text_char at 2 in Hw. rewrite Hq2 in Hw. bool_props. simpl in H0. bool_props. by subst.
    + simpl. by rewrite Epl.
    + exists t, x, (w' ++ q2). rewrite <- app_assoc. change ((c :: q1 ++ q2) ++ r) with (c :: (q1 ++ q2) ++ r). rewrite <- app_assoc. split; [exact HS|].
      split; [by rewrite app_assoc, <- Hx|]. split; [done|].
      split; intros Ht; specialize (Hrune _ Ht); [discriminate|].
      subst d. by destruct Hd.
  - unfold text_char in Hc. rewrite Epl in Hc. simpl in Hc. bool_props. subst.
    exists (scanner.Rune ":"%char), [":"%char], w. split; [by apply Scan_stop|]. done.
Qed.

(** A run of component text is appended to the current component. *)
Lemma loop_text w r parts index d :
  forallb (text_char d) w = true -> stops r -> d = ":"%char \/ d = "]"%char ->
  (index <= 3)%nat -> length parts = 5%nat ->
  loop (w ++ r) parts index d =
  (parts' <-? portutil.append_part parts index w ;; loop r parts' index d).
Proof.
  remember (length w) as n eqn:Hn. revert w Hn parts.
  induction n as [n IH] using lt_wf_ind. intros w -> parts Hw Hr Hd Hi Hp.
  destruct (lookup_lt_is_Some_2 parts index) as [p Hpx]; [lia|].
  destruct w as [|c w].
  { unfold portutil.append_part. rewrite Hpx. simpl. by rewrite app_nil_r, list_insert_id. }
  destruct (Scan_text c w r d Hw Hr Hd) as (t & x & w' & HS & Hx & Hxn & Ht1 & Ht2).
  rewrite loop_eq, HS.
  rewrite index_le by done.
  rewrite !bool_decide_eq_false_2 by done.
  destruct (portutil.append_part parts index x) as [p1|e] eqn:Ep;
    [|unfold portutil.append_part in Ep; rewrite Hpx in Ep; discriminate].
  rewrite Hx, <- (append_part_app _ _ _ _ _ Ep). cbn [rbind].
  assert (length p1 = 5%nat) as Hp1.
  { unfold portutil.append_part in Ep. rewrite Hpx in Ep. injection Ep as <-. by rewrite length_insert. }
  apply (f_equal length) in Hx as Hl. rewrite length_app in Hl.
  assert (length x <> 0%nat) by (by destruct x).
  eapply (IH (length w')); try done; [simpl in *; lia|].
  rewrite Hx, forallb_app in Hw. by bool_props.
Qed.

(** A colon closes a component; brackets switch the delimiter. *)
Lemma loop_colon r parts index :
  (index <= 3)%nat -> loop (":"%char :: r) parts index ":"%char = loop r parts (S index) ":"%char.
Proof.
  intros Hi. rewrite loop_eq, Scan_stop by done.
  rewrite index_le by done.
  reflexivity.
Qed.

Lemma loop_open r parts index d :
  (index <= 3)%nat -> loop ("["%char :: r) parts index d = loop r parts index "]"%char.
Proof.
  intros Hi. rewrite loop_eq, Scan_stop by done.
  rewrite index_le by done.
  reflexivity.
Qed.

Lemma loop_close r parts index :
  (index <= 3)%nat ->
  loop ("]"%char :: ":"%char :: r) parts index "]"%char = loop r parts (S index) ":"%char.
Proof.
  intros Hi. rewrite loop_eq, Scan_stop by done.
  rewrite index_le by done.
  cbn -[loop scanner.Scan]. by rewrite Scan_stop.
Qed.
End parse_loop.

(** ** Rendering a specification *)

(** IPv6 addresses are written in square brackets. *)
Definition render_ip (ip : str) : str :=
  if lacks ":"%char ip then ip else "[" ++ ip ++ "]".

Definition render_spec (s : port.Spec) : str :=
  render_ip (port.ParentIP s) ++ ":" ++ strconv.Itoa (port.ParentPort s)
  ++ (if bool_decide (port.ChildIP s = []) then [] else ":" ++ render_ip (port.ChildIP s))
  ++ ":" ++ strconv.Itoa (port.ChildPort s) ++ "/" ++ port.Proto s.

(** An address the parser accepts: empty, or one that [net.ParseIP] reads. *)
Definition ip_ok (ip : str) : bool := bool_decide (ip = []) || negb (bool_decide (net.ParseIP ip = None)).

Lemma ip_ok_chars ip : ip_ok ip = true -> forallb ip_char ip = true.
Proof.
  unfold ip_ok. intros [H|H]%orb_true_iff; bool_props; [by subst|].
  destruct (net.ParseIP ip) eqn:E; [by eapply ParseIP_chars|done].
Qed.

Lemma ip_chars_text ip d :
  forallb ip_char ip = true -> (lacks ":"%char ip = true \/ d = "]"%char) ->
  forallb (text_char d) ip = true.
Proof.
  intros H Hd. rewrite forallb_forall in *. intros c Hc. specialize (H c Hc).
  assert (forall c, implb (ip_char c) (is_plain c || bool_decide (c = ":"%char)) = true) as Hb by byte_fact.
  specialize (Hb c). rewrite H in Hb. simpl in Hb. unfold text_char.
  destruct (is_plain c); [done|]. simpl in *. rewrite Hb. simpl.
  destruct Hd as [Hl| ->]; [|by rewrite bool_decide_eq_true_2].
  unfold lacks in Hl. rewrite forallb_forall in Hl. specialize (Hl c Hc). by rewrite Hb in Hl.
Qed.

Lemma itoa_digits z : 0 <= z -> forallb strconv.is_digit (strconv.Itoa z) = true.
Proof.
  intros Hz. unfold strconv.Itoa. destruct (Z.ltb_spec z 0); [lia|].
  destruct (itoa_N_digits (Z.to_N z)) as (c & s & -> & Hd). exact Hd.
Qed.

Lemma digits_text s d : forallb strconv.is_digit s = true -> forallb (text_char d) s = true.
Proof.
  intros H. rewrite forallb_forall in *. intros c Hc. specialize (H c Hc).
  unfold text_char, is_plain. unfold scanner.is_decimal. by rewrite H, orb_true_r.
Qed.

Lemma digits_lack s c : strconv.is_digit c = false -> forallb strconv.is_digit s = true -> lacks c s = true.
Proof.
  intros Hc H. unfold lacks. rewrite forallb_forall in *. intros x Hx. specialize (H x Hx).
  apply negb_true_iff, bool_decide_eq_false_2. intros ->. by rewrite H in Hc.
Qed.

(** ** The shape of the parser's inputs *)

Lemma proto_facts p : p ∈ portutil.protos -> lacks "/"%char p = true /\ lacks ":"%char p = true.
Proof.
  assert (Forall (fun p => lacks "/"%char p = true /\ lacks ":"%char p = true) portutil.protos) as H
    by (repeat constructor).
  rewrite Forall_forall in H. apply H.
Qed.

Lemma validateProto_ok p : portutil.validateProto p = Ok tt <-> p ∈ portutil.protos.
Proof. unfold portutil.validateProto. case_bool_decide; split; done. Qed.

(** What [ParsePortSpec] does with the components it has cut out. *)
Definition finish (portSpec : str) (parts : list str) : result port.Spec :=
  if negb (ip_ok (portutil.part parts 0)) || negb (ip_ok (portutil.part parts 2))
  then Err (Errorf "unexpected ParentIP in PortSpec string: %q" [AStr portSpec])
  else
    pp <-? on_err (strconv.Atoi (portutil.part parts 1))
             (Wrapf "unexpected ChildPort in PortSpec string: %q: %w" [AStr portSpec]) ;;
    cp <-? on_err (strconv.Atoi (portutil.part parts 3))
             (Wrapf "unexpected ParentPort in PortSpec string: %q: %w" [AStr portSpec]) ;;
    Ok (port.mkSpec (portutil.part parts 4) (portutil.part parts 0) pp cp (portutil.part parts 2)).

Lemma finish_eq (parts : list str) k1 k2 :
  (if negb (bool_decide (portutil.part parts 0 = [])) &&
      bool_decide (net.ParseIP (portutil.part parts 0) = None) then Err k1
   else if negb (bool_decide (portutil.part parts 2 = [])) &&
      bool_decide (net.ParseIP (portutil.part parts 2) = None) then Err k1 else k2 : result port.Spec) =
  if negb (ip_ok (portutil.part parts 0)) || negb (ip_ok (portutil.part parts 2)) then Err k1 else k2.
Proof.
  unfold ip_ok. destruct (bool_decide (portutil.part parts 0 = [])), (bool_decide (portutil.part parts 2 = [])),
    (bool_decide (net.ParseIP (portutil.part parts 0) = None)),
    (bool_decide (net.ParseIP (portutil.part parts 2) = None)); reflexivity.
Qed.

Lemma Init_le s : (length (scanner.Init s) <= length s)%nat.
Proof.
  unfold scanner.Init. repeat case_match; subst; simpl; lia.
Qed.

(** An input [body:cp/proto] is parsed by running the loop on [body]. *)
Lemma ParsePortSpec_shape body cp proto :
  proto ∈ portutil.protos -> lacks ":"%char cp = true ->
  let portSpec := body ++ ":" ++ cp ++ "/" ++ proto in
  portutil.ParsePortSpec portSpec =
  (parts <-? loop portSpec (scanner.Init body) [[]; []; []; cp; proto] 0 ":"%char ;;
   finish portSpec parts).
Proof.
  intros Hp Hc portSpec. destruct (proto_facts _ Hp) as [Hs Hcol].
  unfold portutil.ParsePortSpec.
  assert (portSpec = (body ++ ":"%char :: cp) ++ "/"%char :: proto) as E1
    by (unfold portSpec; by rewrite <- app_assoc).
  assert (strings.LastIndex portSpec "/"%char = Z.of_nat (length body + 1 + length cp)) as Hsl.
  { rewrite E1, LastIndex_app by done. rewrite length_app. simpl. lia. }
  assert (strings.LastIndex portSpec ":"%char = Z.of_nat (length body)) as Hco.
  { unfold portSpec. change (body ++ ":" ++ cp ++ "/" ++ proto) with (body ++ ":"%char :: (cp ++ "/"%char :: proto)).
    apply LastIndex_app. rewrite lacks_app, Hc. simpl. by rewrite Hcol. }
  rewrite Hsl, Hco.
  destruct (Z.ltb_spec (Z.of_nat (length body + 1 + length cp)) 0); [lia|].
  assert (slice portSpec (Z.of_nat (length body + 1 + length cp) + 1) (Z.of_nat (length portSpec)) = Ok proto) as ->.
  { pose proof (slice_app (body ++ ":"%char :: cp ++ ["/"%char]) proto []) as S.
    rewrite app_nil_r in S. replace ((body ++ ":"%char :: cp ++ ["/"%char]) ++ proto) with portSpec in S
      by (unfold portSpec; rewrite <- app_assoc; simpl; by rewrite <- app_assoc).
    rewrite <- S. f_equal; [|f_equal]; unfold portSpec; rewrite !length_app; simpl; rewrite ?length_app; simpl; lia. }
  cbn [rbind]. rewrite (proj2 (validateProto_ok proto)) by done. cbn [rbind on_err].
  destruct (Z.ltb_spec (Z.of_nat (length body)) 0); [lia|].
  assert (slice portSpec (Z.of_nat (length body) + 1) (Z.of_nat (length body + 1 + length cp)) = Ok cp) as ->.
  { pose proof (slice_app (body ++ [":"%char]) cp ("/" ++ proto)) as S.
    rewrite <- app_assoc in S. rewrite <- S. f_equal; rewrite length_app; simpl; lia. }
  cbn [rbind].
  assert (slice portSpec 0 (Z.of_nat (length body)) = Ok body) as ->.
  { apply (slice_app [] body (":" ++ cp ++ "/" ++ proto)). }
  cbn [rbind]. unfold loop.
  rewrite (parse_loop_enough portSpec (length body) (length (scanner.Init body))) by (first [apply Init_le | done]).
  change (<[portutil.childPort:=cp]> (<[portutil.proto:=proto]> (replicate 5 []))) with [[]; []; []; cp; proto].
  destruct (portutil.parse_loop _ _ _ _ _ _) as [parts|e]; [|done]. cbn [rbind].
  change portutil.parentIP with 0%nat. change portutil.childIP with 2%nat. apply finish_eq.
Qed.

(** ** Round trip: rendering and parsing a specification *)

Section components.
Context (portSpec : str) (parts : list str) (index : nat) (Hi : (index <= 3)%nat)
  (Hp : length parts = 5%nat) (He : parts !! index = Some []).

Lemma append_empty text : portutil.append_part parts index text = Ok (<[index := text]> parts).
Proof. unfold portutil.append_part. by rewrite He. Qed.

(** An address component, bracketed or not, followed by a colon... *)
Lemma loop_ip ip r :
  forallb ip_char ip = true ->
  loop portSpec (render_ip ip ++ ":"%char :: r) parts index ":"%char =
  loop portSpec r (<[index := ip]> parts) (S index) ":"%char.
Proof.
  intros Hip. unfold render_ip. destruct (lacks ":"%char ip) eqn:El.
  - rewrite loop_text; try done; [|apply ip_chars_text; auto|by left].
    rewrite append_empty. cbn [rbind]. by rewrite loop_colon.
  - change ((("[" ++ ip ++ "]") ++ ":"%char :: r)) with ("["%char :: (ip ++ ["]"%char]) ++ ":"%char :: r).
    rewrite <- app_assoc. rewrite loop_open by done. simpl app.
    rewrite loop_text; try done; [|apply ip_chars_text; auto|by right].
    rewrite append_empty. cbn [rbind]. by rewrite loop_close.
Qed.

(** ... or at the end of the text. *)
Lemma loop_ip_end ip :
  forallb ip_char ip = true ->
  loop portSpec (render_ip ip) parts index ":"%char = Ok (<[index := ip]> parts).
Proof.
  intros Hip. unfold render_ip. destruct (lacks ":"%char ip) eqn:El.
  - rewrite <- (app_nil_r ip) at 1. rewrite loop_text; try done; [|apply ip_chars_text; auto|by left].
    rewrite append_empty. cbn [rbind]. by rewrite loop_nil.
  - change ("[" ++ ip ++ "]") with ("["%char :: ip ++ ["]"%char]).
    rewrite loop_open by done.
    rewrite loop_text; try done; [|apply ip_chars_text; auto|by right].
    rewrite append_empty. cbn [rbind]. rewrite loop_eq, Scan_stop by done. rewrite index_le by done.
    reflexivity.
Qed.

(** A number, followed by a colon or at the end. *)
Lemma loop_num ds r :
  forallb strconv.is_digit ds = true -> stops r ->
  loop portSpec (ds ++ r) parts index ":"%char =
  loop portSpec r (<[index := ds]> parts) index ":"%char.
Proof.
  intros Hd Hr. rewrite loop_text; try done; [|by apply digits_text|by left].
  by rewrite append_empty.
Qed.
End components.

Definition ascii7 (c : ascii) : bool := (nat_of_ascii c <? 128)%nat.

Lemma Init_id s : forallb ascii7 s = true -> scanner.Init s = s.
Proof.
  destruct s as [|c s]; [done|]. simpl. intros [Hc _]%andb_true_iff.
  unfold scanner.Init. destruct c as [[] [] [] [] [] [] [] []]; done.
Qed.

Lemma ascii7_weaken (p : ascii -> bool) s :
  (forall c, implb (p c) (ascii7 c) = true) -> forallb p s = true -> forallb ascii7 s = true.
Proof.
  intros Hb H. rewrite forallb_forall in *. intros c Hc. specialize (H c Hc). specialize (Hb c).
  by rewrite H in Hb.
Qed.

Lemma render_ip_ascii7 ip : forallb ip_char ip = true -> forallb ascii7 (render_ip ip) = true.
Proof.
  intros H. assert (forallb ascii7 ip = true) as Hip by (apply (ascii7_weaken ip_char); [byte_fact|done]).
  unfold render_ip. destruct (lacks _ _); [done|]. rewrite !forallb_app. by rewrite Hip.
Qed.

Lemma digits_ascii7 s : forallb strconv.is_digit s = true -> forallb ascii7 s = true.
Proof. apply ascii7_weaken. byte_fact. Qed.

(** The text in front of the child port: the optional third component too. *)
Definition render_body (parent : str) (pport : Z) (child : str) : str :=
  render_ip parent ++ ":" ++ strconv.Itoa pport
  ++ (if bool_decide (child = []) then [] else ":" ++ render_ip child).

Lemma render_body_ascii7 parent pport child :
  forallb ip_char parent = true -> forallb ip_char child = true -> 0 <= pport ->
  forallb ascii7 (render_body parent pport child) = true.
Proof.
  intros H1 H2 H3. unfold render_body. rewrite !forallb_app, render_ip_ascii7 by done.
  rewrite (digits_ascii7 (strconv.Itoa pport)) by (by apply itoa_digits).
  case_bool_decide; [done|]. rewrite forallb_app, render_ip_ascii7; done.
Qed.

(** The components [render_body] is cut into. *)
Lemma loop_render_body portSpec parent pport child cp proto :
  forallb ip_char parent = true -> forallb ip_char child = true -> 0 <= pport ->
  loop portSpec (render_body parent pport child) [[]; []; []; cp; proto] 0 ":"%char =
  Ok [parent; strconv.Itoa pport; child; cp; proto].
Proof.
  intros H1 H2 H3. unfold render_body.
  change (":" ++ strconv.Itoa pport ++ ?r) with (":"%char :: strconv.Itoa pport ++ r).
  rewrite loop_ip by (done || lia). simpl.
  pose proof (itoa_digits _ H3). case_bool_decide as Hc.
  - subst. rewrite app_nil_r. rewrite <- (app_nil_r (strconv.Itoa pport)) at 1.
    rewrite loop_num by (done || lia). simpl. by rewrite loop_nil.
  - change (":" ++ render_ip child) with (":"%char :: render_ip child).
    rewrite loop_num by (done || lia). simpl. rewrite loop_colon by lia.
    by rewrite loop_ip_end by (done || lia).
Qed.

(** A specification that the textual format can carry. *)
Definition renderable (s : port.Spec) : Prop :=
  port.Proto s ∈ portutil.protos /\ ip_ok (port.ParentIP s) = true /\ ip_ok (port.ChildIP s) = true
  /\ 0 <= port.ParentPort s <= int_max /\ 0 <= port.ChildPort s <= int_max.

Lemma nonneg_int64 z : 0 <= z <= int_max -> in_int64 z = true.
Proof. unfold in_int64, int_min, int_max. intros H. rewrite andb_true_iff, !Z.leb_le. lia. Qed.

(** C20: [ParsePortSpec] reads back every specification from its documented
    textual form [parentIP:parentPort[:childIP]:childPort/proto], with IPv6
    addresses in brackets. *)
Theorem ParsePortSpec_render (s : port.Spec) :
  renderable s -> portutil.ParsePortSpec (render_spec s) = Ok s.
Proof.
  destruct s as [proto parent pport cport child]. unfold renderable. simpl.
  intros (Hp & Hi & Hc & Hpp & Hcp).
  pose proof (ip_ok_chars _ Hi) as Hi'. pose proof (ip_ok_chars _ Hc) as Hc'.
  assert (render_spec (port.mkSpec proto parent pport cport child) =
    render_body parent pport child ++ ":" ++ strconv.Itoa cport ++ "/" ++ proto) as ->.
  { unfold render_spec, render_body. simpl. rewrite <- !app_assoc. simpl. by rewrite <- !app_assoc. }
  rewrite ParsePortSpec_shape; [|done|apply digits_lack; [done|apply itoa_digits; lia]].
  rewrite Init_id by (apply render_body_ascii7; done || lia).
  rewrite loop_render_body by (done || lia). cbn [rbind]. unfold finish, portutil.part. simpl.
  rewrite Hi, Hc. simpl. by rewrite !Atoi_Itoa by (by apply nonneg_int64).
Qed.

Theorem ParsePortSpec_render_witness :
  renderable (port.mkSpec "udp" "::1" 8080 80 "fd00::2") /\
  portutil.ParsePortSpec "[::1]:8080:[fd00::2]:80/udp" = Ok (port.mkSpec "udp" "::1" 8080 80 "fd00::2").
Proof.
  assert (renderable (port.mkSpec "udp" "::1" 8080 80 "fd00::2")) as H.
  { unfold renderable. simpl. split; [unfold portutil.protos; simpl; set_solver|].
    split; [vm_compute; reflexivity|]. split; [vm_compute; reflexivity|].
    unfold int_max. lia. }
  split; [exact H|exact (ParsePortSpec_render _ H)].
Defined.

(** How every input that is not rejected at once is cut. *)
Lemma ParsePortSpec_cut portSpec :
  (exists e, portutil.ParsePortSpec portSpec = Err e /\ forall why, e <> Panic why) \/
  exists body cp proto, proto ∈ portutil.protos /\ lacks ":"%char cp = true /\
    portSpec = body ++ ":" ++ cp ++ "/" ++ proto.
Proof.
  unfold portutil.ParsePortSpec.
  destruct (Z.ltb_spec (strings.LastIndex portSpec "/"%char) 0) as [Hl|Hl]; [left; eauto|].
  destruct (LastIndex_split _ _ _ eq_refl Hl) as (a & proto & Ha & Hs & Hlen).
  assert (slice portSpec (strings.LastIndex portSpec "/"%char + 1) (Z.of_nat (length portSpec)) = Ok proto) as ->.
  { pose proof (slice_app (a ++ ["/"%char]) proto []) as S. rewrite app_nil_r, <- app_assoc in S.
    rewrite <- S, <- Hlen, Ha. f_equal; rewrite ?length_app; simpl; lia. }
  cbn [rbind]. destruct (portutil.validateProto proto) as [[]|e] eqn:Ev; cbn [rbind on_err]; [|left; eauto].
  destruct (Z.ltb_spec (strings.LastIndex portSpec ":"%char) 0) as [Hc|Hc]; [left; eauto|].
  right. apply validateProto_ok in Ev.
  destruct (LastIndex_split _ _ _ eq_refl Hc) as (body & rest & Hb & Hcl & Hblen).
  (* the protocol has no colon, so the last colon is before the slash *)
  assert (lacks ":"%char (a ++ "/"%char :: proto) = lacks ":"%char a) as Hla.
  { destruct (proto_facts _ Ev) as [_ Hp]. rewrite lacks_app. simpl. by rewrite Hp, andb_true_r. }
  assert (exists cp, a = body ++ ":"%char :: cp /\ rest = cp ++ "/"%char :: proto) as (cp & -> & ->).
  { rewrite Hb in Ha. apply app_eq_inv in Ha as [(k & Hk1 & Hk2)|(k & Hk1 & Hk2)].
    - exfalso. destruct k as [|x k]; [discriminate Hk2|]. injection Hk2 as <- Hk2.
      destruct (proto_facts _ Ev) as [_ Hp]. rewrite Hk2, lacks_app in Hp. simpl in Hp.
      by rewrite andb_false_r in Hp.
    - destruct k as [|x k]; [discriminate Hk2|]. injection Hk2 as <- Hk2. by exists k. }
  exists body, cp, proto. rewrite lacks_app in Hcl. bool_props.
  split; [done|]. split; [done|]. rewrite Ha. by rewrite <- app_assoc.
Qed.

(** An accepted text yields a protocol of the fixed list, addresses that
    [net.ParseIP] reads (or none), and ports that are 64-bit integers. *)
Theorem ParsePortSpec_sound (portSpec : str) (s : port.Spec) :
  portutil.ParsePortSpec portSpec = Ok s ->
  port.Proto s ∈ portutil.protos /\ ip_ok (port.ParentIP s) = true /\ ip_ok (port.ChildIP s) = true
  /\ in_int64 (port.ParentPort s) = true /\ in_int64 (port.ChildPort s) = true.
Proof.
  intros H. destruct (ParsePortSpec_cut portSpec) as [(e & He & _)|(body & cp & proto & Hp & Hc & ->)];
    [congruence|].
  rewrite ParsePortSpec_shape in H by done. inv_ok.
  apply loop_proto in E; [|done]. unfold finish in H.
  destruct (negb _ || negb _) eqn:Eip; [discriminate|]. bool_props. inv_ok. subst s. simpl.
  unfold portutil.part at 1. change 4%nat with portutil.proto. rewrite E. simpl.
  split; [exact Hp|]. split; [assumption|]. split; [assumption|]. split; eapply Atoi_range; eassumption.
Qed.

Theorem ParsePortSpec_sound_witness :
  portutil.ParsePortSpec "[::1]:8080:80/tcp6" = Ok (port.mkSpec "tcp6" "::1" 8080 80 "") /\
  ip_ok "::1" = true.
Proof.
  assert (portutil.ParsePortSpec "[::1]:8080:80/tcp6" = Ok (port.mkSpec "tcp6" "::1" 8080 80 "")) as H
    by (vm_compute; reflexivity).
  split; [exact H|]. exact (proj1 (proj2 (ParsePortSpec_sound _ _ H))).
Defined.

(** C39: no input makes [ParsePortSpec] slice or index out of range, and its
    token loop always ends. *)
Theorem ParsePortSpec_no_panic (portSpec : str) (why : str) :
  portutil.ParsePortSpec portSpec <> Err (Panic why).
Proof.
  destruct (ParsePortSpec_cut portSpec) as [(e & -> & He)|(body & cp & proto & Hp & Hc & ->)];
    [intros [= ->]; by eapply He|].
  rewrite ParsePortSpec_shape by done.
  destruct (loop _ _ _ _ _) as [parts|e] eqn:El; cbn [rbind].
  - unfold finish, on_err. repeat case_match; simpl; done.
  - intros [= ->]. by eapply loop_no_panic in El.
Qed.

(** Five address components are not rejected: an extra number between
    the child IP and the child port is glued to the end of the child port, so
    that "1.2.3.4:80:10.0.2.100:1:80/tcp" exposes the child port 801. *)
Theorem ParsePortSpec_extra_component (s : port.Spec) (extra : Z) :
  renderable s -> port.ChildIP s <> [] -> 0 <= extra ->
  portutil.ParsePortSpec
    (render_body (port.ParentIP s) (port.ParentPort s) (port.ChildIP s) ++ ":" ++ strconv.Itoa extra
     ++ ":" ++ strconv.Itoa (port.ChildPort s) ++ "/" ++ port.Proto s) =
  (cp <-? on_err (strconv.Atoi (strconv.Itoa (port.ChildPort s) ++ strconv.Itoa extra))
       (Wrapf "unexpected ParentPort in PortSpec string: %q: %w"
          [AStr (render_body (port.ParentIP s) (port.ParentPort s) (port.ChildIP s) ++ ":" ++ strconv.Itoa extra
                 ++ ":" ++ strconv.Itoa (port.ChildPort s) ++ "/" ++ port.Proto s)]) ;;
   Ok (port.mkSpec (port.Proto s) (port.ParentIP s) (port.ParentPort s) cp (port.ChildIP s))).
Proof.
  destruct s as [proto parent pport cport child]. unfold renderable. simpl.
  intros (Hp & Hi & Hc & Hpp & Hcp) Hne Hx.
  pose proof (ip_ok_chars _ Hi) as Hi'. pose proof (ip_ok_chars _ Hc) as Hc'.
  pose proof (itoa_digits _ Hx) as Hxd. pose proof (itoa_digits pport (proj1 Hpp)) as Hppd.
  set (text := render_body parent pport child ++ _).
  assert (text = (render_body parent pport child ++ ":" ++ strconv.Itoa extra) ++ ":"
    ++ strconv.Itoa cport ++ "/" ++ proto) as Htext by (unfold text; by rewrite <- app_assoc).
  rewrite Htext at 1.
  rewrite ParsePortSpec_shape; [|done|apply digits_lack; [done|apply itoa_digits; lia]].
  rewrite <- Htext. rewrite Init_id.
  2:{ rewrite !forallb_app, render_body_ascii7, (digits_ascii7 _ Hxd) by (done || lia). done. }
  unfold render_body. rewrite bool_decide_eq_false_2 by done. rewrite <- !app_assoc. simpl.
  rewrite loop_ip by (done || lia). simpl.
  rewrite loop_num by (done || lia). simpl. rewrite loop_colon by lia.
  rewrite loop_ip by (done || lia). simpl.
  rewrite <- (app_nil_r (strconv.Itoa extra)) at 1.
  rewrite loop_text by (try done; try (by left); by apply digits_text). simpl.
  unfold finish, portutil.part. simpl. rewrite Hi, Hc. simpl.
  rewrite (Atoi_Itoa pport) by (by apply nonneg_int64). reflexivity.
Qed.

Theorem ParsePortSpec_extra_component_witness :
  portutil.ParsePortSpec "1.2.3.4:80:10.0.2.100:1:80/tcp" =
  Ok (port.mkSpec "tcp" "1.2.3.4" 80 801 "10.0.2.100").
Proof.
  assert (renderable (port.mkSpec "tcp" "1.2.3.4" 80 80 "10.0.2.100")) as H.
  { unfold renderable. simpl. split; [unfold portutil.protos; simpl; set_solver|].
    split; [vm_compute; reflexivity|]. split; [vm_compute; reflexivity|]. unfold int_max. lia. }
  assert (lit "10.0.2.100" <> []) as Hc by discriminate.
  exact (ParsePortSpec_extra_component _ 1 H Hc ltac:(lia)).
Defined.

(** ** Validation *)

(** What [ValidatePortSpec] promises: a known protocol, readable addresses,
    ports between 1 and 65535, and no existing port with the same protocol,
    parent IP and parent port. *)
Definition spec_valid (s : port.Spec) : Prop :=
  port.Proto s ∈ portutil.protos /\ ip_ok (port.ParentIP s) = true /\ ip_ok (port.ChildIP s) = true
  /\ 1 <= port.ParentPort s <= 65535 /\ 1 <= port.ChildPort s <= 65535.

Definition no_conflict (s : port.Spec) (existing : list (Z * port.Status)) : Prop :=
  Forall (fun p => port.spec_key (port.Spec_of (snd p)) <> port.spec_key s) existing.

Lemma conflicts_spec s p :
  portutil.conflicts s p = true <-> port.spec_key (port.Spec_of (snd p)) = port.spec_key s.
Proof.
  unfold portutil.conflicts, port.spec_key. rewrite !andb_true_iff, !bool_decide_eq_true, Z.eqb_eq.
  split; [intros (-> & -> & ->); done|intros [= -> -> ->]; auto].
Qed.

Lemma find_none_Forall {A} (p : A -> bool) l :
  List.find p l = None <-> Forall (fun x => p x = false) l.
Proof.
  rewrite Forall_forall. split.
  - intros H x Hx. eapply find_none; [done|]. by apply list_elem_of_In.
  - intros H. destruct (List.find p l) as [x|] eqn:E; [|done].
    apply find_some in E as [Hx Hp]. apply list_elem_of_In in Hx. by rewrite H in Hp.
Qed.

Lemma no_conflict_find s existing :
  no_conflict s existing <-> List.find (portutil.conflicts s) existing = None.
Proof.
  rewrite find_none_Forall. unfold no_conflict. apply Forall_proper; [|done].
  intros p. rewrite <- conflicts_spec. destruct (portutil.conflicts s p); split; congruence.
Qed.

Lemma valid_port_spec p : portutil.valid_port p = true <-> 1 <= p <= 65535.
Proof. unfold portutil.valid_port. rewrite negb_true_iff, orb_false_iff, Z.leb_gt, Z.ltb_ge. lia. Qed.

Lemma check_ip_ok ip msg : portutil.check_ip ip msg = Ok tt <-> ip_ok ip = true.
Proof.
  unfold portutil.check_ip, ip_ok.
  destruct (bool_decide (ip = [])), (bool_decide (net.ParseIP ip = None)); simpl; split; done.
Qed.

(** C21: [ValidatePortSpec] accepts exactly the valid specifications that
    conflict with no existing port. *)
Theorem ValidatePortSpec_ok (s : port.Spec) (existing : list (Z * port.Status)) :
  portutil.ValidatePortSpec s existing = Ok tt <-> spec_valid s /\ no_conflict s existing.
Proof.
  unfold portutil.ValidatePortSpec, spec_valid. rewrite no_conflict_find. split.
  - intros H. inv_ok. destruct a, a0, a1.
    rewrite validateProto_ok in E. rewrite check_ip_ok in E0, E1.
    rewrite valid_port_spec in G, G0. destruct (List.find _ _) as [[? ?]|]; [discriminate|]. auto 10.
  - intros [(H1 & H2 & H3 & H4 & H5) ->].
    rewrite (proj2 (validateProto_ok _)) by done. cbn [rbind].
    rewrite (proj2 (check_ip_ok (port.ParentIP s) _)) by assumption. cbn [rbind].
    rewrite (proj2 (check_ip_ok (port.ChildIP s) _)) by assumption. cbn [rbind].
    rewrite (proj2 (valid_port_spec (port.ParentPort s))) by assumption.
    rewrite (proj2 (valid_port_spec (port.ChildPort s))) by assumption. reflexivity.
Qed.
