(* ===== verification/Effects.v ===== *)
(** * Programs that call the operating system

    A handler that opens sockets, runs commands or writes files is modelled as
    a program over a signature of calls: a tree that either returns or makes a
    call and goes on with its response.  [run] executes a program against an
    environment that answers every call (it may look at everything that
    happened before), and yields the result and the trace of calls and
    responses.  [always] says that a property of the trace and the result
    holds whatever the responses are. *)
From S2P Require Import Prelude.

Section programs.
Context {C : Type} {R : C -> Type}.

Inductive prog (A : Type) : Type :=
  | Ret (a : A)
  | Call (c : C) (k : R c -> prog A).
Arguments Ret {A} a.
Arguments Call {A} c k.

Definition event : Type := { c : C & R c }.
Definition ev (c : C) (r : R c) : event := existT c r.
Definition trace : Type := list event.
(** the calls of a trace, without the responses *)
Definition calls (t : trace) : list C := map (fun e => projT1 e) t.

Fixpoint bind {A B} (p : prog A) (f : A -> prog B) : prog B :=
  match p with
  | Ret a => f a
  | Call c k => Call c (fun r => bind (k r) f)
  end.

Definition call (c : C) : prog (R c) := Call c (fun r => Ret r).

(** Sequencing that stops at the first error, as [if err != nil { return err }]. *)
Definition ebind {A B} (p : prog (result A)) (f : A -> prog (result B)) : prog (result B) :=
  bind p (fun r => match r with Ok a => f a | Err e => Ret (Err e) end).

(** Execution against an environment. *)
Definition env : Type := trace -> forall c, R c.

Fixpoint run (e : env) {A} (p : prog A) (h : trace) : A * trace :=
  match p with
  | Ret a => (a, h)
  | Call c k => let r := e h c in run e (k r) (h ++ [ev c r])
  end.

(** The behaviours of a program: the traces and results it can have. *)
Fixpoint behaves {A} (p : prog A) (t : trace) (a : A) : Prop :=
  match p with
  | Ret b => t = [] /\ a = b
  | Call c k => exists r t', t = ev c r :: t' /\ behaves (k r) t' a
  end.

Fixpoint always {A} (p : prog A) (h : trace) (Q : trace -> A -> Prop) : Prop :=
  match p with
  | Ret a => Q h a
  | Call c k => forall r, always (k r) (h ++ [ev c r]) Q
  end.

Lemma bind_assoc_always {A B} (p : prog A) (f : A -> prog B) h Q :
  always (bind p f) h Q <-> always p h (fun h' a => always (f a) h' Q).
Proof.
  revert h; induction p as [a|c k IH]; intros h; simpl; [done|].
  split; intros H r; by apply IH, H.
Qed.

Lemma always_mono {A} (p : prog A) h (Q Q' : trace -> A -> Prop) :
  (forall t a, Q t a -> Q' t a) -> always p h Q -> always p h Q'.
Proof. intros HQ. revert h; induction p as [a|c k IH]; simpl; intros h Hp; eauto. Qed.

Lemma behaves_bind {A B} (p : prog A) (f : A -> prog B) t b :
  behaves (bind p f) t b -> exists t1 t2 a, t = t1 ++ t2 /\ behaves p t1 a /\ behaves (f a) t2 b.
Proof.
  revert t; induction p as [a|c k IH]; intros t; simpl.
  - intros H. by exists [], t, a.
  - intros (r & t' & -> & H). apply IH in H as (t1 & t2 & a & -> & H1 & H2).
    exists (ev c r :: t1), t2, a. split; [done|]. split; [by exists r, t1|done].
Qed.

Lemma always_behaves {A} (p : prog A) h Q :
  always p h Q <-> forall t a, behaves p t a -> Q (h ++ t) a.
Proof.
  revert h; induction p as [a|c k IH]; intros h; simpl.
  - split; [intros H t b [-> ->]; by rewrite app_nil_r|].
    intros H. rewrite <- (app_nil_r h). by apply H.
  - split.
    + intros H t b (r & t' & -> & Hb). specialize (H r). rewrite IH in H.
      specialize (H t' b Hb). by rewrite <- app_assoc in H.
    + intros H r. apply IH. intros t b Hb. rewrite <- app_assoc. apply H. by exists r, t.
Qed.

(** What always holds holds of every execution. *)
Lemma always_run {A} (e : env) (p : prog A) h Q :
  always p h Q -> Q (run e p h).2 (run e p h).1.
Proof. revert h; induction p as [a|c k IH]; simpl; intros h H; [done|]. by apply IH. Qed.

Lemma run_behaves {A} (e : env) (p : prog A) : behaves p (run e p []).2 (run e p []).1.
Proof. exact (always_run e p [] _ (proj2 (always_behaves p [] _) (fun t a Hb => Hb))). Qed.

Lemma run_bind {A B} (e : env) (p : prog A) (f : A -> prog B) h :
  run e (bind p f) h = let '(a, h') := run e p h in run e (f a) h'.
Proof. revert h; induction p as [a|c k IH]; simpl; intros h; [done|]. apply IH. Qed.

(** A trace only grows. *)
Lemma always_prefix {A} (p : prog A) h : always p h (fun t _ => h `prefix_of` t).
Proof.
  revert h; induction p as [a|c k IH]; simpl; intros h; [done|].
  intros r. eapply always_mono, IH. intros t _ [x ->]. rewrite <- app_assoc. by eexists.
Qed.
(** [returns p Q]: whatever the responses are, [Q] holds of what [p] returns
    when it returns no error. *)
Definition oks {A} (Q : A -> Prop) (r : result A) : Prop := match r with Ok a => Q a | Err _ => True end.

Fixpoint returns {A} (p : prog (result A)) (Q : A -> Prop) : Prop :=
  match p with
  | Ret r => oks Q r
  | Call c k => forall x, returns (k x) Q
  end.

Lemma returns_behaves {A} (p : prog (result A)) Q t a : returns p Q -> behaves p t (Ok a) -> Q a.
Proof.
  revert t; induction p as [r|c k IH]; intros t; simpl.
  - intros H [_ <-]. exact H.
  - intros H (x & t' & _ & Hb). by eapply IH.
Qed.

Lemma returns_mono {A} (p : prog (result A)) (Q Q' : A -> Prop) :
  returns p Q -> (forall a, Q a -> Q' a) -> returns p Q'.
Proof. intros Hp HQ. induction p as [[a|e]|c k IH]; simpl in *; auto. Qed.

Lemma returns_true {A} (p : prog (result A)) : returns p (fun _ => True).
Proof. induction p as [[a|e]|c k IH]; simpl; auto. Qed.

Lemma returns_bind {A B} (p : prog A) (f : A -> prog (result B)) Q :
  (forall a, returns (f a) Q) -> returns (bind p f) Q.
Proof. intros Hf. induction p as [a|c k IH]; simpl; auto. Qed.

Lemma returns_ebind {A B} (p : prog (result A)) (f : A -> prog (result B)) Q :
  returns p (fun a => returns (f a) Q) -> returns (ebind p f) Q.
Proof. unfold ebind. induction p as [[a|e]|c k IH]; simpl; auto. Qed.

Lemma returns_seq {A B} (p : prog (result A)) (f : A -> prog (result B)) Q :
  (forall a, returns (f a) Q) -> returns (ebind p f) Q.
Proof. intros Hf. apply returns_ebind. eapply returns_mono; [apply returns_true|auto]. Qed.

Lemma returns_ret {A B} (r : result A) (f : A -> prog (result B)) Q :
  (forall a, r = Ok a -> returns (f a) Q) -> returns (ebind (Ret r) f) Q.
Proof. intros Hf. destruct r as [a|e]; [exact (Hf a eq_refl) | exact I]. Qed.

(** [return fmt.Errorf("... %w", err)] around a call that can fail *)
Definition wrapping {A} (p : prog (result A)) (f : error -> error) : prog (result A) :=
  bind p (fun r => Ret (on_err r f)).

(** [defer d]: [d] runs after [p], whatever [p] returns. *)
Definition defer {A} (d : prog unit) (p : prog A) : prog A :=
  bind p (fun a => bind d (fun _ => Ret a)).

(** [for _, x := range l { if err := body(x); err != nil { return err } }] *)
Fixpoint for_each {X} (l : list X) (body : X -> prog (result unit)) : prog (result unit) :=
  match l with
  | [] => Ret (Ok tt)
  | x :: l' => ebind (body x) (fun _ => for_each l' body)
  end.

(** [for _, x := range l { body(x) }] when the body only logs its errors *)
Fixpoint for_all {X} (l : list X) (body : X -> prog unit) : prog unit :=
  match l with
  | [] => Ret tt
  | x :: l' => bind (body x) (fun _ => for_all l' body)
  end.

(** The program in an environment that is known to answer some calls. *)
Fixpoint answer {A} (f : forall c, option (R c)) (p : prog A) : prog A :=
  match p with
  | Ret a => Ret a
  | Call c k =>
      match f c with
      | Some r => answer f (k r)
      | None => Call c (fun r => answer f (k r))
      end
  end.

(** Every call of the program satisfies [P]. *)
Fixpoint only {A} (P : C -> bool) (p : prog A) : Prop :=
  match p with
  | Ret _ => True
  | Call c k => P c = true /\ forall r, only P (k r)
  end.

Lemma only_bind {A B} (P : C -> bool) (p : prog A) (f : A -> prog B) :
  only P p -> (forall a, only P (f a)) -> only P (bind p f).
Proof. intros Hp Hf. induction p as [a|c k IH]; simpl in *; [done|]. naive_solver. Qed.

Lemma only_ebind {A B} (P : C -> bool) (p : prog (result A)) (f : A -> prog (result B)) :
  only P p -> (forall a, only P (f a)) -> only P (ebind p f).
Proof. intros Hp Hf. apply only_bind; [done|]. intros [a|e]; [apply Hf|done]. Qed.

Lemma only_wrapping {A} (P : C -> bool) (p : prog (result A)) g :
  only P p -> only P (wrapping p g).
Proof. intros Hp. by apply only_bind. Qed.

Lemma only_for_each {X} (P : C -> bool) (l : list X) body :
  (forall x, only P (body x)) -> only P (for_each l body).
Proof. intros H. induction l; simpl; [done|]. by apply only_ebind. Qed.

Lemma only_for_all {X} (P : C -> bool) (l : list X) body :
  (forall x, only P (body x)) -> only P (for_all l body).
Proof. intros H. induction l; simpl; [done|]. by apply only_bind. Qed.

Lemma only_mono {A} (P P' : C -> bool) (p : prog A) :
  (forall c, P c = true -> P' c = true) -> only P p -> only P' p.
Proof. intros HP. induction p; simpl; naive_solver. Qed.

Lemma only_answer {A} (P : C -> bool) f (p : prog A) : only P p -> only P (answer f p).
Proof.
  induction p as [a|c k IH]; simpl; [done|]. intros [Hc Hk]. destruct (f c); simpl; [by apply IH|].
  split; [done|]. intros r. by apply IH.
Qed.

(** ** Protocols: automata that read calls and responses

    [tracks p s Q]: in every execution the protocol [d] accepts the calls of
    [p] from state [s], and [Q] holds of the result and the final state. *)
Section tracks.
Context {S : Type} (d : S -> forall c, R c -> option S).

Fixpoint tracks {A} (p : prog A) (s : S) (Q : A -> S -> Prop) : Prop :=
  match p with
  | Ret a => Q a s
  | Call c k => forall r, match d s c r with Some s' => tracks (k r) s' Q | None => False end
  end.

Fixpoint steps (s : S) (t : trace) : option S :=
  match t with
  | [] => Some s
  | existT c r :: t' => match d s c r with Some s' => steps s' t' | None => None end
  end.

Lemma tracks_bind {A B} (p : prog A) (f : A -> prog B) s Q :
  tracks (bind p f) s Q <-> tracks p s (fun a s' => tracks (f a) s' Q).
Proof.
  revert s; induction p as [a|c k IH]; intros s; simpl; [done|].
  split; intros H r; specialize (H r); destruct (d s c r); try done; by apply IH.
Qed.

Lemma tracks_mono {A} (p : prog A) s (Q Q' : A -> S -> Prop) :
  tracks p s Q -> (forall a s', Q a s' -> Q' a s') -> tracks p s Q'.
Proof.
  intros Hp HQ. revert s Hp; induction p as [a|c k IH]; simpl; intros s Hp; [eauto|].
  intros r. specialize (Hp r). destruct (d s c r); [|done]. eauto.
Qed.

Lemma tracks_only {A} (P : C -> bool) (p : prog A) s (Q : A -> S -> Prop) :
  only P p -> (forall c r, P c = true -> d s c r = Some s) -> (forall a, Q a s) -> tracks p s Q.
Proof.
  intros Hp Hd HQ. induction p as [a|c k IH]; simpl in *; [done|].
  intros r. rewrite Hd by apply Hp. apply IH, Hp.
Qed.

(** Sequencing after a part that the protocol ignores. *)
Lemma tracks_quiet_bind {A B} (P : C -> bool) (p : prog A) (f : A -> prog B) s Q :
  (forall c r, P c = true -> d s c r = Some s) -> only P p -> (forall a, tracks (f a) s Q) -> tracks (bind p f) s Q.
Proof. intros Hd Hp Hf. apply tracks_bind. by eapply tracks_only. Qed.

Lemma tracks_quiet_ebind {A B} (P : C -> bool) (p : prog (result A)) (f : A -> prog (result B)) s Q :
  (forall c r, P c = true -> d s c r = Some s) -> only P p -> (forall e, Q (Err e) s) ->
  (forall a, tracks (f a) s Q) -> tracks (ebind p f) s Q.
Proof. intros Hd Hp He Hf. apply (tracks_quiet_bind P); [done..|]. intros [a|e]; [apply Hf|apply He]. Qed.

Lemma tracks_call_bind {A} c (f : R c -> prog A) s Q :
  (forall r, match d s c r with Some s' => tracks (f r) s' Q | None => False end) -> tracks (bind (call c) f) s Q.
Proof. intros H r. specialize (H r). by destruct (d s c r). Qed.

Lemma tracks_defer {A} (P : C -> bool) (cleanup : prog unit) (p : prog A) s (Q : A -> S -> Prop) :
  (forall s c r, P c = true -> d s c r = Some s) -> only P cleanup -> tracks p s Q -> tracks (defer cleanup p) s Q.
Proof.
  intros Hd Hc Hp. apply tracks_bind. eapply tracks_mono; [exact Hp|]. intros a s' HQ.
  apply (tracks_quiet_bind P); [apply Hd|done|]. intros _. exact HQ.
Qed.

Lemma tracks_answer_bind {A B} f (p : prog A) (k : A -> prog B) s Q :
  tracks (answer f (bind p k)) s Q <-> tracks (answer f p) s (fun a s' => tracks (answer f (k a)) s' Q).
Proof.
  revert s; induction p as [a|c k' IH]; intros s; simpl; [done|]. destruct (f c) as [r|]; [apply IH|].
  simpl. split; intros H r; specialize (H r); destruct (d s c r); try done; by apply IH.
Qed.

(** What a protocol says holds of every behaviour. *)
Lemma tracks_behaves {A} (p : prog A) s Q t a :
  tracks p s Q -> behaves p t a -> exists s', steps s t = Some s' /\ Q a s'.
Proof.
  revert s t; induction p as [b|c k IH]; intros s t; simpl.
  - intros H [-> ->]. simpl. eauto.
  - intros H (r & t' & -> & Hb). specialize (H r). simpl. destruct (d s c r); [|done]. eauto.
Qed.

(** What is left of a program after the start [t] of an execution. *)
Fixpoint takes {A} (p : prog A) (t : trace) (p' : prog A) : Prop :=
  match t with
  | [] => p' = p
  | existT c r :: t' => exists k, p = Call c k /\ takes (k r) t' p'
  end.

Lemma takes_snoc {A} (p : prog A) t c (k : R c -> prog A) r :
  takes p t (Call c k) -> takes p (t ++ [ev c r]) (k r).
Proof.
  revert p; induction t as [|[c' r'] t IH]; intros p; simpl; [by intros <-; exists k|].
  intros (k' & -> & H). exists k'. split; [done|]. by apply IH.
Qed.

(** What a protocol says holds of the start of every execution. *)
Lemma tracks_takes {A} (p : prog A) s Q t p' :
  tracks p s Q -> takes p t p' -> exists s', steps s t = Some s' /\ tracks p' s' Q.
Proof.
  revert p s; induction t as [|[c r] t IH]; intros p s; simpl; [intros H ->; eauto|].
  intros H (k & -> & Ht). specialize (H r). destruct (d s c r); [|done]. eauto.
Qed.

(** A protocol that does not see the calls that are answered. *)
Lemma tracks_answer {A} f (p : prog A) s Q :
  (forall s c r, f c = Some r -> d s c r = Some s) -> tracks p s Q -> tracks (answer f p) s Q.
Proof.
  intros Hf. revert s; induction p as [a|c k IH]; intros s H; simpl in *; [done|]. destruct (f c) as [r|] eqn:E.
  - specialize (H r). rewrite (Hf _ _ _ E) in H. by apply IH.
  - intros r. specialize (H r). destruct (d s c r); [by apply IH|done].
Qed.

Lemma steps_app s t1 t2 :
  steps s (t1 ++ t2) = match steps s t1 with Some s' => steps s' t2 | None => None end.
Proof.
  revert s; induction t1 as [|[c r] t1 IH]; intros s; simpl; [done|]. by destruct (d s c r).
Qed.
End tracks.
(** ** Execution against a kernel without memory: the result and the calls *)
Fixpoint exec {A} (kern : forall c, R c) (p : prog A) : A * list C :=
  match p with
  | Ret a => (a, [])
  | Call c k => let '(a, cs) := exec kern (k (kern c)) in (a, c :: cs)
  end.

Lemma exec_bind {A B} kern (p : prog A) (f : A -> prog B) :
  exec kern (bind p f) =
  ((exec kern (f (exec kern p).1)).1, (exec kern p).2 ++ (exec kern (f (exec kern p).1)).2).
Proof.
  induction p as [a|c k IH]; simpl; [by destruct (exec kern (f a))|].
  rewrite IH. by destruct (exec kern (k (kern c))).
Qed.

Lemma exec_for_all {X} kern (l : list X) body :
  (exec kern (for_all l body)).2 = concat (map (fun x => (exec kern (body x)).2) l).
Proof. induction l as [|x l IH]; simpl; [done|]. rewrite exec_bind. simpl. by rewrite IH. Qed.

Lemma exec_for_each_ok {X} kern (l : list X) body (cs : X -> list C) :
  (forall x, x ∈ l -> exec kern (body x) = (Ok tt, cs x)) ->
  exec kern (for_each l body) = (Ok tt, concat (map cs l)).
Proof.
  induction l as [|x l IH]; intros H; [done|]. cbn [for_each map concat]. unfold ebind.
  rewrite exec_bind, H by by left. cbn [fst snd]. rewrite IH; [done|]. intros y Hy. apply H. by right.
Qed.

Lemma exec_behaves {A} kern (p : prog A) :
  exists t, behaves p t (exec kern p).1 /\ calls t = (exec kern p).2.
Proof.
  induction p as [a|c k IH]; simpl; [by exists []|]. destruct (IH (kern c)) as (t & Hb & Hc).
  exists (ev c (kern c) :: t). destruct (exec kern (k (kern c))) as [a cs]. simpl in *. split; [by eexists _, t|].
  by f_equal.
Qed.

(** The calls of a program of which every call satisfies [P]. *)
Lemma exec_only {A} kern (P : C -> bool) (p : prog A) : only P p -> Forall (fun c => P c = true) (exec kern p).2.
Proof.
  induction p as [a|c k IH]; simpl; [constructor|]. intros [Hc Hk]. specialize (IH (kern c) (Hk _)).
  destruct (exec kern (k (kern c))). by constructor.
Qed.

Lemma exec_only_omap {A X} kern (f : C -> option X) (p : prog A) :
  only (fun c => bool_decide (f c = None)) p -> omap f (exec kern p).2 = [].
Proof.
  intros H%(exec_only kern). induction H as [|c l Hc _ IH]; [done|]. apply bool_decide_eq_true_1 in Hc.
  simpl. by rewrite Hc.
Qed.
End programs.
Arguments prog {C} R A.
Arguments Ret {C R A} a.
Arguments Call {C R A} c k.
Arguments event {C} R.
Arguments trace {C} R.
Arguments env {C} R.
Arguments ev {C R} c r.
Arguments call {C R} c.

Notation "x <- p ;; q" := (bind p (fun x => q))
  (at level 100, p at next level, right associativity) : go_scope.
Notation "x <-! p ;; q" := (ebind p (fun x => q))
  (at level 100, p at next level, right associativity) : go_scope.

(** ** Two programs that run together come to an end *)

(** [q] is what [p] becomes by its next call. *)
Definition next {C A} {R : C -> Type} (p q : prog R A) : Prop :=
  match p with Call c k => exists r, q = k r | Ret _ => False end.

(** Programs are finite trees, so that every execution of a pair of them ends
    when in each step one of the two makes a call. *)
Lemma pair_ends {C1 C2 A1 A2 X} {R1 : C1 -> Type} {R2 : C2 -> Type}
    (left : X -> prog R1 A1) (right : X -> prog R2 A2) (step : X -> X -> Prop) :
  (forall x y, step x y ->
     (next (left x) (left y) /\ right y = right x) \/ (left y = left x /\ next (right x) (right y))) ->
  forall x, Acc (fun y x => step x y) x.
Proof.
  intros Hstep. cut (forall p p' z, left z = p -> right z = p' -> Acc (fun y x => step x y) z); [by intros H x; eapply H|].
  induction p as [a|c k IH]; induction p' as [a'|c' k' IH']; intros z Hl Hr; constructor; intros y Hy;
    destruct (Hstep z y Hy) as [[Hn E]|[E Hn]]; rewrite ?Hl, ?Hr in Hn; simpl in Hn.
  - destruct Hn.
  - destruct Hn.
  - destruct Hn.
  - destruct Hn as [r Hn]. apply (IH' r); [by rewrite E|exact Hn].
  - destruct Hn as [r Hn]. apply (IH r (Ret a')); [exact Hn|by rewrite E].
  - destruct Hn.
  - destruct Hn as [r Hn]. apply (IH r (Call c' k')); [exact Hn|by rewrite E].
  - destruct Hn as [r Hn]. apply (IH' r); [by rewrite E|exact Hn].
Qed.

(** The calls that some program makes in every execution, and their order. *)
Definition before {C} (a b : C -> bool) (cs : list C) : Prop :=
  forall l1 x l2, cs = l1 ++ x :: l2 -> b x = true -> exists y, y ∈ l1 /\ a y = true.

Lemma before_nil {C} (a b : C -> bool) : before a b [].
Proof. intros [|? ?] ? ? H; discriminate. Qed.

Lemma before_snoc {C} (a b : C -> bool) cs x :
  before a b cs -> (b x = true -> exists y, y ∈ cs /\ a y = true) -> before a b (cs ++ [x]).
Proof.
  intros H Hx l1 y l2 E Hy.
  destruct l2 as [|z l _] using rev_ind.
  - apply app_inj_tail in E as [<- <-]. by apply Hx.
  - rewrite app_comm_cons, app_assoc in E.
    apply app_inj_tail in E as [-> _]. by eapply H.
Qed.

Create HintDb only discriminated.

(** [only_tac] proves that a program only makes calls of some class, by
    following its structure; it unfolds the operations it meets
    that have no lemma in the hint database [only]. *)
Ltac head_of p := lazymatch p with ?f _ => head_of f | ?f => f end.
Ltac only_step :=
  lazymatch goal with
  | |- forall _, _ => intros ?
  | |- only _ (bind _ _) => apply only_bind
  | |- only _ (ebind _ _) => apply only_ebind
  | |- only _ (wrapping _ _) => apply only_wrapping
  | |- only _ (defer _ _) => apply only_bind
  | |- only _ (for_each _ _) => apply only_for_each
  | |- only _ (for_all _ _) => apply only_for_all
  | |- only _ (call _) => split; [reflexivity | intros ?; exact I]
  | |- only _ (Ret _) => exact I
  | |- only _ (match ?x with _ => _ end) => destruct x
  | |- only _ ?p => let h := head_of p in unfold h; cbv zeta
  end.
Ltac only_tac := repeat (first [solve [eauto with only] | only_step]).
