(* ===== verification/Parallel.v ===== *)
(** * Goroutines that run at the same time

    [par sched p q] runs two programs over the same calls; [sched] says which
    of the two goes on next, and when it ends the first one runs to its end
    before the second.  A result that kills the process (a goroutine that
    panics) stops both.  When what a protocol says of a part of the state also
    holds beside another part, the two programs can be looked at one by one. *)
From S2P Require Import Prelude Effects.

Section par.
Context {C : Type} {R : C -> Type} {A B D : Type} (diesA : A -> option D) (diesB : B -> option D).

(** After one of them has returned. *)
Definition after_left (a : A) (q : prog R B) : prog R (A * B + D) :=
  match diesA a with
  | Some e => Ret (inr e)
  | None => bind q (fun b => Ret (match diesB b with Some e => inr e | None => inl (a, b) end))
  end.

Fixpoint par (sched : list bool) (p : prog R A) (q : prog R B) : prog R (A * B + D) :=
  match sched with
  | [] => bind p (fun a => after_left a q)
  | true :: sched =>
      match p with
      | Call c k => Call c (fun r => par sched (k r) q)
      | Ret a => match diesA a with Some e => Ret (inr e) | None => par sched p q end
      end
  | false :: sched =>
      match q with
      | Call c k => Call c (fun r => par sched p (k r))
      | Ret b => match diesB b with Some e => Ret (inr e) | None => par sched p q end
      end
  end.

(** ** The rule for protocols whose state can be split *)
Context {S : Type} (d : S -> forall c, R c -> option S) (join : S -> S -> S) (ok : C -> bool).

Class Framed : Prop := {
  join_comm s s' : join s s' = join s' s;
  framed s f c r s' : ok c = true -> d s c r = Some s' -> d (join s f) c r = Some (join s' f);
}.
Context {FR : Framed}.

(** What a program does to its part of the state, beside another part. *)
Lemma tracks_frame {X} (p : prog R X) s f Q :
  only ok p -> tracks d p s Q -> tracks d p (join s f) (fun a s' => exists s0, s' = join s0 f /\ Q a s0).
Proof.
  revert s. induction p as [a|c k IH]; intros s; simpl; [eauto|].
  intros [Hc Hk] H r. specialize (H r). destruct (d s c r) as [s'|] eqn:E; [|done].
  rewrite (framed s f c r s') by done. by apply IH.
Qed.

Definition both (Q1 : A -> S -> Prop) (Q2 : B -> S -> Prop) (r : A * B + D) (s : S) : Prop :=
  match r with inl (a, b) => exists s1 s2, s = join s1 s2 /\ Q1 a s1 /\ Q2 b s2 | inr _ => True end.

Lemma after_left_tracks a q s1 s2 Q1 Q2 :
  only ok q -> Q1 a s1 -> tracks d q s2 Q2 -> tracks d (after_left a q) (join s1 s2) (both Q1 Q2).
Proof.
  intros Hq Ha H. unfold after_left. destruct (diesA a); [done|]. rewrite join_comm. apply tracks_bind.
  eapply tracks_mono; [by apply tracks_frame|]. intros b s (s' & -> & Hb). simpl. destruct (diesB b); [done|].
  exists s1, s'. split; [by rewrite join_comm|done].
Qed.

(** Each program by itself is enough for the two together. *)
Lemma tracks_par sched p q s1 s2 Q1 Q2 :
  only ok p -> only ok q -> tracks d p s1 Q1 -> tracks d q s2 Q2 ->
  tracks d (par sched p q) (join s1 s2) (both Q1 Q2).
Proof.
  revert p q s1 s2. induction sched as [|[] sched IH]; intros p q s1 s2 Hp Hq H1 H2; simpl.
  - apply tracks_bind. eapply tracks_mono; [by apply tracks_frame|]. intros a s (s' & -> & Ha).
    by apply after_left_tracks.
  - destruct p as [a|c k]; [destruct (diesA a); [done|by apply IH]|]. destruct Hp as [Hc Hk].
    intros r. specialize (H1 r). destruct (d s1 c r) as [s1'|] eqn:E; [|done].
    rewrite (framed s1 s2 c r s1') by done. by apply IH.
  - destruct q as [b|c k]; [destruct (diesB b); [done|by apply IH]|]. destruct Hq as [Hc Hk].
    intros r. specialize (H2 r). destruct (d s2 c r) as [s2'|] eqn:E; [|done].
    rewrite join_comm, (framed s2 s1 c r s2'), join_comm by done. by apply IH.
Qed.

Lemma par_only P sched p q : only P p -> only P q -> only P (par sched p q).
Proof.
  revert p q. induction sched as [|[] sched IH]; intros p q Hp Hq; simpl.
  - apply only_bind; [done|]. intros a. unfold after_left. destruct (diesA a); [done|]. by apply only_bind.
  - destruct p as [a|c k]; [destruct (diesA a); [done|by apply IH]|]. destruct Hp as [Hc Hk].
    split; [done|]. intros r. by apply IH.
  - destruct q as [b|c k]; [destruct (diesB b); [done|by apply IH]|]. destruct Hq as [Hc Hk].
    split; [done|]. intros r. by apply IH.
Qed.
End par.
