(* ===== verification/Framing.v ===== *)
(** * pkg/lowlevelmsgutil: JSON messages with a uint32le length header

    [encoding/json] is an interface: a codec of the message type, whose law is
    that decoding what was encoded gives the normal form of the message
    (fields that JSON cannot carry are reset); a decoder of a stream, which
    reads the value that it starts with; and a codec of numbers for the examples
    of every countable type.  A reader is the list of the
    chunks that its successive [Read] calls can deliver. *)
From S2P Require Import Prelude GoStrings.

(** ** encoding/json *)
Class JsonCodec (A : Type) : Type := {
  json_Marshal : A -> result str;
  json_Unmarshal : str -> result A;
  (** what survives the encoding *)
  json_norm : A -> A;
  json_roundtrip x b : json_Marshal x = Ok b -> json_Unmarshal b = Ok (json_norm x);
  json_not_empty x b : json_Marshal x = Ok b -> b <> [];
}.

(** [json.NewDecoder(r).Decode] of the contents of [r]: it reads the first value
    and leaves the rest. *)
Class JsonDecoder (A : Type) : Type := {
  json_Decode : str -> result A;
}.

(** JSON integers. *)
#[export] Program Instance json_int : JsonCodec Z := {|
  json_Marshal z := if in_int64 z then Ok (strconv.Itoa z) else Err (Extern "json: out of range");
  json_Unmarshal := strconv.Atoi;
  json_norm z := z;
|}.
Next Obligation. cbn. intros x b H. inv_ok. subst. by apply Atoi_Itoa. Qed.
Next Obligation.
  cbn. intros x b H ->. inv_ok. unfold strconv.Itoa in H.
  destruct (x <? 0); [discriminate|]. by apply (dec_not_nil _ _ _ H).
Qed.

(** What encoding/json documents for a struct of integers and strings: every
    value has an encoding, and white space after it is skipped.  What is read
    back is [json_norm]: bytes that are not UTF-8 are replaced. *)
Record JsonTotal (A : Type) `{JsonCodec A} : Prop := {
  f_total (x : A) : exists b, json_Marshal x = Ok b;
  f_newline (x : A) b : json_Marshal x = Ok b -> json_Unmarshal (b ++ ["010"%char]) = Ok (json_norm x);
}.

(** A decoder reads the value that was written, also when something follows it
    on a line of its own. *)
Record JsonStream (A : Type) `{JsonCodec A} `{JsonDecoder A} : Prop := {
  s_total : JsonTotal A;
  s_decode (x : A) b t : json_Marshal x = Ok b -> json_Decode b = Ok (json_norm x) /\
    json_Decode (b ++ "010"%char :: t) = Ok (json_norm x);
}.

Lemma s_roundtrip {A} `{JsonCodec A} `{JsonDecoder A} (F : JsonStream A) x :
  exists b, json_Marshal x = Ok b /\ json_Decode b = Ok (json_norm x).
Proof. destruct (f_total _ (s_total _ F) x) as [b Hb]. exists b. split; [done|]. by apply (s_decode _ F x b []). Qed.

(** A codec for any countable type: the number of a value, in decimal. *)
Section countable.
Context {A : Type} `{Countable A}.

Definition count_Marshal (x : A) : result str := Ok (strconv.itoa_N (Npos (encode x))).
Definition count_Unmarshal (s : str) : result A :=
  match strconv.parse_digits (List.filter strconv.is_digit s) with
  | Some (Npos p) => match decode p with Some x => Ok x | None => Err (Extern "json") end
  | _ => Err (Extern "json")
  end.

Lemma filter_digits d t :
  forallb strconv.is_digit d = true -> forallb (fun c => negb (strconv.is_digit c)) t = true ->
  List.filter strconv.is_digit (d ++ t) = d.
Proof using.
  clear. intros Hd Ht. induction d as [|c d IH]; simpl in *.
  - induction t as [|c t IH]; [done|]. simpl in *. apply andb_true_iff in Ht as [Hc Ht].
    destruct (strconv.is_digit c); [done|by apply IH].
  - apply andb_true_iff in Hd as [-> Hd]. by rewrite IH.
Qed.

Lemma count_roundtrip x b t :
  count_Marshal x = Ok b -> forallb (fun c => negb (strconv.is_digit c)) t = true -> count_Unmarshal (b ++ t) = Ok x.
Proof.
  intros [= <-] Ht. unfold count_Unmarshal.
  destruct (itoa_N_digits (Npos (encode x))) as (c & s & E & Hd). rewrite E, filter_digits, <- E by done.
  by rewrite parse_digits_itoa, decode_encode.
Qed.

Program Definition count_codec : JsonCodec A := {|
  json_Marshal := count_Marshal; json_Unmarshal := count_Unmarshal; json_norm x := x;
|}.
Next Obligation. intros x b Hb. rewrite <- (app_nil_r b). by apply count_roundtrip. Qed.
Next Obligation.
  intros x b [= <-]. destruct (itoa_N_digits (Npos (encode x))) as (c & s & -> & _). done.
Qed.

(** The number at the front. *)
Fixpoint leading_digits (s : str) : str :=
  match s with c :: s' => if strconv.is_digit c then c :: leading_digits s' else [] | [] => [] end.

Definition count_decoder : JsonDecoder A := {| json_Decode s := count_Unmarshal (leading_digits s) |}.

Lemma leading_digits_app d t :
  forallb strconv.is_digit d = true -> match t with c :: _ => strconv.is_digit c = false | [] => True end ->
  leading_digits (d ++ t) = d.
Proof using.
  clear. intros Hd Ht. induction d as [|c d IH]; simpl in *; [destruct t as [|c t]; [done|]; simpl; by rewrite Ht|].
  apply andb_true_iff in Hd as [-> Hd]. by rewrite IH.
Qed.

Lemma count_total : @JsonTotal A count_codec.
Proof.
  split; [by eexists|]. intros x b Hb. by apply count_roundtrip.
Qed.

Lemma count_stream : @JsonStream A count_codec count_decoder.
Proof.
  split; [exact count_total|]. intros x b t Hb. cbn.
  assert (forall t, match t with c :: _ => strconv.is_digit c = false | [] => True end ->
    count_Unmarshal (leading_digits (b ++ t)) = Ok x) as H2.
  { intros t' Ht. destruct (itoa_N_digits (Npos (encode x))) as (c & s & E & Hd). injection Hb as <-.
    rewrite E in *. rewrite leading_digits_app by done. rewrite <- E, <- (app_nil_r (strconv.itoa_N _)). by apply count_roundtrip. }
  split; [rewrite <- (app_nil_r b)|]; by apply H2.
Qed.
End countable.

(** ** encoding/binary *)
Definition byte_of (z : Z) : ascii := ascii_of_N (Z.to_N (z mod 256)).
Definition byte_val (c : ascii) : Z := Z.of_N (N_of_ascii c).

(** [binary.LittleEndian.PutUint32] *)
Definition PutUint32 (v : Z) : str :=
  [byte_of v; byte_of (Z.shiftr v 8); byte_of (Z.shiftr v 16); byte_of (Z.shiftr v 24)].

(** [binary.LittleEndian.Uint32] *)
Fixpoint Uint_le (b : str) : Z :=
  match b with
  | [] => 0
  | c :: b' => byte_val c + 256 * Uint_le b'
  end.

Lemma byte_val_of v : byte_val (byte_of v) = v mod 256.
Proof.
  unfold byte_val, byte_of. pose proof (Z.mod_pos_bound v 256).
  rewrite N_ascii_embedding; lia.
Qed.

Lemma byte_val_bound c : 0 <= byte_val c < 256.
Proof. unfold byte_val. pose proof (N_ascii_bounded c). lia. Qed.

Lemma Uint32_PutUint32 v : 0 <= v < 2 ^ 32 -> Uint_le (PutUint32 v) = v.
Proof.
  intros H. unfold PutUint32. cbn [Uint_le]. rewrite !byte_val_of, !Z.shiftr_div_pow2 by lia.
  pose proof (Z.div_mod v 256). pose proof (Z.div_mod (v / 2 ^ 8) 256). pose proof (Z.div_mod (v / 2 ^ 16) 256).
  assert (v / 2 ^ 8 = v / 256) as E1 by done.
  assert (v / 2 ^ 16 = v / 2 ^ 8 / 256) as E2 by (by rewrite Z.div_div).
  assert (v / 2 ^ 24 = v / 2 ^ 16 / 256) as E3 by (by rewrite Z.div_div).
  assert (v / 2 ^ 24 mod 256 = v / 2 ^ 24) as E4.
  { apply Z.mod_small. split; [apply Z.div_pos; lia|apply Z.div_lt_upper_bound; lia]. }
  lia.
Qed.

Lemma Uint_le_bound b : 0 <= Uint_le b < 256 ^ Z.of_nat (length b).
Proof.
  induction b as [|c b IH]; cbn [Uint_le length]; [done|].
  pose proof (byte_val_bound c). rewrite Nat2Z.inj_succ, Z.pow_succ_r by lia. lia.
Qed.

(** ** Readers *)

Definition reader : Type := list str.
Definition EOF : error := Extern "EOF".

(** [r.Read(buf)] with [len(buf) = n > 0]: one chunk at most. *)
Definition Read (r : reader) (n : nat) : str * option error * reader :=
  match r with
  | [] => ([], Some EOF, [])
  | c :: r' =>
      if (length c <=? n)%nat then (c, None, r') else (take n c, None, drop n c :: r')
  end.

Lemma Read_consumes r n b e r' : Read r n = (b, e, r') -> concat r = b ++ concat r'.
Proof.
  destruct r as [|c r0]; simpl; [by intros [= <- <- <-]|].
  destruct (_ <=? _)%nat; intros [= <- <- <-]; [done|]. simpl. by rewrite app_assoc, take_drop.
Qed.

(** ** The message functions *)

Definition maxLength : Z := Z.shiftl 1 16.

Lemma maxLength_eq : maxLength = 65536.
Proof. reflexivity. Qed.

Section codec.
Context {A : Type} `{JsonCodec A}.

(** The bytes [MarshalToWriter] hands to [w.Write]. *)
Definition frame (x : A) : result str :=
  b <-? json_Marshal x ;;
  let n := Z.of_nat (length b) in
  if maxLength <? n
  then Err (Errorf "bad message length: %d (max: %d)" [AInt n; AInt maxLength])
  else Ok (PutUint32 (wrap32u n) ++ b).

(** [write] is the method [w.Write]. *)
Definition MarshalToWriter (write : str -> Z * option error) (x : A) : Z * option error :=
  match frame x with
  | Ok f => write f
  | Err e => (0, Some e)
  end.

Definition UnmarshalFromReader (r : reader) : Z * result A * reader :=
  let '(hdr, err, r) := Read r 4 in
  let n := Z.of_nat (length hdr) in
  match err with
  | Some e => (n, Err e, r)
  | None =>
      if negb (n =? 4) then (n, Err (Errorf "read %d bytes, expected 4 bytes" [AInt n]), r)
      else
        let bLen := Uint_le hdr in
        if (maxLength <? bLen) || (bLen <? 1)
        then (n, Err (Errorf "bad message length: %d (max: %d)" [AInt bLen; AInt maxLength]), r)
        else
          let '(b, err, r) := Read r (Z.to_nat bLen) in
          let n := Z.of_nat (length b) in
          match err with
          | Some e => (4 + n, Err e, r)
          | None =>
              if negb (n =? bLen)
              then (4 + n, Err (Errorf "read %d bytes, expected %d bytes" [AInt n; AInt bLen]), r)
              else (4 + n, json_Unmarshal b, r)
          end
  end.

(** [Marshal] writes to a [bytes.Buffer], whose [Write] never fails. *)
Definition Marshal (x : A) : str * option error :=
  match frame x with
  | Ok f => (f, None)
  | Err e => ([], Some e)
  end.

(** [Unmarshal] reads from a [bytes.Reader]. *)
Definition Unmarshal (b : str) : result A :=
  let '(n, res, _) := UnmarshalFromReader (match b with [] => [] | _ => [b] end) in
  if negb (n =? Z.of_nat (length b))
  then Err (Errorf "read %d bytes, expected %d bytes" [AInt n; AInt (Z.of_nat (length b))])
  else res.

Lemma frame_ok x f :
  frame x = Ok f ->
  exists b, json_Marshal x = Ok b /\ f = PutUint32 (Z.of_nat (length b)) ++ b /\
    1 <= Z.of_nat (length b) <= maxLength.
Proof.
  unfold frame. intros Hf. inv_ok. destruct (maxLength <? _) eqn:El; [discriminate|].
  injection Hf as <-. bool_props. exists a. split; [done|].
  assert (0 < Z.of_nat (length a)).
  { pose proof (json_not_empty _ _ E). destruct a; [done|simpl; lia]. }
  rewrite wrap32u_id by (rewrite maxLength_eq in *; lia). split; [done|lia].
Qed.

Lemma Read_app (a b : str) n r :
  length a = n -> (0 < length b)%nat -> Read ((a ++ b) :: r) n = (a, None, b :: r).
Proof.
  intros <- Hb. unfold Read. rewrite length_app.
  destruct (Nat.leb_spec (length a + length b) (length a)); [lia|].
  by rewrite take_app_length, drop_app_length.
Qed.

(** A frame that was written is read back as one message, and what
    follows it in the stream is left for the next read. *)
Theorem UnmarshalFromReader_frame (x : A) (f rest : str) (r : reader) :
  frame x = Ok f ->
  exists r', UnmarshalFromReader ((f ++ rest) :: r) = (Z.of_nat (length f), Ok (json_norm x), r')
    /\ concat r' = rest ++ concat r.
Proof.
  intros Hf. destruct (frame_ok _ _ Hf) as (b & Hb & -> & Hl). unfold UnmarshalFromReader.
  assert (length (PutUint32 (Z.of_nat (length b))) = 4%nat) as H4 by done.
  rewrite <- app_assoc, Read_app; [|done|rewrite length_app; lia].
  rewrite H4. cbn [negb Z.eqb Z.of_nat]. rewrite Uint32_PutUint32 by (rewrite maxLength_eq in *; lia).
  simpl (negb _). cbv iota.
  destruct (_ || _) eqn:Eb.
  { apply orb_true_iff in Eb as [Eb|Eb]; bool_props; lia. }
  rewrite Nat2Z.id. destruct rest as [|c rest].
  - rewrite app_nil_r. unfold Read. rewrite Nat.leb_refl, Z.eqb_refl. simpl negb. cbv iota.
    exists r. split; [|done]. rewrite (json_roundtrip _ _ Hb), length_app, H4. f_equal. f_equal. lia.
  - rewrite Read_app by (simpl; lia). rewrite Z.eqb_refl. simpl negb. cbv iota.
    exists ((c :: rest) :: r). split; [|done].
    rewrite (json_roundtrip _ _ Hb), length_app, H4. f_equal. f_equal. lia.
Qed.

(** C40: whatever the reader delivers, a message is only accepted from a
    complete payload of 1 to 65536 bytes behind its length, and exactly
    these bytes are consumed; a short read is an error. *)
Theorem UnmarshalFromReader_sound (r : reader) (n : Z) (x : A) (r' : reader) :
  UnmarshalFromReader r = (n, Ok x, r') ->
  exists hdr payload, concat r = hdr ++ payload ++ concat r' /\
    length hdr = 4%nat /\ Uint_le hdr = Z.of_nat (length payload) /\
    1 <= Z.of_nat (length payload) <= maxLength /\ n = 4 + Z.of_nat (length payload) /\
    json_Unmarshal payload = Ok x.
Proof.
  unfold UnmarshalFromReader.
  destruct (Read r 4) as [[hdr [e|]] r1] eqn:E1; [discriminate|].
  destruct (Z.eqb_spec (Z.of_nat (length hdr)) 4) as [H4|]; [|discriminate]. simpl negb. cbv iota.
  destruct (_ || _) eqn:Eb; [discriminate|]. bool_props.
  destruct (Read r1 _) as [[b [e|]] r2] eqn:E2; [discriminate|].
  destruct (Z.eqb_spec (Z.of_nat (length b)) (Uint_le hdr)) as [Hlen|]; [|discriminate].
  simpl negb. cbv iota. intros [= <- Hx <-].
  apply Read_consumes in E1, E2. exists hdr, b. rewrite E1, E2.
  split; [done|]. split; [lia|]. split; [done|]. split; [lia|]. split; [done|exact Hx].
Qed.

(** [Unmarshal] undoes [Marshal]; a message whose JSON form exceeds
    64 KiB is refused by the sender and writes no byte. *)
Theorem Unmarshal_Marshal (x : A) (b : str) :
  json_Marshal x = Ok b ->
  if maxLength <? Z.of_nat (length b)
  then exists e, Marshal x = ([], Some e)
  else exists f, Marshal x = (f, None) /\ Unmarshal f = Ok (json_norm x).
Proof.
  intros Hb. unfold Marshal. destruct (maxLength <? Z.of_nat (length b)) eqn:El.
  - unfold frame. rewrite Hb. cbn [rbind]. rewrite El. eauto.
  - destruct (frame x) as [f|e] eqn:Ef.
    2:{ unfold frame in Ef. rewrite Hb in Ef. cbn [rbind] in Ef. by rewrite El in Ef. }
    exists f. split; [done|]. unfold Unmarshal.
    assert (f <> []) as Hne.
    { destruct (frame_ok _ _ Ef) as (b' & _ & -> & _). unfold PutUint32. discriminate. }
    destruct (UnmarshalFromReader_frame x f [] [] Ef) as (r' & HU & _).
    rewrite app_nil_r in HU. destruct f as [|c f]; [done|]. rewrite HU, Z.eqb_refl. done.
Qed.
End codec.

Theorem UnmarshalFromReader_frame_witness :
  exists f r', frame (-42) = Ok f /\ length f = 7%nat /\
    UnmarshalFromReader [f ++ "xyz"] = (7, Ok (-42), r').
Proof.
  assert (frame (-42) = Ok (PutUint32 3 ++ "-42")) as H by (vm_compute; reflexivity).
  destruct (UnmarshalFromReader_frame (-42) _ "xyz" [] H) as (r' & HU & _).
  exists (PutUint32 3 ++ "-42"), r'. split; [exact H|]. split; [reflexivity|exact HU].
Defined.

Theorem UnmarshalFromReader_sound_witness :
  exists hdr payload : str, hdr ++ payload = PutUint32 2 ++ "17" /\ length hdr = 4%nat.
Proof.
  assert (UnmarshalFromReader [PutUint32 2 ++ "17"] = (6, Ok 17, [])) as H by (vm_compute; reflexivity).
  destruct (UnmarshalFromReader_sound _ _ _ _ H) as (hdr & payload & Hc & Hl & _).
  exists hdr, payload. split; [|exact Hl]. simpl concat in Hc. rewrite !app_nil_r in Hc. exact (eq_sym Hc).
Defined.

Theorem Unmarshal_Marshal_witness :
  exists f, Marshal 7 = (f, None) /\ Unmarshal f = Ok 7.
Proof.
  assert (json_Marshal 7 = Ok (lit "7")) as H by (vm_compute; reflexivity).
  exact (Unmarshal_Marshal 7 _ H).
Defined.
