(* ===== verification/Messages.v ===== *)
(** * pkg/messages: the messages of the parent and the child

    The union of the six message types, [FulfillName], [Send], [Recv] and
    [WaitFor].  The JSON codec of [Message] is an interface ([JsonCodec]): the
    in-process network object and the empty hello structs do not survive the
    encoding (embedded structs without fields leave no trace in the JSON
    object), which is what [norm_Message] says. *)
From S2P Require Import Prelude GoStrings Framing.

Module messages.

(** [Network] is an in-process object ([interface{}]), here a handle. *)
Record NetMsg : Set := mkNetMsg {
  Network : option Z;
  Dev : str;
  IP : str;
  Netmask : Z;
  Gateway : str;
  DNS : list str;
  MTU : Z;
  NetworkDriverOpaque : list (str * str);
}.

Record PortMsg : Set := mkPortMsg {
  PortDriverOpaque : list (str * str);
}.

(** The union: each field is a pointer that may be nil. *)
Record U : Set := mkU {
  ParentHello : option unit;
  ChildHello : option unit;
  ParentInitIdmapCompleted : option unit;
  ChildInitUserNSCompleted : option unit;
  ParentInitNetworkDriverCompleted : option NetMsg;
  ParentInitPortDriverCompleted : option PortMsg;
}.

Record Message : Set := mkMessage {
  Name : str;
  U_of : U;
}.

#[global] Instance NetMsg_eq_dec : EqDecision NetMsg.
Proof. solve_decision. Defined.
#[global] Instance PortMsg_eq_dec : EqDecision PortMsg.
Proof. solve_decision. Defined.
#[global] Instance U_eq_dec : EqDecision U.
Proof. solve_decision. Defined.
#[global] Instance Message_eq_dec : EqDecision Message.
Proof. solve_decision. Defined.

Definition empty_NetMsg : NetMsg := mkNetMsg None "" "" 0 "" [] 0 [].
Definition empty_U : U := mkU None None None None None None.

(** The fields of [U] in declaration order, with whether they are set: what
    [FulfillName] iterates over by reflection. *)
Definition U_fields (u : U) : list (str * bool) :=
  [(lit "ParentHello", bool_decide (ParentHello u <> None));
   (lit "ChildHello", bool_decide (ChildHello u <> None));
   (lit "ParentInitIdmapCompleted", bool_decide (ParentInitIdmapCompleted u <> None));
   (lit "ChildInitUserNSCompleted", bool_decide (ChildInitUserNSCompleted u <> None));
   (lit "ParentInitNetworkDriverCompleted", bool_decide (ParentInitNetworkDriverCompleted u <> None));
   (lit "ParentInitPortDriverCompleted", bool_decide (ParentInitPortDriverCompleted u <> None))].

Definition FulfillName (m : Message) : result Message :=
  match List.find snd (U_fields (U_of m)) with
  | Some (n, _) => Ok (mkMessage n (U_of m))
  | None => Err (Errorf "failed to fulfill the name for message %+v" [])
  end.

(** [Name(x)]: the type name of a message struct *)
Inductive msg_type : Set :=
  | TParentHello | TChildHello | TParentInitIdmapCompleted | TChildInitUserNSCompleted
  | TParentInitNetworkDriverCompleted | TParentInitPortDriverCompleted.

#[global] Instance msg_type_eq_dec : EqDecision msg_type.
Proof. solve_decision. Defined.

Definition type_Name (t : msg_type) : str :=
  match t with
  | TParentHello => "ParentHello"
  | TChildHello => "ChildHello"
  | TParentInitIdmapCompleted => "ParentInitIdmapCompleted"
  | TChildInitUserNSCompleted => "ChildInitUserNSCompleted"
  | TParentInitNetworkDriverCompleted => "ParentInitNetworkDriverCompleted"
  | TParentInitPortDriverCompleted => "ParentInitPortDriverCompleted"
  end.

(** The messages the two processes build: one field of the union is set. *)
Definition hello_parent : Message := mkMessage [] (mkU (Some tt) None None None None None).
Definition hello_child : Message := mkMessage [] (mkU None (Some tt) None None None None).
Definition idmap_done : Message := mkMessage [] (mkU None None (Some tt) None None None).
Definition userns_done : Message := mkMessage [] (mkU None None None (Some tt) None None).
Definition network_done (n : NetMsg) : Message := mkMessage [] (mkU None None None None (Some n) None).
Definition port_done (p : PortMsg) : Message := mkMessage [] (mkU None None None None None (Some p)).

(** What JSON carries: the names, and the network and port structs without
    the in-process network object. *)
Definition norm_NetMsg (n : NetMsg) : NetMsg :=
  mkNetMsg None (Dev n) (IP n) (Netmask n) (Gateway n) (DNS n) (MTU n) (NetworkDriverOpaque n).
Definition norm_Message (m : Message) : Message :=
  mkMessage (Name m)
    (mkU None None None None (norm_NetMsg <$> ParentInitNetworkDriverCompleted (U_of m))
       (ParentInitPortDriverCompleted (U_of m))).

Section codec.
Context `{JsonCodec Message}.

(** [Send]: the bytes given to the writer. *)
Definition Send_bytes (m : Message) : result str :=
  m <-? (if bool_decide (Name m = []) then FulfillName m else Ok m) ;;
  on_err (frame m) (Wrapf "failed to send message %+v: %w" []).

Definition Send (write : str -> Z * option error) (m : Message) : option error :=
  match (if bool_decide (Name m = []) then FulfillName m else Ok m) with
  | Err e => Some e
  | Ok m => Wrapf "failed to send message %+v: %w" [] <$> (MarshalToWriter write m).2
  end.

Definition Recv (r : reader) : result Message * reader :=
  let '(_, res, r') := UnmarshalFromReader r in
  (m <-? res ;;
   (if bool_decide (Name m = []) then Err (Errorf "failed to parse message %+v" []) else Ok m), r').

Definition WaitFor (r : reader) (name : str) : result Message * reader :=
  let '(res, r') := Recv r in
  (m <-? res ;;
   (if negb (bool_decide (Name m = name))
    then Err (Errorf "expected %q, got %+v" [AStr name; AStr (Name m)]) else Ok m), r').
End codec.

End messages.
Import messages.

(** The name that [FulfillName] gives to a message is the name of its first
    field that is set. *)
Definition message_type (m : Message) : option msg_type :=
  let u := U_of m in
  if ParentHello u is Some _ then Some TParentHello
  else if ChildHello u is Some _ then Some TChildHello
  else if ParentInitIdmapCompleted u is Some _ then Some TParentInitIdmapCompleted
  else if ChildInitUserNSCompleted u is Some _ then Some TChildInitUserNSCompleted
  else if ParentInitNetworkDriverCompleted u is Some _ then Some TParentInitNetworkDriverCompleted
  else if ParentInitPortDriverCompleted u is Some _ then Some TParentInitPortDriverCompleted
  else None.

Lemma FulfillName_type m t :
  message_type m = Some t -> FulfillName m = Ok (mkMessage (type_Name t) (U_of m)).
Proof.
  destruct m as [n [[[]|] [[]|] [[]|] [[]|] [net|] [port|]]]; unfold FulfillName, message_type; simpl;
    intros [= <-]; rewrite ?bool_decide_eq_true_2 by done;
    rewrite ?bool_decide_eq_false_2 by (intros E; by contradict E); reflexivity.
Qed.

Lemma type_Name_not_empty t : type_Name t <> [].
Proof. by destruct t. Qed.

Lemma type_Name_inj t1 t2 : type_Name t1 = type_Name t2 -> t1 = t2.
Proof. destruct t1, t2; done. Qed.

(** A message that was sent is received by the side that waits for its
    type: the name is derived from the field that is set, and what the message
    carries arrives. *)
Theorem WaitFor_Send `{JC : JsonCodec Message} (m : Message) (t : msg_type) (f rest : str) (r : reader) :
  (forall m, json_norm m = norm_Message m) ->
  Name m = [] -> message_type m = Some t -> Send_bytes m = Ok f ->
  exists r', WaitFor ((f ++ rest) :: r) (type_Name t) =
      (Ok (norm_Message (mkMessage (type_Name t) (U_of m))), r') /\ concat r' = rest ++ concat r.
Proof.
  intros Hnorm Hn Ht Hs. unfold Send_bytes in Hs. rewrite bool_decide_eq_true_2 in Hs by done.
  rewrite (FulfillName_type _ _ Ht) in Hs. cbn [rbind] in Hs. apply on_err_ok in Hs.
  destruct (UnmarshalFromReader_frame _ _ rest r Hs) as (r' & HU & Hr).
  exists r'. split; [|exact Hr]. unfold WaitFor, Recv. rewrite HU, Hnorm. cbn [rbind]. simpl Name.
  rewrite bool_decide_eq_false_2 by apply type_Name_not_empty. cbn [rbind].
  by rewrite bool_decide_eq_true_2.
Qed.

(** A message of another type is refused by [WaitFor]. *)
Theorem WaitFor_wrong_type `{JC : JsonCodec Message} (m : Message) (t t' : msg_type) (f rest : str) (r : reader) :
  (forall m, json_norm m = norm_Message m) ->
  Name m = [] -> message_type m = Some t -> Send_bytes m = Ok f -> t' <> t ->
  (WaitFor ((f ++ rest) :: r) (type_Name t')).1 =
  Err (Errorf "expected %q, got %+v" [AStr (type_Name t'); AStr (type_Name t)]).
Proof.
  intros Hnorm Hn Ht Hs Hne. unfold Send_bytes in Hs. rewrite bool_decide_eq_true_2 in Hs by done.
  rewrite (FulfillName_type _ _ Ht) in Hs. cbn [rbind] in Hs. apply on_err_ok in Hs.
  destruct (UnmarshalFromReader_frame _ _ rest r Hs) as (r' & HU & Hr).
  unfold WaitFor, Recv. rewrite HU, Hnorm. cbn [rbind]. simpl Name.
  rewrite bool_decide_eq_false_2 by apply type_Name_not_empty. cbn [rbind].
  rewrite bool_decide_eq_false_2; [done|]. intros E. by apply type_Name_inj in E.
Qed.

(** ** A concrete codec of the hello messages *)

Definition json_prefix : str := "{" ++ ["034"%char] ++ "Name" ++ ["034"%char; ":"%char; "034"%char].
Definition json_suffix : str := ["034"%char; "}"%char].

(** Names are letters, so no character needs an escape. *)
Definition json_plain (s : str) : bool :=
  forallb (fun c => let n := nat_of_ascii c in
    ((65 <=? n) && (n <=? 90) || (97 <=? n) && (n <=? 122))%nat) s.

#[export] Program Instance json_hello : JsonCodec Message := {|
  json_Marshal m :=
    if json_plain (Name m) && bool_decide (ParentInitNetworkDriverCompleted (U_of m) = None)
       && bool_decide (ParentInitPortDriverCompleted (U_of m) = None)
    then Ok (json_prefix ++ Name m ++ json_suffix)
    else Err (Extern "json: not a hello message");
  json_Unmarshal b :=
    if strings.HasPrefix b json_prefix && strings.HasSuffix b json_suffix
    then Ok (mkMessage (strings.TrimSuffix (strings.TrimPrefix b json_prefix) json_suffix) empty_U)
    else Err (Extern "json: not a hello message");
  json_norm := norm_Message;
|}.
Next Obligation.
  intros m b. cbv beta. intros H.
  destruct (_ && _) eqn:E; [|discriminate]. apply (f_equal (fun r => match r with Ok x => x | Err _ => b end)) in H. cbv beta iota in H. subst b.
  bool_props. rewrite HasPrefix_app, TrimPrefix_app, TrimSuffix_app.
  rewrite (proj2 (HasSuffix_spec _ _)); [|exists (json_prefix ++ Name m); by rewrite app_assoc].
  simpl. unfold norm_Message. by rewrite H0, H1.
Qed.
Next Obligation.
  intros m b. cbv beta. intros H. destruct (_ && _); [|discriminate]. by injection H as <-.
Qed.

Theorem WaitFor_Send_witness :
  exists f r', Send_bytes hello_parent = Ok f /\
    WaitFor [f] (type_Name TParentHello) = (Ok (mkMessage "ParentHello" empty_U), r').
Proof.
  destruct (Send_bytes hello_parent) as [f|e] eqn:Hs; [|vm_compute in Hs; discriminate].
  destruct (WaitFor_Send (JC := json_hello) hello_parent TParentHello f [] [] (fun m => eq_refl) eq_refl eq_refl Hs)
    as (r' & Hw & _).
  rewrite app_nil_r in Hw. exists f, r'. split; [reflexivity|exact Hw].
Defined.

Theorem WaitFor_wrong_type_witness :
  exists f e, Send_bytes hello_child = Ok f /\ (WaitFor [f] (type_Name TParentHello)).1 = Err e.
Proof.
  destruct (Send_bytes hello_child) as [f|e] eqn:Hs; [|vm_compute in Hs; discriminate].
  assert (TParentHello <> TChildHello) as Hne by discriminate.
  pose proof (WaitFor_wrong_type (JC := json_hello) hello_child TChildHello TParentHello f [] [] (fun m => eq_refl)
    eq_refl eq_refl Hs Hne) as Hw.
  rewrite app_nil_r in Hw. eexists f, _. split; [reflexivity|exact Hw].
Defined.
