(* ===== verification/Sessions.v ===== *)
(** * Two programs that talk over a pair of pipes

    A program follows a script when its send and receive calls are, in
    every execution, those of the script in order, and when it makes none
    after one of them failed.  Two programs with dual scripts, joined by two
    queues, never receive an unexpected message and never both wait for each
    other. *)
From S2P Require Import Prelude Effects.

(** ** Scripts *)
Inductive action (M : Type) : Type :=
  | ASend (m : M)
  | ARecv (m : M).
Arguments ASend {M} m.
Arguments ARecv {M} m.

Definition flip {M} (a : action M) : action M :=
  match a with ASend m => ARecv m | ARecv m => ASend m end.
Definition dual {M} (s : list (action M)) : list (action M) := map flip s.

Lemma dual_dual {M} (s : list (action M)) : dual (dual s) = s.
Proof. induction s as [|[m|m] s IH]; simpl; [done|by rewrite IH..]. Qed.

(** ** Which calls communicate *)
Inductive ckind (M : Type) : Type :=
  | KSend (m : M)
  | KRecv (m : M)
  | KOther.
Arguments KSend {M} m.
Arguments KRecv {M} m.
Arguments KOther {M}.

Class Comm (M C : Type) (R : C -> Type) : Type := {
  kind : C -> ckind M;
  (** the response reports success *)
  good : forall c, R c -> bool;
}.

Section script.
Context {M C : Type} {R : C -> Type} `{!Comm M C R}.

(** The script as a protocol; after a failed call nothing may follow. *)
Definition script_step `{!EqDecision M} (s : list (action M)) (c : C) (r : R c) : option (list (action M)) :=
  match kind c, s with
  | KOther, _ => Some s
  | KSend m, ASend m' :: s' => if bool_decide (m = m') then Some (if good c r then s' else []) else None
  | KRecv m, ARecv m' :: s' => if bool_decide (m = m') then Some (if good c r then s' else []) else None
  | _, _ => None
  end.

(** A program that returned, or whose next call has the given kind. *)
Definition waits_for {A} (p : prog R A) (m : M) : Prop :=
  match p with
  | Call c _ => kind c = KRecv m
  | Ret _ => False
  end.
Definition returned {A} (p : prog R A) : Prop :=
  match p with Ret _ => True | Call _ _ => False end.
End script.

(** [follows p s Q]: in every execution [p] makes the communication calls of the
    script [s] in order, and [Q] relates its result to what is left of it. *)
Abbreviation follows := (tracks script_step).

Section follows.
Context {M C A : Type} {R : C -> Type} `{!Comm M C R} `{!EqDecision M}.
Implicit Types (s : list (action M)) (Q : A -> list (action M) -> Prop).

Lemma follows_other c (k : R c -> prog R A) s Q r :
  follows (Call c k) s Q -> kind c = KOther -> follows (k r) s Q.
Proof. intros H E. specialize (H r). unfold script_step in H at 1. by rewrite E in H. Qed.

Lemma follows_send c (k : R c -> prog R A) s Q m r :
  follows (Call c k) s Q -> kind c = KSend m ->
  exists s', s = ASend m :: s' /\ follows (k r) (if good c r then s' else []) Q.
Proof.
  intros H E. specialize (H r). unfold script_step in H at 1. rewrite E in H.
  destruct s as [|[m'|m'] s']; try done. case_bool_decide; [subst m'; eauto|done].
Qed.

Lemma follows_recv c (k : R c -> prog R A) s Q m r :
  follows (Call c k) s Q -> kind c = KRecv m ->
  exists s', s = ARecv m :: s' /\ follows (k r) (if good c r then s' else []) Q.
Proof.
  intros H E. specialize (H r). unfold script_step in H at 1. rewrite E in H.
  destruct s as [|[m'|m'] s']; try done. case_bool_decide; [subst m'; eauto|done].
Qed.
End follows.

(** ** Two programs and two queues *)
Section pair.
Context {M C1 C2 A1 A2 : Type} {R1 : C1 -> Type} {R2 : C2 -> Type}.
Context `{CM1 : !Comm M C1 R1, CM2 : !Comm M C2 R2} `{!EqDecision M}.

Record conf : Type := mkConf {
  left : prog R1 A1;
  right : prog R2 A2;
  to_right : list M;   (** sent by the left, not yet received *)
  to_left : list M;
  broken : bool;       (** some communication call has failed *)
}.

(** One side makes its next call.  A receive needs a queued message; it
    succeeds only when that message is the expected one. *)
Inductive step : conf -> conf -> Prop :=
  | step_left_other c k r q q' b y :
      kind c = KOther ->
      step (mkConf (Call c k) y q q' b) (mkConf (k r) y q q' b)
  | step_left_send c k r m q q' b y :
      kind c = KSend m ->
      step (mkConf (Call c k) y q q' b)
        (if good c r then mkConf (k r) y (q ++ [m]) q' b else mkConf (k r) y q q' true)
  | step_left_recv c k r m t q q' b y :
      kind c = KRecv m -> (good c r = true -> t = m) ->
      step (mkConf (Call c k) y q (t :: q') b)
        (mkConf (k r) y q q' (b || negb (good c r)))
  | step_right_other c k r q q' b x :
      kind c = KOther ->
      step (mkConf x (Call c k) q q' b) (mkConf x (k r) q q' b)
  | step_right_send c k r m q q' b x :
      kind c = KSend m ->
      step (mkConf x (Call c k) q q' b)
        (if good c r then mkConf x (k r) q (q' ++ [m]) b else mkConf x (k r) q q' true)
  | step_right_recv c k r m t q q' b x :
      kind c = KRecv m -> (good c r = true -> t = m) ->
      step (mkConf x (Call c k) (t :: q) q' b)
        (mkConf x (k r) q q' (b || negb (good c r))).

Inductive reachable (s0 : conf) : conf -> Prop :=
  | reach_refl : reachable s0 s0
  | reach_step s s' : reachable s0 s -> step s s' -> reachable s0 s'.

(** Two sides that wait with nothing in the pipes are stuck. *)
Lemma both_waiting_stuck x m1 m2 :
  waits_for (left x) m1 -> waits_for (right x) m2 -> to_left x = [] -> to_right x = [] ->
  forall y, ~ step x y.
Proof.
  intros H1 H2 Q1 Q2 y Hs.
  destruct Hs; simpl in *; subst; try (rewrite H1 in H; discriminate); try (rewrite H2 in H; discriminate);
    discriminate.
Qed.

Lemma waiting_alone_stuck x m1 :
  waits_for (left x) m1 -> returned (right x) -> to_left x = [] -> forall y, ~ step x y.
Proof.
  intros H1 H2 Q1 y Hs. destruct Hs; simpl in *; subst; try done;
    try (rewrite H1 in H; discriminate); discriminate.
Qed.

(** What is queued is what the receiver expects first; one direction at a time. *)
Definition matched (q q' : list M) (s1 s2 : list (action M)) : Prop :=
  (q' = [] /\ s2 = map ARecv q ++ dual s1) \/ (q = [] /\ s1 = map ARecv q' ++ dual s2).

Lemma matched_send_left q q' m s1 s2 :
  matched q q' (ASend m :: s1) s2 -> matched (q ++ [m]) q' s1 s2.
Proof.
  intros [[-> ->]|[-> E]].
  - left. split; [done|]. rewrite map_app. simpl. by rewrite <- app_assoc.
  - destruct q' as [|t q']; [|discriminate]. simpl in E. left. split; [done|].
    rewrite <- (dual_dual s2), <- E. done.
Qed.

Lemma matched_recv_left q q' t m s1 s2 :
  matched q (t :: q') (ARecv m :: s1) s2 -> t = m /\ matched q q' s1 s2.
Proof. intros [[? _]|[-> E]]; [done|]. injection E as -> ->. split; [done|]. by right. Qed.

Lemma matched_sym q q' s1 s2 : matched q q' s1 s2 -> matched q' q s2 s1.
Proof. intros [[-> ->]|[-> ->]]; [right|left]; done. Qed.

Lemma matched_send_right q q' m s1 s2 :
  matched q q' s1 (ASend m :: s2) -> matched q (q' ++ [m]) s1 s2.
Proof. intros H. by apply matched_sym, matched_send_left, matched_sym. Qed.

Section dual_scripts.
Context (p : prog R1 A1) (p' : prog R2 A2) (s : list (action M)).
Context (Q1 : A1 -> list (action M) -> Prop) (Q2 : A2 -> list (action M) -> Prop).
Context (Hp : follows p s Q1) (Hp' : follows p' (dual s) Q2).

Definition inv (x : conf) : Prop :=
  broken x = true \/
  exists s1 s2, follows (left x) s1 Q1 /\ follows (right x) s2 Q2 /\
    matched (to_right x) (to_left x) s1 s2.

Lemma inv_step x y : inv x -> step x y -> inv y.
Proof.
  intros Hi Hs. destruct Hs; simpl in *.
  all: try match goal with |- context [if good ?c ?r then _ else _] => destruct (good c r) eqn:Eg end.
  all: destruct Hi as [Hb|(s1 & s2 & H1 & H2 & Hm)]; simpl in *;
    [left; simpl; try done; by rewrite Hb|]; try (by left); unfold inv; simpl.
  - right. exists s1, s2. eauto using follows_other.
  - destruct (follows_send _ _ _ _ _ r H1 H) as (s1' & -> & H1'). rewrite Eg in H1'. right.
    exists s1', s2. split; [done|]. split; [done|]. by apply matched_send_left.
  - destruct (follows_recv _ _ _ _ _ r H1 H) as (s1' & -> & H1'). apply matched_recv_left in Hm as [-> Hm].
    destruct (good c r); [|left; by rewrite orb_true_r]. right. exists s1', s2. eauto.
  - right. exists s1, s2. eauto using follows_other.
  - destruct (follows_send _ _ _ _ _ r H2 H) as (s2' & -> & H2'). rewrite Eg in H2'. right.
    exists s1, s2'. split; [done|]. split; [done|]. by apply matched_send_right.
  - destruct (follows_recv _ _ _ _ _ r H2 H) as (s2' & -> & H2'). apply matched_sym, matched_recv_left in Hm as [-> Hm].
    destruct (good c r); [|left; by rewrite orb_true_r]. right. exists s1, s2'. eauto using matched_sym.
Qed.

Lemma reachable_inv x : reachable (mkConf p p' [] [] false) x -> inv x.
Proof using Hp Hp'.
  induction 1 as [|x y _ IH Hs]; [|by eapply inv_step].
  right. exists s, (dual s). simpl. split; [done|]. split; [done|]. by left.
Qed.

(** The responses that exist, to know that a call can return. *)
Context (HI1 : forall c, R1 c) (HI2 : forall c, R2 c).

(** What a waiting program expects is next in its script. *)
Lemma waiting_script {C A} {R : C -> Type} `{!Comm M C R} (HI : forall c, R c) (q : prog R A) s1 Q m :
  follows q s1 Q -> waits_for q m -> exists s1', s1 = ARecv m :: s1'.
Proof.
  destruct q as [a|c k]; [done|]. intros H Hw. destruct (follows_recv _ _ _ _ _ (HI c) H Hw) as (s1' & -> & _). eauto.
Qed.

(** While no call has failed, the message at the head of a queue is the one
    its receiver waits for. *)
Lemma no_unexpected_message x m t q :
  reachable (mkConf p p' [] [] false) x -> broken x = false ->
  (waits_for (left x) m -> to_left x = t :: q -> t = m) /\
  (waits_for (right x) m -> to_right x = t :: q -> t = m).
Proof using Hp Hp' HI1 HI2.
  intros [Hb|(s1 & s2 & H1 & H2 & Hm)]%reachable_inv Hnb; [congruence|].
  split; intros Hw Hq; rewrite Hq in Hm.
  - destruct (waiting_script HI1 _ _ _ _ H1 Hw) as [s1' ->]. by apply matched_recv_left in Hm as [? _].
  - destruct (waiting_script HI2 _ _ _ _ H2 Hw) as [s2' ->]. by apply matched_sym, matched_recv_left in Hm as [? _].
Qed.

(** The two programs are never both waiting with nothing in the pipes. *)
Lemma no_deadlock x m1 m2 :
  reachable (mkConf p p' [] [] false) x -> broken x = false ->
  waits_for (left x) m1 -> waits_for (right x) m2 ->
  to_left x = [] -> to_right x = [] -> False.
Proof using Hp Hp' HI1 HI2.
  intros [Hb|(s1 & s2 & H1 & H2 & Hm)]%reachable_inv Hnb Hw1 Hw2 Hq1 Hq2; [congruence|].
  destruct (waiting_script HI1 _ _ _ _ H1 Hw1) as [s1' ->]. destruct (waiting_script HI2 _ _ _ _ H2 Hw2) as [s2' ->].
  rewrite Hq1, Hq2 in Hm. destruct Hm as [[_ Hm]|[_ Hm]]; discriminate.
Qed.

(** A program that has not returned can make its next call, or waits. *)
Definition can_step {C A} {R : C -> Type} `{!Comm M C R} (q : prog R A) (queue : list M) : Prop :=
  match q with
  | Ret _ => False
  | Call c _ => match kind c with KRecv t => exists q, queue = t :: q | _ => True end
  end.

Lemma can_step_left x : can_step (left x) (to_left x) -> exists y, step x y.
Proof using HI1.
  destruct x as [[a|c k] y q q' b]; simpl; [done|]. destruct (kind c) as [m|m|] eqn:E.
  - intros _. eexists. by apply (step_left_send c k (HI1 c) m).
  - intros [q'' ->]. eexists. by apply (step_left_recv c k (HI1 c) m m).
  - intros _. eexists. by apply (step_left_other c k (HI1 c)).
Qed.

Lemma can_step_right x : can_step (right x) (to_right x) -> exists y, step x y.
Proof using HI2.
  destruct x as [y [a|c k] q q' b]; simpl; [done|]. destruct (kind c) as [m|m|] eqn:E.
  - intros _. eexists. by apply (step_right_send c k (HI2 c) m).
  - intros [q'' ->]. eexists. by apply (step_right_recv c k (HI2 c) m m).
  - intros _. eexists. by apply (step_right_other c k (HI2 c)).
Qed.

Lemma waits_or_steps {C A} {R : C -> Type} `{!Comm M C R} (q : prog R A) queue :
  (forall m t rest, waits_for q m -> queue = t :: rest -> t = m) ->
  (exists a, q = Ret a) \/ can_step q queue \/ (exists m, waits_for q m /\ queue = []).
Proof.
  intros H. destruct q as [a|c k]; [left; eauto|right]. simpl in *. destruct (kind c) as [m|m|] eqn:E; [by left| |by left].
  destruct queue as [|t rest]; [right; by exists m|left]. exists rest. by rewrite (H m t rest eq_refl eq_refl).
Qed.

(** When nothing is left to do and no call has failed, both programs have
    returned, or one has returned before the end of its script. *)
Lemma stopped x :
  reachable (mkConf p p' [] [] false) x -> broken x = false -> (forall y, ~ step x y) ->
  (exists a b s1 s2, left x = Ret a /\ right x = Ret b /\ Q1 a s1 /\ Q2 b s2 /\ matched (to_right x) (to_left x) s1 s2) \/
  (exists a s1, left x = Ret a /\ Q1 a s1 /\ s1 <> []) \/
  (exists b s2, right x = Ret b /\ Q2 b s2 /\ s2 <> []).
Proof using Hp Hp' HI1 HI2.
  intros Hr Hb Hs. pose proof (no_unexpected_message x) as Hnu.
  destruct (reachable_inv _ Hr) as [?|(s1 & s2 & H1 & H2 & Hm)]; [congruence|].
  destruct (waits_or_steps (left x) (to_left x)) as [[a Ha]|[Hc|(m1 & Hw1 & Hq1)]].
  { intros m t rest Hw Hq. destruct (Hnu m t rest Hr Hb) as [H _]. auto. }
  2: { destruct (can_step_left x Hc) as [y Hy]. by apply Hs in Hy. }
  - destruct (waits_or_steps (right x) (to_right x)) as [[b Hb']|[Hc|(m2 & Hw2 & Hq2)]].
    { intros m t rest Hw Hq. destruct (Hnu m t rest Hr Hb) as [_ H]. auto. }
    + left. rewrite Ha in H1. rewrite Hb' in H2. by exists a, b, s1, s2.
    + destruct (can_step_right x Hc) as [y Hy]. by apply Hs in Hy.
    + right; left. rewrite Ha in H1. exists a, s1. split; [done|]. split; [done|].
      destruct (waiting_script HI2 _ _ _ _ H2 Hw2) as [s2' ->]. rewrite Hq2 in Hm.
      intros ->. destruct Hm as [[_ Hm]|[_ Hm]]; simpl in Hm; [done|]. by destruct (to_left x).
  - destruct (waits_or_steps (right x) (to_right x)) as [[b Hb']|[Hc|(m2 & Hw2 & Hq2)]].
    { intros m t rest Hw Hq. destruct (Hnu m t rest Hr Hb) as [_ H]. auto. }
    + right; right. rewrite Hb' in H2. exists b, s2. split; [done|]. split; [done|].
      destruct (waiting_script HI1 _ _ _ _ H1 Hw1) as [s1' ->]. rewrite Hq1 in Hm.
      intros ->. destruct Hm as [[_ Hm]|[_ Hm]]; simpl in Hm; [|done]. by destruct (to_right x).
    + destruct (can_step_right x Hc) as [y Hy]. by apply Hs in Hy.
    + by destruct (no_deadlock x m1 m2).
Qed.
End dual_scripts.

Lemma step_next x y :
  step x y -> (next (left x) (left y) /\ right y = right x) \/ (left y = left x /\ next (right x) (right y)).
Proof. destruct 1; try (match goal with |- context [if ?g then _ else _] => destruct g end); simpl; eauto. Qed.

Lemma pair_terminates x : Acc (fun y x => step x y) x.
Proof. exact (pair_ends left right step step_next x). Qed.
End pair.
Arguments conf {M C1 C2} A1 A2 R1 R2.

(** ** Driving the two sides against fixed kernels, for concrete runs *)
Section drive.
Context {M C A : Type} {R : C -> Type} `{CM : !Comm M C R} `{!EqDecision M}.
Context (kern : forall c, R c).

(** Runs one side until it returns, waits for a message that is not at the
    head of its queue, or fails a communication call. *)
Fixpoint drive (fuel : nat) (p : prog R A) (inq : list M) : prog R A * list M * list M :=
  match fuel, p with
  | S n, Call c k =>
      match kind c with
      | KOther => drive n (k (kern c)) inq
      | KSend m =>
          if good c (kern c)
          then let '(p', inq', out) := drive n (k (kern c)) inq in (p', inq', m :: out)
          else (p, inq, [])
      | KRecv m =>
          match inq with
          | t :: inq' => if bool_decide (t = m) && good c (kern c) then drive n (k (kern c)) inq' else (p, inq, [])
          | [] => (p, inq, [])
          end
      end
  | _, _ => (p, inq, [])
  end.
End drive.

Section drive_pair.
Context {M C1 C2 A1 A2 : Type} {R1 : C1 -> Type} {R2 : C2 -> Type}.
Context `{CM1 : !Comm M C1 R1, CM2 : !Comm M C2 R2} `{!EqDecision M}.

Lemma drive_left (s0 : conf A1 A2 R1 R2) kern n p inq p' inq' out y q :
  drive kern n p inq = (p', inq', out) ->
  reachable s0 (mkConf p y q inq false) -> reachable s0 (mkConf p' y (q ++ out) inq' false).
Proof.
  revert p inq out q; induction n as [|n IH]; intros p inq out q; simpl.
  { intros [= -> -> <-]. by rewrite app_nil_r. }
  destruct p as [a|c k]; [intros [= <- -> <-]; by rewrite app_nil_r|].
  destruct (kind c) as [m|m|] eqn:Ek.
  - destruct (good c (kern c)) eqn:Eg; [|intros [= <- -> <-]; by rewrite app_nil_r].
    destruct (drive kern n (k (kern c)) inq) as [[p1 inq1] out1] eqn:E. intros [= <- <- <-] H.
    replace (q ++ m :: out1) with ((q ++ [m]) ++ out1) by by rewrite <- app_assoc.
    apply (IH _ _ _ _ E). eapply reach_step; [exact H|].
    pose proof (step_left_send c k (kern c) m q inq false y Ek) as Hs. by rewrite Eg in Hs.
  - destruct inq as [|t inq]; [intros [= <- <- <-]; by rewrite app_nil_r|].
    destruct (bool_decide (t = m) && good c (kern c)) eqn:E; [|intros [= <- <- <-]; by rewrite app_nil_r].
    bool_props. subst t. intros Hd H1. apply (IH _ _ _ _ Hd). eapply reach_step; [exact H1|].
    pose proof (step_left_recv c k (kern c) m m q inq false y Ek (fun _ => eq_refl)) as Hs.
    by rewrite H0 in Hs.
  - intros Hd H. apply (IH _ _ _ _ Hd). eapply reach_step; [exact H|]. by apply step_left_other.
Qed.

Lemma drive_right (s0 : conf A1 A2 R1 R2) kern n p inq p' inq' out x q' :
  drive kern n p inq = (p', inq', out) ->
  reachable s0 (mkConf x p inq q' false) -> reachable s0 (mkConf x p' inq' (q' ++ out) false).
Proof.
  revert p inq out q'; induction n as [|n IH]; intros p inq out q'; simpl.
  { intros [= -> -> <-]. by rewrite app_nil_r. }
  destruct p as [a|c k]; [intros [= <- -> <-]; by rewrite app_nil_r|].
  destruct (kind c) as [m|m|] eqn:Ek.
  - destruct (good c (kern c)) eqn:Eg; [|intros [= <- -> <-]; by rewrite app_nil_r].
    destruct (drive kern n (k (kern c)) inq) as [[p1 inq1] out1] eqn:E. intros [= <- <- <-] H.
    replace (q' ++ m :: out1) with ((q' ++ [m]) ++ out1) by by rewrite <- app_assoc.
    apply (IH _ _ _ _ E). eapply reach_step; [exact H|].
    pose proof (step_right_send c k (kern c) m inq q' false x Ek) as Hs. by rewrite Eg in Hs.
  - destruct inq as [|t inq]; [intros [= <- <- <-]; by rewrite app_nil_r|].
    destruct (bool_decide (t = m) && good c (kern c)) eqn:E; [|intros [= <- <- <-]; by rewrite app_nil_r].
    bool_props. subst t. intros Hd H1. apply (IH _ _ _ _ Hd). eapply reach_step; [exact H1|].
    pose proof (step_right_recv c k (kern c) m m inq q' false x Ek (fun _ => eq_refl)) as Hs.
    by rewrite H0 in Hs.
  - intros Hd H. apply (IH _ _ _ _ Hd). eapply reach_step; [exact H|]. by apply step_right_other.
Qed.

(** The two sides run in turn, [n] times. *)
Fixpoint turns (k1 : forall c, R1 c) (k2 : forall c, R2 c) (n fuel : nat) (p : prog R1 A1) (p' : prog R2 A2)
    (q q' : list M) : conf A1 A2 R1 R2 :=
  match n with
  | O => mkConf p p' q q' false
  | S n =>
      let '(p, q', out) := drive k1 fuel p q' in
      let '(p', q, out') := drive k2 fuel p' (q ++ out) in
      turns k1 k2 n fuel p p' q (q' ++ out')
  end.

Lemma turns_reachable (s0 : conf A1 A2 R1 R2) k1 k2 n fuel p p' q q' :
  reachable s0 (mkConf p p' q q' false) -> reachable s0 (turns k1 k2 n fuel p p' q q').
Proof.
  revert p p' q q'; induction n as [|n IH]; intros p p' q q' H; simpl; [done|].
  destruct (drive k1 fuel p q') as [[p1 q1'] o] eqn:E1.
  destruct (drive k2 fuel p' (q ++ o)) as [[p2 q2] o'] eqn:E2.
  apply IH. eapply drive_right; [exact E2|]. eapply drive_left; [exact E1|done].
Qed.
End drive_pair.
