(* ===== verification/SubID.v ===== *)
(** * Subordinate user and group IDs

    pkg/parent/idtools (the /etc/subuid and /etc/subgid parser),
    pkg/parent/dynidtools (the [getsubids] client) and the part of
    pkg/parent/parent.go that turns ranges into the arguments of [newuidmap]
    and [newgidmap].  Files and commands are parameters: the contents that
    [os.Open] gives access to, and the output of the command. *)
From S2P Require Import Prelude GoStrings.

Record SubIDRange : Set := mkRange {
  Start : Z;
  Length : Z;
}.

#[export] Instance SubIDRange_eq_dec : EqDecision SubIDRange.
Proof. solve_decision. Defined.

(** ** idtools: static files *)
Module idtools.

Definition format_error (path : str) : error :=
  Errorf "Cannot parse subuid/gid information: Format not correct for %s file" [AStr path].
Definition conversion_error (path : str) (e : error) : error :=
  Errorf "String to int conversion failed during subuid/gid parsing of %s: %v" [AStr path].

(** One iteration of the scanner loop: the range the line adds, if any. *)
Definition parse_line (path : str) (uidS username text : str) : result (option SubIDRange) :=
  let text := strings.TrimSpace text in
  if bool_decide (text = []) || strings.HasPrefix text "#" then Ok None
  else
    match strings.Split text ":"%char with
    | [p0; p1; p2] =>
        if bool_decide (p0 = uidS) || (negb (bool_decide (username = [])) && bool_decide (p0 = username))
        then
          startid <-? on_err (strconv.Atoi p1) (conversion_error path) ;;
          length <-? on_err (strconv.Atoi p2) (conversion_error path) ;;
          Ok (Some (mkRange startid length))
        else Ok None
    | _ => Err (format_error path)
    end.

Fixpoint parse_lines (path : str) (uidS username : str) (ls : list str) : result (list SubIDRange) :=
  match ls with
  | [] => Ok []
  | l :: ls' =>
      r <-? parse_line path uidS username l ;;
      rs <-? parse_lines path uidS username ls' ;;
      Ok (match r with Some x => x :: rs | None => rs end)
  end.

(** [parseSubidFile]: [contents] is what opening and reading [path] gives. *)
Definition parseSubidFile (path : str) (contents : result str) (uid : Z) (username : str)
    : result (list SubIDRange) :=
  text <-? contents ;;
  let '(ls, serr) := bufio.lines text in
  rs <-? parse_lines path (strconv.Itoa uid) username ls ;;
  match serr with Some e => Err e | None => Ok rs end.

Definition subuidFileName : str := "/etc/subuid".
Definition subgidFileName : str := "/etc/subgid".

Definition GetSubIDRanges (files : str -> result str) (uid : Z) (username : str)
    : result (list SubIDRange * list SubIDRange) :=
  subuidRanges <-? parseSubidFile subuidFileName (files subuidFileName) uid username ;;
  subgidRanges <-? parseSubidFile subgidFileName (files subgidFileName) uid username ;;
  if bool_decide (subuidRanges = [])
  then Err (Errorf "No subuid ranges found for user %d (%q)" [AInt uid; AStr username])
  else if bool_decide (subgidRanges = [])
  then Err (Errorf "No subgid ranges found for user %d (%q)" [AInt uid; AStr username])
  else Ok (subuidRanges, subgidRanges).

End idtools.

(** ** dynidtools: getsubids *)
Module dynidtools.

(** [seen] is the set of the keys of the Go map [seenKeys]. *)
Fixpoint withoutDuplicates_loop (seen : list SubIDRange) (l : list SubIDRange) : list SubIDRange :=
  match l with
  | [] => []
  | item :: l' =>
      if bool_decide (item ∈ seen) then withoutDuplicates_loop seen l'
      else item :: withoutDuplicates_loop (item :: seen) l'
  end.
Definition withoutDuplicates (l : list SubIDRange) : list SubIDRange := withoutDuplicates_loop [] l.

Definition unparsable (i : Z) (line : str) : error :=
  Errorf "line %d: unparsable line %q" [AInt (i + 1); AStr line].
Definition unknown_fields (i : Z) (line : str) : error :=
  Errorf "line %d: line %q contains unknown fields" [AInt (i + 1); AStr line].

(** The loop of [parseGetsubidsOutput]; results so far are accumulated, and
    are returned next to an error, as the Go function does. *)
Fixpoint parse_output (ls : list str) (i : Z) (res : list SubIDRange) (warns : list error)
    : list SubIDRange * list error * option error :=
  match ls with
  | [] => (res, warns, None)
  | l :: ls' =>
      let line := strings.TrimSpace l in
      if bool_decide (line = []) || strings.HasPrefix line "#" then parse_output ls' (i + 1) res warns
      else
        match strings.Split line ":"%char with
        | [] | [_] => (res, warns, Some (unparsable i line))
        | _ :: s1 :: more =>
            let warns := match more with [] => warns | _ => warns ++ [unknown_fields i line] end in
            match strings.Fields (strings.TrimSpace s1) with
            | _ :: t1 :: t2 :: more' =>
                let warns := match more' with [] => warns | _ => warns ++ [unknown_fields i line] end in
                match strconv.Atoi t1 with
                | Err e => (res, warns, Some (Wrapf "line %d: unparsable line %q: failed to Atoi(%q): %w"
                                               [AInt (i + 1); AStr line; AStr t1] e))
                | Ok start =>
                    match strconv.Atoi t2 with
                    | Err e => (res, warns, Some (Wrapf "line %d: unparsable line %q: failed to Atoi(%q): %w"
                                                   [AInt (i + 1); AStr line; AStr t2] e))
                    | Ok len => parse_output ls' (i + 1) (res ++ [mkRange start len]) warns
                    end
                end
            | _ => (res, warns, Some (unparsable i line))
            end
        end
  end.

Definition parseGetsubidsOutput (out : str) : list SubIDRange * list error * option error :=
  let '(ls, serr) := bufio.lines out in
  let '(res, warns, e) := parse_output ls 0 [] [] in
  (res, warns, match e with Some _ => e | None => serr end).

Section getsubids.
(** the environment variable, [exec.LookPath], and the output of a command *)
Context (GETSUBIDS : str) (LookPath : str -> result str) (Output : list str -> result str).

(** [execGetsubids]: [getsubids [-g] user].  The ranges read before a parse
    error are returned next to it. *)
Definition execGetsubids (exe : str) (g : bool) (s : str) : list SubIDRange * option error :=
  let args := (if g then [lit "-g"] else []) ++ [s] in
  match Output (exe :: args) with
  | Err e => ([], Some (Wrapf "failed to exec %v: %w (stdout=%q, stderr=%q)" [] e))
  | Ok out =>
      let '(ranges, _, e) := parseGetsubidsOutput out in (ranges, e)
  end.

Definition both_failed (g : bool) : str :=
  if g
  then "subid-source:dynamic: failed to get subgids by the username %q: %w; also failed to get subuids by the UID %d: %v"
  else "subid-source:dynamic: failed to get subuids by the username %q: %w; also failed to get subuids by the UID %d: %v".

(** The ranges by user name followed by the ones by UID (lines 39-51 for the
    user IDs, 53-65 for the group IDs); an error when both calls failed. *)
Definition both (exe : str) (g : bool) (uid : Z) (username : str) : result (list SubIDRange) :=
  let '(byUsername, byUsernameErr) := execGetsubids exe g username in
  let '(byUID, byUIDErr) := execGetsubids exe g (strconv.Itoa uid) in
  match byUsernameErr, byUIDErr with
  | Some e, Some _ => Err (Wrapf (both_failed g) [AStr username; AInt uid] e)
  | _, _ => Ok (byUsername ++ byUID)
  end.

Definition GetSubIDRanges (uid : Z) (username : str) : result (list SubIDRange * list SubIDRange) :=
  let getsubidsExeName := if bool_decide (GETSUBIDS = []) then lit "getsubids" else GETSUBIDS in
  getsubidsExe <-? on_err (LookPath getsubidsExeName) (Wrapf "subid-source:dynamic: %w" []) ;;
  u <-? both getsubidsExe false uid username ;;
  g <-? both getsubidsExe true uid username ;;
  Ok (withoutDuplicates u, withoutDuplicates g).
End getsubids.

End dynidtools.

(** ** parent.go: choosing the source and building the id maps *)

(** the fields of [user.User] that are used *)
Record User : Set := mkUser {
  Uid : str;
  Gid : str;
  Username : str;
}.

Section sources.
Context (static_ids dynamic_ids : Z -> str -> result (list SubIDRange * list SubIDRange)).

(** [getSubIDRanges]; its two recursive calls are on the fixed sources. *)
Definition getSubIDRanges (u : User) (subidSource : str) : result (list SubIDRange * list SubIDRange) :=
  uid <-? strconv.Atoi (Uid u) ;;
  if bool_decide (subidSource = "static") then static_ids uid (Username u)
  else if bool_decide (subidSource = "dynamic") then dynamic_ids uid (Username u)
  else if bool_decide (subidSource = []) || bool_decide (subidSource = "auto") then
    match dynamic_ids uid (Username u) with
    | Ok (subuidRanges, subgidRanges) =>
        if (0 <? length subuidRanges)%nat && (0 <? length subgidRanges)%nat
        then Ok (subuidRanges, subgidRanges)
        else static_ids uid (Username u)
    | Err _ => static_ids uid (Username u)
    end
  else Err (Errorf "unknown subid source %q" [AStr subidSource]).
End sources.

(** One of the two loops of [newugidmapArgsFromSubIDRanges]: the arguments for
    the ranges, when [last] container IDs are already mapped. *)
Fixpoint idmap_args (last : Z) (rs : list SubIDRange) : list str :=
  match rs with
  | [] => []
  | f :: rs' =>
      [strconv.Itoa last; strconv.Itoa (Start f); strconv.Itoa (Length f)]
      ++ idmap_args (wrap64 (last + Length f)) rs'
  end.

Definition newugidmapArgsFromSubIDRanges (u : User) (subuidRanges subgidRanges : list SubIDRange)
    : list str * list str :=
  ([lit "0"; Uid u; lit "1"] ++ idmap_args 1 subuidRanges,
   [lit "0"; Gid u; lit "1"] ++ idmap_args 1 subgidRanges).

(** The repository's own test case. *)
Example newugidmapArgs_test :
  fst (newugidmapArgsFromSubIDRanges (mkUser "1000" "1000" "u")
    [mkRange 100000 65536; mkRange 200000 65536] []) =
  map lit ["0"; "1000"; "1"; "1"; "100000"; "65536"; "65537"; "200000"; "65536"]%string.
Proof. vm_compute. reflexivity. Qed.

(** ** The id map covers the container IDs without gap or overlap *)

(** An entry of /proc/pid/uid_map: container ID, host ID, length. *)
Record idmap : Set := mkIdmap { inside : Z; outside : Z; count : Z }.

(** How the kernel reads the argument triples. *)
Fixpoint parse_idmaps (args : list str) : result (list idmap) :=
  match args with
  | [] => Ok []
  | a :: b :: c :: args' =>
      i <-? strconv.Atoi a ;; o <-? strconv.Atoi b ;; n <-? strconv.Atoi c ;;
      ms <-? parse_idmaps args' ;;
      Ok (mkIdmap i o n :: ms)
  | _ => Err (Extern "not a triple")
  end.

Definition maps_id (m : idmap) (id : Z) : Prop := inside m <= id < inside m + count m.

Definition total (rs : list SubIDRange) : Z := fold_right (fun r a => Length r + a) 0 rs.

Definition range_ok (r : SubIDRange) : Prop := in_int64 (Start r) = true /\ 0 < Length r.

(** The entries for ranges that start at container ID [last]. *)
Fixpoint idmaps_from (last : Z) (rs : list SubIDRange) : list idmap :=
  match rs with
  | [] => []
  | f :: rs' => mkIdmap last (Start f) (Length f) :: idmaps_from (last + Length f) rs'
  end.

Lemma total_nonneg rs : Forall range_ok rs -> 0 <= total rs.
Proof. induction 1 as [|r rs [_ Hr] _ IH]; simpl; lia. Qed.

Lemma in_int64_intro z : int_min <= z <= int_max -> in_int64 z = true.
Proof. unfold in_int64. intros H. rewrite andb_true_iff, !Z.leb_le. lia. Qed.

Lemma parse_idmap_args last rs :
  Forall range_ok rs -> 0 <= last -> last + total rs <= int_max ->
  parse_idmaps (idmap_args last rs) = Ok (idmaps_from last rs).
Proof.
  intros H. revert last; induction H as [|r rs [Hs Hl] Hrs IH]; intros last H0 Hmax; [done|].
  simpl in Hmax. pose proof (total_nonneg _ Hrs). simpl.
  rewrite !Atoi_Itoa by (done || apply in_int64_intro; unfold int_min; lia). cbn [rbind].
  rewrite wrap64_id by (apply in_int64_intro; unfold int_min; lia).
  rewrite IH by lia. done.
Qed.

Lemma idmaps_from_bounds last rs m id :
  Forall range_ok rs -> m ∈ idmaps_from last rs -> maps_id m id -> last <= id < last + total rs.
Proof.
  intros H. revert last; induction H as [|r rs [_ Hl] Hrs IH]; intros last Hm Hid; simpl in *.
  - by apply elem_of_nil in Hm.
  - pose proof (total_nonneg _ Hrs). apply elem_of_cons in Hm as [->|Hm]; unfold maps_id in *; simpl in *; [lia|].
    specialize (IH _ Hm Hid). lia.
Qed.

Lemma idmaps_from_cover last rs id :
  Forall range_ok rs -> last <= id < last + total rs ->
  exists m, m ∈ idmaps_from last rs /\ maps_id m id /\
    (forall m', m' ∈ idmaps_from last rs -> maps_id m' id -> m' = m).
Proof.
  intros H. revert last; induction H as [|r rs [Hs Hl] Hrs IH]; intros last Hid; simpl in *; [lia|].
  destruct (decide (id < last + Length r)) as [Hin|Hout].
  - exists (mkIdmap last (Start r) (Length r)). split; [set_solver|]. split; [unfold maps_id; simpl; lia|].
    intros m' Hm' Hid'. apply elem_of_cons in Hm' as [->|Hm']; [done|].
    pose proof (idmaps_from_bounds _ _ _ _ Hrs Hm' Hid'). lia.
  - destruct (IH (last + Length r)) as (m & Hm & Hmid & Huniq); [lia|].
    exists m. split; [set_solver|]. split; [done|]. intros m' Hm' Hid'.
    apply elem_of_cons in Hm' as [->|Hm']; [unfold maps_id in Hid'; simpl in Hid'; lia|by apply Huniq].
Qed.

(** C24: the arguments of [newuidmap] map every container ID from 0 up to the
    total length of the ranges exactly once: ID 0 to the user itself, the
    others to the ranges in order, without gap or overlap. *)
Theorem newuidmap_bijective (u : User) (rs grs : list SubIDRange) (uid : Z) :
  strconv.Atoi (Uid u) = Ok uid -> Forall range_ok rs -> 1 + total rs <= int_max ->
  exists ms, parse_idmaps (fst (newugidmapArgsFromSubIDRanges u rs grs)) = Ok (mkIdmap 0 uid 1 :: ms) /\
    map (fun m => (outside m, count m)) ms = map (fun r => (Start r, Length r)) rs /\
    forall id, 0 <= id < 1 + total rs ->
      exists m, m ∈ mkIdmap 0 uid 1 :: ms /\ maps_id m id /\
        (forall m', m' ∈ mkIdmap 0 uid 1 :: ms -> maps_id m' id -> m' = m).
Proof.
  intros Hu Hrs Hmax. exists (idmaps_from 1 rs). split; [|split].
  - simpl. rewrite Hu. cbn [rbind]. by rewrite parse_idmap_args by (done || lia).
  - clear. generalize 1 as last. induction rs as [|r rs IH]; intros last; [done|]. simpl. by rewrite IH.
  - intros id Hid. change (mkIdmap 0 uid 1 :: idmaps_from 1 rs) with
      (idmaps_from 0 (mkRange uid 1 :: rs)).
    apply idmaps_from_cover; [|simpl; lia]. constructor; [|done]. split; [by eapply Atoi_range|simpl; lia].
Qed.

Theorem newuidmap_bijective_witness :
  exists ms, parse_idmaps (fst (newugidmapArgsFromSubIDRanges (mkUser "1000" "1000" "u")
    [mkRange 100000 65536; mkRange 200000 65536] [])) = Ok (mkIdmap 0 1000 1 :: ms).
Proof.
  assert (Forall range_ok [mkRange 100000 65536; mkRange 200000 65536]) as H.
  { repeat constructor; try (vm_compute; reflexivity); simpl; lia. }
  assert (strconv.Atoi (Uid (mkUser "1000" "1000" "u")) = Ok 1000) as Hu by (vm_compute; reflexivity).
  assert (1 + total [mkRange 100000 65536; mkRange 200000 65536] <= int_max) as Hm
    by (unfold int_max; simpl; lia).
  destruct (newuidmap_bijective (mkUser "1000" "1000" "u") _ [] 1000 Hu H Hm) as (ms & Hp & _).
  exists ms. exact Hp.
Defined.

(** ** Duplicates *)

Lemma withoutDuplicates_loop_spec seen l x :
  x ∈ dynidtools.withoutDuplicates_loop seen l <-> x ∈ l /\ x ∉ seen.
Proof.
  revert seen; induction l as [|y l IH]; intros seen; simpl.
  - set_solver.
  - case_bool_decide as Hy; [rewrite IH|rewrite elem_of_cons, IH].
    + set_solver.
    + destruct (decide (x = y)) as [->|]; set_solver.
Qed.

Lemma withoutDuplicates_loop_NoDup seen l : NoDup (dynidtools.withoutDuplicates_loop seen l).
Proof.
  revert seen; induction l as [|y l IH]; intros seen; simpl; [constructor|].
  case_bool_decide; [done|]. constructor; [|done]. rewrite withoutDuplicates_loop_spec. set_solver.
Qed.

Lemma withoutDuplicates_loop_sublist seen l : sublist (dynidtools.withoutDuplicates_loop seen l) l.
Proof.
  revert seen; induction l as [|y l IH]; intros seen; simpl; [constructor|].
  case_bool_decide; by constructor.
Qed.

(** [withoutDuplicates] keeps every range once, in the original order. *)
Theorem withoutDuplicates_spec (l : list SubIDRange) :
  NoDup (dynidtools.withoutDuplicates l) /\ sublist (dynidtools.withoutDuplicates l) l /\
  forall x, x ∈ dynidtools.withoutDuplicates l <-> x ∈ l.
Proof.
  unfold dynidtools.withoutDuplicates. split; [apply withoutDuplicates_loop_NoDup|].
  split; [apply withoutDuplicates_loop_sublist|]. intros x. rewrite withoutDuplicates_loop_spec. set_solver.
Qed.

(** ** Choosing the source *)

(** With the source "auto" (or none given), the dynamic ranges are used
    exactly when [getsubids] succeeds and yields both user and group ranges;
    in every other case the answer is that of the static files. *)
Theorem getSubIDRanges_auto (st dyn : Z -> str -> result (list SubIDRange * list SubIDRange))
    (u : User) (uid : Z) (src : str) :
  strconv.Atoi (Uid u) = Ok uid -> src = [] \/ src = lit "auto" ->
  (exists us gs, dyn uid (Username u) = Ok (us, gs) /\ us <> [] /\ gs <> [] /\
     getSubIDRanges st dyn u src = Ok (us, gs)) \/
  ((forall us gs, dyn uid (Username u) = Ok (us, gs) -> us = [] \/ gs = []) /\
   getSubIDRanges st dyn u src = getSubIDRanges st dyn u "static").
Proof.
  intros Hu Hs. unfold getSubIDRanges. rewrite Hu. cbn [rbind].
  assert (bool_decide (src = lit "static") = false /\ bool_decide (src = lit "dynamic") = false /\
    (bool_decide (src = []) || bool_decide (src = lit "auto")) = true) as (-> & -> & ->)
    by (destruct Hs as [-> | ->]; vm_compute; auto).
  rewrite (bool_decide_eq_true_2 (lit "static" = lit "static")) by done.
  destruct (dyn uid (Username u)) as [[us gs]|e].
  - destruct us as [|a us], gs as [|b gs]; simpl.
    1-3: right; split; [intros ? ? [= <- <-]; auto|done].
    left. exists (a :: us), (b :: gs). done.
  - right. split; [done|reflexivity].
Qed.

Theorem getSubIDRanges_auto_witness :
  getSubIDRanges (fun _ _ => Ok ([mkRange 5 6], [mkRange 7 8])) (fun _ _ => Err (Extern "no getsubids"))
    (mkUser "1000" "1000" "u") "auto" = Ok ([mkRange 5 6], [mkRange 7 8]).
Proof.
  assert (strconv.Atoi (Uid (mkUser "1000" "1000" "u")) = Ok 1000) as Hu by (vm_compute; reflexivity).
  destruct (getSubIDRanges_auto (fun _ _ => Ok ([mkRange 5 6], [mkRange 7 8])) (fun _ _ => Err (Extern "no getsubids"))
    _ _ (lit "auto") Hu (or_intror eq_refl)) as [(us & gs & H & _)|[_ H]]; [discriminate|].
  rewrite H. vm_compute. reflexivity.
Defined.
