(* ===== verification/Sys.v ===== *)
(** * The operations of the kernel, the Go runtime and the drivers

    One constructor per operation that the parent, the child and the drivers
    call, with the type of its response.  A program of the development is a
    [prog] over this signature; logging is left out.  Files, pipes, sockets
    and processes are named by numbers; a path is a string. *)
From S2P Require Import Prelude GoStrings NetIP PortSpec Effects Framing Messages Sessions SubID.
Import messages.

(** Mount flags (include/uapi/linux/mount.h). *)
Definition MS_RDONLY : Z := 1.
Definition MS_BIND : Z := 4096.
Definition MS_MOVE : Z := 8192.
Definition MS_REC : Z := 16384.
Definition MS_PRIVATE : Z := 262144.
Definition MS_SLAVE : Z := 524288.
Definition MS_SHARED : Z := 1048576.

(** Clone flags (include/uapi/linux/sched.h). *)
Definition CLONE_NEWNS : Z := 131072.
Definition CLONE_NEWCGROUP : Z := 33554432.
Definition CLONE_NEWUTS : Z := 67108864.
Definition CLONE_NEWIPC : Z := 134217728.
Definition CLONE_NEWUSER : Z := 268435456.
Definition CLONE_NEWPID : Z := 536870912.
Definition CLONE_NEWNET : Z := 1073741824.

(** [exec.Cmd]: the fields the program sets *)
Record Cmd : Set := mkCmd {
  Argv : list str;
  Env : option (list str);          (** None: inherited *)
  ExtraFiles : list Z;
  Cloneflags : Z;
  Unshareflags : Z;
  Pdeathsig : bool;
  Setsid : bool;
}.

Definition simple_cmd (argv : list str) : Cmd := mkCmd argv None [] 0 0 false false.

(** What [os.ReadDir] says of an entry. *)
Record DirEntry : Set := mkDirEntry { de_name : str; de_symlink : bool }.

(** [port.ChildContext] *)
Record ChildContext : Set := mkChildContext {
  cc_IP : option net.IP;
  cc_Network : option Z;
  cc_GatewayIP : option net.IP;
}.

(** [syscall.WaitStatus] *)
Definition WaitStatus : Set := Z.

(** A DHCP message, as far as it is used: github.com/insomniacslk/dhcp. *)
Record DHCPv4 : Set := mkDHCPv4 {
  is_Ack : bool;
  YourIPAddr : net.IP;
  Router : list net.IP;
  dhcp_DNS : list net.IP;
  SubnetMask_ones : Z;
  LeaseTime : option Z;             (** in nanoseconds; None: the option is missing *)
}.

(** The configuration of a virtual network of gvisor-tap-vsock. *)
Record VNConfig : Set := mkVNConfig {
  vn_MTU : Z;
  vn_Subnet : str;
  vn_GatewayIP : str;
  vn_NAT : list (str * str);
}.

Inductive sys : Set :=
  (* environment and identity *)
  | Getenv (k : str) | Setenv (k v : str) | Unsetenv (k : str) | Environ | OsArgs
  | Getpid | Geteuid | Getegid | UserCurrent | GetSubIDRanges (u : User) (source : str)
  | OsExecutable | Hostname
  (* files *)
  | Stat (path : str) | StatIno (path : str) | OpenDir (path : str)
  | FlockShared (fd : Z)
  | TryLock (path : str) | Unlock (path : str)
  | ReadFile (path : str) | WriteFile (path data : str) (mode : Z)
  | RemoveAll (path : str) | MkdirAll (path : str) (mode : Z) | MkdirTemp (dir pat : str)
  | ReadDir (path : str) | Readlink (path : str) | Symlink (src dst : str)
  | Mount (src tgt fstype : str) (flags : Z) (data : str)
  | GetMountPoints (fstype : str) | RootMountOptional
  | Warn (w : error)
  (* descriptors *)
  | OsPipe | Close (fd : Z)
  | Send (fd : Z) (m : Message) | WaitFor (fd : Z) (t : msg_type)
  | Listen (network addr : str) | Serve (l : Z) | CloseServer
  (* processes and threads *)
  | StartCmd (c : Cmd) | WaitCmd (pid : Z) | CombinedOutput (argv : list str)
  | CombinedOutputAs (path : str) (argv : list str)
  | RunCmd (argv : list str) | Execve (path : str) (argv env : list str) | Capget
  | PrctlPdeathsig | NotifySIGCHLD | NextSIGCHLD | Wait4 | Sleep (ms : Z)
  | InNetNS (path : str) | LeaveNetNS
  | ForwardAllSignals (pid : Z) | StopCatch
  (* the network driver of the parent and of the child *)
  | ConfigureNetwork (pid : Z) (stateDir netns : str) | CleanupNetwork
  | ConfigureNetworkChild (m : NetMsg) (netns : str) | ConfiguresInterface
  (* the port driver, which runs in a goroutine of its own *)
  | OpaqueForChild | GoRunParentDriver (cc : ChildContext) | WaitPortDriver
  | AddPort (p : port.Spec) | QuitPortDriver | PortDriverErr
  | GoRunChildDriver (opaque : list (str * str)) (netns : str)
  (* the helpers of the network drivers *)
  | LookPath (file : str) | PrctlSeccomp (set : bool)
  | ReadReady (fd : Z) | Wait4NoHang (pid : Z) | KillProcess (pid : Z)
  | NewVirtualNetwork (c : VNConfig) | GoAcceptConnections (l : Z) | CancelContext
  | ContextDone | Accept (l : Z) | GoHandleConnection (c : Z) | LoadVN | AcceptStdio (vn c : Z)
  | VmnetNew (socket : str) | VmnetConnect (vm : Z) (uuid : str) | VmnetClose (vm : Z) | NewUUID
  | DoneWithin (ns : Z)
  | DHCPExchange (dev : str) | GoDHCPRenew (dev : str) (initial : net.IP) (lease : Z) | SleepNs (ns : Z)
  | OpenTap (name : str) | DialUnix (path : str) | GoForward (a b : Z)
  (* the command line *)
  | LookupEnv (k : str) | Getwd | UnameMachine | Mkfifo (path : str) (mode : Z)
  | ParseSemver (v : str) | Println (s : str)
  (* pkg/sigproxy *)
  | NotifySignals (sigs : list Z) | Kill (pid sig : Z).

(** The responses.  [WaitFor] is [messages.WaitFor]; [GetSubIDRanges] is
    [SubID.getSubIDRanges] with the files and commands it reads;
    [WaitPortDriver] is the [select] on the two channels of the port driver:
    [None] when it is ready, [Some r] when it has returned [r]; [Execve] only returns
    [Err]: on success the process starts again from [main], which is what the
    response [Ok tt] stands for.  [ReadReady] is a read with a deadline of a
    second ([None] on timeout); [PrctlSeccomp] says whether prctl(2) gave no
    EINVAL; [DHCPExchange] is [None] when it was interrupted; [DoneWithin] is the [select] on
    a context and a timer. *)
Definition res (c : sys) : Type :=
  match c with
  | Getenv _ => str
  | Environ | OsArgs => list str
  | Getpid | Geteuid | Getegid => Z
  | UserCurrent => result User
  | GetSubIDRanges _ _ => result (list SubIDRange * list SubIDRange)
  | OsExecutable | Hostname | ReadFile _ | MkdirTemp _ _ | Readlink _ => result str
  | Stat _ => result bool
  | StatIno _ | OpenDir _ | Listen _ _ => result Z
  | TryLock _ => result bool
  | Capget => result Z
  | ReadDir _ => result (list DirEntry)
  | GetMountPoints _ | RootMountOptional => result (list str)
  | OsPipe => result (Z * Z)
  | WaitFor _ _ => result Message
  | StartCmd _ => result Z
  | CombinedOutput _ | CombinedOutputAs _ _ => str * option error
  | NextSIGCHLD => unit
  | Wait4 => result (Z * WaitStatus)
  | ConfigureNetwork _ _ _ => NetMsg * bool * option error
  | ConfigureNetworkChild _ _ => result (str * NetMsg)
  | ConfiguresInterface => bool
  | OpaqueForChild => list (str * str)
  | AddPort _ => result port.Status
  | FlockShared _ | WriteFile _ _ _ | RemoveAll _ | MkdirAll _ _ | Symlink _ _ | Mount _ _ _ _ _
  | Close _ | Send _ _ | CloseServer | WaitCmd _ | RunCmd _ | Execve _ _ _ | PrctlPdeathsig
  | InNetNS _ | PortDriverErr => result unit
  | WaitPortDriver => option (result unit)
  | LookPath _ => result str
  | PrctlSeccomp _ => bool
  | ReadReady _ => option (result unit)
  | Wait4NoHang _ => result (Z * WaitStatus)
  | NewVirtualNetwork _ | VmnetNew _ | DialUnix _ => result Z
  | VmnetConnect _ _ => result (net.IP * str)
  | NewUUID => str
  | ContextDone => bool
  | Accept _ => result Z
  | LoadVN => option Z
  | AcceptStdio _ _ => result unit
  | DoneWithin _ => bool
  | DHCPExchange _ => option (result (list DHCPv4))
  | OpenTap _ => result (Z * str)
  | VmnetClose _ | Mkfifo _ _ | Kill _ _ => result unit
  | LookupEnv _ => option str
  | Getwd => result str
  | UnameMachine => result str
  | ParseSemver _ => result (Z * Z * Z)
  | _ => unit
  end.

Abbreviation io := (prog res).
Abbreviation call := (@Effects.call sys res).

(** [return fmt.Errorf(...)] *)
Definition fail {A} (e : error) : io (result A) := Ret (Err e).

(** ** Communication

    The messages of the handshake are the communication calls of a process. *)
Definition sys_kind (c : sys) : ckind msg_type :=
  match c with
  | Send _ m => match message_type m with Some t => KSend t | None => KOther end
  | WaitFor _ t => KRecv t
  | _ => KOther
  end.

Definition sys_good (c : sys) : res c -> bool :=
  match c with
  | Send _ _ => fun r => is_ok r
  | WaitFor _ _ => fun r => is_ok r
  | _ => fun _ => true
  end.

#[export] Instance sys_Comm : Comm msg_type sys res := {
  kind := sys_kind;
  good := sys_good;
}.

(** Calls that are not part of the handshake. *)
Definition not_comm (c : sys) : bool :=
  match c with Send _ _ | WaitFor _ _ => false | _ => true end.

Lemma script_quiet (c : sys) (r : res c) (s : list (action msg_type)) : not_comm c = true -> script_step s c r = Some s.
Proof. by destruct c. Qed.

Lemma follows_quiet {A} (p : io A) s Q : only not_comm p -> (forall a, Q a s) -> follows p s Q.
Proof. intros Hp HQ. apply (tracks_only _ not_comm); [done|intros; by apply script_quiet|done]. Qed.

Lemma follows_bquiet {A B} (p : io A) (f : A -> io B) s Q :
  only not_comm p -> (forall a, follows (f a) s Q) -> follows (bind p f) s Q.
Proof. intros Hp Hf. by apply tracks_bind, follows_quiet. Qed.

(** What a script leaves does not matter when a program fails. *)
Definition errs {A} (Q : result A -> list (action msg_type) -> Prop) : Prop := forall e s, Q (Err e) s.

Lemma follows_equiet {A B} (p : io (result A)) (f : A -> io (result B)) s Q :
  errs Q -> only not_comm p -> (forall a, follows (f a) s Q) -> follows (ebind p f) s Q.
Proof. intros HQ Hp Hf. apply follows_bquiet; [done|]. intros [a|e]; [apply Hf|apply HQ]. Qed.

Lemma follows_Send {A} fd m t (k : unit -> io (result A)) s Q :
  errs Q -> message_type m = Some t -> follows (k tt) s Q -> follows (ebind (call (Send fd m)) k) (ASend t :: s) Q.
Proof.
  intros HQ Hm Hk r. simpl. unfold script_step. simpl. rewrite Hm, bool_decide_eq_true_2 by done.
  destruct r as [[]|e]; [done|apply HQ].
Qed.

Lemma follows_WaitFor {A} fd t (k : Message -> io (result A)) s Q :
  errs Q -> (forall m, follows (k m) s Q) -> follows (ebind (call (WaitFor fd t)) k) (ARecv t :: s) Q.
Proof.
  intros HQ Hk r. simpl. unfold script_step. simpl. rewrite bool_decide_eq_true_2 by done.
  destruct r as [m|e]; [apply Hk|apply HQ].
Qed.

Lemma follows_defer {A} (d : io unit) (p : io A) s Q :
  only not_comm d -> follows p s Q -> follows (defer d p) s Q.
Proof. intros Hd Hp. apply (tracks_defer _ not_comm); [intros; by apply script_quiet|done..]. Qed.

(** ** A kernel in which everything succeeds, for concrete runs *)
Definition ok_kernel (c : sys) : res c :=
  match c return res c with
  | Getenv _ => []
  | Environ | OsArgs => []
  | Getpid | Geteuid | Getegid => 1
  | UserCurrent => Ok (mkUser "1000" "1000" "user")
  | GetSubIDRanges _ _ => Ok ([mkRange 100000 65536], [mkRange 100000 65536])
  | OsExecutable | Hostname | ReadFile _ | MkdirTemp _ _ | Readlink _ => Ok []
  | Stat _ | TryLock _ => Ok true
  | Capget => Ok 1
  | StatIno _ | OpenDir _ | Listen _ _ => Ok 10
  | ReadDir _ => Ok []
  | GetMountPoints _ | RootMountOptional => Ok []
  | OsPipe => Ok (11, 12)
  | WaitFor _ t =>
      match t with
      | TParentHello => Ok hello_parent
      | TChildHello => Ok hello_child
      | TParentInitIdmapCompleted => Ok idmap_done
      | TChildInitUserNSCompleted => Ok userns_done
      | TParentInitNetworkDriverCompleted => Ok (network_done empty_NetMsg)
      | TParentInitPortDriverCompleted => Ok (port_done (mkPortMsg []))
      end
  | StartCmd _ => Ok 100
  | CombinedOutput _ | CombinedOutputAs _ _ => ([], None)
  | Wait4 => Ok (100, 0)
  | ConfigureNetwork _ _ _ => (empty_NetMsg, true, None)
  | ConfigureNetworkChild m _ => Ok (lit "tap0", m)
  | ConfiguresInterface => false
  | OpaqueForChild => []
  | AddPort p => Ok (port.mkStatus 1 p)
  | WaitPortDriver => None
  | FlockShared _ | WriteFile _ _ _ | RemoveAll _ | MkdirAll _ _ | Symlink _ _ | Mount _ _ _ _ _
  | Close _ | Send _ _ | CloseServer | WaitCmd _ | RunCmd _ | Execve _ _ _ | PrctlPdeathsig
  | InNetNS _ | PortDriverErr => Ok tt
  | Setenv _ _ | Unsetenv _ | Unlock _ | Warn _ | Serve _ | NotifySIGCHLD | NextSIGCHLD | Sleep _
  | LeaveNetNS | ForwardAllSignals _ | StopCatch | CleanupNetwork | GoRunParentDriver _
  | QuitPortDriver | GoRunChildDriver _ _ => tt
  | LookPath f => Ok f
  | PrctlSeccomp _ => true
  | ReadReady _ => Some (Ok tt)
  | Wait4NoHang pid => Ok (0, 0)
  | NewVirtualNetwork _ | VmnetNew _ | DialUnix _ => Ok 20
  | VmnetConnect _ _ => Ok ([192; 168; 65; 3], lit "02:50:00:00:00:01")
  | ContextDone => true
  | Accept _ => Ok 22
  | LoadVN => Some 20
  | AcceptStdio _ _ => Ok tt
  | NewUUID => "7a3c7d1e-0000-4000-8000-000000000000"
  | DoneWithin _ => false
  | DHCPExchange _ => Some (Ok [mkDHCPv4 true [10; 0; 3; 20] [[10; 0; 3; 1]] [[10; 0; 3; 1]] 24 None])
  | OpenTap name => Ok (21, name)
  | VmnetClose _ | Mkfifo _ _ | Kill _ _ => Ok tt
  | LookupEnv _ => None
  | Getwd => Ok (lit "/")
  | UnameMachine => Ok (lit "x86_64")
  | ParseSemver _ => Ok (3, 0, 0)
  | Println _ | NotifySignals _ => tt
  | KillProcess _ | GoAcceptConnections _ | GoHandleConnection _ | CancelContext | GoDHCPRenew _ _ _ | SleepNs _ | GoForward _ _ => tt
  end.
