(* ===== verification/Cgroup.v ===== *)
(** * pkg/parent/cgrouputil: moving the processes of a cgroup into a subgroup

    Before the child is configured, the parent can evacuate the processes of
    its own cgroup into a new subgroup, so that the controllers can be enabled
    for all the subgroups. *)
From S2P Require Import Prelude GoStrings Effects Sys.

(** [getCgroup2FromProcPidCgroup]: the path of the line that starts with 0:: *)
Definition getCgroup2FromProcPidCgroup (b : str) : str :=
  match List.find (fun l => strings.HasPrefix l "0::") (strings.Split b "010"%char) with
  | Some l => strings.TrimPrefix l "0::"
  | None => []
  end.

Definition getCgroup2 (pid : Z) : io str :=
  let p := lit "/proc/" ++ strconv.Itoa pid ++ lit "/cgroup" in
  r <- call (ReadFile p) ;;
  match r with
  | Err e => _ <- call (Warn (Wrapf "failed to read %q" [AStr p] e)) ;; Ret []
  | Ok b => Ret (getCgroup2FromProcPidCgroup b)
  end.

Definition findCgroup2Mountpoint : io str :=
  r <- call (GetMountPoints "cgroup2") ;;
  match r with
  | Err e => _ <- call (Warn (Wrapf "failed to find mountpoint for cgroup2" [] e)) ;; Ret []
  | Ok [] => Ret []
  | Ok [m] => Ret m
  | Ok (m :: ms) =>
      _ <- call (Warn (Errorf "expected single mountpoint for cgroup2, got %d" [AInt (1 + Z.of_nat (length ms))])) ;;
      Ret m
  end.

(** One iteration of the loop over cgroup.procs. *)
Definition evacuate_pid (newPath newGroup pidStr : str) : io unit :=
  if bool_decide (pidStr = []) || bool_decide (pidStr = lit "0") then Ret tt
  else
    r <- call (WriteFile (filepath.Join [newPath; lit "cgroup.procs"]) pidStr 420) ;;
    match r with
    | Ok _ => Ret tt
    | Err e => call (Warn (Wrapf "failed to move process %s to cgroup %q" [AStr pidStr; AStr newGroup] e))
    end.

(** One iteration of the loop over cgroup.controllers. *)
Definition enable_controller (oldPath controller : str) : io unit :=
  r <- call (WriteFile (filepath.Join [oldPath; lit "cgroup.subtree_control"]) (lit "+" ++ controller) 420) ;;
  match r with
  | Ok _ => Ret tt
  | Err e => call (Warn (Wrapf "failed to enable controller %q" [AStr controller] e))
  end.

Definition EvacuateCgroup2 (evac : str) : io (result unit) :=
  if bool_decide (evac = []) then fail (errors_New "got empty evacuation group name")
  else if strings.Contains evac "/" then
    fail (Errorf (lit "unexpected evacuation group name %q: must not contain " ++ quoted "/") [AStr evac])
  else
    mountpoint <- findCgroup2Mountpoint ;;
    if bool_decide (mountpoint = []) then
      _ <- call (Warn (errors_New "cgroup2 is not mounted. cgroup2 evacuation is discarded.")) ;; Ret (Ok tt)
    else
      pid <- call Getpid ;;
      oldGroup <- getCgroup2 pid ;;
      if bool_decide (mountpoint = []) then
        _ <- call (Warn (errors_New "process is not running with cgroup2. cgroup2 evacuation is discarded.")) ;;
        Ret (Ok tt)
      else
        let newGroup := filepath.Join [oldGroup; evac] in
        let oldPath := filepath.Join [mountpoint; oldGroup] in
        let newPath := filepath.Join [mountpoint; newGroup] in
        _ <-! call (MkdirAll newPath 493) ;;
        cgroupProcsBytes <-! call (ReadFile (filepath.Join [oldPath; lit "cgroup.procs"])) ;;
        _ <- for_all (strings.Split cgroupProcsBytes "010"%char) (evacuate_pid newPath newGroup) ;;
        controllerBytes <-! call (ReadFile (filepath.Join [oldPath; lit "cgroup.controllers"])) ;;
        _ <- for_all (strings.Fields controllerBytes) (enable_controller oldPath) ;;
        Ret (Ok tt).

(** ** What evacuation does *)

(** The calls that change the file system. *)
Definition changes_files (c : sys) : bool :=
  match c with WriteFile _ _ _ | MkdirAll _ _ | RemoveAll _ => true | _ => false end.

(** The processes that are moved: the lines of cgroup.procs except 0, which
    stands for a process of another PID namespace. *)
Definition movable (procs : str) : list str :=
  List.filter (fun p => negb (bool_decide (p = []) || bool_decide (p = lit "0")))
    (strings.Split procs "010"%char).

Lemma evacuate_pid_writes kern newPath newGroup p :
  List.filter changes_files (exec kern (evacuate_pid newPath newGroup p)).2 =
  if negb (bool_decide (p = []) || bool_decide (p = lit "0"))
  then [WriteFile (filepath.Join [newPath; lit "cgroup.procs"]) p 420] else [].
Proof.
  unfold evacuate_pid. destruct (bool_decide (p = []) || bool_decide (p = lit "0")); [done|].
  simpl. by destruct (kern (WriteFile _ _ _)).
Qed.

Lemma enable_controller_writes kern oldPath c :
  List.filter changes_files (exec kern (enable_controller oldPath c)).2 =
  [WriteFile (filepath.Join [oldPath; lit "cgroup.subtree_control"]) (lit "+" ++ c) 420].
Proof. unfold enable_controller. simpl. by destruct (kern (WriteFile _ _ _)). Qed.

Lemma filter_concat_map {A B} (f : B -> bool) (g : A -> list B) l :
  List.filter f (concat (map g l)) = concat (map (fun x => List.filter f (g x)) l).
Proof. induction l as [|x l IH]; simpl; [done|]. by rewrite List.filter_app, IH. Qed.

Lemma evacuate_all_writes kern newPath newGroup procs :
  List.filter changes_files
    (exec kern (for_all (strings.Split procs "010"%char) (evacuate_pid newPath newGroup))).2 =
  map (fun p => WriteFile (filepath.Join [newPath; lit "cgroup.procs"]) p 420) (movable procs).
Proof.
  rewrite exec_for_all, filter_concat_map. unfold movable.
  induction (strings.Split procs _) as [|p ps IH]; simpl; [done|].
  rewrite evacuate_pid_writes, IH. by destruct (negb _).
Qed.

Lemma enable_all_writes kern oldPath ctls :
  List.filter changes_files (exec kern (for_all ctls (enable_controller oldPath))).2 =
  map (fun c => WriteFile (filepath.Join [oldPath; lit "cgroup.subtree_control"]) (lit "+" ++ c) 420) ctls.
Proof.
  rewrite exec_for_all, filter_concat_map.
  induction ctls as [|c cs IH]; cbn [map concat]; [done|]. by rewrite enable_controller_writes, IH.
Qed.

Section evacuation.
Context (kern : forall c : sys, res c) (evac mp b procs ctls : str) (pid : Z).
Let oldGroup : str := getCgroup2FromProcPidCgroup b.
Let oldPath : str := filepath.Join [mp; oldGroup].
Let newPath : str := filepath.Join [mp; filepath.Join [oldGroup; evac]].

(** The kernel shows one cgroup2 mount and lets the files be read and the
    group be made. *)
Record cgroup2_kernel : Prop := {
  ck_mount : kern (GetMountPoints "cgroup2") = Ok [mp];
  ck_pid : kern Getpid = pid;
  ck_group : kern (ReadFile (lit "/proc/" ++ strconv.Itoa pid ++ lit "/cgroup")) = Ok b;
  ck_mkdir : kern (MkdirAll newPath 493) = Ok tt;
  ck_procs : kern (ReadFile (filepath.Join [oldPath; lit "cgroup.procs"])) = Ok procs;
  ck_ctls : kern (ReadFile (filepath.Join [oldPath; lit "cgroup.controllers"])) = Ok ctls;
}.

(** Evacuation makes the subgroup, then moves every process of the old
    group (each line of cgroup.procs but 0) into it, then enables every
    controller for the subgroups of the old group, in this order; it succeeds
    even when some processes cannot be moved or some controllers not enabled. *)
Theorem EvacuateCgroup2_evacuates :
  evac <> [] -> strings.Contains evac "/" = false -> mp <> [] -> cgroup2_kernel ->
  (exec kern (EvacuateCgroup2 evac)).1 = Ok tt /\
  List.filter changes_files (exec kern (EvacuateCgroup2 evac)).2 =
    MkdirAll newPath 493 ::
    map (fun p => WriteFile (filepath.Join [newPath; lit "cgroup.procs"]) p 420) (movable procs) ++
    map (fun c => WriteFile (filepath.Join [oldPath; lit "cgroup.subtree_control"]) (lit "+" ++ c) 420)
      (strings.Fields ctls).
Proof.
  intros He Hs Hm [K1 K2 K3 K4 K5 K6].
  assert (exec kern findCgroup2Mountpoint = (mp, [GetMountPoints "cgroup2"])) as Em
    by (unfold findCgroup2Mountpoint; cbn [bind call exec]; by rewrite K1).
  assert (exec kern (getCgroup2 pid) = (oldGroup, [ReadFile (lit "/proc/" ++ strconv.Itoa pid ++ lit "/cgroup")]))
    as Eg by (unfold getCgroup2; cbn [bind call exec]; by rewrite K3).
  unfold EvacuateCgroup2. rewrite !(bool_decide_eq_false_2 (_ = [])) by done. rewrite Hs.
  rewrite exec_bind, Em. cbn [fst snd]. rewrite bool_decide_eq_false_2 by done.
  rewrite exec_bind. cbn [call exec]. rewrite K2. cbn [fst snd]. rewrite exec_bind, Eg. cbn [fst snd].
  fold oldPath newPath. unfold ebind.
  rewrite exec_bind. cbn [call exec]. rewrite K4. cbn [fst snd].
  rewrite exec_bind. cbn [call exec]. rewrite K5. cbn [fst snd].
  rewrite exec_bind. cbn [fst snd].
  rewrite exec_bind. cbn [call exec]. rewrite K6. cbn [fst snd].
  rewrite exec_bind. cbn [fst snd exec]. split; [done|].
  rewrite !List.filter_app. cbn [List.filter changes_files app].
  rewrite evacuate_all_writes, enable_all_writes. cbn. by rewrite app_nil_r.
Qed.
End evacuation.

Definition test_kernel (c : sys) : res c :=
  match c return res c with
  | GetMountPoints _ => Ok [lit "/sys/fs/cgroup"]
  | Getpid => 42
  | ReadFile p =>
      if strings.HasSuffix p "/cgroup" then Ok (lit "0::/user.slice" ++ ["010"%char])
      else if strings.HasSuffix p "cgroup.procs" then Ok (lit "7" ++ "010"%char :: lit "0" ++ ["010"%char])
      else Ok (lit "cpu memory")
  | MkdirAll _ _ => Ok tt
  | c => ok_kernel c
  end.

Theorem EvacuateCgroup2_evacuates_witness :
  List.filter changes_files (exec test_kernel (EvacuateCgroup2 "evac")).2 =
  [MkdirAll "/sys/fs/cgroup/user.slice/evac" 493;
   WriteFile "/sys/fs/cgroup/user.slice/evac/cgroup.procs" "7" 420;
   WriteFile "/sys/fs/cgroup/user.slice/cgroup.subtree_control" "+cpu" 420;
   WriteFile "/sys/fs/cgroup/user.slice/cgroup.subtree_control" "+memory" 420].
Proof.
  assert (cgroup2_kernel test_kernel "evac" "/sys/fs/cgroup" (lit "0::/user.slice" ++ ["010"%char])
    (lit "7" ++ "010"%char :: lit "0" ++ ["010"%char]) "cpu memory" 42) as K
    by (split; vm_compute; reflexivity).
  assert (lit "evac" <> [] /\ lit "/sys/fs/cgroup" <> []) as [He Hm] by done.
  destruct (EvacuateCgroup2_evacuates _ _ _ _ _ _ _ He eq_refl Hm K) as [_ E].
  etransitivity; [exact E|]. vm_compute. reflexivity.
Defined.

(** Line 38 of cgrouputil.go tests the mount point again instead of the group:
    a process that is not in a cgroup2 group is evacuated into a group made at
    the root of the hierarchy. *)
Lemma EvacuateCgroup2_outside_cgroup2 :
  let k c := match c return res c with
             | ReadFile p => if strings.HasSuffix p "/cgroup" then Ok (lit "1:cpu:/") else Ok []
             | c => test_kernel c
             end in
  List.filter changes_files (exec k (EvacuateCgroup2 "evac")).2 = [MkdirAll "/sys/fs/cgroup/evac" 493].
Proof. vm_compute. reflexivity. Qed.

(** ** moby_sys_mountinfo_tmphack.go: the filter of the mount table

    The name of the field of [mountinfo.Info] has changed between versions of
    the library, so it is found by reflection: a struct is the list of its
    fields, in order. *)
Record field : Set := mkField { f_name : str; f_type : str; f_value : str }.

(** [strings.ToLower] of an ASCII name *)
Definition to_lower (s : str) : str :=
  map (fun c => let n := nat_of_ascii c in if (Nat.leb 65 n && Nat.leb n 90)%bool then ascii_of_nat (n + 32) else c) s.

Definition is_fstype (f : field) : bool :=
  bool_decide (to_lower (f_name f) = lit "fstype") && bool_decide (f_type f = lit "string").

Definition mountinfoFSType (m : list field) : option str := f_value <$> List.find is_fstype m.

(** Whether the mount is skipped, and whether to stop. *)
Definition mountinfoFSTypeFilter (fstype : list str) (m : list field) : result (bool * bool) :=
  match mountinfoFSType m with
  | None => Err (Errorf "failed to get Fstype (FSType) of %+v" [])   (** a panic *)
  | Some t => Ok (negb (existsb (fun t' => bool_decide (t = t')) fstype), false)
  end.

(** Both spellings of the field are found, behind any other fields; exactly the
    mounts of the given types are kept, and the table is read to its end. *)
Lemma mountinfoFSTypeFilter_keeps fstype before name v after :
  name = lit "Fstype" \/ name = lit "FSType" ->
  forallb (fun f => negb (is_fstype f)) before = true ->
  exists skip, mountinfoFSTypeFilter fstype (before ++ mkField name (lit "string") v :: after) = Ok (skip, false) /\
    (skip = false <-> v ∈ fstype).
Proof.
  intros Hn Hb. assert (Hf : is_fstype (mkField name (lit "string") v) = true) by (by destruct Hn as [-> | ->]).
  assert (E : mountinfoFSType (before ++ mkField name (lit "string") v :: after) = Some v).
  { unfold mountinfoFSType. induction before as [|f l IH]; [cbn [app List.find]; by rewrite Hf|]. cbn [app List.find forallb] in *.
    apply andb_true_iff in Hb as [H1 H2]. apply negb_true_iff in H1. rewrite H1. by apply IH. }
  unfold mountinfoFSTypeFilter. rewrite E. eexists. split; [done|]. rewrite negb_false_iff, existsb_exists. split.
  - intros (t & Ht & <-%bool_decide_eq_true). by apply list_elem_of_In.
  - intros Hv. exists v. split; [by apply list_elem_of_In|by apply bool_decide_eq_true].
Qed.
