(* ===== verification/Parent.v ===== *)
(** * pkg/parent: the parent process

    [Parent] starts the child in new namespaces, drives the handshake over two
    pipes, sets up the id maps, the network and the ports, publishes the child
    PID and the API socket, and waits for the child.  [defer]red cleanup is
    part of the program.  The drivers are calls of the signature [sys]. *)
From S2P Require Import Prelude GoStrings NetIP PortSpec Effects Framing Messages Sessions SubID Sys Cgroup.
Import messages.
Import Sys.

(** ** warn.go *)
Module warn.

Definition warnPropagation (propagation : str) : io unit :=
  mounts <- call RootMountOptional ;;
  match mounts with
  | Err e => call (Warn (Wrapf "Failed to parse mountinfo" [] e))
  | Ok [] => call (Warn (errors_New "Failed to parse mountinfo"))
  | Ok (root_Optional :: _) =>
      if negb (strings.Contains propagation "private") && negb (strings.Contains root_Optional "shared")
      then call (Warn (Errorf "The host root filesystem is mounted as %q. Setting child propagation to %q is not supported."
                         [AStr root_Optional; AStr propagation]))
      else Ret tt
  end.

(** The warnings for the contents of the two sysctl files. *)
Definition warn_uuc (uuc : str) : io unit :=
  let s := strings.TrimSpace uuc in
  match strconv.Atoi s with
  | Err e => call (Warn (Wrapf "Failed to parse /proc/sys/kernel/unprivileged_userns_clone (%q)" [AStr s] e))
  | Ok i =>
      if i =? 0
      then call (Warn (errors_New "/proc/sys/kernel/unprivileged_userns_clone needs to be set to 1."))
      else Ret tt
  end.

Definition warn_mun (mun : str) : io unit :=
  let s := strings.TrimSpace mun in
  match strconv.Atoi s with
  | Err e => call (Warn (Wrapf "Failed to parse /proc/sys/user/max_user_namespaces (%q)" [AStr s] e))
  | Ok i =>
      if i =? 0
      then call (Warn (errors_New "/proc/sys/user/max_user_namespaces needs to be set to non-zero."))
      else if i <? 1024
      then call (Warn (Errorf "/proc/sys/user/max_user_namespaces=%d may be low. Consider setting to >= %d."
                         [AInt i; AInt 1024]))
      else Ret tt
  end.

Definition warnSysctl : io unit :=
  uuc <- call (ReadFile "/proc/sys/kernel/unprivileged_userns_clone") ;;
  _ <- match uuc with Ok c => warn_uuc c | Err _ => Ret tt end ;;
  mun <- call (ReadFile "/proc/sys/user/max_user_namespaces") ;;
  match mun with Ok c => warn_mun c | Err _ => Ret tt end.

Definition EACCES : error := Extern "permission denied".

Definition warnOnChildStartFailure (childStartErr : error) : io unit :=
  if errors_Is childStartErr EACCES then
    b <- call (ReadFile "/proc/sys/kernel/apparmor_restrict_unprivileged_userns") ;;
    match b with
    | Err _ => Ret tt
    | Ok b =>
        let s := strings.TrimSpace b in
        match strconv.Atoi s with
        | Err e =>
            call (Warn (Wrapf "Failed to parse /proc/sys/kernel/apparmor_restrict_unprivileged_userns (%q)" [AStr s] e))
        | Ok i =>
            if i =? 1 then
              _ <- call (Warn (Wrapf "This error might have happened because /proc/sys/kernel/apparmor_restrict_unprivileged_userns is set to 1" [] childStartErr)) ;;
              selfExe <- call OsExecutable ;;
              selfExe <- match selfExe with
                         | Ok x => Ret x
                         | Err e =>
                             let x := lit "/usr/local/bin/rootlesskit" in
                             _ <- call (Warn (Wrapf "Failed to detect the path of the rootlesskit binary, assuming it to be %q" [AStr x] e)) ;;
                             Ret x
                         end ;;
              let profileName := strings.ReplaceAll (strings.TrimPrefix selfExe "/") "/"%char "."%char in
              call (Warn (Errorf "Hint: try running the following commands"
                            [AStr profileName; AStr selfExe; AStr profileName]))
            else Ret tt
        end
    end
  else Ret tt.

End warn.

(** ** parent.go *)
Module parent.

Record Opt : Set := mkOpt {
  PipeFDEnvKey : str;
  ChildUseActivationEnvKey : str;
  StateDir : str;
  StateDirEnvKey : str;
  NetworkDriver : bool;          (** false: nil, for the host network *)
  PortDriver : bool;             (** false: nil *)
  PublishPorts : list port.Spec;
  CreatePIDNS : bool;
  CreateCgroupNS : bool;
  CreateUTSNS : bool;
  CreateIPCNS : bool;
  DetachNetNS : bool;
  ParentEUIDEnvKey : str;
  ParentEGIDEnvKey : str;
  Propagation : str;
  EvacuateCgroup2 : str;
  SubidSource : str;
}.

Definition StateFileLock : str := "lock".
Definition StateFileChildPID : str := "child_pid".
Definition StateFileAPISock : str := "api.sock".

Definition state_file (stateDir name : str) : str := filepath.Join [stateDir; name].

Definition checkPreflight (opt : Opt) : io (result unit) :=
  if bool_decide (PipeFDEnvKey opt = []) then fail (errors_New "pipe FD env key is not set")
  else if bool_decide (StateDir opt = []) then fail (errors_New "state dir is not set")
  else if negb (filepath.IsAbs (StateDir opt)) then fail (errors_New "state dir must be absolute")
  else
    stat <- call (Stat (StateDir opt)) ;;
    match stat with
    | Err e => fail (Wrapf "state dir is inaccessible: %w" [] e)
    | Ok false => fail (errors_New "state dir is inaccessible: %w")
    | Ok true =>
        euid <- call Geteuid ;;
        _ <- (if euid =? 0 then call (Warn (errors_New "Running RootlessKit as the root user is unsupported."))
              else Ret tt) ;;
        _ <- warn.warnSysctl ;;
        _ <- warn.warnPropagation (Propagation opt) ;;
        Ret (Ok tt)
    end.

(** A failure to take the shared lock is only logged. *)
Definition createCleanupLock (sDir : str) : io (result unit) :=
  fd <-! call (OpenDir sDir) ;;
  r <- call (FlockShared fd) ;;
  match r with
  | Ok _ => Ret (Ok tt)
  | Err _ => _ <- call (Warn (Errorf "Failed to lock the state dir %s" [AStr sDir])) ;; Ret (Ok tt)
  end.

Definition LockStateDir (stateDir : str) : io (result unit) :=
  let lockPath := state_file stateDir StateFileLock in
  locked <-! wrapping (call (TryLock lockPath)) (Wrapf "failed to lock %s: %w" [AStr lockPath]) ;;
  if negb locked
  then fail (Errorf "failed to lock %s, another RootlessKit is running with the same state directory?" [AStr lockPath])
  else Ret (Ok tt).

(** The numbers 3, 4, ... of the [n] sockets that systemd passes. *)
Definition listenFdsStart : Z := 3.
Definition listen_files (n : Z) : list Z := map (fun i => listenFdsStart + Z.of_nat i) (seq 0 (Z.to_nat n)).

Definition setupFilesAndEnv (readPipe writePipe : Z) (opt : Opt) : io (list Z * list str) :=
  pidS <- call (Getenv "LISTEN_PID") ;;
  fdsS <- call (Getenv "LISTEN_FDS") ;;
  let listenPid := match strconv.Atoi pidS with Ok n => n | Err _ => 0 end in
  let listenFds := match strconv.Atoi pidS, strconv.Atoi fdsS with
                   | Ok _, Ok n => if 0 <? n then n else 0
                   | _, _ => 0
                   end in
  let extraFiles := listen_files listenFds ++ [readPipe; writePipe] in
  cmdEnv <- call Environ ;;
  pid <- call Getpid ;;
  Ret (extraFiles,
       cmdEnv ++
       [PipeFDEnvKey opt ++ lit "=" ++ strconv.Itoa (listenFdsStart + listenFds) ++ lit "," ++
          strconv.Itoa (listenFdsStart + listenFds + 1);
        ChildUseActivationEnvKey opt ++ lit "=" ++ strconv.FormatBool (listenPid =? pid)]).

Definition flag (b : bool) (f : Z) : Z := if b then f else 0.

(** The command line, namespaces, files and environment of the child. *)
Definition child_cmd (opt : Opt) (pipeR pipe2W : Z) : io Cmd :=
  args <- call OsArgs ;;
  fe <- setupFilesAndEnv pipeR pipe2W opt ;;
  euid <- (if bool_decide (ParentEUIDEnvKey opt = []) then Ret 0 else call Geteuid) ;;
  egid <- (if bool_decide (ParentEGIDEnvKey opt = []) then Ret 0 else call Getegid) ;;
  let env1 := if bool_decide (StateDirEnvKey opt = []) then []
              else [StateDirEnvKey opt ++ lit "=" ++ StateDir opt] in
  let env2 := if bool_decide (ParentEUIDEnvKey opt = []) then []
              else [ParentEUIDEnvKey opt ++ lit "=" ++ strconv.Itoa euid] in
  let env3 := if bool_decide (ParentEGIDEnvKey opt = []) then []
              else [ParentEGIDEnvKey opt ++ lit "=" ++ strconv.Itoa egid] in
  Ret (mkCmd (lit "/proc/self/exe" :: tail args)
         (Some (fe.2 ++ env1 ++ env2 ++ env3)) fe.1
         (Z.lor (Z.lor CLONE_NEWUSER CLONE_NEWNS) (flag (CreatePIDNS opt) CLONE_NEWPID))
         (Z.lor (Z.lor (Z.lor
            (flag (NetworkDriver opt && negb (DetachNetNS opt)) CLONE_NEWNET)
            (flag (CreateCgroupNS opt) CLONE_NEWCGROUP))
            (flag (CreateUTSNS opt) CLONE_NEWUTS))
            (flag (CreateIPCNS opt) CLONE_NEWIPC))
         true false).

Definition newugidmapArgs (subidSource : str) : io (result (list str * list str)) :=
  u <-! call UserCurrent ;;
  ranges <-! call (GetSubIDRanges u subidSource) ;;
  Ret (Ok (newugidmapArgsFromSubIDRanges u ranges.1 ranges.2)).

(** [newuidmap] or [newgidmap] *)
Definition run_idmap (tool pidS : str) (args : list str) : io (result unit) :=
  out <- call (CombinedOutput (tool :: pidS :: args)) ;;
  match out with
  | (_, None) => Ret (Ok tt)
  | (o, Some e) => fail (Wrapf (tool ++ lit " %s %v failed: %s: %w") [AStr pidS; AStr o] e)
  end.

Definition setupUIDGIDMap (pid : Z) (subidSource : str) : io (result unit) :=
  args <-! wrapping (newugidmapArgs subidSource) (Wrapf "failed to compute uid/gid map: %w" []) ;;
  let pidS := strconv.Itoa pid in
  _ <-! run_idmap "newuidmap" pidS args.1 ;;
  run_idmap "newgidmap" pidS args.2.

Definition listenServeAPI (socketPath : str) : io (result unit) :=
  _ <-! call (RemoveAll socketPath) ;;
  l <-! call (Listen "unix" socketPath) ;;
  _ <- call (Serve l) ;;
  Ret (Ok tt).

(** One published port. *)
Definition publish (p : port.Spec) : io (result unit) :=
  st <-! wrapping (call (AddPort p)) (Wrapf "failed to expose port %v: %w" []) ;;
  Ret (Ok tt).

(** The end of [Parent]: the API, the wait for the child and the shutdown. *)
Definition parent_serve (opt : Opt) (pid : Z) : io (result unit) :=
  let childPIDPath := state_file (StateDir opt) StateFileChildPID in
  _ <-! wrapping (call (WriteFile childPIDPath (strconv.Itoa pid) 292))
          (Wrapf "failed to write the child PID %d to %s: %w" [AInt pid; AStr childPIDPath]) ;;
  let apiSockPath := state_file (StateDir opt) StateFileAPISock in
  _ <-! listenServeAPI apiSockPath ;;
  _ <-! wrapping (call (WaitCmd pid)) (Wrapf "child exited: %w" []) ;;
  _ <-! wrapping (call CloseServer) (Wrapf "failed to close %s: %w" [AStr apiSockPath]) ;;
  if PortDriver opt then
    _ <- call QuitPortDriver ;;
    call PortDriverErr
  else Ret (Ok tt).

(** Waiting for the port driver and publishing the ports, in order. *)
Definition parent_publish (opt : Opt) (pid : Z) : io (result unit) :=
  if PortDriver opt then
    ready <- call WaitPortDriver ;;
    match ready with
    | Some r => Ret r
    | None =>
        _ <-! for_each (PublishPorts opt) publish ;;
        parent_serve opt pid
    end
  else parent_serve opt pid.

Definition ip4 (s : str) : option net.IP :=
  match net.ParseIP s with Some ip => net.To4 ip | None => None end.

(** From the network message to the closed pipe. *)
Definition parent_ports (opt : Opt) (pid pipeW : Z) (netMsg : NetMsg) : io (result unit) :=
  _ <-! call (Send pipeW (network_done netMsg)) ;;
  opaque <- (if PortDriver opt then
               o <- call OpaqueForChild ;;
               _ <- call (GoRunParentDriver (mkChildContext (ip4 (IP netMsg)) (Network netMsg) (ip4 (Gateway netMsg)))) ;;
               Ret o
             else Ret []) ;;
  _ <-! call (Send pipeW (port_done (mkPortMsg opaque))) ;;
  _ <-! call (Close pipeW) ;;
  parent_publish opt pid.

(** The network driver; its cleanup is deferred even when it failed. *)
Definition parent_network (opt : Opt) (pid pipeW : Z) : io (result unit) :=
  if NetworkDriver opt then
    let netns := if DetachNetNS opt
                 then filepath.Join [lit "/proc"; strconv.Itoa pid; lit "root"; filepath.Clean (StateDir opt); lit "netns"]
                 else [] in
    r <- call (ConfigureNetwork pid (StateDir opt) netns) ;;
    match r with
    | (netMsg, has_cleanup, e) =>
        let rest := match e with
                    | Some e => fail (Wrapf "failed to setup network %+v: %w" [] e)
                    | None => parent_ports opt pid pipeW netMsg
                    end in
        if has_cleanup then defer (call CleanupNetwork) rest else rest
    end
  else parent_ports opt pid pipeW empty_NetMsg.

(** From the start of the child to the end of the handshake of the user
    namespace. *)
Definition parent_userns (opt : Opt) (pid pipeW pipe2R : Z) : io (result unit) :=
  _ <-! call (Send pipeW hello_parent) ;;
  _ <-! call (WaitFor pipe2R TChildHello) ;;
  _ <-! wrapping (setupUIDGIDMap pid (SubidSource opt)) (Wrapf "failed to setup UID/GID map: %w" []) ;;
  _ <-! call (Send pipeW idmap_done) ;;
  _ <-! call (WaitFor pipe2R TChildInitUserNSCompleted) ;;
  _ <- call (ForwardAllSignals pid) ;;
  defer (call StopCatch)
    (_ <-! (if bool_decide (EvacuateCgroup2 opt = []) then Ret (Ok tt)
            else Cgroup.EvacuateCgroup2 (EvacuateCgroup2 opt)) ;;
     parent_network opt pid pipeW).

(** What [Parent] does while it holds the lock of the state directory. *)
Definition parent_locked (opt : Opt) : io (result unit) :=
  pipe <-! call OsPipe ;;
  pipe2 <-! call OsPipe ;;
  cmd <- child_cmd opt pipe.1 pipe2.2 ;;
  pid <- call (StartCmd cmd) ;;
  match pid with
  | Err e =>
      _ <- warn.warnOnChildStartFailure e ;;
      fail (Wrapf "failed to start the child: %w" [] e)
  | Ok pid => parent_userns opt pid pipe.2 pipe2.1
  end.

Definition remove_all (p : str) : io unit := r <- call (RemoveAll p) ;; Ret tt.

Definition Parent (opt : Opt) : io (result unit) :=
  _ <-! checkPreflight opt ;;
  _ <-! createCleanupLock (StateDir opt) ;;
  _ <-! LockStateDir (StateDir opt) ;;
  defer (remove_all (StateDir opt))
    (defer (call (Unlock (state_file (StateDir opt) StateFileLock)))
       (parent_locked opt)).

(** Everything in the state directory but the lock file is removed. *)
Definition InitStateDir (stateDir : str) : io (result unit) :=
  _ <-! call (MkdirAll stateDir 493) ;;
  _ <-! LockStateDir stateDir ;;
  defer (call (Unlock (state_file stateDir StateFileLock)))
    (stuffs <-! call (ReadDir stateDir) ;;
     for_each stuffs (fun f =>
       if bool_decide (de_name f = StateFileLock) then Ret (Ok tt)
       else let p := state_file stateDir (de_name f) in
            wrapping (call (RemoveAll p)) (Wrapf "failed to remove %s: %w" [AStr p]))).

End parent.
Import parent.

(** ** The parent side of the handshake *)

Lemma EvacuateCgroup2_quiet evac : only not_comm (Cgroup.EvacuateCgroup2 evac).
Proof. only_tac. Qed.

Lemma checkPreflight_quiet opt : only not_comm (checkPreflight opt).
Proof. only_tac. Qed.

Lemma child_cmd_quiet opt r w : only not_comm (child_cmd opt r w).
Proof. only_tac. Qed.

Lemma setupUIDGIDMap_quiet pid src : only not_comm (setupUIDGIDMap pid src).
Proof. only_tac. Qed.

Lemma parent_publish_quiet opt pid : only not_comm (parent_publish opt pid).
Proof. only_tac. Qed.

Lemma warnOnChildStartFailure_quiet e : only not_comm (warn.warnOnChildStartFailure e).
Proof. only_tac. Qed.

Definition parent_script : list (action msg_type) :=
  [ASend TParentHello; ARecv TChildHello; ASend TParentInitIdmapCompleted;
   ARecv TChildInitUserNSCompleted; ASend TParentInitNetworkDriverCompleted;
   ASend TParentInitPortDriverCompleted].

(** A run that succeeds goes through the whole script. *)
Definition whole {A} (r : result A) (s : list (action msg_type)) : Prop := is_ok r = true -> s = [].

Lemma whole_errs {A} : errs (whole (A := A)).
Proof. by intros e s [=]. Qed.
#[local] Hint Resolve whole_errs : core.

Lemma parent_ports_script opt pid w m :
  follows (parent_ports opt pid w m)
    [ASend TParentInitNetworkDriverCompleted; ASend TParentInitPortDriverCompleted] whole.
Proof.
  apply follows_Send; [done..|]. apply follows_bquiet; [only_tac|].
  intros o. apply follows_Send; [done..|]. apply follows_equiet; [done|only_tac|].
  intros _. by apply follows_quiet; [apply parent_publish_quiet|].
Qed.

Lemma parent_network_script opt pid w :
  follows (parent_network opt pid w)
    [ASend TParentInitNetworkDriverCompleted; ASend TParentInitPortDriverCompleted] whole.
Proof.
  unfold parent_network. destruct (NetworkDriver opt); [|apply parent_ports_script].
  apply follows_bquiet; [only_tac|]. intros [[m [|]] [e|]].
  all: try apply follows_defer; try (by only_tac); try apply parent_ports_script; try done.
Qed.

(** In every execution the parent sends and awaits the six messages in order. *)
Lemma Parent_script opt : follows (Parent opt) parent_script whole.
Proof.
  apply follows_equiet; [done|apply checkPreflight_quiet|]. intros _.
  apply follows_equiet; [done|only_tac|]. intros _.
  apply follows_equiet; [done|only_tac|]. intros _.
  apply follows_defer; [only_tac|]. apply follows_defer; [only_tac|].
  apply follows_equiet; [done|only_tac|]. intros p1. apply follows_equiet; [done|only_tac|]. intros p2.
  apply follows_bquiet; [apply child_cmd_quiet|]. intros cmd.
  apply follows_bquiet; [only_tac|]. intros [pid|e].
  2: { apply follows_bquiet; [apply warnOnChildStartFailure_quiet|]. done. }
  apply follows_Send; [done..|]. apply follows_WaitFor; [done|]. intros _.
  apply follows_equiet; [done|apply only_wrapping, setupUIDGIDMap_quiet|]. intros _.
  apply follows_Send; [done..|]. apply follows_WaitFor; [done|]. intros _.
  apply follows_bquiet; [only_tac|]. intros _.
  apply follows_defer; [only_tac|]. apply follows_equiet; [done| |].
  { case_bool_decide; [done|apply EvacuateCgroup2_quiet]. }
  intros _. apply parent_network_script.
Qed.

(** ** Resources: what is acquired is released, in reverse order *)

Inductive resource : Set := RStateDir | RLock | RSignals | RNet.

#[export] Instance resource_eq_dec : EqDecision resource.
Proof. solve_decision. Defined.

(** The protocol of the resources of [Parent]: the state is the stack of what
    is held.  Releasing anything but the top is rejected; so is starting the
    child, configuring the network or changing a file without the lock. *)
Definition resources (stateDir : str) (s : list resource) (c : sys) : res c -> option (list resource) :=
  match c return res c -> option (list resource) with
  | TryLock _ => fun r =>
      match r, s with
      | Ok true, [] => Some [RLock; RStateDir]
      | Ok true, _ => None
      | _, _ => Some s
      end
  | StartCmd _ => fun _ => if bool_decide (RLock ∈ s) then Some s else None
  | WriteFile _ _ _ => fun _ => if bool_decide (RLock ∈ s) then Some s else None
  | MkdirAll _ _ => fun _ => if bool_decide (RLock ∈ s) then Some s else None
  | Listen _ _ => fun _ => if bool_decide (RLock ∈ s) then Some s else None
  | ForwardAllSignals _ => fun _ => if bool_decide (RLock ∈ s) then Some (RSignals :: s) else None
  | ConfigureNetwork _ _ _ => fun r =>
      if bool_decide (RLock ∈ s) then Some (if r.1.2 then RNet :: s else s) else None
  | StopCatch => fun _ => match s with RSignals :: s' => Some s' | _ => None end
  | CleanupNetwork => fun _ => match s with RNet :: s' => Some s' | _ => None end
  | Unlock _ => fun _ => match s with RLock :: s' => Some s' | _ => None end
  | RemoveAll p => fun _ =>
      match s with
      | RStateDir :: s' => if bool_decide (p = stateDir) then Some s' else None
      | [] => None
      | _ => Some s
      end
  | _ => fun _ => Some s
  end.

(** Calls that leave the stack as it is, while something above the state
    directory is held. *)
Definition no_resource (c : sys) : bool :=
  match c with
  | TryLock _ | Unlock _ | ForwardAllSignals _ | StopCatch | ConfigureNetwork _ _ _ | CleanupNetwork => false
  | _ => true
  end.
(** Calls that only read. *)
Definition reads (c : sys) : bool :=
  no_resource c &&
  match c with StartCmd _ | WriteFile _ _ _ | MkdirAll _ _ | Listen _ _ | RemoveAll _ => false | _ => true end.

Definition holding (s : list resource) : Prop :=
  RLock ∈ s /\ match s with RStateDir :: _ => False | _ => True end.

Lemma holding_cons r s : holding s -> r <> RStateDir -> holding (r :: s).
Proof. intros [H _] Hr. split; [by right|]. by destruct r. Qed.

Section resources.
Context (dir : str).
Abbreviation rtracks := (tracks (resources dir)).

Lemma tracks_held {A} (p : io A) s (Q : A -> list resource -> Prop) :
  holding s -> only no_resource p -> (forall a, Q a s) -> rtracks p s Q.
Proof.
  intros [Hl Ht] Hp HQ. eapply tracks_only; [exact Hp| |done]. intros c r Hc.
  destruct c; try discriminate; simpl; try by rewrite bool_decide_eq_true_2. all: try done.
  destruct s as [|[] s]; try done. by apply not_elem_of_nil in Hl.
Qed.

Lemma tracks_reads {A} (p : io A) s (Q : A -> list resource -> Prop) :
  only reads p -> (forall a, Q a s) -> rtracks p s Q.
Proof. intros Hp HQ. eapply tracks_only; [exact Hp| |done]. intros c r Hc. by destruct c. Qed.

Lemma tracks_ebind {A B} (p : io (result A)) (f : A -> io (result B)) s (Q : result B -> list resource -> Prop) :
  rtracks p s (fun r s' => match r with Ok a => rtracks (f a) s' Q | Err e => Q (Err e) s' end) ->
  rtracks (ebind p f) s Q.
Proof.
  intros H. apply tracks_bind. eapply tracks_mono; [exact H|]. by intros [a|e] s' Hs.
Qed.

(** A body that gives the stack back as it found it. *)
Definition balanced {A} (p : io A) (s : list resource) : Prop := rtracks p s (fun _ s' => s' = s).

Lemma balanced_quiet {A} (p : io A) s : holding s -> only no_resource p -> balanced p s.
Proof. intros Hs Hp. by apply tracks_held. Qed.

Lemma balanced_bind {A B} (p : io A) (f : A -> io B) s :
  balanced p s -> (forall a, balanced (f a) s) -> balanced (bind p f) s.
Proof. intros Hp Hf. apply tracks_bind. eapply tracks_mono; [exact Hp|]. intros a ? ->. apply Hf. Qed.

Lemma balanced_ebind {A B} (p : io (result A)) (f : A -> io (result B)) s :
  balanced p s -> (forall a, balanced (f a) s) -> balanced (ebind p f) s.
Proof. intros Hp Hf. apply balanced_bind; [done|]. intros [a|e]; [apply Hf|done]. Qed.

(** [defer] of the release of the top of the stack. *)
Lemma balanced_defer {A} (d : io unit) (p : io A) (r : resource) s :
  rtracks d (r :: s) (fun _ s' => s' = s) -> balanced p (r :: s) ->
  rtracks (defer d p) (r :: s) (fun _ s' => s' = s).
Proof.
  intros Hd Hp. apply tracks_bind. eapply tracks_mono; [exact Hp|]. intros a ? ->.
  apply tracks_bind. eapply tracks_mono; [exact Hd|]. by intros _ ? ->.
Qed.

Lemma LockStateDir_tracks stateDir :
  rtracks (LockStateDir stateDir) []
    (fun r s => s = match r with Ok _ => [RLock; RStateDir] | Err _ => [] end).
Proof. intros [[]|e]; done. Qed.

Lemma parent_ports_balanced opt pid w m s : holding s -> balanced (parent_ports opt pid w m) s.
Proof. intros Hs. apply balanced_quiet; [done|]. only_tac. Qed.

Lemma parent_network_balanced opt pid w s : holding s -> balanced (parent_network opt pid w) s.
Proof.
  intros Hs. unfold parent_network. destruct (NetworkDriver opt); [|by apply parent_ports_balanced].
  intros [[m c] e]. simpl. rewrite bool_decide_eq_true_2 by apply Hs.
  assert (forall s', holding s' -> balanced
    (match e with
     | Some e => fail (Wrapf "failed to setup network %+v: %w" [] e)
     | None => parent_ports opt pid w m end) s') as Hrest.
  { intros s' Hs'. destruct e; [done|]. by apply parent_ports_balanced. }
  destruct c; [|by apply Hrest]. apply balanced_defer; [by intros []|]. by apply Hrest, holding_cons.
Qed.

Lemma parent_userns_balanced opt pid w r s : holding s -> balanced (parent_userns opt pid w r) s.
Proof.
  intros Hs. unfold parent_userns.
  do 5 (apply balanced_ebind; [apply balanced_quiet; [done|]; only_tac|]; intros _).
  intros []. simpl. rewrite bool_decide_eq_true_2 by apply Hs.
  apply balanced_defer; [by intros []|]. pose proof (holding_cons RSignals s Hs ltac:(done)).
  apply balanced_ebind; [|intros _; by apply parent_network_balanced].
  case_bool_decide; [done|]. apply balanced_quiet; [done|]. only_tac.
Qed.

Lemma parent_locked_balanced opt s : holding s -> balanced (parent_locked opt) s.
Proof.
  intros Hs. unfold parent_locked.
  do 2 (apply balanced_ebind; [apply balanced_quiet; [done|]; only_tac|]; intros ?).
  apply balanced_bind; [apply balanced_quiet; [done|]; only_tac|]. intros cmd.
  apply balanced_bind; [apply balanced_quiet; [done|]; only_tac|]. intros [pid|e].
  - by apply parent_userns_balanced.
  - apply balanced_quiet; [done|]. only_tac.
Qed.
End resources.

(** *** The pipes, the API server and the goroutine of the port driver

    These are not deferred: they are given back on the way to success only. *)

Inductive goroutine : Set := NotStarted | Running | Quitting | Over.

Record leftover : Set := mkLeft {
  l_pipes : list (Z * Z);     (** made by [os.Pipe], in order *)
  l_closed : list Z;
  l_api : bool;               (** the API server listens *)
  l_driver : goroutine;
}.

Definition leftover_step (s : leftover) (c : sys) : res c -> option leftover :=
  match c return res c -> option leftover with
  | OsPipe => fun r => Some (match r with Ok p => mkLeft (l_pipes s ++ [p]) (l_closed s) (l_api s) (l_driver s) | Err _ => s end)
  | Close fd => fun _ => Some (mkLeft (l_pipes s) (l_closed s ++ [fd]) (l_api s) (l_driver s))
  | Listen _ _ => fun r =>
      if l_api s then None else Some (mkLeft (l_pipes s) (l_closed s) (is_ok r) (l_driver s))
  | CloseServer => fun _ => if l_api s then Some (mkLeft (l_pipes s) (l_closed s) false (l_driver s)) else None
  | GoRunParentDriver _ => fun _ =>
      match l_driver s with NotStarted => Some (mkLeft (l_pipes s) (l_closed s) (l_api s) Running) | _ => None end
  | WaitPortDriver => fun r =>
      match l_driver s, r with
      | Running, Some _ => Some (mkLeft (l_pipes s) (l_closed s) (l_api s) Over)
      | Running, None => Some s
      | _, _ => None
      end
  | QuitPortDriver => fun _ =>
      match l_driver s with Running => Some (mkLeft (l_pipes s) (l_closed s) (l_api s) Quitting) | _ => None end
  | PortDriverErr => fun _ =>
      match l_driver s with Quitting => Some (mkLeft (l_pipes s) (l_closed s) (l_api s) Over) | _ => None end
  | _ => fun _ => Some s
  end.

Definition no_left (c : sys) : bool :=
  match c with
  | OsPipe | Close _ | Listen _ _ | CloseServer | GoRunParentDriver _ | WaitPortDriver | QuitPortDriver | PortDriverErr => false
  | _ => true
  end.

Lemma no_left_step s c r : no_left c = true -> leftover_step s c r = Some s.
Proof. by destruct c. Qed.

(** What is left when [Parent] returns.  After a success there is no server and
    no driver, and of the two pipes only the end that it writes to was closed.
    After a failure the server is left only when waiting for the child has
    failed. *)
Definition left_over (r : result unit) (s : leftover) : Prop :=
  (r = Ok tt -> l_api s = false /\ (l_driver s = NotStarted \/ l_driver s = Over) /\
     exists p1 p2, l_pipes s = [p1; p2] /\ l_closed s = [p1.2]) /\
  (l_api s = true -> exists e, r = Err (Wrapf "child exited: %w" [] e)).

Section leftover.
Context (opt : Opt).
Abbreviation ltracks := (tracks leftover_step).

Lemma left_err e s : l_api s = false -> left_over (Err e) s.
Proof. intros H. split; [done|]. by rewrite H. Qed.

Lemma ltracks_quiet {A} (p : io (result A)) (k : A -> io (result unit)) s :
  only no_left p -> l_api s = false -> (forall a, ltracks (k a) s left_over) -> ltracks (ebind p k) s left_over.
Proof.
  intros Hp Hs Hk. apply (tracks_quiet_ebind _ no_left); [apply no_left_step|done| |done]. intros e. by apply left_err.
Qed.

Lemma ltracks_defer (d : io unit) (p : io (result unit)) s :
  only no_left d -> ltracks p s left_over -> ltracks (defer d p) s left_over.
Proof. intros Hd Hp. by apply (tracks_defer _ no_left); [intros; apply no_left_step|..]. Qed.

Lemma parent_serve_left pid p1 p2 :
  ltracks (parent_serve opt pid) (mkLeft [p1; p2] [p1.2] false (if PortDriver opt then Running else NotStarted)) left_over.
Proof.
  apply ltracks_quiet; [only_tac|done|]. intros _. intros [[]|e]; [|by apply left_err].
  intros [l|e]; [|by apply left_err]. intros []. intros [[]|e]; [|by split; [|exists e]].
  intros [[]|e]; [|by apply left_err]. cbn. destruct (PortDriver opt).
  - intros []. intros r. cbn. split; [|done]. intros _. split; [done|]. split; [by right|]. by exists p1, p2.
  - split; [|done]. intros _. split; [done|]. split; [by left|]. by exists p1, p2.
Qed.

Lemma parent_ports_left pid m p1 p2 :
  ltracks (parent_ports opt pid p1.2 m) (mkLeft [p1; p2] [] false NotStarted) left_over.
Proof.
  apply ltracks_quiet; [only_tac|done|]. intros _.
  assert (Hrest : forall o, ltracks
    (_ <-! call (Send p1.2 (port_done (mkPortMsg o))) ;; _ <-! call (Close p1.2) ;; parent_publish opt pid)
    (mkLeft [p1; p2] [] false (if PortDriver opt then Running else NotStarted)) left_over).
  { intros o. apply ltracks_quiet; [only_tac|done|]. intros _. intros [[]|e]; [|by apply left_err]. cbn [bind app l_pipes l_closed l_api l_driver].
    unfold parent_publish. destruct (PortDriver opt) eqn:E; [|by pose proof (parent_serve_left pid p1 p2) as H; rewrite E in H].
    intros [r|]; cbn.
    - split; [|done]. intros ->. split; [done|]. split; [by right|]. by exists p1, p2.
    - apply (ltracks_quiet (for_each (PublishPorts opt) publish)); [only_tac|done|]. intros _.
      pose proof (parent_serve_left pid p1 p2) as H. by rewrite E in H. }
  destruct (PortDriver opt) eqn:E; [|apply (Hrest [])].
  intros o. intros []. apply (Hrest o).
Qed.

Lemma parent_network_left pid p1 p2 :
  ltracks (parent_network opt pid p1.2) (mkLeft [p1; p2] [] false NotStarted) left_over.
Proof.
  unfold parent_network. destruct (NetworkDriver opt); [|apply parent_ports_left].
  intros [[m c] e]. cbn [leftover_step]. 
  assert (Hrest : ltracks (match e with
      | Some e => fail (Wrapf "failed to setup network %+v: %w" [] e)
      | None => parent_ports opt pid p1.2 m end) (mkLeft [p1; p2] [] false NotStarted) left_over).
  { destruct e; [by apply left_err|apply parent_ports_left]. }
  destruct c; [|exact Hrest]. by apply ltracks_defer; [only_tac|].
Qed.

Lemma Parent_left : ltracks (Parent opt) (mkLeft [] [] false NotStarted) left_over.
Proof.
  do 3 (apply ltracks_quiet; [only_tac|done|]; intros _).
  do 2 (apply ltracks_defer; [only_tac|]).
  intros [p1|e]; [|by apply left_err]. intros [p2|e]; [|by apply left_err].
  apply (tracks_quiet_bind leftover_step no_left (child_cmd opt _ _)); [apply no_left_step|only_tac|]. intros cmd.
  intros [pid|e]; cbn [bind].
  2: { apply (tracks_quiet_bind leftover_step no_left (warn.warnOnChildStartFailure e)); [apply no_left_step|only_tac|]. intros _. by apply left_err. }
  do 5 (apply ltracks_quiet; [only_tac|done|]; intros _).
  intros []. cbn [bind]. apply ltracks_defer; [only_tac|]. apply ltracks_quiet; [|done|intros _; apply parent_network_left].
  case_bool_decide; [done|only_tac].
Qed.
End leftover.

(** C4: on every path, [Parent] releases the network of its driver (also when the
    driver failed), the signal handler, the lock and then the state directory
    itself, in this order and each exactly once; without the lock it starts no
    child, changes no file and listens on no socket.  When it succeeds it has
    also closed the API server, told the port driver to quit and waited for it,
    and of its pipes it has closed exactly the end that it writes to; when it
    fails, the API server is left open only if waiting for the child failed. *)
Theorem Parent_releases opt :
  tracks (resources (StateDir opt)) (Parent opt) [] (fun _ s => s = []) /\
  tracks leftover_step (Parent opt) (mkLeft [] [] false NotStarted) left_over.
Proof.
  split; [|apply Parent_left].
  apply tracks_ebind, tracks_reads; [only_tac|]. intros [[]|e]; [|done].
  apply tracks_ebind, tracks_reads; [only_tac|]. intros [[]|e]; [|done].
  apply tracks_ebind. eapply tracks_mono; [apply LockStateDir_tracks|]. intros [[]|e] ? ->; [|done].
  apply tracks_bind. eapply (tracks_mono _ _ _ (fun _ s => s = [RStateDir])).
  - apply (balanced_defer (StateDir opt)); [by intros []|]. apply parent_locked_balanced.
    split; [by left|done].
  - intros a ? ->. simpl. intros r. by rewrite bool_decide_eq_true_2.
Qed.

(** ** Publication: the child PID and the API appear last *)

Record pub : Set := mkPub {
  session : list (action msg_type);   (** messages still to come *)
  unpublished : list port.Spec;       (** ports still to be added *)
  child : option Z;
  written : bool;                     (** the child_pid file is written *)
  gave_up : bool;                     (** the port driver returned before it was ready *)
}.

#[export] Instance action_eq_dec : EqDecision (action msg_type).
Proof. solve_decision. Defined.

(** [a] is the next message; it is consumed when the call succeeded. *)
Definition next_message (a : option (action msg_type)) (ok : bool) (s : pub) : option pub :=
  match a, session s with
  | Some a, b :: l =>
      if bool_decide (a = b)
      then Some (if ok then mkPub l (unpublished s) (child s) (written s) (gave_up s) else s)
      else None
  | _, _ => None
  end.

(** Mode 0444 (292) is that of the child_pid file only. *)
Definition publication (opt : Opt) (s : pub) (c : sys) : res c -> option pub :=
  match c return res c -> option pub with
  | StartCmd _ => fun r =>
      match r with
      | Ok pid => Some (mkPub (session s) (unpublished s) (Some pid) (written s) (gave_up s))
      | Err _ => Some s
      end
  | Send _ m => fun r => next_message (ASend <$> message_type m) (is_ok r) s
  | WaitFor _ t => fun r => next_message (Some (ARecv t)) (is_ok r) s
  | WaitPortDriver => fun r =>
      match r with
      | Some _ => Some (mkPub (session s) (unpublished s) (child s) (written s) true)
      | None => Some s
      end
  | AddPort p => fun r =>
      match unpublished s with
      | q :: l => if bool_decide (p = q)
                  then Some (if is_ok r then mkPub (session s) l (child s) (written s) (gave_up s) else s)
                  else None
      | [] => None
      end
  | WriteFile p data mode => fun r =>
      if mode =? 292 then
        if bool_decide (p = state_file (StateDir opt) StateFileChildPID) &&
           bool_decide (Some data = strconv.Itoa <$> child s) &&
           bool_decide (session s = []) && negb (PortDriver opt && bool_decide (unpublished s <> []))
        then Some (mkPub (session s) (unpublished s) (child s) (is_ok r) (gave_up s)) else None
      else Some s
  | Listen _ _ => fun _ => if written s then Some s else None
  | Serve _ => fun _ => if written s then Some s else None
  | WaitCmd pid => fun _ => if written s && bool_decide (child s = Some pid) then Some s else None
  | _ => fun _ => Some s
  end.

(** Calls that the publication protocol ignores. *)
Definition no_pub (c : sys) : bool :=
  match c with
  | StartCmd _ | Send _ _ | WaitFor _ _ | WaitPortDriver | AddPort _ | Listen _ _ | Serve _ | WaitCmd _ => false
  | WriteFile _ _ mode => negb (mode =? 292)
  | _ => true
  end.

Section publication.
Context (opt : Opt).
Abbreviation ptracks := (tracks (publication opt)).

Definition published (r : result unit) (s : pub) : Prop :=
  r = Ok tt -> gave_up s = true \/ (written s = true /\ session s = [] /\ (PortDriver opt = true -> unpublished s = [])).

Lemma ptracks_quiet {A B} (p : io A) (f : A -> io B) s Q :
  only no_pub p -> (forall a, ptracks (f a) s Q) -> ptracks (bind p f) s Q.
Proof.
  intros Hp Hf. apply tracks_bind. eapply tracks_only; [exact Hp| |done].
  intros c r Hc. destruct c; simpl in *; try discriminate; try done. apply negb_true_iff in Hc. by rewrite Hc.
Qed.

Lemma ptracks_equiet {A} (p : io (result A)) (f : A -> io (result unit)) s :
  only no_pub p -> (forall a, ptracks (f a) s published) -> ptracks (ebind p f) s published.
Proof. intros Hp Hf. apply ptracks_quiet; [done|]. intros [a|e]; [apply Hf|done]. Qed.

Lemma ptracks_start cmd (f : result Z -> io (result unit)) s :
  (forall e, ptracks (f (Err e)) s published) ->
  (forall pid, ptracks (f (Ok pid)) (mkPub (session s) (unpublished s) (Some pid) (written s) (gave_up s)) published) ->
  ptracks (bind (call (StartCmd cmd)) f) s published.
Proof. intros He Hp [pid|e]; [apply Hp|apply He]. Qed.

Lemma ptracks_send fd m t l ps ch w g (f : unit -> io (result unit)) :
  message_type m = Some t -> ptracks (f tt) (mkPub l ps ch w g) published ->
  ptracks (ebind (call (Send fd m)) f) (mkPub (ASend t :: l) ps ch w g) published.
Proof.
  intros Hm Hf r. simpl. unfold next_message. rewrite Hm. simpl. rewrite bool_decide_eq_true_2 by done.
  destruct r as [[]|e]; simpl; [exact Hf|done].
Qed.

Lemma ptracks_recv fd t l ps ch w g (f : Message -> io (result unit)) :
  (forall m, ptracks (f m) (mkPub l ps ch w g) published) ->
  ptracks (ebind (call (WaitFor fd t)) f) (mkPub (ARecv t :: l) ps ch w g) published.
Proof.
  intros Hf r. simpl. unfold next_message. simpl. rewrite bool_decide_eq_true_2 by done.
  destruct r as [m|e]; simpl; [apply Hf|done].
Qed.

Lemma ptracks_defer (d : io unit) (p : io (result unit)) s :
  only no_pub d -> ptracks p s published -> ptracks (defer d p) s published.
Proof.
  intros Hd Hp. apply tracks_bind. eapply tracks_mono; [exact Hp|]. intros a s' Hs.
  by apply ptracks_quiet.
Qed.

Lemma parent_serve_published pid ps g :
  (PortDriver opt = true -> ps = []) ->
  ptracks (parent_serve opt pid) (mkPub [] ps (Some pid) false g) published.
Proof.
  intros Hps r. simpl. rewrite !bool_decide_eq_true_2 by done.
  assert (negb (PortDriver opt && bool_decide (ps <> [])) = true) as ->
    by (destruct (PortDriver opt); [rewrite Hps by done|]; done).
  simpl. destruct r as [[]|e]; [|done].
  assert (forall r : result unit, published r (mkPub [] ps (Some pid) true g)) as Hdone by (intros r _; by right).
  intros [[]|e]; simpl; [|done]. intros [l|e]; simpl; [|done]. intros _ [[]|e]; simpl;
    rewrite bool_decide_eq_true_2 by done; [|done].
  intros [[]|e]; simpl; [|done].
  destruct (PortDriver opt); simpl; [intros _ r|]; apply Hdone.
Qed.

Lemma publish_ports_published pid ps g (k : io (result unit)) :
  ptracks k (mkPub [] [] (Some pid) false g) published ->
  ptracks (ebind (for_each ps publish) (fun _ => k)) (mkPub [] ps (Some pid) false g) published.
Proof.
  intros Hk. induction ps as [|p ps IH]; [exact Hk|]. simpl. intros r.
  rewrite bool_decide_eq_true_2 by done. destruct r as [st|e]; simpl; [exact IH|done].
Qed.

Lemma parent_ports_published pid w m :
  ptracks (parent_ports opt pid w m)
    (mkPub [ASend TParentInitNetworkDriverCompleted; ASend TParentInitPortDriverCompleted]
       (PublishPorts opt) (Some pid) false false) published.
Proof.
  apply ptracks_send; [done|]. apply ptracks_quiet; [only_tac|]. intros o.
  apply ptracks_send; [done|]. apply ptracks_equiet; [only_tac|]. intros _. unfold parent_publish.
  destruct (PortDriver opt) eqn:E; [|apply parent_serve_published; by rewrite E].
  intros [r|]; simpl; [by left|]. by apply publish_ports_published, parent_serve_published.
Qed.

Lemma parent_network_published pid w :
  ptracks (parent_network opt pid w)
    (mkPub [ASend TParentInitNetworkDriverCompleted; ASend TParentInitPortDriverCompleted]
       (PublishPorts opt) (Some pid) false false) published.
Proof.
  unfold parent_network. destruct (NetworkDriver opt); [|apply parent_ports_published].
  apply ptracks_quiet; [only_tac|]. intros [[m [|]] [e|]]; try apply parent_ports_published; try done.
  all: apply ptracks_defer; [only_tac|]; first [done | apply parent_ports_published].
Qed.
End publication.

(** C17: [Parent] writes the child_pid file (with the PID of the child, mode
    0444) only after the six messages of the handshake went through and every
    port of [PublishPorts] was added, in order; it listens on the API socket
    and waits for the child only after that; and it only reports success after
    that, or when the port driver stopped before it was ready. *)
Theorem Parent_publishes opt :
  tracks (publication opt) (Parent opt) (mkPub parent_script (PublishPorts opt) None false false) (published opt).
Proof.
  apply ptracks_equiet; [only_tac|]. intros _. apply ptracks_equiet; [only_tac|]. intros _.
  apply ptracks_equiet; [only_tac|]. intros _.
  apply ptracks_defer; [only_tac|]. apply ptracks_defer; [only_tac|].
  apply ptracks_equiet; [only_tac|]. intros p1. apply ptracks_equiet; [only_tac|]. intros p2.
  apply ptracks_quiet; [only_tac|]. intros cmd. apply ptracks_start.
  { intros e. apply ptracks_quiet; [only_tac|]. by intros _ [=]. }
  intros pid. cbn [session unpublished written gave_up].
  apply ptracks_send; [done|]. apply ptracks_recv. intros _.
  apply ptracks_equiet; [only_tac|]. intros _.
  apply ptracks_send; [done|]. apply ptracks_recv. intros _.
  apply ptracks_quiet; [only_tac|]. intros _. apply ptracks_defer; [only_tac|].
  apply ptracks_equiet; [only_tac|]. intros _. apply parent_network_published.
Qed.

(** ** InitStateDir *)

(** [InitStateDir] creates and locks the state directory, removes every
    entry except the lock file, and unlocks it. *)
Theorem InitStateDir_cleans (kern : forall c : sys, res c) dir entries :
  kern (MkdirAll dir 493) = Ok tt ->
  kern (TryLock (state_file dir StateFileLock)) = Ok true ->
  kern (ReadDir dir) = Ok entries ->
  (forall f, f ∈ entries -> kern (RemoveAll (state_file dir (de_name f))) = Ok tt) ->
  exec kern (InitStateDir dir) =
  (Ok tt,
   [MkdirAll dir 493; TryLock (state_file dir StateFileLock); ReadDir dir] ++
   map (fun f => RemoveAll (state_file dir (de_name f)))
     (List.filter (fun f => negb (bool_decide (de_name f = StateFileLock))) entries) ++
   [Unlock (state_file dir StateFileLock)]).
Proof.
  intros Hmk Hlock Hrd Hrm. unfold InitStateDir, LockStateDir, ebind, wrapping, defer.
  repeat (rewrite ?exec_bind; cbn [call exec fst snd]).
  rewrite Hmk. cbn [fst snd exec]. repeat (rewrite ?exec_bind; cbn [call exec fst snd]).
  rewrite Hlock. cbn [on_err negb fst snd exec]. repeat (rewrite ?exec_bind; cbn [call exec fst snd]).
  rewrite Hrd. cbn [fst snd exec].
  rewrite (exec_for_each_ok _ _ _ (fun f => if bool_decide (de_name f = StateFileLock) then []
    else [RemoveAll (state_file dir (de_name f))])).
  - rewrite concat_map_if. done.
  - intros f Hf. case_bool_decide; [done|]. cbn [bind call exec]. by rewrite Hrm.
Qed.

Theorem InitStateDir_cleans_witness :
  exec (fun c => match c return res c with
                 | ReadDir _ => Ok [mkDirEntry "lock" false; mkDirEntry "api.sock" false; mkDirEntry "child_pid" false]
                 | c => ok_kernel c end) (InitStateDir "/run/rk") =
  (Ok tt, [MkdirAll "/run/rk" 493; TryLock "/run/rk/lock"; ReadDir "/run/rk";
           RemoveAll "/run/rk/api.sock"; RemoveAll "/run/rk/child_pid"; Unlock "/run/rk/lock"]).
Proof.
  rewrite (InitStateDir_cleans _ (lit "/run/rk")
    [mkDirEntry "lock" false; mkDirEntry "api.sock" false; mkDirEntry "child_pid" false]) by done.
  vm_compute. reflexivity.
Defined.

(** ** A complete run *)
Definition test_opt : Opt :=
  mkOpt "PIPE_FD" "USE_ACTIVATION" "/run/rk" "STATE_DIR" true true
    [port.mkSpec "tcp" "0.0.0.0" 8080 80 []] true false false false false [] [] "rprivate" [] "auto".

Definition test_run_kernel (c : sys) : res c :=
  match c return res c with
  | ConfigureNetwork _ _ _ => (mkNetMsg None "tap0" "10.0.2.100" 24 "10.0.2.2" [lit "10.0.2.3"] 65520 [], true, None)
  | c => ok_kernel c
  end.

(** The calls that are not reads, in a run of [Parent] in which every call
    succeeds. *)
Example Parent_run :
  let run := exec test_run_kernel (Parent test_opt) in
  run.1 = Ok tt /\
  List.filter (fun c => negb (reads c) || match c with Send _ _ | WaitFor _ _ | AddPort _ | Close _
                          | CombinedOutput _ | WaitCmd _ | QuitPortDriver => true | _ => false end) run.2 =
  [TryLock "/run/rk/lock"; StartCmd (match List.find (fun c => match c with StartCmd _ => true | _ => false end) run.2
                                     with Some (StartCmd c) => c | _ => simple_cmd [] end);
   Send 12 hello_parent; WaitFor 11 TChildHello;
   CombinedOutput (map lit ["newuidmap"; "100"; "0"; "1000"; "1"; "1"; "100000"; "65536"]%string);
   CombinedOutput (map lit ["newgidmap"; "100"; "0"; "1000"; "1"; "1"; "100000"; "65536"]%string);
   Send 12 idmap_done; WaitFor 11 TChildInitUserNSCompleted;
   ForwardAllSignals 100; ConfigureNetwork 100 "/run/rk" [];
   Send 12 (network_done (mkNetMsg None "tap0" "10.0.2.100" 24 "10.0.2.2" [lit "10.0.2.3"] 65520 []));
   Send 12 (port_done (mkPortMsg [])); Close 12;
   AddPort (port.mkSpec "tcp" "0.0.0.0" 8080 80 []);
   WriteFile "/run/rk/child_pid" "100" 292; RemoveAll "/run/rk/api.sock"; Listen "unix" "/run/rk/api.sock";
   WaitCmd 100; QuitPortDriver; CleanupNetwork; StopCatch; Unlock "/run/rk/lock"; RemoveAll "/run/rk"].
Proof. vm_compute. split; reflexivity. Qed.
