(* ===== verification/Child.v ===== *)
(** * pkg/child: the child process

    The child runs in new user and mount namespaces.  It talks to the parent
    over the two pipes, executes itself again to gain its capabilities, mounts
    what the namespaces need, configures the network and runs the target
    command, as a reaper when it is PID 1. *)
From S2P Require Import Prelude GoStrings NetIP PortSpec Effects Framing Messages Sessions SubID Sys.
Import messages.
Import Sys.

(** ** pkg/common/exec.go *)
Module common.

(** [syscall.WaitStatus] *)
Definition Exited (ws : WaitStatus) : bool := Z.land ws 127 =? 0.
Definition ExitStatus (ws : WaitStatus) : Z :=
  if Exited ws then Z.land (Z.shiftr ws 8) 255 else -1.
Definition Signaled (ws : WaitStatus) : bool :=
  negb (Z.land ws 127 =? 127) && negb (Z.land ws 127 =? 0).

(** [exec.ExitError] and [reaperErr] are the errors with a wait status. *)
Definition GetExecExitStatus (err : error) : option Z :=
  match errors_Unwrap err with
  | Some (Exit ws) => Some (ExitStatus ws)
  | _ => None
  end.

(** An empty command line would index out of range. *)
Definition Execs (cmds : list (list str)) : io (result unit) :=
  for_each cmds (fun cmd =>
    match cmd with
    | [] => fail (Panic "index out of range")
    | _ => call (RunCmd cmd)
    end).

Definition Seq (fns : list (io (result unit))) : io (result unit) :=
  for_each fns (fun fn => fn).

End common.

(** ** pkg/copyup/tmpfssymlink *)
Module tmpfssymlink.

(** The symlink for one entry of the old directory. *)
Definition link_entry (d bind1 : str) (f : DirEntry) : io (result unit) :=
  let fFull := filepath.Join [bind1; de_name f] in
  symlinkSrc <-! (if de_symlink f
                  then wrapping (call (Readlink fFull)) (Wrapf "reading dir %s: %w" [AStr fFull])
                  else Ret (Ok (filepath.Join [filepath.Base bind1; de_name f]))) ;;
  let symlinkDst := filepath.Join [d; de_name f] in
  _ <-! wrapping (call (RemoveAll symlinkDst)) (Wrapf "removing %s: %w" [AStr symlinkDst]) ;;
  wrapping (call (Symlink symlinkSrc symlinkDst))
    (Wrapf "symlinking %s to %s: %w" [AStr symlinkSrc; AStr symlinkDst]).

(** One directory. *)
Definition copy_dir (bind0 d : str) : io (result unit) :=
  if bool_decide (d = lit "/tmp") then fail (errors_New "/tmp cannot be copied up")
  else
    _ <-! wrapping (call (Mount d bind0 [] (Z.lor MS_BIND MS_REC) []))
            (Wrapf "failed to create bind mount on %s: %w" [AStr d]) ;;
    _ <-! wrapping (call (Mount "none" d "tmpfs" 0 [])) (Wrapf "failed to mount tmpfs on %s: %w" [AStr d]) ;;
    bind1 <-! wrapping (call (MkdirTemp d ".ro")) (Wrapf "creating a directory under %s: %w" [AStr d]) ;;
    _ <-! wrapping (call (Mount bind0 bind1 [] MS_MOVE []))
            (Wrapf "failed to move mount point from %s to %s: %w" [AStr bind0; AStr bind1]) ;;
    files <-! wrapping (call (ReadDir bind1)) (Wrapf "reading dir %s: %w" [AStr bind1]) ;;
    for_each files (link_entry d bind1).

(** The directories copied so far are returned next to an error. *)
Fixpoint copy_dirs (bind0 : str) (dirs copied : list str) : io (list str * option error) :=
  match dirs with
  | [] => Ret (copied, None)
  | d :: dirs' =>
      let d := filepath.Clean d in
      r <- copy_dir bind0 d ;;
      match r with
      | Err e => Ret (copied, Some e)
      | Ok _ => copy_dirs bind0 dirs' (copied ++ [d])
      end
  end.

Definition CopyUp (dirs : list str) : io (list str * option error) :=
  bind0 <- call (MkdirTemp "/tmp" "rootlesskit-b") ;;
  match bind0 with
  | Err e => Ret ([], Some (Wrapf "creating bind0 directory under /tmp: %w" [] e))
  | Ok bind0 =>
      defer (r <- call (RemoveAll bind0) ;; Ret tt) (copy_dirs bind0 dirs [])
  end.

End tmpfssymlink.

(** [fmt.Sscanf(s, "%d,%d", &a, &b)] *)
Module fmt.

Definition ErrSyntax : error := Extern "expected integer".

(** Leading spaces are skipped (a newline is not), a sign may precede. *)
Fixpoint skip_blanks (s : str) : str :=
  match s with
  | c :: s' => if bool_decide (c = " "%char) || bool_decide (c = "009"%char) then skip_blanks s' else s
  | [] => []
  end.

Fixpoint span_digits (s : str) : str * str :=
  match s with
  | c :: s' => if strconv.is_digit c then let '(a, b) := span_digits s' in (c :: a, b) else ([], s)
  | [] => ([], [])
  end.

Definition scan_d (s : str) : result (Z * str) :=
  let s := skip_blanks s in
  let '(sign, s) := match s with
                    | "-"%char :: s' => (lit "-", s')
                    | "+"%char :: s' => ([], s')
                    | _ => ([], s)
                    end in
  let '(ds, rest) := span_digits s in
  z <-? strconv.Atoi (sign ++ ds) ;;
  Ok (z, rest).

Definition Sscanf_d_d (s : str) : result (Z * Z) :=
  r <-? scan_d s ;;
  let '(a, rest) := r in
  match rest with
  | ","%char :: rest' =>
      r2 <-? scan_d rest' ;;
      Ok (a, fst r2)
  | _ => Err (Extern "input does not match format")
  end.

End fmt.

(** ** child.go *)
Module child.

Record Opt : Set := mkOpt {
  PipeFDEnvKey : str;
  RunActivationHelperEnvKey : str;
  ChildUseActivationEnvKey : str;
  StateDirEnvKey : str;
  TargetCmd : list str;
  NetworkDriver : bool;       (** false: nil, for the host network *)
  CopyUpDriver : bool;        (** true: the tmpfs+symlink driver, the only one *)
  CopyUpDirs : list str;
  DetachNetNS : bool;
  PortDriver : bool;          (** false: nil *)
  MountProcfs : bool;
  Propagation : str;
  Reaper : bool;
  EvacuateCgroup2 : bool;
}.

Definition propagationStates : list (str * Z) :=
  [(lit "private", MS_PRIVATE); (lit "rprivate", Z.lor MS_REC MS_PRIVATE);
   (lit "shared", MS_SHARED); (lit "rshared", Z.lor MS_REC MS_SHARED);
   (lit "slave", MS_SLAVE); (lit "rslave", Z.lor MS_REC MS_SLAVE)].

(** Lookup in a map literal: its keys are distinct. *)
Definition map_lookup {V} (k : str) (m : list (str * V)) : option V :=
  snd <$> List.find (fun kv => bool_decide (fst kv = k)) m.

(** The descriptors 3, 4, ... of the sockets of systemd; [make] panics on a
    negative length. *)
Definition setupFiles : io (result (list Z)) :=
  v <- call (Getenv "LISTEN_FDS") ;;
  if bool_decide (v = []) then Ret (Ok [])
  else match strconv.Atoi v with
       | Err _ => Ret (Ok [])
       | Ok num =>
           if num <? 0 then fail (Panic "makeslice: len out of range")
           else Ret (Ok (map (fun i => 3 + Z.of_nat i) (seq 0 (Z.to_nat num))))
       end.

Definition createCmd (opt : Opt) : io (result Cmd) :=
  v <- call (Getenv (ChildUseActivationEnvKey opt)) ;;
  let fixListenPidEnv := match strconv.ParseBool v with Ok b => b | Err _ => false end in
  _ <- call (Unsetenv (ChildUseActivationEnvKey opt)) ;;
  cmdEnv <- call Environ ;;
  argv <-! (if fixListenPidEnv
            then args <- call OsArgs ;; Ret (Ok (lit "/proc/self/exe" :: tail args))
            else match TargetCmd opt with
                 | [] => fail (Panic "index out of range")
                 | argv => Ret (Ok argv)
                 end) ;;
  let cmdEnv := if fixListenPidEnv then cmdEnv ++ [RunActivationHelperEnvKey opt ++ lit "=true"] else cmdEnv in
  files <-! setupFiles ;;
  Ret (Ok (mkCmd argv (Some cmdEnv) files 0 0 true false)).

Definition cgroupDir : str := "/sys/fs/cgroup".

(** [unix.Mount] with an error message *)
Definition mount (src tgt fstype : str) (flags : Z) (f : error -> error) : io (result unit) :=
  wrapping (call (Mount src tgt fstype flags [])) f.

(** A mount that is retried read-only; failures are only logged. *)
Definition mount_or_ro (tgt fstype : str) : io unit :=
  r <- call (Mount "none" tgt fstype 0 []) ;;
  match r with
  | Ok _ => Ret tt
  | Err e =>
      _ <- call (Warn (Wrapf (lit "failed to mount " ++ fstype ++ lit ", falling back to read-only mount: %v") [] e)) ;;
      r <- call (Mount "none" tgt fstype MS_RDONLY []) ;;
      match r with
      | Ok _ => Ret tt
      | Err e => call (Warn (Wrapf (lit "failed to mount " ++ fstype ++ lit ": %v") [] e))
      end
  end.

Definition mountSysfs (hostNetwork evacuateCgroup2 : bool) : io (result unit) :=
  if hostNetwork then
    if evacuateCgroup2 then
      _ <-! mount "none" cgroupDir "tmpfs" 0 (Wrapf "failed to mount tmpfs on %s: %w" [AStr cgroupDir]) ;;
      mount "none" cgroupDir "cgroup2" 0 (Wrapf "failed to mount cgroup2 on %s: %w" [AStr cgroupDir])
    else Ret (Ok tt)
  else
    tmp <-! wrapping (call (MkdirTemp "/tmp" "rksys")) (Wrapf "creating a directory under /tmp: %w" []) ;;
    defer (r <- call (RemoveAll tmp) ;; Ret tt)
      (_ <-! (if evacuateCgroup2 then Ret (Ok tt)
              else mount cgroupDir tmp [] (Z.lor MS_BIND MS_REC)
                     (Wrapf "failed to create bind mount on %s: %w" [AStr cgroupDir])) ;;
       _ <- mount_or_ro "/sys" "sysfs" ;;
       if evacuateCgroup2
       then mount "none" cgroupDir "cgroup2" 0 (Wrapf "failed to mount cgroup2 on %s: %w" [AStr cgroupDir])
       else mount tmp cgroupDir [] MS_MOVE
              (Wrapf "failed to move mount point from %s to %s: %w" [AStr tmp; AStr cgroupDir])).

(** Nothing is reported when procfs cannot be mounted. *)
Definition mountProcfs : io (result unit) :=
  _ <- mount_or_ro "/proc" "proc" ;;
  Ret (Ok tt).

Definition executing : error -> error := Wrapf "executing %v: %w" [].

Definition activateLoopback : io (result unit) :=
  wrapping (common.Execs [map lit ["ip"; "link"; "set"; "lo"; "up"]%string]) executing.

Definition activateDev (dev ip : str) (netmask : Z) (gateway : str) (mtu : Z) : io (result unit) :=
  wrapping (common.Execs
    [[lit "ip"; lit "link"; lit "set"; dev; lit "up"];
     [lit "ip"; lit "link"; lit "set"; lit "dev"; dev; lit "mtu"; strconv.Itoa mtu];
     [lit "ip"; lit "addr"; lit "add"; ip ++ lit "/" ++ strconv.Itoa netmask; lit "dev"; dev];
     [lit "ip"; lit "route"; lit "add"; lit "default"; lit "via"; gateway; lit "dev"; dev]]) executing.

(** Whether /etc was copied, and the error. *)
Definition setupCopyDir (driver : bool) (dirs : list str) : io (bool * option error) :=
  if driver then
    r <- tmpfssymlink.CopyUp dirs ;;
    Ret (existsb (fun d => bool_decide (d = lit "/etc")) r.1, r.2)
  else if bool_decide (dirs <> []) then Ret (false, Some (errors_New "copy-up driver is not specified"))
  else Ret (false, None).

(** *** hosts.go, resolvconf.go *)

Definition nl : str := ["010"%char].

Definition hosts_content (etcHosts hostname : str) : str :=
  etcHosts ++ nl ++ lit "127.0.0.1 " ++ hostname ++ nl ++ lit "::1 " ++ hostname ++ nl.

Definition generateEtcHosts : io (result str) :=
  etcHosts <-! call (ReadFile "/etc/hosts") ;;
  hostname <-! call Hostname ;;
  Ret (Ok (hosts_content etcHosts hostname)).

Definition generateResolvConf (dns : list str) : str :=
  concat (map (fun nameserver => lit "nameserver " ++ nameserver ++ nl) dns).

(** *** setupNet *)

(** [ns.WithNetNSPath] *)
Definition with_netns (path : str) (body : io (result unit)) : io (result unit) :=
  _ <-! call (InNetNS path) ;;
  defer (call LeaveNetNS) body.

Definition write_file (path data : str) : io (result unit) :=
  wrapping (call (WriteFile path data 420)) (Wrapf "writing %s: %w" [AStr path]).

(** [ip]'s configuration, unless the driver configures the interface. *)
Definition configure_dev (dev : str) (msg : NetMsg) : io (result unit) :=
  configures <- call ConfiguresInterface ;;
  if configures then Ret (Ok tt)
  else activateDev dev (IP msg) (Netmask msg) (Gateway msg) (MTU msg).

(** An empty file instead of the symlink that copy-up made. *)
Definition blank_file (f : str) : io (result unit) :=
  _ <-! wrapping (call (RemoveAll f)) (Wrapf "failed to remove copied-up link %q: %w" [AStr f]) ;;
  wrapping (call (WriteFile f [] 420)) (Wrapf "writing %s: %w" [AStr f]).

(** The driver of the child; a nil message is dereferenced. *)
Definition configure_child (msg : option NetMsg) (netns : str) : io (result (str * NetMsg)) :=
  match msg with
  | Some m => call (ConfigureNetworkChild m netns)
  | None => fail (Panic "nil pointer dereference")
  end.

Definition setupNet (stateDir : str) (msg : option NetMsg) (etcWasCopied driver : bool) (detachedNetNSPath : str)
    : io (result unit) :=
  if negb driver then Ret (Ok tt)
  else
    let stateDirResolvConf := filepath.Join [stateDir; lit "resolv.conf"] in
    hostsContent <-! generateEtcHosts ;;
    let stateDirHosts := filepath.Join [stateDir; lit "hosts"] in
    _ <-! write_file stateDirHosts hostsContent ;;
    if bool_decide (detachedNetNSPath = []) then
      _ <-! activateLoopback ;;
      r <-! configure_child msg detachedNetNSPath ;;
      let '(dev, msg) := (r : str * NetMsg) in
      _ <-! write_file stateDirResolvConf (generateResolvConf (DNS msg)) ;;
      _ <-! configure_dev dev msg ;;
      _ <-! (if etcWasCopied
             then for_each [lit "/etc/resolv.conf"; lit "/etc/hosts"] blank_file
             else _ <- call (Warn (errors_New "Mounting /etc/resolv.conf without copying-up /etc.")) ;; Ret (Ok tt)) ;;
      _ <-! mount stateDirResolvConf "/etc/resolv.conf" [] MS_BIND
              (Wrapf "failed to create bind mount /etc/resolv.conf for %s: %w" [AStr stateDirResolvConf]) ;;
      mount stateDirHosts "/etc/hosts" [] MS_BIND
        (Wrapf "failed to create bind mount /etc/hosts for %s: %w" [AStr stateDirHosts])
    else
      _ <-! with_netns detachedNetNSPath activateLoopback ;;
      r <-! configure_child msg detachedNetNSPath ;;
      let '(dev, msg) := (r : str * NetMsg) in
      _ <-! write_file stateDirResolvConf (generateResolvConf (DNS msg)) ;;
      with_netns detachedNetNSPath (configure_dev dev msg).

(** *** Capabilities *)

Definition statPIDNS (pid : Z) : io (result Z) :=
  call (StatIno (lit "/proc/" ++ strconv.Itoa pid ++ lit "/ns/pid")).

(** [Capget] answers with the effective set. *)
Definition hasCaps : io (result bool) :=
  pid <- call Getpid ;;
  effective <-! wrapping (call Capget) (Wrapf "failed to get the current caps: %w" []) ;;
  Ret (Ok (negb (effective =? 0))).

Definition reexec_env (pidns pid : Z) : str :=
  lit "_ROOTLESSKIT_REEXEC_COUNT_" ++ strconv.Itoa pidns ++ lit "_" ++ strconv.Itoa pid.

(** The attempts so far, from the value of the variable. *)
Definition reexec_count (envName v : str) : result Z :=
  if bool_decide (v = []) then Ok 0
  else on_err (strconv.Atoi v) (Wrapf "failed to parse %s value %q: %w" [AStr envName; AStr v]).

(** It only returns an error: on success the process starts again. *)
Definition gainCaps : io (result unit) :=
  pid <- call Getpid ;;
  pidns <- statPIDNS pid ;;
  let pidns := match pidns with Ok n => n | Err _ => 0 end in
  let envName := reexec_env pidns pid in
  envValueStr <- call (Getenv envName) ;;
  envValueInt <-! Ret (reexec_count envName envValueStr) ;;
  _ <- (if 5 <? envValueInt then call (Sleep (10 * envValueInt)) else Ret tt) ;;
  if 10 <? envValueInt
  then fail (Errorf "no capabilities was gained after reexecuting the child (%s=%d)" [AStr envName; AInt envValueInt])
  else
    _ <- call (Setenv envName (strconv.Itoa (wrap64 (envValueInt + 1)))) ;;
    args <- call OsArgs ;;
    env <- call Environ ;;
    call (Execve "/proc/self/exe" args env).

(** *** Running the command *)

Definition runWithoutReap (cmd : Cmd) : io (result unit) :=
  pid <-! call (StartCmd cmd) ;;
  _ <- call (ForwardAllSignals pid) ;;
  defer (call StopCatch) (call (WaitCmd pid)).

(** Collects zombies until there is none, and keeps the status of [myPid].
    The fuel bounds the number of zombies. *)
Fixpoint reap (fuel : nat) (myPid : Z) (found : option WaitStatus) : io (option WaitStatus) :=
  match fuel with
  | O => Ret found
  | S fuel =>
      r <- call Wait4 ;;
      match r with
      | Err _ => Ret found
      | Ok (pid, ws) =>
          if pid <=? 0 then Ret found
          else reap fuel myPid (if pid =? myPid then Some ws else found)
      end
  end.

(** What the reaper goroutine sends for a wait status. *)
Definition reap_result (ws : WaitStatus) : result unit :=
  if common.Exited ws && (common.ExitStatus ws =? 0) then Ok tt else Err (Exit ws).

(** The error of a run that has not ended within the fuel. *)
Definition running : error := Extern "still running".

(** The reaper goroutine up to its first result. *)
Fixpoint reaper (fuel zombies : nat) (myPid : Z) : io (result unit) :=
  match fuel with
  | O => fail running
  | S fuel =>
      _ <- call NextSIGCHLD ;;
      r <- reap zombies myPid None ;;
      match r with
      | Some ws => Ret (reap_result ws)
      | None => reaper fuel zombies myPid
      end
  end.

Definition runAndReap (fuel zombies : nat) (cmd : Cmd) : io (result unit) :=
  _ <- call NotifySIGCHLD ;;
  pid <-! call (StartCmd (mkCmd (Argv cmd) (Env cmd) (ExtraFiles cmd) (Cloneflags cmd)
                            (Unshareflags cmd) (Pdeathsig cmd) true)) ;;
  _ <- call (ForwardAllSignals pid) ;;
  defer (call StopCatch) (reaper fuel zombies pid).

Definition setMountPropagation (propagation : str) : io (result unit) :=
  match map_lookup propagation propagationStates with
  | Some flags => mount "none" "/" [] flags (Wrapf "failed to share mount point: /: %w" [])
  | None => Ret (Ok tt)
  end.

Definition NewNetNsWithPathWithoutEnter (p : str) : io (result unit) :=
  _ <-! call (WriteFile p [] 256) ;;
  selfExe <-! call OsExecutable ;;
  out <- call (CombinedOutputAs selfExe
                 (map lit ["unshare"; "-n"; "mount"; "--bind"; "/proc/self/ns/net"]%string ++ [p])) ;;
  match out with
  | (_, None) => Ret (Ok tt)
  | (o, Some e) => fail (Wrapf "failed to execute %v: %w (out=%q)" [AStr o] e)
  end.

(** *** Child *)

(** How [Child] ends: it returns, or the process image was replaced. *)
Inductive outcome : Set := Done | Reexecuted.

(** From the target command to the end. *)
Definition child_run (fuel zombies : nat) (opt : Opt) : io (result outcome) :=
  cmd <-! createCmd opt ;;
  _ <-! wrapping
          (_ <-! call PrctlPdeathsig ;;
           if Reaper opt then runAndReap fuel zombies cmd else runWithoutReap cmd)
          (Wrapf "command %v exited: %w" []) ;;
  if PortDriver opt then
    _ <- call QuitPortDriver ;;
    _ <-! call PortDriverErr ;;
    Ret (Ok Done)
  else Ret (Ok Done).

(** From the closed pipe to the running port driver. *)
Definition child_setup (opt : Opt) (stateDir detachedNetNSPath : str) (pipeFD : Z)
    (netMsg : option NetMsg) (portMsg : option PortMsg) : io (result unit) :=
  _ <- call (Unsetenv (PipeFDEnvKey opt)) ;;
  _ <-! wrapping (call (Close pipeFD)) (Wrapf "failed to close fd %d: %w" [AInt pipeFD]) ;;
  _ <-! setMountPropagation (Propagation opt) ;;
  copied <- setupCopyDir (CopyUpDriver opt) (CopyUpDirs opt) ;;
  match copied with
  | (_, Some e) => fail e
  | (etcWasCopied, None) =>
      _ <-! (if bool_decide (detachedNetNSPath = [])
             then mountSysfs (negb (NetworkDriver opt)) (EvacuateCgroup2 opt) else Ret (Ok tt)) ;;
      _ <-! setupNet stateDir netMsg etcWasCopied (NetworkDriver opt) detachedNetNSPath ;;
      _ <- (if PortDriver opt
            then call (GoRunChildDriver (match portMsg with Some m => PortDriverOpaque m | None => [] end) detachedNetNSPath) else Ret tt) ;;
      Ret (Ok tt)
  end.

(** The second half: the process has its capabilities. *)
Definition child_with_caps (fuel zombies : nat) (opt : Opt) (stateDir : str) (pipeFD pipe2FD : Z)
    : io (result outcome) :=
  _ <-! (if MountProcfs opt then mountProcfs else Ret (Ok tt)) ;;
  let detachedNetNSPath := if DetachNetNS opt then filepath.Join [stateDir; lit "netns"] else [] in
  _ <-! (if DetachNetNS opt
         then wrapping (NewNetNsWithPathWithoutEnter detachedNetNSPath)
                (Wrapf "failed to create a detached netns on %q: %w" [AStr detachedNetNSPath])
         else Ret (Ok tt)) ;;
  _ <-! call (Send pipe2FD userns_done) ;;
  msg <-! call (WaitFor pipeFD TParentInitNetworkDriverCompleted) ;;
  let netMsg := ParentInitNetworkDriverCompleted (U_of msg) in
  msg <-! call (WaitFor pipeFD TParentInitPortDriverCompleted) ;;
  let portMsg := ParentInitPortDriverCompleted (U_of msg) in
  _ <-! child_setup opt stateDir detachedNetNSPath pipeFD netMsg portMsg ;;
  child_run fuel zombies opt.

(** The first half: the process waits for its id maps and executes itself. *)
Definition child_without_caps (pipeFD pipe2FD : Z) : io (result outcome) :=
  _ <-! call (WaitFor pipeFD TParentHello) ;;
  _ <-! call (Send pipe2FD hello_child) ;;
  _ <-! call (WaitFor pipeFD TParentInitIdmapCompleted) ;;
  _ <-! wrapping gainCaps (Wrapf "failed to gain the caps inside the user namespace: %w" []) ;;
  Ret (Ok Reexecuted).

Definition Child (fuel zombies : nat) (opt : Opt) : io (result outcome) :=
  if bool_decide (PipeFDEnvKey opt = []) then fail (errors_New "pipe FD env key is not set")
  else
    pipeFDStr <- call (Getenv (PipeFDEnvKey opt)) ;;
    if bool_decide (pipeFDStr = []) then fail (Errorf "%s is not set" [AStr (PipeFDEnvKey opt)])
    else
      fds <-! Ret (on_err (fmt.Sscanf_d_d pipeFDStr) (Wrapf "unexpected fd value: %s: %w" [AStr pipeFDStr])) ;;
      let '(pipeFD, pipe2FD) := (fds : Z * Z) in
      let key := if bool_decide (StateDirEnvKey opt = []) then lit "ROOTLESSKIT_STATE_DIR" else StateDirEnvKey opt in
      stateDir <- call (Getenv key) ;;
      if bool_decide (stateDir = []) then fail (errors_New "got empty StateDir")
      else
        ok <-! hasCaps ;;
        if ok then child_with_caps fuel zombies opt stateDir pipeFD pipe2FD
        else child_without_caps pipeFD pipe2FD.

End child.

(** ** The loops make no communication call *)

Lemma copy_dirs_only P bind0 dirs copied :
  (forall d, only P (tmpfssymlink.copy_dir bind0 d)) -> only P (tmpfssymlink.copy_dirs bind0 dirs copied).
Proof.
  intros Hd. revert copied; induction dirs as [|d dirs IH]; intros copied; simpl; [done|].
  apply only_bind; [apply Hd|]. intros [[]|e]; [apply IH|done].
Qed.

Lemma copy_dirs_quiet bind0 dirs copied : only not_comm (tmpfssymlink.copy_dirs bind0 dirs copied).
Proof. apply copy_dirs_only. only_tac. Qed.

Lemma reap_only P fuel pid found : P Wait4 = true -> only P (child.reap fuel pid found).
Proof.
  intros HP. revert found; induction fuel as [|fuel IH]; intros found; simpl; [done|]. split; [done|].
  intros [[q ws]|e]; [|done]. case_match; [done|apply IH].
Qed.

Lemma reaper_only P fuel zombies pid : P NextSIGCHLD = true -> P Wait4 = true -> only P (child.reaper fuel zombies pid).
Proof.
  intros HN HW. induction fuel as [|fuel IH]; simpl; [done|]. split; [done|]. intros _.
  apply only_bind; [by apply reap_only|]. by intros [ws|].
Qed.

Lemma reaper_quiet fuel zombies pid : only not_comm (child.reaper fuel zombies pid).
Proof. by apply reaper_only. Qed.
#[export] Hint Resolve copy_dirs_quiet reaper_quiet : only.

(** ** Reading back two descriptors *)

Lemma span_digits_app ds rest :
  forallb strconv.is_digit ds = true ->
  match rest with c :: _ => strconv.is_digit c = false | [] => True end ->
  fmt.span_digits (ds ++ rest) = (ds, rest).
Proof.
  intros Hd Hr. induction ds as [|c ds IH]; simpl in *.
  - destruct rest as [|c rest]; [done|]. simpl. by rewrite Hr.
  - bool_props. rewrite H, IH by done. done.
Qed.

Lemma scan_d_Itoa z rest :
  0 <= z <= int_max ->
  match rest with c :: _ => strconv.is_digit c = false | [] => True end ->
  fmt.scan_d (strconv.Itoa z ++ rest) = Ok (z, rest).
Proof.
  intros Hz Hr. assert (in_int64 z = true) as Hin by (apply in_int64_intro; unfold int_min; lia).
  pose proof (Atoi_Itoa z Hin) as Ha. unfold strconv.Itoa in *.
  replace (z <? 0) with false in * by (symmetry; apply Z.ltb_ge; lia).
  destruct (itoa_N_digits (Z.to_N z)) as (c & s & E & Hd). rewrite E in *. unfold fmt.scan_d.
  assert (Hc : strconv.is_digit c = true) by (simpl in Hd; by bool_props).
  assert (fmt.skip_blanks ((c :: s) ++ rest) = (c :: s) ++ rest) as ->.
  { simpl. destruct (bool_decide (c = " "%char)) eqn:E1; bool_props; [by subst c|].
    destruct (bool_decide (c = "009"%char)) eqn:E2; bool_props; [by subst c|done]. }
  apply digit_not_sign in Hc as [Hm Hp].
  assert (forall X (a b d : X), match (c :: s) ++ rest with "-"%char :: _ => a | "+"%char :: _ => b | _ => d end = d) as Hsign.
  { intros X a b d. simpl. destruct c as [[] [] [] [] [] [] [] []]; done. }
  destruct c as [[] [] [] [] [] [] [] []]; try done; cbn [app];
    change (?c :: s ++ rest) with ((c :: s) ++ rest); rewrite span_digits_app by done; cbn [app];
    rewrite Ha; done.
Qed.

Lemma Sscanf_Itoa a b :
  0 <= a <= int_max -> 0 <= b <= int_max ->
  fmt.Sscanf_d_d (strconv.Itoa a ++ lit "," ++ strconv.Itoa b) = Ok (a, b).
Proof.
  intros Ha Hb. unfold fmt.Sscanf_d_d. rewrite scan_d_Itoa by done. cbn [rbind fst lit String.list_ascii_of_string app].
  rewrite <- (app_nil_r (strconv.Itoa b)), scan_d_Itoa by done. done.
Qed.

(** ** The reaper collects every zombie *)

Definition is_wait4 (c : sys) : bool := match c with Wait4 => true | _ => false end.
Definition waits (h : trace res) : nat := length (List.filter is_wait4 (calls h)).

(** The status that [pid] ended with, the last one if there are several. *)
Definition status_of (pid : Z) (zs : list (Z * WaitStatus)) (found : option WaitStatus) : option WaitStatus :=
  fold_left (fun f z => if z.1 =? pid then Some z.2 else f) zs found.

(** The kernel hands out the zombies [zs] one by one, then says that there is
    none (or none that has ended). *)
Record zombie_env (e : env res) (zs : list (Z * WaitStatus)) : Prop := {
  ze_next h i z : waits h = i -> zs !! i = Some z -> e h Wait4 = Ok z;
  ze_end h : (length zs <= waits h)%nat ->
    match e h Wait4 with Ok (pid, _) => pid <= 0 | Err _ => True end;
}.

Lemma waits_snoc h r : waits (h ++ [ev Wait4 r]) = S (waits h).
Proof. unfold waits, calls. rewrite map_app, List.filter_app, length_app. apply Nat.add_1_r. Qed.

Lemma reap_from e zs fuel pid h found :
  zombie_env e zs -> Forall (fun z => 0 < z.1) zs -> (waits h <= length zs)%nat ->
  (length zs - waits h < fuel)%nat ->
  let '(r, h') := run e (child.reap fuel pid found) h in
  r = status_of pid (drop (waits h) zs) found /\ waits h' = S (length zs).
Proof.
  intros He Hpos. revert h found; induction fuel as [|fuel IH]; intros h found Hw Hf; [lia|].
  simpl. destruct (decide (waits h = length zs)) as [Eq|Hne].
  - pose proof (ze_end _ _ He h ltac:(lia)) as Hend. rewrite drop_ge by lia.
    destruct (e h Wait4) as [[q ws]|err]; simpl.
    + replace (q <=? 0) with true by (symmetry; by apply Z.leb_le). simpl. rewrite waits_snoc. split; [done|lia].
    + rewrite waits_snoc. split; [done|lia].
  - destruct (lookup_lt_is_Some_2 zs (waits h)) as [[q ws] Hz]; [lia|].
    rewrite (ze_next _ _ He h _ _ eq_refl Hz). rewrite Forall_lookup in Hpos. specialize (Hpos _ _ Hz).
    simpl in Hpos. replace (q <=? 0) with false by (symmetry; apply Z.leb_gt; lia).
    specialize (IH (h ++ [ev Wait4 (Ok (q, ws))]) (if q =? pid then Some ws else found)).
    rewrite waits_snoc in IH. destruct (run _ _ _) as [r h']. destruct IH as [-> IH]; [lia..|].
    split; [|done]. by rewrite (drop_S _ _ _ Hz).
Qed.

(** C33: one call of [reap] collects every zombie (one [wait4] each, and a last
    one that finds none), whatever their number, and yields the exit status of
    the command exactly when the command is among them. *)
Theorem reap_collects e zs fuel pid :
  zombie_env e zs -> Forall (fun z => 0 < z.1) zs -> (length zs < fuel)%nat ->
  (run e (child.reap fuel pid None) []).1 = status_of pid zs None /\
  waits (run e (child.reap fuel pid None) []).2 = S (length zs) /\
  (is_Some (status_of pid zs None) <-> pid ∈ zs.*1).
Proof.
  intros He Hpos Hf. pose proof (reap_from e zs fuel pid [] None He Hpos ltac:(unfold waits; simpl; lia) ltac:(unfold waits; simpl; lia)) as H.
  destruct (run _ _ _) as [r h]. destruct H as [-> Hw]. simpl. split; [done|]. split; [done|].
  assert (forall zs found, is_Some (status_of pid zs found) <-> is_Some found \/ pid ∈ zs.*1) as Hs.
  { clear. induction zs as [|[q ws] zs IH]; intros found; simpl.
    - split; [auto|]. intros [?|Hin]; [done|]. by apply elem_of_nil in Hin.
    - rewrite IH, elem_of_cons. destruct (Z.eqb_spec q pid) as [->|Hne].
      + split; [auto|]. intros _. left. by eexists.
      + naive_solver. }
  rewrite Hs. split; [intros [[? [=]]|?]; done|auto].
Qed.

Definition two_zombies : env res := fun h c =>
  match c return res c with
  | Wait4 => match waits h with O => Ok (7, 256) | S O => Ok (100, 768) | _ => Err (Extern "ECHILD") end
  | c => ok_kernel c
  end.

Theorem reap_collects_witness : (run two_zombies (child.reap 5 100 None) []).1 = Some 768.
Proof.
  assert (zombie_env two_zombies [(7, 256); (100, 768)]) as He.
  { split.
    - intros h i z Hi Hz. unfold two_zombies. rewrite Hi. by destruct i as [|[|i]]; simplify_eq/=.
    - intros h Hh. unfold two_zombies. by destruct (waits h) as [|[|n]]; simpl in Hh; try lia. }
  destruct (reap_collects two_zombies [(7, 256); (100, 768)] 5 100 He) as [E _]; [|simpl; lia|].
  - repeat constructor.
  - rewrite E. reflexivity.
Defined.

(** ** The target command starts last *)

Record prog_state : Set := mkProg {
  net_msg : bool;     (** the network message was received *)
  port_msg : bool;
  env_clean : bool;   (** the variable with the descriptors is unset *)
  pipe_closed : bool;
  netns_ready : bool; (** the driver has configured the network *)
  started : bool;
}.

(** What must have happened before the network is configured and before the
    target command is started.  The other commands that the child runs are
    [CombinedOutput] and [RunCmd] calls. *)
Definition setup_order (opt : child.Opt) (s : prog_state) (c : sys) : res c -> option prog_state :=
  match c return res c -> option prog_state with
  | WaitFor _ t => fun r =>
      Some (if is_ok r
            then mkProg (net_msg s || bool_decide (t = TParentInitNetworkDriverCompleted))
                   (port_msg s || bool_decide (t = TParentInitPortDriverCompleted))
                   (env_clean s) (pipe_closed s) (netns_ready s) (started s)
            else s)
  | Unsetenv k => fun _ =>
      Some (mkProg (net_msg s) (port_msg s) (env_clean s || bool_decide (k = child.PipeFDEnvKey opt))
              (pipe_closed s) (netns_ready s) (started s))
  | Close _ => fun r => Some (mkProg (net_msg s) (port_msg s) (env_clean s) (is_ok r) (netns_ready s) (started s))
  | ConfigureNetworkChild _ _ => fun r =>
      if net_msg s && port_msg s && pipe_closed s && negb (started s)
      then Some (mkProg (net_msg s) (port_msg s) (env_clean s) (pipe_closed s) (is_ok r) (started s)) else None
  | GoRunChildDriver _ _ => fun _ =>
      if port_msg s && (negb (child.NetworkDriver opt) || netns_ready s) && negb (started s) then Some s else None
  | StartCmd _ => fun _ =>
      if net_msg s && port_msg s && env_clean s && pipe_closed s &&
         (negb (child.NetworkDriver opt) || netns_ready s) && negb (started s)
      then Some (mkProg (net_msg s) (port_msg s) (env_clean s) (pipe_closed s) (netns_ready s) true) else None
  | Mount _ _ _ _ _ => fun _ => if started s then None else Some s
  | _ => fun _ => Some s
  end.

Definition no_order (c : sys) : bool :=
  match c with
  | WaitFor _ _ | Unsetenv _ | Close _ | ConfigureNetworkChild _ _ | GoRunChildDriver _ _ | StartCmd _
  | Mount _ _ _ _ _ => false
  | _ => true
  end.
Definition no_order_mount (c : sys) : bool :=
  match c with Mount _ _ _ _ _ => true | _ => no_order c end.

Section order.
Context (opt : child.Opt).
Abbreviation otracks := (tracks (setup_order opt)).

Definition ran (r : result child.outcome) (s : prog_state) : Prop := r = Ok child.Done -> started s = true.

Lemma otracks_bind {A B} (p : io A) (f : A -> io B) s Q :
  started s = false -> only no_order_mount p -> (forall a, otracks (f a) s Q) -> otracks (bind p f) s Q.
Proof.
  intros Hs Hp Hf. apply tracks_bind. eapply tracks_only; [exact Hp| |done].
  intros c r Hc. destruct c; simpl in *; try discriminate; try done. by rewrite Hs.
Qed.

Lemma otracks_late {A B} (p : io A) (f : A -> io B) s Q :
  only no_order p -> (forall a, otracks (f a) s Q) -> otracks (bind p f) s Q.
Proof.
  intros Hp Hf. apply tracks_bind. eapply tracks_only; [exact Hp| |done].
  intros c r Hc. by destruct c.
Qed.

Lemma otracks_last {A} (p : io A) s (Q : A -> prog_state -> Prop) :
  started s = false -> only no_order_mount p -> (forall a, Q a s) -> otracks p s Q.
Proof.
  intros Hs Hp HQ. eapply tracks_only; [exact Hp| |done].
  intros c r Hc. destruct c; simpl in *; try discriminate; try done. by rewrite Hs.
Qed.

(** A step that can fail. *)
Lemma otracks_ebind {A B} (p : io (result A)) (f : A -> io (result B)) s (Q : result B -> prog_state -> Prop) :
  started s = false -> only no_order_mount p -> (forall e, Q (Err e) s) -> (forall a, otracks (f a) s Q) ->
  otracks (ebind p f) s Q.
Proof. intros Hs Hp He Hf. apply otracks_bind; [done..|]. intros [a|e]; [apply Hf|apply He]. Qed.

Lemma copy_dirs_order bind0 dirs copied : only no_order_mount (tmpfssymlink.copy_dirs bind0 dirs copied).
Proof. apply copy_dirs_only. only_tac. Qed.

Lemma reaper_order fuel zombies pid : only no_order (child.reaper fuel zombies pid).
Proof. by apply reaper_only. Qed.
Hint Resolve copy_dirs_order reaper_order : only.

(** The driver's step of [setupNet]. *)
Lemma configure_child_order {B} m ns s (k : str * NetMsg -> io (result B)) (Q : result B -> prog_state -> Prop) :
  net_msg s = true -> port_msg s = true -> pipe_closed s = true -> started s = false ->
  (forall e s', Q (Err e) s') ->
  (forall x, otracks (k x) (mkProg (net_msg s) (port_msg s) (env_clean s) (pipe_closed s) true (started s)) Q) ->
  otracks (ebind (child.configure_child m ns) k) s Q.
Proof.
  intros H1 H2 H3 H4 He Hk. destruct m as [m|]; [|apply He]. intros r. simpl.
  rewrite H1, H2, H3, H4. simpl. destruct r as [x|e]; simpl; [|apply He].
  specialize (Hk x). by rewrite H1, H2, H3, H4 in Hk.
Qed.

(** All that [setupNet] needs is that the two messages are here. *)
Lemma setupNet_order sd m etc ns s :
  net_msg s = true -> port_msg s = true -> pipe_closed s = true -> started s = false ->
  otracks (child.setupNet sd m etc (child.NetworkDriver opt) ns) s (fun r s' =>
    r = Ok tt -> child.NetworkDriver opt = true /\
      s' = mkProg (net_msg s) (port_msg s) (env_clean s) (pipe_closed s) true (started s) \/
      child.NetworkDriver opt = false /\ s' = s).
Proof.
  intros H1 H2 H3 H4. unfold child.setupNet. destruct (child.NetworkDriver opt); [|by right].
  apply otracks_ebind; [done|only_tac|done|]. intros hosts.
  apply otracks_ebind; [done|only_tac|done|]. intros _. case_bool_decide.
  - apply otracks_ebind; [done|only_tac|done|]. intros _.
    apply configure_child_order; [done..|]. intros [dev m'].
    do 4 (apply otracks_ebind; [done|only_tac|done|]; intros _).
    apply otracks_last; [done|only_tac|]. intros a _. by left.
  - apply otracks_ebind; [done|only_tac|done|]. intros _.
    apply configure_child_order; [done..|]. intros [dev m'].
    apply otracks_ebind; [done|only_tac|done|]. intros _.
    apply otracks_last; [done|only_tac|]. intros a _. by left.
Qed.

(** The state in which the target command may be started. *)
Definition ready (s : prog_state) : Prop :=
  s = mkProg true true true true (netns_ready s) false /\
  (child.NetworkDriver opt = true -> netns_ready s = true).

Definition no_order_unset (c : sys) : bool := match c with Unsetenv _ => true | _ => no_order c end.

Lemma otracks_unset {A B} (p : io (result A)) (f : A -> io (result B)) s (Q : result B -> prog_state -> Prop) :
  env_clean s = true -> only no_order_unset p -> (forall e, Q (Err e) s) -> (forall a, otracks (f a) s Q) ->
  otracks (ebind p f) s Q.
Proof.
  intros Hs Hp He Hf. apply tracks_bind. eapply tracks_only; [exact Hp| |].
  - intros c r Hc. destruct c; try discriminate; try done. simpl. rewrite Hs. simpl. destruct s; simpl in *. by subst.
  - intros [a|e]; [apply Hf|apply He].
Qed.

Definition did_start (r : result unit) (s : prog_state) : Prop := r = Ok tt -> started s = true.

Lemma start_order {B} cmd s (k : Z -> io (result B)) (Q : result B -> prog_state -> Prop) :
  ready s -> (forall e s', Q (Err e) s') ->
  (forall pid s', started s' = true -> otracks (k pid) s' Q) ->
  otracks (ebind (call (StartCmd cmd)) k) s Q.
Proof.
  intros [Hs Hn] He Hk r. rewrite Hs. simpl.
  assert (negb (child.NetworkDriver opt) || netns_ready s = true) as ->
    by (destruct (child.NetworkDriver opt); [by rewrite Hn|done]).
  simpl. destruct r as [pid|e]; simpl; [by apply Hk|apply He].
Qed.

Lemma runWithoutReap_order cmd s : ready s -> otracks (child.runWithoutReap cmd) s did_start.
Proof.
  intros Hs. apply start_order; [done|done|]. intros pid s' Hst.
  apply otracks_late; [only_tac|]. intros _. eapply tracks_only with (P := no_order); [only_tac| |by intros a _].
  intros c r Hc. by destruct c.
Qed.

Lemma runAndReap_order fuel zombies cmd s : ready s -> otracks (child.runAndReap fuel zombies cmd) s did_start.
Proof.
  intros Hs. apply otracks_late; [only_tac|]. intros _. apply start_order; [done|done|]. intros pid s' Hst.
  apply otracks_late; [only_tac|]. intros _. eapply tracks_only with (P := no_order); [only_tac| |by intros a _].
  intros c r Hc. by destruct c.
Qed.

Lemma child_run_order fuel zombies s : ready s -> otracks (child.child_run fuel zombies opt) s ran.
Proof.
  intros Hs. unfold child.child_run. destruct Hs as [Hs Hn].
  apply otracks_unset; [by rewrite Hs|only_tac|done|]. intros cmd. apply tracks_bind, tracks_bind.
  eapply (tracks_mono _ _ _ did_start).
  - apply otracks_late; [only_tac|]. intros [[]|e]; [|done].
    destruct (child.Reaper opt); [by apply runAndReap_order|by apply runWithoutReap_order].
  - intros [[]|e] s' Hst; [|done]. cbn [tracks on_err]. specialize (Hst eq_refl).
    eapply tracks_only with (P := no_order); [only_tac| |by intros a _].
    intros c r Hc. by destruct c.
Qed.

(** The first steps of [child_setup]. *)
Lemma close_pipe_order {B} n p e c r st fd g (k : io (result B)) (Q : result B -> prog_state -> Prop) :
  (forall err s', Q (Err err) s') -> otracks k (mkProg n p true true r st) Q ->
  otracks (bind (call (Unsetenv (child.PipeFDEnvKey opt))) (fun _ =>
    ebind (wrapping (call (Close fd)) g) (fun _ => k))) (mkProg n p e c r st) Q.
Proof.
  intros He Hk []. simpl. rewrite bool_decide_eq_true_2, orb_true_r by done.
  intros [[]|err]; simpl; [exact Hk|apply He].
Qed.

Lemma child_setup_order sd ns fd nm pm s :
  net_msg s = true -> port_msg s = true -> started s = false ->
  otracks (child.child_setup opt sd ns fd nm pm) s (fun r s' => r = Ok tt -> ready s').
Proof.
  intros H1 H2 H3. destruct s as [n p e c r st]. simpl in H1, H2, H3. subst.
  unfold child.child_setup. apply close_pipe_order; [by intros ? ? [=]|].
  apply otracks_ebind; [done|only_tac|done|]. intros _. apply otracks_bind; [done|only_tac|].
  intros [etc [err|]]; [by intros [=]|].
  apply otracks_ebind; [done|only_tac|done|]. intros _. apply tracks_bind.
  eapply tracks_mono; [by apply setupNet_order|]. intros [[]|err] s' Hs'; [|done]. specialize (Hs' eq_refl).
  assert (ready s') as Hr.
  { destruct Hs' as [[E ->]|[E ->]]; split; simpl; try done. by rewrite E. }
  destruct (child.PortDriver opt); [|by intros _]. intros []. simpl.
  destruct Hr as [Es Hn].
  assert (negb (child.NetworkDriver opt) || netns_ready s' = true) as Hd
    by (destruct (child.NetworkDriver opt); [by rewrite Hn|done]).
  rewrite Es. simpl. rewrite Hd. simpl. intros _. rewrite <- Es. done.
Qed.

Lemma recv_order {B} fd t s (k : Message -> io (result B)) (Q : result B -> prog_state -> Prop) :
  (forall e s', Q (Err e) s') ->
  (forall m, otracks (k m) (mkProg (net_msg s || bool_decide (t = TParentInitNetworkDriverCompleted))
     (port_msg s || bool_decide (t = TParentInitPortDriverCompleted))
     (env_clean s) (pipe_closed s) (netns_ready s) (started s)) Q) ->
  otracks (ebind (call (WaitFor fd t)) k) s Q.
Proof. intros He Hk [m|e]; simpl; [apply Hk|apply He]. Qed.

Lemma child_with_caps_order fuel zombies sd r w :
  otracks (child.child_with_caps fuel zombies opt sd r w) (mkProg false false false false false false) ran.
Proof.
  unfold child.child_with_caps.
  do 2 (apply otracks_ebind; [done|only_tac|done|]; intros _).
  apply otracks_ebind; [done|only_tac|done|]. intros _.
  apply recv_order; [done|]. intros m1. apply recv_order; [done|]. intros m2.
  apply tracks_bind. eapply tracks_mono; [by apply child_setup_order|].
  intros [[]|e] s' Hs; [|done]. by apply child_run_order, Hs.
Qed.

Lemma child_without_caps_order r w s : otracks (child.child_without_caps r w) s ran.
Proof.
  apply recv_order; [done|]. intros _. apply otracks_late; [only_tac|]. intros [[]|e]; [|done].
  apply recv_order; [done|]. intros _. apply otracks_late; [only_tac|]. by intros [[]|e].
Qed.
End order.

(** C16: in every execution of [Child], the network is configured only after
    both messages of the parent arrived and the pipe was closed; the target
    command is started once, after that, with the variable that names the pipe
    unset, and after every mount; and [Child] only reports success when the
    command was started. *)
Theorem Child_starts_last fuel zombies opt :
  tracks (setup_order opt) (child.Child fuel zombies opt)
    (mkProg false false false false false false) ran.
Proof.
  unfold child.Child. case_bool_decide; [by intros [=]|].
  apply otracks_late; [only_tac|]. intros v. case_bool_decide; [by intros [=]|].
  apply otracks_ebind; [done|done|done|]. intros [r w].
  apply otracks_late; [only_tac|]. intros d. destruct (bool_decide (d = [])); [by intros [=]|].
  apply otracks_ebind; [done|only_tac|done|]. intros [|].
  - apply child_with_caps_order.
  - apply child_without_caps_order.
Qed.

(** ** Gaining the capabilities *)

(** The [n]-th attempt counts itself in an environment variable of this
    very process (PID namespace and PID) before it replaces the image, waits
    for [n] hundredths of a second from the sixth attempt on, and after ten
    attempts gives up without touching the variable or replacing the image. *)
Theorem gainCaps_attempts (kern : forall c : sys, res c) n :
  let ino := match kern (StatIno (lit "/proc/" ++ strconv.Itoa (kern Getpid) ++ lit "/ns/pid")) with
             | Ok i => i | Err _ => 0 end in
  let name := child.reexec_env ino (kern Getpid) in
  0 <= n < int_max ->
  kern (Getenv name) = (if n =? 0 then [] else strconv.Itoa n) ->
  exec kern child.gainCaps =
  (if 10 <? n
   then Err (Errorf "no capabilities was gained after reexecuting the child (%s=%d)" [AStr name; AInt n])
   else kern (Execve "/proc/self/exe" (kern OsArgs) (kern Environ)),
   [Getpid; StatIno (lit "/proc/" ++ strconv.Itoa (kern Getpid) ++ lit "/ns/pid"); Getenv name] ++
   (if 5 <? n then [Sleep (10 * n)] else []) ++
   (if 10 <? n then [] else [Setenv name (strconv.Itoa (n + 1)); OsArgs; Environ;
                            Execve "/proc/self/exe" (kern OsArgs) (kern Environ)])).
Proof.
  intros ino name Hn Henv. unfold child.gainCaps, child.statPIDNS.
  rewrite exec_bind. cbn [call exec fst snd]. rewrite exec_bind. cbn [call exec fst snd].
  fold ino name. rewrite exec_bind. cbn [call exec fst snd]. rewrite Henv. unfold ebind. rewrite exec_bind.
  assert (in_int64 n = true /\ in_int64 (n + 1) = true) as [Hi Hi1]
    by (split; apply in_int64_intro; unfold int_min; lia).
  assert (forall nm, child.reexec_count nm (if n =? 0 then [] else strconv.Itoa n) = Ok n) as Hc.
  { intros nm. unfold child.reexec_count. destruct (Z.eqb_spec n 0) as [->|Hn0]; [done|]. rewrite Atoi_Itoa by done.
    case_bool_decide as E; [|done]. pose proof (Atoi_Itoa n Hi) as Ha. by rewrite E in Ha. }
  cbn [exec fst snd]. rewrite Hc. rewrite exec_bind.
  destruct (5 <? n) eqn:E5, (10 <? n) eqn:E10; cbn [call exec fst snd bind fail app];
    try (bool_props; lia); try done; by rewrite wrap64_id.
Qed.

Theorem gainCaps_attempts_witness :
  exec (fun c => match c return res c with
                 | Getpid => 2 | StatIno _ => Ok 4026531836
                 | Getenv k => if bool_decide (k = lit "_ROOTLESSKIT_REEXEC_COUNT_4026531836_2") then lit "7" else []
                 | c => ok_kernel c end) child.gainCaps =
  (Ok tt, [Getpid; StatIno "/proc/2/ns/pid"; Getenv "_ROOTLESSKIT_REEXEC_COUNT_4026531836_2"; Sleep 70;
           Setenv "_ROOTLESSKIT_REEXEC_COUNT_4026531836_2" "8"; OsArgs; Environ;
           Execve "/proc/self/exe" [] []]).
Proof.
  etransitivity; [apply (gainCaps_attempts _ 7)|]; [unfold int_max; lia|vm_compute; reflexivity..].
Defined.

(** ** Exit statuses *)

(** When the target command, run under the reaper, exits with status [n],
    the error of [Child] carries that status: [GetExecExitStatus] reads it
    back (for [n] = 0 there is no error). *)
Theorem reaper_exit_status n :
  0 <= n < 256 ->
  match child.reap_result (Z.shiftl n 8) with
  | Ok _ => n = 0
  | Err e => n <> 0 /\ common.GetExecExitStatus (Wrapf "command %v exited: %w" [] e) = Some n
  end.
Proof.
  intros Hn. unfold child.reap_result, common.GetExecExitStatus, common.ExitStatus, common.Exited. simpl.
  assert (Z.land (Z.shiftl n 8) 127 = 0) as E0.
  { apply Z.bits_inj'. intros i Hi. rewrite Z.land_spec, Z.bits_0.
    destruct (Z_lt_le_dec i 8) as [Hlt|Hge].
    - rewrite Z.shiftl_spec_low by lia. done.
    - rewrite (Z.bits_above_log2 127 i) by (simpl; lia). apply andb_false_r. }
  assert (Z.land (Z.shiftr (Z.shiftl n 8) 8) 255 = n) as E1.
  { rewrite Z.shiftr_shiftl_l, Z.shiftl_0_r by lia. change 255 with (Z.ones 8). rewrite Z.land_ones by lia.
    by apply Z.mod_small. }
  rewrite E0. simpl. rewrite E1. destruct (Z.eqb_spec n 0) as [->|Hne]; [done|]. simpl.
  split; [done|]. by rewrite E0, E1.
Qed.

Theorem reaper_exit_status_witness :
  common.GetExecExitStatus (Wrapf "command %v exited: %w" [] (Exit (Z.shiftl 42 8))) = Some 42.
Proof. apply (reaper_exit_status 42). lia. Defined.

(** ** Copying up directories *)
Import tmpfssymlink.

Lemma copy_dirs_copied bind0 dirs copied t r e :
  behaves (copy_dirs bind0 dirs copied) t (r, e) ->
  exists l, r = copied ++ l /\ l `prefix_of` map filepath.Clean dirs /\
    (e = None -> l = map filepath.Clean dirs) /\ lit "/tmp" ∉ l.
Proof.
  revert copied t; induction dirs as [|d dirs IH]; intros copied t; simpl.
  - intros [-> [= -> ->]]. exists []. rewrite app_nil_r. split; [done|]. split; [done|]. split; [done|].
    apply not_elem_of_nil.
  - intros (t1 & t2 & a & -> & H1 & H2)%behaves_bind. destruct a as [[]|err].
    + apply IH in H2 as (l & -> & Hp & He & Ht). exists (filepath.Clean d :: l).
      split; [by rewrite <- app_assoc|]. split; [by apply prefix_cons|]. split; [intros H; by rewrite He|].
      rewrite not_elem_of_cons. split; [|done]. intros E. unfold copy_dir in H1.
      rewrite bool_decide_eq_true_2 in H1 by done. by destruct H1 as [_ [=]].
    + destruct H2 as [_ [= -> ->]]. exists []. rewrite app_nil_r. split; [done|].
      split; [apply prefix_nil|]. split; [done|]. apply not_elem_of_nil.
Qed.

(** In every execution of [CopyUp] the directories reported as copied are
    the first ones that were asked for, cleaned and in order; all of them when
    there is no error; never /tmp; and the temporary directory, once made, is
    removed at the end. *)
Theorem CopyUp_copied dirs t copied e :
  behaves (CopyUp dirs) t (copied, e) ->
  copied `prefix_of` map filepath.Clean dirs /\
  (e = None -> copied = map filepath.Clean dirs) /\ (lit "/tmp" ∉ copied) /\
  (calls t = [MkdirTemp "/tmp" "rootlesskit-b"] \/
   exists bind0, head t = Some (ev (MkdirTemp "/tmp" "rootlesskit-b") (Ok bind0)) /\
                 last (calls t) = Some (RemoveAll bind0)).
Proof.
  intros (r & t' & -> & H). destruct r as [bind0|err].
  - change (behaves (bind (copy_dirs bind0 dirs []) (fun a =>
      bind (r <- call (RemoveAll bind0) ;; Ret tt) (fun _ => Ret a))) t' (copied, e)) in H.
    apply behaves_bind in H as (t1 & t2 & [c e'] & -> & H1 & H2).
    apply copy_dirs_copied in H1 as (l & -> & Hp & He & Ht).
    destruct H2 as (r & t3 & -> & -> & [= -> ->]). split; [done|]. split; [done|]. split; [done|].
    right. exists bind0. split; [done|]. unfold calls. rewrite app_comm_cons, map_app. apply last_snoc.
  - destruct H as [-> [= -> ->]]. split; [apply prefix_nil|]. split; [done|].
    split; [apply not_elem_of_nil|by left].
Qed.

Definition copy_kernel (c : sys) : res c :=
  match c return res c with
  | MkdirTemp d _ => Ok (d ++ lit "/.ro1")
  | ReadDir _ => Ok [mkDirEntry "hosts" false; mkDirEntry "mtab" true]
  | Readlink _ => Ok (lit "/proc/mounts")
  | c => ok_kernel c
  end.

Theorem CopyUp_copied_witness :
  exists t, behaves (CopyUp [lit "/etc/"; lit "/tmp"]) t (exec copy_kernel (CopyUp [lit "/etc/"; lit "/tmp"])).1 /\
    (exec copy_kernel (CopyUp [lit "/etc/"; lit "/tmp"])).1 = ([lit "/etc"], Some (errors_New "/tmp cannot be copied up")) /\
    [lit "/etc"] `prefix_of` map filepath.Clean [lit "/etc/"; lit "/tmp"].
Proof.
  destruct (exec_behaves copy_kernel (CopyUp [lit "/etc/"; lit "/tmp"])) as (t & Hb & _).
  exists t. split; [exact Hb|].
  assert ((exec copy_kernel (CopyUp [lit "/etc/"; lit "/tmp"])).1 =
    ([lit "/etc"], Some (errors_New "/tmp cannot be copied up"))) as E by (vm_compute; reflexivity).
  split; [exact E|]. rewrite E in Hb. exact (proj1 (CopyUp_copied _ _ _ _ Hb)).
Defined.

(** Copying up one directory, when no call fails, binds it aside, mounts a
    tmpfs over it, moves the old contents below the tmpfs and makes one symlink
    per entry, in the order of the listing: a symlink keeps its own target, any
    other entry becomes a link into the moved directory; whatever the mount
    created under the same name is removed first. *)
Theorem copy_dir_links (kern : forall c : sys, res c) bind0 d bind1 entries (target : DirEntry -> str) :
  d <> lit "/tmp" ->
  (forall s t f fl da, kern (Mount s t f fl da) = Ok tt) ->
  kern (MkdirTemp d ".ro") = Ok bind1 -> kern (ReadDir bind1) = Ok entries ->
  (forall f, f ∈ entries -> kern (Readlink (filepath.Join [bind1; de_name f])) = Ok (target f)) ->
  (forall p, kern (RemoveAll p) = Ok tt) -> (forall s p, kern (Symlink s p) = Ok tt) ->
  let source f := if de_symlink f then target f
                  else filepath.Join [filepath.Base bind1; de_name f] in
  exec kern (copy_dir bind0 d) =
  (Ok tt,
   [Mount d bind0 [] (Z.lor MS_BIND MS_REC) []; Mount "none" d "tmpfs" 0 []; MkdirTemp d ".ro";
    Mount bind0 bind1 [] MS_MOVE []; ReadDir bind1] ++
   concat (map (fun f =>
     (if de_symlink f then [Readlink (filepath.Join [bind1; de_name f])] else []) ++
     [RemoveAll (filepath.Join [d; de_name f]); Symlink (source f) (filepath.Join [d; de_name f])]) entries)).
Proof.
  intros Hd Hm Hb Hr Hl Hrm Hs source. unfold copy_dir. rewrite bool_decide_eq_false_2 by done.
  unfold ebind, wrapping. repeat (rewrite exec_bind; cbn [call exec fst snd]).
  rewrite !Hm. cbn [on_err]. repeat (rewrite ?exec_bind; cbn [call exec fst snd on_err]).
  rewrite !Hm. cbn [on_err]. repeat (rewrite ?exec_bind; cbn [call exec fst snd on_err]).
  rewrite Hb. cbn [on_err]. repeat (rewrite ?exec_bind; cbn [call exec fst snd on_err]).
  rewrite !Hm. cbn [on_err]. repeat (rewrite ?exec_bind; cbn [call exec fst snd on_err]).
  rewrite Hr. cbn [on_err fst snd].
  erewrite (exec_for_each_ok kern entries (link_entry d bind1)); [done|].
  intros f Hf. unfold link_entry, ebind, wrapping, source.
  rewrite exec_bind. destruct (de_symlink f).
  all: repeat (rewrite ?exec_bind; cbn [call exec fst snd on_err]); rewrite ?(Hl f Hf);
    cbn [on_err]; repeat (rewrite ?exec_bind; cbn [call exec fst snd on_err]);
    rewrite ?Hrm; cbn [on_err]; repeat (rewrite ?exec_bind; cbn [call exec fst snd on_err]); rewrite ?Hs; done.
Qed.

Theorem copy_dir_links_witness :
  (exec copy_kernel (copy_dir "/tmp/b" "/etc")).2 =
  [Mount "/etc" "/tmp/b" [] 20480 []; Mount "none" "/etc" "tmpfs" 0 []; MkdirTemp "/etc" ".ro";
   Mount "/tmp/b" "/etc/.ro1" [] MS_MOVE []; ReadDir "/etc/.ro1";
   RemoveAll "/etc/hosts"; Symlink ".ro1/hosts" "/etc/hosts";
   Readlink "/etc/.ro1/mtab"; RemoveAll "/etc/mtab"; Symlink "/proc/mounts" "/etc/mtab"].
Proof.
  rewrite (copy_dir_links copy_kernel (lit "/tmp/b") (lit "/etc") (lit "/etc/.ro1")
    [mkDirEntry "hosts" false; mkDirEntry "mtab" true] (fun _ => lit "/proc/mounts")) by done.
  vm_compute. reflexivity.
Defined.
