(* ===== verification/Handshake.v ===== *)
(** * The handshake of the parent and the child

    The parent (Parent.v) and the child process (Child.v) run concurrently and
    exchange six messages over two pipes.  The child process is [Child] until
    it executes itself again, and then [Child] once more, with capabilities. *)
From S2P Require Import Prelude GoStrings Effects Framing Messages Sessions SubID Sys Parent Child.
Import messages.
Import Sys.

(** The kernel shows the given effective capabilities. *)
Definition caps (effective : Z) (c : sys) : option (res c) :=
  match c return option (res c) with
  | Capget => Some (Ok effective)
  | _ => None
  end.

(** The child process; [initial] are the effective capabilities of its first
    image (none, on a kernel that starts it in a new user namespace without
    ID maps), [effective] are those of the image that replaces it. *)
Definition child_process (fuel zombies : nat) (opt : child.Opt) (initial effective : Z) : io (result child.outcome) :=
  r <- answer (caps initial) (child.Child fuel zombies opt) ;;
  match r with
  | Ok child.Reexecuted => answer (caps effective) (child.Child fuel zombies opt)
  | _ => Ret r
  end.

Definition child_script : list (action msg_type) := dual parent_script.

(** ** The child side *)

Lemma follows_answer_quiet {A} f (p : io A) s Q :
  only not_comm p -> (forall a, Q a s) -> follows (answer f p) s Q.
Proof. intros Hp HQ. by apply follows_quiet; [apply only_answer|]. Qed.

(** [rest] is left of the script when the image was replaced, and nothing when
    the child has ended well. *)
Definition ended (rest : list (action msg_type)) (r : result child.outcome) (s : list (action msg_type)) : Prop :=
  match r with Ok child.Reexecuted => s = rest | Ok child.Done => s = [] | Err _ => True end.

Lemma ended_errs rest : errs (ended rest).
Proof. done. Qed.
#[local] Hint Resolve ended_errs : core.

Lemma answer_equiet {A} f (p : io (result A)) (k : A -> io (result child.outcome)) s rest :
  only not_comm p -> (forall a, follows (answer f (k a)) s (ended rest)) ->
  follows (answer f (ebind p k)) s (ended rest).
Proof.
  intros Hp Hk. apply tracks_answer_bind, follows_answer_quiet; [done|]. intros [a|e]; [apply Hk|done].
Qed.

Lemma answer_bquiet {A} f (p : io A) (k : A -> io (result child.outcome)) s rest :
  only not_comm p -> (forall a, follows (answer f (k a)) s (ended rest)) ->
  follows (answer f (bind p k)) s (ended rest).
Proof. intros Hp Hk. by apply tracks_answer_bind, follows_answer_quiet. Qed.

Lemma answer_Send n fd m t s rest (k : unit -> io (result child.outcome)) :
  message_type m = Some t -> follows (answer (caps n) (k tt)) s (ended rest) ->
  follows (answer (caps n) (ebind (call (Send fd m)) k)) (ASend t :: s) (ended rest).
Proof.
  intros Hm Hk r. simpl. unfold script_step. simpl. rewrite Hm, bool_decide_eq_true_2 by done.
  by destruct r as [[]|e].
Qed.

Lemma answer_WaitFor n fd t s rest (k : Message -> io (result child.outcome)) :
  (forall m, follows (answer (caps n) (k m)) s (ended rest)) ->
  follows (answer (caps n) (ebind (call (WaitFor fd t)) k)) (ARecv t :: s) (ended rest).
Proof.
  intros Hk r. simpl. unfold script_step. simpl. rewrite bool_decide_eq_true_2 by done.
  by destruct r as [m|e]; simpl; [apply Hk|].
Qed.

(** Both images start with the same preamble. *)
Lemma Child_preamble n fuel zombies opt s rest :
  (forall stateDir r w, follows (answer (caps n)
     (if negb (n =? 0) then child.child_with_caps fuel zombies opt stateDir r w
      else child.child_without_caps r w)) s (ended rest)) ->
  follows (answer (caps n) (child.Child fuel zombies opt)) s (ended rest).
Proof.
  intros Hk. unfold child.Child. case_bool_decide; [done|].
  apply answer_bquiet; [only_tac|]. intros v. case_bool_decide; [done|].
  apply answer_equiet; [done|]. intros [r w]. apply answer_bquiet; [only_tac|]. intros d.
  destruct (bool_decide (d = [])); [done|]. intros pid. exact (Hk d r w).
Qed.

Lemma child_without_caps_script r w rest :
  follows (answer (caps 0) (child.child_without_caps r w))
    (ARecv TParentHello :: ASend TChildHello :: ARecv TParentInitIdmapCompleted :: rest) (ended rest).
Proof.
  apply answer_WaitFor. intros _. apply answer_Send; [done|]. apply answer_WaitFor. intros _.
  apply answer_equiet; [only_tac|]. done.
Qed.

Lemma child_with_caps_script n fuel zombies opt d r w :
  follows (answer (caps n) (child.child_with_caps fuel zombies opt d r w))
    [ASend TChildInitUserNSCompleted; ARecv TParentInitNetworkDriverCompleted;
     ARecv TParentInitPortDriverCompleted] (ended []).
Proof.
  apply answer_equiet; [only_tac|]. intros _. apply answer_equiet; [only_tac|]. intros _.
  apply answer_Send; [done|]. apply answer_WaitFor. intros m1. apply answer_WaitFor. intros m2.
  apply answer_equiet; [only_tac|]. intros _.
  apply follows_answer_quiet; [only_tac|]. by intros [[]|].
Qed.

(** In every execution the child process sends and awaits its six messages in
    order, provided that it starts without capabilities and that executing itself
    gives it some. *)
Lemma child_process_script fuel zombies opt initial effective :
  initial = 0 -> effective <> 0 -> follows (child_process fuel zombies opt initial effective) child_script whole.
Proof.
  intros -> He. apply tracks_bind. eapply tracks_mono.
  - apply Child_preamble. intros d r w. apply child_without_caps_script.
  - intros [[|]|e] s Hs; [by intros _|simpl in Hs; subst s|done].
    apply (tracks_mono _ _ _ (ended [])); [|by intros [[]|e] s' H; intros ?].
    apply Child_preamble. intros d r w.
    replace (effective =? 0) with false by (symmetry; by apply Z.eqb_neq).
    apply child_with_caps_script.
Qed.

(** ** The two processes together *)
Section together.
Context (popt : parent.Opt) (copt : child.Opt) (fuel zombies : nat) (initial effective : Z).
Context (Hinit : initial = 0) (Heff : effective <> 0).

Definition start : conf (M := msg_type) (result unit) (result child.outcome) res res :=
  mkConf (parent.Parent popt) (child_process fuel zombies copt initial effective) [] [] false.

Lemma scripts_dual :
  follows (parent.Parent popt) parent_script whole /\
  follows (child_process fuel zombies copt initial effective) (dual parent_script) whole.
Proof using Hinit Heff. split; [apply Parent_script | by apply child_process_script]. Qed.

(** C1: as long as no send or receive has failed, whatever else the kernel
    answers and however the two processes are interleaved, neither process
    finds another message in its pipe than the one it waits for. *)
Theorem handshake_no_unexpected_message x t :
  reachable start x -> broken x = false ->
  (waits_for (left x) t -> forall m q, to_left x = m :: q -> m = t) /\
  (waits_for (right x) t -> forall m q, to_right x = m :: q -> m = t).
Proof using Hinit Heff.
  intros Hr Hb. destruct scripts_dual as [Hp Hc]. split; intros Hw m q Hq;
    destruct (no_unexpected_message _ _ _ _ _ Hp Hc ok_kernel ok_kernel x t m q Hr Hb) as [Hl Hrt]; auto.
Qed.

(** The handshake does not deadlock: as long as no send or receive has
    failed, one of the two processes has returned or one of them can go on
    (it makes a call that does not wait, or the message it waits for is there). *)
Theorem handshake_progress x :
  reachable start x -> broken x = false ->
  returned (left x) \/ returned (right x) \/
  can_step (left x) (to_left x) \/ can_step (right x) (to_right x).
Proof using Hinit Heff.
  intros Hr Hb. destruct scripts_dual as [Hp Hc].
  pose proof (no_unexpected_message _ _ _ _ _ Hp Hc ok_kernel ok_kernel x) as Hnu.
  destruct (waits_or_steps (left x) (to_left x)) as [[a ->]|[H|(m1 & Hw1 & Hq1)]]; [|by left|by right; right; left|].
  { intros m t rest Hw Hq. destruct (Hnu m t rest Hr Hb) as [H _]. auto. }
  destruct (waits_or_steps (right x) (to_right x)) as [[b ->]|[H|(m2 & Hw2 & Hq2)]]; [|by right; left|by right; right; right|].
  { intros m t rest Hw Hq. destruct (Hnu m t rest Hr Hb) as [_ H]. auto. }
  by destruct (no_deadlock _ _ _ _ _ Hp Hc ok_kernel ok_kernel x m1 m2 Hr Hb Hw1 Hw2).
Qed.

(** C3: as long as no send or receive has failed, a process waits for ever only
    for one that has returned an error: in a state in which nothing can happen
    any more, the other side of a process that waits has failed; and when
    neither has failed, both have returned and every message was received. *)
Theorem handshake_no_deadlock x :
  reachable start x -> broken x = false -> (forall y, ~ step x y) ->
  (forall t, waits_for (left x) t -> exists e, right x = Ret (Err e)) /\
  (forall t, waits_for (right x) t -> exists e, left x = Ret (Err e)) /\
  ((forall e, left x <> Ret (Err e)) -> (forall e, right x <> Ret (Err e)) ->
   left x = Ret (Ok tt) /\ (exists o, right x = Ret (Ok o)) /\ to_left x = [] /\ to_right x = []).
Proof using Hinit Heff.
  intros Hr Hb Hs. destruct scripts_dual as [Hp Hc].
  destruct (stopped _ _ _ _ _ Hp Hc ok_kernel ok_kernel x Hr Hb Hs)
    as [(a & b & s1 & s2 & El & Er & Ha & Hb' & Hm)|[(a & s1 & El & Ha & Hn)|(b & s2 & Er & Hb' & Hn)]].
  - rewrite El, Er. split; [done|]. split; [done|]. intros Hl Hrr.
    destruct a as [[]|e]; [|by destruct (Hl e)]. destruct b as [o|e]; [|by destruct (Hrr e)].
    rewrite (Ha eq_refl), (Hb' eq_refl) in Hm. split; [done|]. split; [by exists o|].
    destruct Hm as [[Q Hm]|[Q Hm]]; rewrite Q; (split; [|try done]; try done);
      simpl in Hm; rewrite app_nil_r in Hm; symmetry in Hm; by apply map_eq_nil in Hm.
  - destruct a as [u|e]; [by destruct (Hn (Ha eq_refl))|]. rewrite El. split; [done|]. split; [by exists e|].
    intros Hl. by destruct (Hl e).
  - destruct b as [o|e]; [by destruct (Hn (Hb' eq_refl))|]. rewrite Er. split; [by exists e|]. split; [done|].
    intros _ Hrr. by destruct (Hrr e).
Qed.
End together.

(** ** Concrete runs *)
Definition test_copt : child.Opt :=
  child.mkOpt "PIPE_FD" "HELPER" "USE_ACTIVATION" "STATE_DIR" [lit "sh"] true true [lit "/etc"] false true true
    "rslave" false false.

Definition parent_kernel (c : sys) : res c :=
  match c return res c with
  | RunCmd _ => Ok tt
  | c => test_run_kernel c
  end.

Definition child_kernel (c : sys) : res c :=
  match c return res c with
  | Getenv k =>
      if bool_decide (k = lit "PIPE_FD") then lit "3,4"
      else if bool_decide (k = lit "STATE_DIR") then lit "/run/rk" else []
  | c => ok_kernel c
  end.

Definition test_run (effective : Z) : conf (M := msg_type) (result unit) (result child.outcome) res res :=
  turns test_run_kernel child_kernel 4 100 (parent.Parent test_opt)
    (child_process 10 10 test_copt 0 effective) [] [].

Lemma test_run_reachable effective :
  reachable (start test_opt test_copt 10 10 0 effective) (test_run effective).
Proof. apply turns_reachable, reach_refl. Qed.

(** The handshake can complete: both processes return without an error. *)
Theorem handshake_no_unexpected_message_witness :
  exists x, reachable (start test_opt test_copt 10 10 0 1) x /\ broken x = false /\
    left x = Ret (Ok tt) /\ right x = Ret (Ok child.Done) /\
    (waits_for (left x) TChildHello -> forall m q, to_left x = m :: q -> m = TChildHello).
Proof.
  exists (test_run 1). split; [apply test_run_reachable|].
  split; [vm_compute; reflexivity|]. split; [vm_compute; reflexivity|]. split; [vm_compute; reflexivity|].
  apply (handshake_no_unexpected_message test_opt test_copt 10 10 0 1 eq_refl ltac:(discriminate) (test_run 1) TChildHello
    (test_run_reachable 1)). vm_compute. reflexivity.
Defined.

(** After the first turns, the parent waits and the child can go on. *)
Theorem handshake_progress_witness :
  let x := turns test_run_kernel child_kernel 0 100 (parent.Parent test_opt)
             (child_process 10 10 test_copt 0 1) [] [] in
  returned (left x) \/ returned (right x) \/ can_step (left x) (to_left x) \/ can_step (right x) (to_right x).
Proof.
  apply (handshake_progress test_opt test_copt 10 10 0 1 eq_refl ltac:(discriminate)); [apply reach_refl|reflexivity].
Defined.

(** With test_run, both processes return, and a child that fails blocks the
    parent. *)
Theorem handshake_no_deadlock_witness :
  left (test_run 1) = Ret (Ok tt) /\ (exists o, right (test_run 1) = Ret (Ok o)) /\
  to_left (test_run 1) = [] /\ to_right (test_run 1) = [].
Proof.
  assert (Hs : forall y, ~ step (test_run 1) y).
  { intros y [[H _]|[_ H]]%step_next; revert H; vm_compute; exact id. }
  assert (Hb : broken (test_run 1) = false) by (vm_compute; reflexivity).
  apply (handshake_no_deadlock test_opt test_copt 10 10 0 1 eq_refl ltac:(discriminate) (test_run 1) (test_run_reachable 1) Hb Hs);
    intros e; vm_compute; discriminate.
Defined.

(** When executing itself again gives the child no capabilities, the two
    processes deadlock: the new image waits for [ParentHello], which the parent
    will not send again, and the parent waits for [ChildInitUserNSCompleted];
    the limit of ten attempts in [gainCaps] is never reached. *)
Theorem reexec_without_caps_deadlocks :
  exists x, reachable (start test_opt test_copt 10 10 0 0) x /\ broken x = false /\
    waits_for (left x) TChildInitUserNSCompleted /\ waits_for (right x) TParentHello /\
    to_left x = [] /\ to_right x = [] /\ forall y, ~ step x y.
Proof.
  exists (test_run 0). split; [apply test_run_reachable|].
  assert (waits_for (left (test_run 0)) TChildInitUserNSCompleted) as H1 by (vm_compute; reflexivity).
  assert (waits_for (right (test_run 0)) TParentHello) as H2 by (vm_compute; reflexivity).
  assert (to_left (test_run 0) = [] /\ to_right (test_run 0) = []) as [Q1 Q2] by (vm_compute; done).
  split; [vm_compute; reflexivity|]. do 4 (split; [done|]). by eapply both_waiting_stuck.
Qed.

(** A child that fails before the handshake is over leaves the parent waiting:
    the parent keeps its own copies of the child's ends of the pipes, so it
    sees no end of file. *)
Lemma failed_child_blocks_parent :
  let kern c := match c return res c with
                | OsExecutable => Err (Extern "no /proc")
                | c => child_kernel c end in
  let copt := child.mkOpt "PIPE_FD" "HELPER" "USE_ACTIVATION" "STATE_DIR" [lit "sh"] true true [lit "/etc"]
                true true true "rslave" false false in
  let x := turns test_run_kernel kern 4 100 (parent.Parent test_opt) (child_process 10 10 copt 0 1) [] [] in
  reachable (start test_opt copt 10 10 0 1) x /\ broken x = false /\
  (match right x with Ret (Err _) => True | _ => False end) /\
  waits_for (left x) TChildInitUserNSCompleted /\ to_left x = [] /\ forall y, ~ step x y.
Proof.
  intros kern copt x. split; [apply turns_reachable, reach_refl|].
  split; [vm_compute; reflexivity|]. split; [vm_compute; exact I|].
  assert (waits_for (left x) TChildInitUserNSCompleted) as H1 by (vm_compute; reflexivity).
  assert (returned (right x)) as H2 by (vm_compute; exact I).
  assert (to_left x = []) as Q by (vm_compute; reflexivity).
  do 2 (split; [done|]). by eapply waiting_alone_stuck.
Qed.

(** ** The descriptors of the pipes *)

(** The child reads from its environment exactly the numbers under which
    it inherits its ends of the two pipes (file [i] of [ExtraFiles] becomes
    descriptor [3 + i]), whatever number of sockets systemd passes, and these
    sockets keep their numbers. *)
Theorem pipe_descriptors_roundtrip (kern : forall c : sys, res c) opt r w n :
  n = match strconv.Atoi (kern (Getenv "LISTEN_PID")), strconv.Atoi (kern (Getenv "LISTEN_FDS")) with
      | Ok _, Ok n => Z.max 0 n | _, _ => 0 end ->
  n + 4 <= int_max ->
  exists v rest files a b,
    (exec kern (parent.setupFilesAndEnv r w opt)).1 =
      (files, kern Environ ++ (parent.PipeFDEnvKey opt ++ lit "=" ++ v) :: rest) /\
    fmt.Sscanf_d_d v = Ok (a, b) /\
    files !! Z.to_nat (a - 3) = Some r /\ files !! Z.to_nat (b - 3) = Some w /\
    forall fd, 3 <= fd < 3 + n -> files !! Z.to_nat (fd - 3) = Some fd.
Proof.
  intros Hn Hmax. assert (0 <= n) as Hn0 by (rewrite Hn; repeat case_match; lia).
  set (pid := match strconv.Atoi (kern (Getenv "LISTEN_PID")) with Ok m => m | Err _ => 0 end).
  exists (strconv.Itoa (3 + n) ++ lit "," ++ strconv.Itoa (3 + n + 1)),
    [parent.ChildUseActivationEnvKey opt ++ lit "=" ++ strconv.FormatBool (pid =? kern Getpid)],
    (parent.listen_files n ++ [r; w]), (3 + n), (3 + n + 1).
  assert (length (parent.listen_files n) = Z.to_nat n) as Hlen
    by (unfold parent.listen_files; by rewrite length_map, length_seq).
  split; [|split; [|split; [|split]]].
  - unfold parent.setupFilesAndEnv. rewrite !exec_bind. cbn [call exec fst snd].
    assert (match strconv.Atoi (kern (Getenv "LISTEN_PID")), strconv.Atoi (kern (Getenv "LISTEN_FDS")) with
            | Ok _, Ok n => if 0 <? n then n else 0 | _, _ => 0 end = n) as ->; [|done].
    rewrite Hn. repeat case_match; bool_props; lia.
  - apply Sscanf_Itoa; lia.
  - rewrite lookup_app_r; rewrite Hlen; [|lia]. by replace (Z.to_nat (3 + n - 3) - Z.to_nat n)%nat with 0%nat by lia.
  - rewrite lookup_app_r; rewrite Hlen; [|lia]. by replace (Z.to_nat (3 + n + 1 - 3) - Z.to_nat n)%nat with 1%nat by lia.
  - intros fd Hfd. rewrite lookup_app_l by lia. unfold parent.listen_files.
    apply list_lookup_fmap_Some. exists (Z.to_nat (fd - 3)). rewrite lookup_seq.
    unfold parent.listenFdsStart. split; [lia|]. split; lia.
Qed.

Theorem pipe_descriptors_roundtrip_witness :
  exists v rest files a b,
    (exec child_kernel (parent.setupFilesAndEnv 11 12 test_opt)).1 =
      (files, [] ++ (lit "PIPE_FD" ++ lit "=" ++ v) :: rest) /\
    fmt.Sscanf_d_d v = Ok (a, b) /\ files !! Z.to_nat (a - 3) = Some 11 /\ files !! Z.to_nat (b - 3) = Some 12.
Proof.
  destruct (pipe_descriptors_roundtrip child_kernel test_opt 11 12 0 eq_refl ltac:(unfold int_max; lia))
    as (v & rest & files & a & b & H1 & H2 & H3 & H4 & _).
  exists v, rest, files, a, b. repeat split; assumption.
Defined.
