(* ===== verification/Handover.v ===== *)
(** * What the parent tells the child

    The two processes of Handshake.v, with pipes that carry the messages
    themselves: what [Send] writes arrives as [WaitFor_Send] of Messages.v says.
    Every execution of them is one of Sessions.v when only the types of the
    messages are looked at; and what the child does with the messages is shown
    to be what the drivers of the parent said. *)
From S2P Require Import Prelude GoStrings Effects Framing Messages Sessions SubID Sys Parent Child Handshake.
Import messages.
Import Sys.

(** ** Pipes that carry messages *)
Module pipes.

(** What arrives of a message that is sent without a name. *)
Definition arrival (t : msg_type) (m : Message) : Message := norm_Message (mkMessage (type_Name t) (U_of m)).

(** The next call of a process: what it leaves in its pipe, what it writes to
    the other one, and whether a send or a receive has failed. *)
Inductive move {A} : io A -> list Message -> io A -> event res -> list Message -> list Message -> bool -> Prop :=
  | move_other c k r inbox :
      kind c = KOther -> move (Call c k) inbox (k r) (ev c r) inbox [] false
  | move_send fd m t k inbox :
      Name m = [] -> message_type m = Some t ->
      move (Call (Send fd m) k) inbox (k (Ok tt)) (ev (Send fd m) (Ok tt)) inbox [arrival t m] false
  | move_send_fails fd m t e k inbox :
      message_type m = Some t ->
      move (Call (Send fd m) k) inbox (k (Err e)) (ev (Send fd m) (Err e)) inbox [] true
  | move_recv fd t m k inbox :
      Name m = type_Name t ->
      move (Call (WaitFor fd t) k) (m :: inbox) (k (Ok m)) (ev (WaitFor fd t) (Ok m)) inbox [] false
  | move_recv_fails fd t m e k inbox :
      move (Call (WaitFor fd t) k) (m :: inbox) (k (Err e)) (ev (WaitFor fd t) (Err e)) inbox [] true.

Section pair.
Context {A1 A2 : Type}.

Record pconf : Type := mkP {
  p_left : io A1;
  p_right : io A2;
  p_to_right : list Message;
  p_to_left : list Message;
  p_broken : bool;
  p_ltrace : trace res;   (** what the two processes have done *)
  p_rtrace : trace res;
}.

Inductive pstep : pconf -> pconf -> Prop :=
  | pstep_left x p e inbox out f :
      move (p_left x) (p_to_left x) p e inbox out f ->
      pstep x (mkP p (p_right x) (p_to_right x ++ out) inbox (p_broken x || f) (p_ltrace x ++ [e]) (p_rtrace x))
  | pstep_right x p e inbox out f :
      move (p_right x) (p_to_right x) p e inbox out f ->
      pstep x (mkP (p_left x) p inbox (p_to_left x ++ out) (p_broken x || f) (p_ltrace x) (p_rtrace x ++ [e])).

Inductive preachable (x0 : pconf) : pconf -> Prop :=
  | preach_refl : preachable x0 x0
  | preach_step x y : preachable x0 x -> pstep x y -> preachable x0 y.
End pair.
Arguments pconf A1 A2 : clear implicits.
End pipes.
Import pipes.

(** ** The types of the messages *)

Definition typed (q : list Message) (ts : list msg_type) : Prop := Forall2 (fun m t => Name m = type_Name t) q ts.

(** [x] looks like [a] when only the types of the messages are seen. *)
Definition looks {A1 A2} (x : pconf A1 A2) (a : conf (M := msg_type) A1 A2 res res) : Prop :=
  left a = p_left x /\ right a = p_right x /\ typed (p_to_right x) (to_right a) /\
  typed (p_to_left x) (to_left a) /\ broken a = p_broken x.

Lemma typed_snoc q ts m t : typed q ts -> Name m = type_Name t -> typed (q ++ [m]) (ts ++ [t]).
Proof. intros H E. apply Forall2_app; [done|by repeat constructor]. Qed.

Lemma looks_left {A1 A2} (x : pconf A1 A2) a p e inbox out f :
  looks x a -> move (p_left x) (p_to_left x) p e inbox out f ->
  exists a', step a a' /\ looks (mkP p (p_right x) (p_to_right x ++ out) inbox (p_broken x || f) (p_ltrace x ++ [e]) (p_rtrace x)) a'.
Proof.
  destruct x as [pl pr qr ql b lt rt], a as [al ar tr tl b']. intros (El & Er & Hr & Hl & Eb) Hm. simpl in *. subst.
  destruct Hm as [c k r inbox Hk|fd m t k inbox Hn Ht|fd m t e k inbox Ht|fd t m k inbox Hn|fd t m e k inbox];
    rewrite ?app_nil_r, ?orb_false_r.
  - eexists. split; [by apply (step_left_other c k r)|done].
  - eexists. split; [apply (step_left_send (Send fd m) k (Ok tt) t); simpl; by rewrite Ht|].
    split; [done|]. split; [done|]. split; [by apply typed_snoc|]. done.
  - eexists. split; [apply (step_left_send (Send fd m) k (Err e) t); simpl; by rewrite Ht|].
    rewrite orb_true_r. done.
  - apply Forall2_cons_inv_l in Hl as (t' & tl' & Ht' & Hl & ->). rewrite Hn in Ht'. apply type_Name_inj in Ht' as <-.
    eexists. split; [by apply (step_left_recv (WaitFor fd t) k (Ok m) t t)|]. simpl. by rewrite orb_false_r.
  - apply Forall2_cons_inv_l in Hl as (t' & tl' & Ht' & Hl & ->).
    eexists. split; [by apply (step_left_recv (WaitFor fd t) k (Err e) t t')|]. done.
Qed.

Lemma looks_right {A1 A2} (x : pconf A1 A2) a p e inbox out f :
  looks x a -> move (p_right x) (p_to_right x) p e inbox out f ->
  exists a', step a a' /\ looks (mkP (p_left x) p inbox (p_to_left x ++ out) (p_broken x || f) (p_ltrace x) (p_rtrace x ++ [e])) a'.
Proof.
  destruct x as [pl pr qr ql b lt rt], a as [al ar tr tl b']. intros (El & Er & Hr & Hl & Eb) Hm. simpl in *. subst.
  destruct Hm as [c k r inbox Hk|fd m t k inbox Hn Ht|fd m t e k inbox Ht|fd t m k inbox Hn|fd t m e k inbox];
    rewrite ?app_nil_r, ?orb_false_r.
  - eexists. split; [by apply (step_right_other c k r)|done].
  - eexists. split; [apply (step_right_send (Send fd m) k (Ok tt) t); simpl; by rewrite Ht|].
    split; [done|]. split; [done|]. split; [done|]. split; [by apply typed_snoc|]. done.
  - eexists. split; [apply (step_right_send (Send fd m) k (Err e) t); simpl; by rewrite Ht|].
    rewrite orb_true_r. done.
  - apply Forall2_cons_inv_l in Hr as (t' & tr' & Ht' & Hr & ->). rewrite Hn in Ht'. apply type_Name_inj in Ht' as <-.
    eexists. split; [by apply (step_right_recv (WaitFor fd t) k (Ok m) t t)|]. simpl. by rewrite orb_false_r.
  - apply Forall2_cons_inv_l in Hr as (t' & tr' & Ht' & Hr & ->).
    eexists. split; [by apply (step_right_recv (WaitFor fd t) k (Err e) t t')|]. done.
Qed.

(** Every execution with messages is one with types. *)
Lemma pipes_refine {A1 A2} (p : io A1) (p' : io A2) x :
  preachable (mkP p p' [] [] false [] []) x ->
  exists a, reachable (mkConf p p' [] [] false) a /\ looks x a.
Proof.
  induction 1 as [|x y _ (a & Ha & Hl) Hs].
  - eexists. split; [apply reach_refl|]. repeat split; by constructor.
  - destruct Hs as [x q e inbox out f Hm|x q e inbox out f Hm];
      [destruct (looks_left _ _ _ _ _ _ _ Hl Hm) as (a' & Hs & Hl')|destruct (looks_right _ _ _ _ _ _ _ Hl Hm) as (a' & Hs & Hl')];
      (exists a'; split; [by eapply reach_step|done]).
Qed.

(** ** Where messages come from *)

(** The message that an event has sent or received. *)
Definition sent_by (e : event res) : option Message :=
  match e with existT (Send _ m) (Ok _) => Some m | _ => None end.
Definition received_by (e : event res) : option (msg_type * Message) :=
  match e with existT (WaitFor _ t) (Ok m) => Some (t, m) | _ => None end.

(** The message that an event has tried to send. *)
Definition writes (e : event res) : option Message :=
  match e with existT (Send _ m) _ => Some m | _ => None end.

Lemma sent_writes (t : trace res) (m : Message) : m ∈ omap sent_by t -> m ∈ omap writes t.
Proof.
  intros (e & He & E)%list_elem_of_omap. apply list_elem_of_omap. exists e. split; [done|].
  destruct e as [c r]. destruct c; try done. simpl in *. by destruct r.
Qed.

(** [m] is what has arrived of a message that was sent in [t]. *)
Definition sent_in (t : trace res) (m : Message) : Prop :=
  exists m0 ty, m0 ∈ omap sent_by t /\ message_type m0 = Some ty /\ m = arrival ty m0.

Record flow {A1 A2} (p : io A1) (p' : io A2) (x : pconf A1 A2) : Prop := {
  flow_left : takes p (p_ltrace x) (p_left x);
  flow_right : takes p' (p_rtrace x) (p_right x);
  flow_to_right m : m ∈ p_to_right x -> sent_in (p_ltrace x) m;
  flow_to_left m : m ∈ p_to_left x -> sent_in (p_rtrace x) m;
  flow_received ty m : (ty, m) ∈ omap received_by (p_rtrace x) -> sent_in (p_ltrace x) m /\ Name m = type_Name ty;
}.

Lemma omap_snoc_inv {A B} (f : A -> option B) l a b : b ∈ omap f (l ++ [a]) -> b ∈ omap f l \/ f a = Some b.
Proof.
  rewrite omap_app. intros [H|H]%elem_of_app; [by left|right]. simpl in H.
  destruct (f a) as [b'|]; [|by apply elem_of_nil in H]. by apply list_elem_of_singleton in H as ->.
Qed.

Lemma sent_in_app t t' m : sent_in t m -> sent_in (t ++ t') m.
Proof.
  intros (m0 & ty & H & ?). exists m0, ty. split; [|done]. rewrite omap_app. apply elem_of_app. by left.
Qed.

(** What a process does in one move. *)
Lemma move_facts {A} (p0 p q : io A) inbox inbox' e out f t :
  move p inbox q e inbox' out f -> takes p0 t p ->
  takes p0 (t ++ [e]) q /\ (forall m, m ∈ inbox' -> m ∈ inbox) /\ (forall m, m ∈ out -> sent_in (t ++ [e]) m) /\
  (forall ty m, received_by e = Some (ty, m) -> m ∈ inbox /\ Name m = type_Name ty).
Proof.
  intros Hm Ht. destruct Hm as [c k r inbox Hk|fd m ty k inbox Hn Hty|fd m ty e k inbox Hty|fd ty m k inbox Hn|fd ty m e k inbox];
    (split; [by apply takes_snoc|]).
  - split; [done|]. split; [by intros m ?%elem_of_nil|]. by destruct c.
  - split; [done|]. split; [|done]. intros m' ->%list_elem_of_singleton. exists m, ty. split; [|done].
    rewrite omap_app. apply elem_of_app. right. left.
  - split; [done|]. split; [by intros m' ?%elem_of_nil|]. done.
  - split; [by right|]. split; [by intros m' ?%elem_of_nil|]. intros ty' m' [= <- <-]. split; [left|done].
  - split; [by right|]. split; [by intros m' ?%elem_of_nil|]. done.
Qed.

Lemma flow_reachable {A1 A2} (p : io A1) (p' : io A2) x :
  preachable (mkP p p' [] [] false [] []) x -> flow p p' x.
Proof.
  induction 1 as [|x y _ I Hs].
  { split; try done; intros *; simpl; by intros ?%elem_of_nil. }
  destruct Hs as [x q e inbox out f Hm|x q e inbox out f Hm].
  - destruct (move_facts _ _ _ _ _ _ _ _ _ Hm (flow_left _ _ _ I)) as (Ht & Hin & Hout & Hrec).
    split; simpl; try apply I; try done.
    + intros m [Hq|Hq]%elem_of_app; [by apply sent_in_app, (flow_to_right _ _ _ I)|by apply Hout].
    + intros m Hq. by apply (flow_to_left _ _ _ I), Hin.
    + intros ty m Hq. destruct (flow_received _ _ _ I _ _ Hq). split; [by apply sent_in_app|done].
  - destruct (move_facts _ _ _ _ _ _ _ _ _ Hm (flow_right _ _ _ I)) as (Ht & Hin & Hout & Hrec).
    split; simpl; try apply I; try done.
    + intros m Hq. by apply (flow_to_right _ _ _ I), Hin.
    + intros m [Hq|Hq]%elem_of_app; [by apply sent_in_app, (flow_to_left _ _ _ I)|by apply Hout].
    + intros ty m [Hq|Hq]%omap_snoc_inv; [by apply (flow_received _ _ _ I)|].
      destruct (Hrec _ _ Hq) as [Hi Hn]. split; [by apply (flow_to_right _ _ _ I)|done].
Qed.

(** ** The parent: it sends what its drivers said *)

(** What is to be sent: nothing before the driver has said it. *)
Record told : Type := mkTold { t_net : option NetMsg; t_opaque : option (list (str * str)) }.

Definition told_step (s : told) (c : sys) : res c -> option told :=
  match c return res c -> option told with
  | ConfigureNetwork _ _ _ => fun r =>
      if bool_decide (t_net s = None)
      then Some (mkTold (match r.2 with None => Some r.1.1 | Some _ => None end) (t_opaque s)) else None
  | OpaqueForChild => fun r => if bool_decide (t_opaque s = None) then Some (mkTold (t_net s) (Some r)) else None
  | Send _ m => fun _ =>
      if match ParentInitNetworkDriverCompleted (U_of m) with Some n => bool_decide (t_net s = Some n) | None => true end &&
         match ParentInitPortDriverCompleted (U_of m) with Some p => bool_decide (t_opaque s = Some (PortDriverOpaque p)) | None => true end
      then Some s else None
  | _ => fun _ => Some s
  end.

Definition told_quiet (c : sys) : bool :=
  match c with ConfigureNetwork _ _ _ | OpaqueForChild | Send _ _ => false | _ => true end.

Lemma told_quiet_step s c r : told_quiet c = true -> told_step s c r = Some s.
Proof. by destruct c. Qed.

(** What the drivers that there are have not said yet. *)
Definition nothing_told (opt : parent.Opt) : told :=
  mkTold (if parent.NetworkDriver opt then None else Some empty_NetMsg) (if parent.PortDriver opt then None else Some []).

Abbreviation ttracks := (tracks told_step).

Lemma told_bquiet {A B} (p : io A) (k : A -> io (result B)) s :
  only told_quiet p -> (forall a, ttracks (k a) s (fun _ _ => True)) -> ttracks (bind p k) s (fun _ _ => True).
Proof. intros Hp Hk. apply (tracks_quiet_bind _ told_quiet); [apply told_quiet_step|done|done]. Qed.

Lemma told_equiet {A B} (p : io (result A)) (k : A -> io (result B)) s :
  only told_quiet p -> (forall a, ttracks (k a) s (fun _ _ => True)) -> ttracks (ebind p k) s (fun _ _ => True).
Proof. intros Hp Hk. apply told_bquiet; [done|]. by intros [a|e]. Qed.

Lemma told_send {A} fd m (k : unit -> io (result A)) s r :
  told_step s (Send fd m) r = Some s -> ttracks (k tt) s (fun _ _ => True) ->
  ttracks (ebind (call (Send fd m)) k) s (fun _ _ => True).
Proof. intros Hm Hk r'. change (told_step s (Send fd m) r') with (told_step s (Send fd m) r). rewrite Hm. by destruct r' as [[]|e]. Qed.

Lemma told_defer {A} (d : io unit) (p : io (result A)) s :
  only told_quiet d -> ttracks p s (fun _ _ => True) -> ttracks (defer d p) s (fun _ _ => True).
Proof. intros Hd Hp. apply (tracks_defer _ told_quiet); [intros; by apply told_quiet_step|done..]. Qed.

Lemma told_only {A} (p : io A) s : only told_quiet p -> ttracks p s (fun _ _ => True).
Proof. intros Hp. by apply (tracks_only _ told_quiet); [|apply told_quiet_step|]. Qed.

Lemma parent_ports_told opt pid w m :
  ttracks (parent.parent_ports opt pid w m) (mkTold (Some m) (t_opaque (nothing_told opt))) (fun _ _ => True).
Proof.
  apply (told_send _ _ _ _ (Ok tt)); [simpl; by rewrite bool_decide_eq_true_2|].
  assert (H : forall o, ttracks
    (_ <-! call (Send w (port_done (mkPortMsg o))) ;; _ <-! call (Close w) ;; parent.parent_publish opt pid)
    (mkTold (Some m) (Some o)) (fun _ _ => True)).
  { intros o. apply (told_send _ _ _ _ (Ok tt)); [simpl; by rewrite bool_decide_eq_true_2|].
    apply told_only. only_tac. }
  unfold nothing_told. destruct (parent.PortDriver opt); [|exact (H [])].
  intros o. exact (fun _ => H o).
Qed.

Lemma Parent_told opt : ttracks (parent.Parent opt) (nothing_told opt) (fun _ _ => True).
Proof.
  apply told_equiet; [only_tac|]. intros _. apply told_equiet; [only_tac|]. intros _.
  apply told_equiet; [only_tac|]. intros _. apply told_defer; [only_tac|]. apply told_defer; [only_tac|].
  apply told_equiet; [only_tac|]. intros p1. apply told_equiet; [only_tac|]. intros p2.
  apply told_bquiet; [only_tac|]. intros cmd. apply told_bquiet; [only_tac|]. intros [pid|e]; [|apply told_only; only_tac].
  apply (told_send _ _ _ _ (Ok tt)); [done|]. apply told_equiet; [only_tac|]. intros _.
  apply told_equiet; [only_tac|]. intros _. apply (told_send _ _ _ _ (Ok tt)); [done|].
  apply told_equiet; [only_tac|]. intros _. apply told_bquiet; [only_tac|]. intros _.
  apply told_defer; [only_tac|]. apply told_equiet; [only_tac|]. intros _. unfold parent.parent_network.
  pose proof (parent_ports_told opt pid p1.2) as Hp. unfold nothing_told in *.
  destruct (parent.NetworkDriver opt); [|apply Hp].
  apply (tracks_call_bind _ (ConfigureNetwork _ _ _)). intros [[m [|]] [e|]]; [|apply told_defer|..]; try done.
  apply Hp.
Qed.

(** What the driver that there is has said, for the calls of the parent. *)
Definition configured (e : event res) : option NetMsg :=
  match e with existT (ConfigureNetwork _ _ _) (n, _, None) => Some n | _ => None end.
Definition opaque_given (e : event res) : option (list (str * str)) :=
  match e with existT OpaqueForChild o => Some o | _ => None end.

Definition network_of (opt : parent.Opt) (t : trace res) : option NetMsg :=
  if parent.NetworkDriver opt then head (omap configured t) else Some empty_NetMsg.
Definition opaque_of (opt : parent.Opt) (t : trace res) : option (list (str * str)) :=
  if parent.PortDriver opt then head (omap opaque_given t) else Some [].

(** The automaton knows them, and what is sent is what it knows. *)
Record tells (opt : parent.Opt) (t : trace res) (s : told) : Prop := {
  tells_net : t_net s = network_of opt t;
  tells_opaque : t_opaque s = opaque_of opt t;
  tells_sent m : m ∈ omap writes t ->
    (forall n, ParentInitNetworkDriverCompleted (U_of m) = Some n -> network_of opt t = Some n) /\
    (forall p, ParentInitPortDriverCompleted (U_of m) = Some p -> opaque_of opt t = Some (PortDriverOpaque p));
}.

Lemma head_snoc {A} (l l' : list A) x : head l = Some x -> head (l ++ l') = Some x.
Proof. by destruct l. Qed.

Lemma network_of_app opt t t' n : network_of opt t = Some n -> network_of opt (t ++ t') = Some n.
Proof. unfold network_of. rewrite omap_app. destruct (parent.NetworkDriver opt); [apply head_snoc|done]. Qed.

Lemma opaque_of_app opt t t' o : opaque_of opt t = Some o -> opaque_of opt (t ++ t') = Some o.
Proof. unfold opaque_of. rewrite omap_app. destruct (parent.PortDriver opt); [apply head_snoc|done]. Qed.

Lemma network_of_snoc opt t e :
  (configured e = None \/ network_of opt t = None) ->
  network_of opt (t ++ [e]) = match network_of opt t with Some n => Some n | None => configured e end.
Proof.
  unfold network_of. destruct (parent.NetworkDriver opt); [|done]. rewrite omap_app. simpl.
  destruct (omap configured t) as [|n l]; [|done]. by destruct (configured e).
Qed.

Lemma opaque_of_snoc opt t e :
  (opaque_given e = None \/ opaque_of opt t = None) ->
  opaque_of opt (t ++ [e]) = match opaque_of opt t with Some n => Some n | None => opaque_given e end.
Proof.
  unfold opaque_of. destruct (parent.PortDriver opt); [|done]. rewrite omap_app. simpl.
  destruct (omap opaque_given t) as [|n l]; [|done]. by destruct (opaque_given e).
Qed.

(** One call of the parent. *)
Lemma tells_step opt t s s' c r :
  tells opt t s -> told_step s c r = Some s' ->
  t_net s' = network_of opt (t ++ [ev c r]) /\ t_opaque s' = opaque_of opt (t ++ [ev c r]) /\
  (forall m, writes (ev c r) = Some m ->
    (forall n, ParentInitNetworkDriverCompleted (U_of m) = Some n -> network_of opt t = Some n) /\
    (forall p, ParentInitPortDriverCompleted (U_of m) = Some p -> opaque_of opt t = Some (PortDriverOpaque p))).
Proof.
  intros [En Eo _]. rewrite <- En, <- Eo.
  assert (Hq : forall c r, configured (ev c r) = None -> opaque_given (ev c r) = None ->
    t_net s = network_of opt (t ++ [ev c r]) /\ t_opaque s = opaque_of opt (t ++ [ev c r])).
  { intros c0 r0 H1 H2. rewrite network_of_snoc, opaque_of_snoc, H1, H2 by by left. rewrite <- En, <- Eo.
    by destruct (t_net s), (t_opaque s). }
  destruct c; try (intros [= <-]; split; [by apply Hq|split; [by apply Hq|done]]).
  - simpl. destruct (_ && _) eqn:G; [|done]. intros [= <-]. split; [by apply Hq|]. split; [by apply Hq|].
    intros m' Hm. apply andb_true_iff in G as [G1 G2]. simpl in Hm. simplify_eq.
    split; intros ? Hx; rewrite Hx in *; by apply bool_decide_eq_true in G1 || apply bool_decide_eq_true in G2.
  - simpl. destruct (bool_decide _) eqn:G; [|done]. apply bool_decide_eq_true in G. intros [= <-].
    destruct r as [[n hc] e]. rewrite network_of_snoc, opaque_of_snoc by (try (by left); right; congruence).
    rewrite <- En, <- Eo, G. simpl. split; [by destruct e|]. split; [by destruct (t_opaque s)|done].
  - simpl. destruct (bool_decide _) eqn:G; [|done]. apply bool_decide_eq_true in G. intros [= <-].
    rewrite network_of_snoc, opaque_of_snoc by (try (by left); right; congruence).
    rewrite <- En, <- Eo, G. simpl. split; [by destruct (t_net s)|done].
Qed.

Lemma tells_steps opt t s : steps told_step (nothing_told opt) t = Some s -> tells opt t s.
Proof.
  revert s. induction t as [|[c r] t IH] using rev_ind; intros s.
  - intros [= <-]. unfold nothing_told. split; simpl; [| |by intros m ?%elem_of_nil].
    + unfold network_of. by destruct (parent.NetworkDriver opt).
    + unfold opaque_of. by destruct (parent.PortDriver opt).
  - rewrite steps_app. destruct (steps told_step (nothing_told opt) t) as [s0|]; [|done]. specialize (IH s0 eq_refl).
    simpl. destruct (told_step s0 c r) as [s1|] eqn:E; [|done]. intros [= <-].
    destruct (tells_step _ _ _ _ _ _ IH E) as (Hn & Ho & Hs). split; [done..|].
    intros m Hm. assert (H : (forall n, ParentInitNetworkDriverCompleted (U_of m) = Some n -> network_of opt t = Some n) /\
      (forall p, ParentInitPortDriverCompleted (U_of m) = Some p -> opaque_of opt t = Some (PortDriverOpaque p))).
    { apply omap_snoc_inv in Hm as [Hm|Hm]; [exact (tells_sent _ _ _ IH _ Hm)|exact (Hs _ Hm)]. }
    destruct H as [H1 H2]. split; intros ? Hx; [apply network_of_app|apply opaque_of_app]; auto.
Qed.

(** ** The child: it does what it has been told *)

(** What the child has received, and what its network driver has answered. *)
Record heard : Type := mkHeard {
  h_net : option Message; h_port : option Message; h_conf : option (str * NetMsg) }.

(** The address and the gateway that a command of ip(8) gives a device. *)
Definition address_cmd (argv : list str) : option (str * str) :=
  match argv with
  | [i; o; v; a; k; d] =>
      if bool_decide ([i; o; v; k] = map lit ["ip"; "addr"; "add"; "dev"]%string) then Some (d, a) else None
  | _ => None
  end.
Definition gateway_cmd (argv : list str) : option (str * str) :=
  match argv with
  | [i; o; v; w; x; g; k; d] =>
      if bool_decide ([i; o; v; w; x; k] = map lit ["ip"; "route"; "add"; "default"; "via"; "dev"]%string)
      then Some (d, g) else None
  | _ => None
  end.

Definition network_address (m : NetMsg) : str := IP m ++ lit "/" ++ strconv.Itoa (Netmask m).
Definition opaque_heard (m : Message) : list (str * str) :=
  match ParentInitPortDriverCompleted (U_of m) with Some p => PortDriverOpaque p | None => [] end.

(** A command that configures a device says what the driver has answered. *)
Definition says (conf : option (str * NetMsg)) (cmd : option (str * str)) (f : NetMsg -> str) : bool :=
  match cmd with
  | Some (d, v) => match conf with Some (d', m) => bool_decide (d = d' /\ v = f m) | None => false end
  | None => true
  end.

Definition heard_step (s : heard) (c : sys) : res c -> option heard :=
  match c return res c -> option heard with
  | WaitFor _ t => fun r =>
      match t, r with
      | TParentInitNetworkDriverCompleted, Ok m => Some (mkHeard (Some m) (h_port s) (h_conf s))
      | TParentInitPortDriverCompleted, Ok m => Some (mkHeard (h_net s) (Some m) (h_conf s))
      | _, _ => Some s
      end
  | ConfigureNetworkChild m _ => fun r =>
      if bool_decide ((h_net s ≫= fun msg => ParentInitNetworkDriverCompleted (U_of msg)) = Some m)
      then Some (mkHeard (h_net s) (h_port s) (match r with Ok c => Some c | Err _ => None end)) else None
  | GoRunChildDriver o _ => fun _ => if bool_decide ((opaque_heard <$> h_port s) = Some o) then Some s else None
  | RunCmd argv => fun _ =>
      if says (h_conf s) (address_cmd argv) network_address && says (h_conf s) (gateway_cmd argv) Gateway
      then Some s else None
  | _ => fun _ => Some s
  end.

Definition heard_quiet (c : sys) : bool :=
  match c with
  | WaitFor _ t => match t with TParentInitNetworkDriverCompleted | TParentInitPortDriverCompleted => false | _ => true end
  | RunCmd argv => bool_decide (address_cmd argv = None) && bool_decide (gateway_cmd argv = None)
  | ConfigureNetworkChild _ _ | GoRunChildDriver _ _ => false
  | _ => true
  end.

Lemma heard_quiet_step s c r : heard_quiet c = true -> heard_step s c r = Some s.
Proof.
  destruct c; try done; simpl.
  - destruct t; try done; by destruct r.
  - intros [H1 H2]%andb_true_iff. apply bool_decide_eq_true in H1, H2. by rewrite H1, H2.
Qed.

Abbreviation htracks := (tracks heard_step).
Definition anything {A} : A -> heard -> Prop := fun _ _ => True.
(** The opaque data of the port driver is still what it was. *)
Definition port_is {A} (p : option Message) : A -> heard -> Prop := fun _ s => h_port s = p.

Lemma heard_only {A} (p : io A) s (Q : A -> heard -> Prop) :
  only heard_quiet p -> (forall a, Q a s) -> htracks p s Q.
Proof. intros Hp HQ. by apply (tracks_only _ heard_quiet); [|apply heard_quiet_step|]. Qed.

Lemma heard_bquiet {A B} (p : io A) (k : A -> io B) s Q :
  only heard_quiet p -> (forall a, htracks (k a) s Q) -> htracks (bind p k) s Q.
Proof. intros Hp Hk. apply (tracks_quiet_bind _ heard_quiet); [apply heard_quiet_step|done|done]. Qed.

Lemma heard_equiet {A B} (p : io (result A)) (k : A -> io (result B)) s Q :
  (forall e, Q (Err e) s) -> only heard_quiet p -> (forall a, htracks (k a) s Q) -> htracks (ebind p k) s Q.
Proof. intros He Hp Hk. apply heard_bquiet; [done|]. intros [a|e]; [apply Hk|apply He]. Qed.

Lemma heard_cmd {B} argv (k : unit -> io (result B)) s Q :
  (forall r, heard_step s (RunCmd argv) r = Some s) -> (forall e, Q (Err e) s) -> htracks (k tt) s Q ->
  htracks (ebind (call (RunCmd argv)) k) s Q.
Proof. intros H He Hk r. rewrite H. destruct r as [[]|e]; [done|apply He]. Qed.

Lemma activateDev_heard dev m s p :
  h_conf s = Some (dev, m) -> h_port s = p ->
  htracks (child.activateDev dev (IP m) (Netmask m) (Gateway m) (MTU m)) s (port_is p).
Proof.
  intros E Hp. apply tracks_bind. eapply (tracks_mono _ _ _ (port_is p)); [|by intros [[]|e] s' Hs].
  do 4 (apply heard_cmd; [intros r; unfold heard_step, says; rewrite E; simpl; by rewrite ?bool_decide_eq_true_2|done|]).
  done.
Qed.

(** The child driver of the network: its answer is what the devices get. *)
Lemma configure_heard {B} (msg : Message) ns s (k : str * NetMsg -> io (result B)) p :
  h_net s = Some msg -> h_port s = p ->
  (forall c s', h_conf s' = Some c -> h_port s' = p -> htracks (k c) s' (port_is p)) ->
  htracks (ebind (child.configure_child (ParentInitNetworkDriverCompleted (U_of msg)) ns) k) s (port_is p).
Proof.
  intros E Hp Hk. unfold child.configure_child.
  destruct (ParentInitNetworkDriverCompleted (U_of msg)) as [m|] eqn:Em; [|done].
  intros r. simpl. rewrite E. simpl. rewrite Em, bool_decide_eq_true_2 by done. destruct r as [c|e]; [by apply Hk|done].
Qed.

Lemma configure_dev_heard dev m s p :
  h_conf s = Some (dev, m) -> h_port s = p -> htracks (child.configure_dev dev m) s (port_is p).
Proof. intros E Hp [|]; [done|]. by apply activateDev_heard. Qed.

Lemma activateLoopback_quiet : only heard_quiet child.activateLoopback.
Proof. apply only_wrapping. by split; [|intros [[]|e]]. Qed.
#[local] Hint Resolve activateLoopback_quiet : only.

Lemma setupNet_heard d msg copied driver ns s p :
  h_net s = Some msg -> h_port s = p ->
  htracks (child.setupNet d (ParentInitNetworkDriverCompleted (U_of msg)) copied driver ns) s (port_is p).
Proof.
  intros E Hp. unfold child.setupNet. destruct driver; [cbn [negb]; cbv zeta|done].
  apply heard_equiet; [done|only_tac|]. intros hosts. apply heard_equiet; [done|only_tac|]. intros _.
  case_bool_decide; (apply heard_equiet; [done|only_tac|]; intros _; apply configure_heard; [done..|];
    intros [dev m] s' Es Ep; apply heard_equiet; [done|only_tac|]; intros _).
  - apply tracks_bind. eapply tracks_mono; [by apply configure_dev_heard|]. intros [[]|e] s'' Hs; [|done].
    apply heard_only; [only_tac|done].
  - apply heard_equiet; [done|only_tac|]. intros _.
    apply (tracks_defer _ heard_quiet); [intros; by apply heard_quiet_step|only_tac|]. by apply configure_dev_heard.
Qed.

Lemma copy_dirs_heard bind0 dirs copied : only heard_quiet (tmpfssymlink.copy_dirs bind0 dirs copied).
Proof. apply copy_dirs_only. intros d. only_tac. Qed.

Lemma reaper_heard fuel zombies pid : only heard_quiet (child.reaper fuel zombies pid).
Proof. by apply reaper_only. Qed.
#[local] Hint Resolve copy_dirs_heard reaper_heard : only.

Lemma child_setup_heard opt d ns fd m1 m2 s :
  h_net s = Some m1 -> h_port s = Some m2 ->
  htracks (child.child_setup opt d ns fd (ParentInitNetworkDriverCompleted (U_of m1))
             (ParentInitPortDriverCompleted (U_of m2))) s anything.
Proof.
  intros E1 E2. apply heard_bquiet; [only_tac|]. intros _. apply heard_equiet; [done|only_tac|]. intros _.
  apply heard_equiet; [done|only_tac|]. intros _. apply heard_bquiet; [only_tac|]. intros [copied [e|]]; [done|].
  apply heard_equiet; [done|only_tac|]. intros _.
  apply tracks_bind. eapply tracks_mono; [by apply (setupNet_heard _ _ _ _ _ _ (Some m2))|].
  intros [[]|e] s' Hs; [|done]. destruct (child.PortDriver opt); [|done].
  intros r. simpl. rewrite Hs. simpl. by rewrite bool_decide_eq_true_2.
Qed.

Lemma child_with_caps_heard fuel zombies opt d r w s :
  htracks (child.child_with_caps fuel zombies opt d r w) s anything.
Proof.
  apply heard_equiet; [done|only_tac|]. intros _. apply heard_equiet; [done|only_tac|]. intros _.
  apply heard_equiet; [done|only_tac|]. intros _. intros [m1|e]; [|done]. intros [m2|e]; [|done].
  apply (tracks_bind heard_step (child.child_setup opt d _ r _ _)).
  eapply tracks_mono; [by apply child_setup_heard|]. intros [[]|e] s' _; [|done].
  apply heard_only; [only_tac|done].
Qed.

Lemma Child_heard fuel zombies opt s : htracks (child.Child fuel zombies opt) s anything.
Proof.
  unfold child.Child. case_bool_decide; [done|]. apply heard_bquiet; [only_tac|]. intros v. case_bool_decide; [done|].
  apply heard_equiet; [done|only_tac|]. intros [r w]. apply heard_bquiet; [only_tac|]. intros d.
  destruct (bool_decide (d = [])); [done|]. apply heard_equiet; [done|only_tac|]. intros [|].
  - apply child_with_caps_heard.
  - apply heard_only; [only_tac|done].
Qed.

Lemma child_process_heard fuel zombies opt initial effective s :
  htracks (child_process fuel zombies opt initial effective) s anything.
Proof.
  assert (H : forall n s, htracks (answer (caps n) (child.Child fuel zombies opt)) s anything).
  { intros n s0. apply tracks_answer; [|apply Child_heard]. intros s1 c r E. by destruct c. }
  apply tracks_bind. eapply tracks_mono; [apply H|]. intros [[|]|e] s' _; [done|apply H|done].
Qed.

(** The answer of the network driver of the child. *)
Definition child_answer (e : event res) : option (str * NetMsg) :=
  match e with existT (ConfigureNetworkChild _ _) (Ok c) => Some c | _ => None end.

(** What is said of the calls of the child, after [t]. *)
Definition justified (t : trace res) (c : sys) : Prop :=
  match c with
  | ConfigureNetworkChild m _ => exists msg,
      (TParentInitNetworkDriverCompleted, msg) ∈ omap received_by t /\
      ParentInitNetworkDriverCompleted (U_of msg) = Some m
  | GoRunChildDriver o _ => exists msg,
      (TParentInitPortDriverCompleted, msg) ∈ omap received_by t /\ opaque_heard msg = o
  | RunCmd argv =>
      (forall d v, address_cmd argv = Some (d, v) -> exists m, (d, m) ∈ omap child_answer t /\ v = network_address m) /\
      (forall d v, gateway_cmd argv = Some (d, v) -> exists m, (d, m) ∈ omap child_answer t /\ v = Gateway m)
  | _ => True
  end.

Record hears (t : trace res) (s : heard) : Prop := {
  hears_net m : h_net s = Some m -> (TParentInitNetworkDriverCompleted, m) ∈ omap received_by t;
  hears_port m : h_port s = Some m -> (TParentInitPortDriverCompleted, m) ∈ omap received_by t;
  hears_conf c : h_conf s = Some c -> c ∈ omap child_answer t;
  hears_calls c : c ∈ calls t -> justified t c;
}.

Lemma elem_of_omap_app {A B} (f : A -> option B) t t' b : b ∈ omap f t -> b ∈ omap f (t ++ t').
Proof. rewrite omap_app. intros H. apply elem_of_app. by left. Qed.

Lemma elem_of_omap_end {A B} (f : A -> option B) t a b : f a = Some b -> b ∈ omap f (t ++ [a]).
Proof. intros H. rewrite omap_app. apply elem_of_app. right. simpl. rewrite H. by left. Qed.

Lemma justified_app t t' c : justified t c -> justified (t ++ t') c.
Proof.
  destruct c; simpl; try done; try (intros (m' & H & E); exists m'; by split; [apply elem_of_omap_app|]).
  intros [H1 H2]. split; intros d v E; [destruct (H1 _ _ E) as (m & Hm & ->)|destruct (H2 _ _ E) as (m & Hm & ->)];
    exists m; by split; [apply elem_of_omap_app|].
Qed.

Lemma says_inv conf cmd f d v :
  says conf cmd f = true -> cmd = Some (d, v) -> exists m, conf = Some (d, m) /\ v = f m.
Proof.
  intros H ->. simpl in H. destruct conf as [[d' m]|]; [|done]. apply bool_decide_eq_true in H as [-> ->]. by exists m.
Qed.

(** One call of the child. *)
Lemma hears_step t s s' c r : hears t s -> heard_step s c r = Some s' ->
  justified t c /\
  (forall m, h_net s' = Some m -> h_net s = Some m \/ received_by (ev c r) = Some (TParentInitNetworkDriverCompleted, m)) /\
  (forall m, h_port s' = Some m -> h_port s = Some m \/ received_by (ev c r) = Some (TParentInitPortDriverCompleted, m)) /\
  (forall a, h_conf s' = Some a -> h_conf s = Some a \/ child_answer (ev c r) = Some a).
Proof.
  intros I. destruct c; try (intros [= <-]; split; [done|split; [by left|split; by left]]).
  - simpl. destruct t0, r as [m|e]; intros [= <-]; split; try done; simpl; repeat split; intros ? [= ->] || intros ? ?; auto.
  - simpl. destruct (_ && _) eqn:G; [|done]. intros [= <-]. apply andb_true_iff in G as [G1 G2].
    split; [|split; [by left|split; by left]]. split; intros d v E.
    + destruct (says_inv _ _ _ _ _ G1 E) as (m & Em & ->). exists m. by split; [apply (hears_conf _ _ I)|].
    + destruct (says_inv _ _ _ _ _ G2 E) as (m & Em & ->). exists m. by split; [apply (hears_conf _ _ I)|].
  - simpl. destruct (bool_decide _) eqn:G; [|done]. apply bool_decide_eq_true in G. intros [= <-].
    apply bind_Some in G as (msg & E1 & E2). split; [exists msg; by split; [apply (hears_net _ _ I)|]|].
    split; [by left|]. split; [by left|]. intros a. destruct r as [b|e]; [|done]. by right.
  - simpl. destruct (bool_decide _) eqn:G; [|done]. apply bool_decide_eq_true in G. intros [= <-].
    apply fmap_Some in G as (msg & E1 & E2). split; [exists msg; by split; [apply (hears_port _ _ I)|]|].
    split; [by left|]. split; by left.
Qed.

Lemma hears_steps t s : steps heard_step (mkHeard None None None) t = Some s -> hears t s.
Proof.
  revert s. induction t as [|[c r] t IH] using rev_ind; intros s.
  - intros [= <-]. split; try done. by intros c ?%elem_of_nil.
  - rewrite steps_app. destruct (steps _ _ t) as [s0|]; [|done]. specialize (IH s0 eq_refl).
    simpl. destruct (heard_step s0 c r) as [s1|] eqn:E; [|done]. intros [= <-].
    destruct (hears_step _ _ _ _ _ IH E) as (Hj & Hn & Hp & Hc). split.
    + intros m [H|H]%Hn; [by apply elem_of_omap_app, (hears_net _ _ IH)|by apply elem_of_omap_end].
    + intros m [H|H]%Hp; [by apply elem_of_omap_app, (hears_port _ _ IH)|by apply elem_of_omap_end].
    + intros m [H|H]%Hc; [by apply elem_of_omap_app, (hears_conf _ _ IH)|by apply elem_of_omap_end].
    + intros c'. unfold calls. rewrite map_app. intros [H|H]%elem_of_app; apply justified_app; [by apply (hears_calls _ _ IH)|].
      by apply list_elem_of_singleton in H as ->.
Qed.

(** ** The two processes together *)
Section together.
Context (popt : parent.Opt) (copt : child.Opt) (fuel zombies : nat) (initial effective : Z).

Definition start : pconf (result unit) (result child.outcome) :=
  mkP (parent.Parent popt) (child_process fuel zombies copt initial effective) [] [] false [] [].

Lemma start_tells x : preachable start x -> exists s, tells popt (p_ltrace x) s.
Proof.
  intros Hx. destruct (tracks_takes _ _ _ _ _ _ (Parent_told popt) (flow_left _ _ _ (flow_reachable _ _ _ Hx)))
    as (s & Hs & _). exists s. by apply tells_steps.
Qed.

Lemma start_hears x : preachable start x -> exists s, hears (p_rtrace x) s.
Proof.
  intros Hx. destruct (tracks_takes _ _ _ _ _ _ (child_process_heard fuel zombies copt initial effective (mkHeard None None None))
    (flow_right _ _ _ (flow_reachable _ _ _ Hx))) as (s & Hs & _). exists s. by apply hears_steps.
Qed.

(** What the child has received was sent by the parent under the same name. *)
Lemma received_sent x ty msg :
  preachable start x -> (ty, msg) ∈ omap received_by (p_rtrace x) ->
  exists m0, m0 ∈ omap sent_by (p_ltrace x) /\ message_type m0 = Some ty /\ msg = arrival ty m0.
Proof.
  intros Hx Hr. destruct (flow_received _ _ _ (flow_reachable _ _ _ Hx) _ _ Hr) as [(m0 & ty0 & Hm & Ht & ->) Hn].
  exists m0. simpl in Hn. apply type_Name_inj in Hn as ->. done.
Qed.

Lemma message_type_port m :
  message_type m = Some TParentInitPortDriverCompleted -> exists p, ParentInitPortDriverCompleted (U_of m) = Some p.
Proof. destruct m as [nm [[] [] [] [] [] [p|]]]; try done. by exists p. Qed.

(** Whatever the kernel and the drivers answer, what the child does with
    its network and its ports is what the drivers of the parent have said: the
    network driver of the child is called with the answer of the one of the
    parent (as it arrives in JSON), the port driver with its opaque data, and
    every address and default gateway that is given to a device is one that
    the network driver of the child has answered. *)
Theorem handover x :
  preachable start x ->
  (forall m ns, ConfigureNetworkChild m ns ∈ calls (p_rtrace x) ->
     exists n, network_of popt (p_ltrace x) = Some n /\ m = norm_NetMsg n) /\
  (forall o ns, GoRunChildDriver o ns ∈ calls (p_rtrace x) -> opaque_of popt (p_ltrace x) = Some o) /\
  (forall argv d v, RunCmd argv ∈ calls (p_rtrace x) ->
     (address_cmd argv = Some (d, v) -> exists m, (d, m) ∈ omap child_answer (p_rtrace x) /\ v = network_address m) /\
     (gateway_cmd argv = Some (d, v) -> exists m, (d, m) ∈ omap child_answer (p_rtrace x) /\ v = Gateway m)).
Proof.
  intros Hx. destruct (start_tells x Hx) as [st Ht], (start_hears x Hx) as [sh Hh]. split; [|split].
  - intros m ns H. apply (hears_calls _ _ Hh) in H as (msg & Hr & E).
    destruct (received_sent _ _ _ Hx Hr) as (m0 & Hs & _ & ->). simpl in E. apply fmap_Some in E as (n & En & ->).
    exists n. split; [|done]. by apply (tells_sent _ _ _ Ht _ (sent_writes _ _ Hs)).
  - intros o ns H. apply (hears_calls _ _ Hh) in H as (msg & Hr & <-).
    destruct (received_sent _ _ _ Hx Hr) as (m0 & Hs & Hty & ->). apply message_type_port in Hty as [p Ep].
    unfold opaque_heard. simpl. rewrite Ep. by apply (tells_sent _ _ _ Ht _ (sent_writes _ _ Hs)).
  - intros argv d v H. apply (hears_calls _ _ Hh) in H as [H1 H2]. split; [apply H1|apply H2].
Qed.
(** The name of a message that [WaitFor] reads is the one it waits for: the
    theorem about types holds of the messages in the pipes. *)
Theorem received_names x t m q :
  initial = 0 -> effective <> 0 -> preachable start x -> p_broken x = false ->
  (waits_for (p_left x) t -> p_to_left x = m :: q -> Name m = type_Name t) /\
  (waits_for (p_right x) t -> p_to_right x = m :: q -> Name m = type_Name t).
Proof.
  intros Hi He Hx Hb. destruct (pipes_refine _ _ _ Hx) as (a & Ha & El & Er & Hr & Hl & Eb).
  destruct (handshake_no_unexpected_message popt copt fuel zombies initial effective Hi He a t Ha ltac:(congruence)) as [H1 H2].
  rewrite El in H1. rewrite Er in H2.
  split; intros Hw Eq; rewrite Eq in *; [apply Forall2_cons_inv_l in Hl as (t' & ts & Hn & _ & Ets)|
    apply Forall2_cons_inv_l in Hr as (t' & ts & Hn & _ & Ets)].
  - by rewrite <- (H1 Hw _ _ Ets).
  - by rewrite <- (H2 Hw _ _ Ets).
Qed.
End together.

(** ** A concrete run *)

(** The next move against a kernel, when there is one. *)
Definition move_with {A} (kern : forall c : sys, res c) (p : io A) (inbox : list Message) :
    option (io A * event res * list Message * list Message) :=
  match p with
  | Ret _ => None
  | Call c k =>
      match c return (res c -> io A) -> _ with
      | Send fd m => fun k =>
          match message_type m with
          | Some t => if bool_decide (Name m = []) then Some (k (Ok tt), ev (Send fd m) (Ok tt), inbox, [arrival t m]) else None
          | None => None
          end
      | WaitFor fd t => fun k =>
          match inbox with
          | m :: inbox' => if bool_decide (Name m = type_Name t) then Some (k (Ok m), ev (WaitFor fd t) (Ok m), inbox', []) else None
          | [] => None
          end
      | c => fun k => Some (k (kern c), ev c (kern c), inbox, [])
      end k
  end.

Lemma move_with_move {A} kern (p q : io A) inbox e inbox' out :
  move_with kern p inbox = Some (q, e, inbox', out) -> move p inbox q e inbox' out false.
Proof.
  destruct p as [a|c k]; [done|].
  destruct c; try (intros [= <- <- <- <-]; by apply (move_other _ k)); cbn -[type_Name message_type].
  - destruct (message_type m) as [ty|] eqn:E; [|done]. case_bool_decide; [|done]. intros [= <- <- <- <-]. by apply move_send.
  - destruct inbox as [|m inbox]; [done|]. case_bool_decide; [|done]. intros [= <- <- <- <-]. by apply move_recv.
Qed.

Fixpoint play {A1 A2} (kl kr : forall c : sys, res c) (fuel : nat) (x : pconf A1 A2) : pconf A1 A2 :=
  match fuel with
  | O => x
  | S fuel =>
      match move_with kl (p_left x) (p_to_left x) with
      | Some (p, e, inbox, out) =>
          play kl kr fuel (mkP p (p_right x) (p_to_right x ++ out) inbox (p_broken x) (p_ltrace x ++ [e]) (p_rtrace x))
      | None =>
          match move_with kr (p_right x) (p_to_right x) with
          | Some (p, e, inbox, out) =>
              play kl kr fuel (mkP (p_left x) p inbox (p_to_left x ++ out) (p_broken x) (p_ltrace x) (p_rtrace x ++ [e]))
          | None => x
          end
      end
  end.

Lemma play_reachable {A1 A2} kl kr fuel (x0 x : pconf A1 A2) : preachable x0 x -> preachable x0 (play kl kr fuel x).
Proof.
  revert x. induction fuel as [|fuel IH]; intros x Hx; simpl; [done|].
  destruct (move_with kl _ _) as [[[[p e] inbox] out]|] eqn:E.
  { apply IH. eapply preach_step; [exact Hx|]. apply move_with_move in E. apply pstep_left in E. by rewrite orb_false_r in E. }
  destruct (move_with kr _ _) as [[[[p e] inbox] out]|] eqn:E'; [|done].
  apply IH. eapply preach_step; [exact Hx|]. apply move_with_move in E'. apply pstep_right in E'. by rewrite orb_false_r in E'.
Qed.

Definition played : pconf (result unit) (result child.outcome) :=
  play test_run_kernel child_kernel 300 (start test_opt test_copt 10 10 0 1).

(** The address that the driver of the parent gives reaches the device. *)
Theorem handover_witness :
  p_left played = Ret (Ok tt) /\ p_right played = Ret (Ok child.Done) /\
  (exists m ns, ConfigureNetworkChild m ns ∈ calls (p_rtrace played) /\ IP m = lit "10.0.2.100" /\
    exists n, network_of test_opt (p_ltrace played) = Some n /\ m = norm_NetMsg n).
Proof.
  assert (Hx : preachable (start test_opt test_copt 10 10 0 1) played) by apply play_reachable, preach_refl.
  split; [vm_compute; reflexivity|]. split; [vm_compute; reflexivity|].
  exists (mkNetMsg None "tap0" "10.0.2.100" 24 "10.0.2.2" [lit "10.0.2.3"] 65520 []), [].
  assert (Hc : ConfigureNetworkChild (mkNetMsg None "tap0" "10.0.2.100" 24 "10.0.2.2" [lit "10.0.2.3"] 65520 []) [] ∈ calls (p_rtrace played)).
  { vm_compute. repeat first [left|right]. }
  split; [exact Hc|]. split; [reflexivity|].
  exact (proj1 (handover test_opt test_copt 10 10 0 1 played Hx) _ _ Hc).
Defined.
