(* ===== verification/Manager.v ===== *)
(** * port.Manager: the interface of the port drivers

    [Manager] is the interface type of pkg/port/port.go; its state is that of
    the driver together with what it talks to.  [ManagerSpec] is the contract:
    an abstract table from IDs to specifications, and how each operation
    changes it.  The drivers (BuiltinParent.v, SlirpPort.v, GvisorPort.v) and the
    remote manager over HTTP (Api.v) implement the interface. *)
From S2P Require Import Prelude PortSpec.
Import port.

Class Manager (S : Type) : Type := {
  AddPort : S -> Spec -> S * result Status;
  ListPorts : S -> S * result (list Status);
  RemovePort : S -> Z -> S * result unit;
}.

(** The two specifications forward the same port to the same child port; the
    second may fill in the child IP that the first leaves empty. *)
Definition same_forward (sp sp' : Spec) : Prop :=
  Proto sp' = Proto sp /\ ParentIP sp' = ParentIP sp /\ ParentPort sp' = ParentPort sp /\
  ChildPort sp' = ChildPort sp /\ (ChildIP sp <> [] -> ChildIP sp' = ChildIP sp).

(** The table that a list of statuses shows. *)
Definition table_of (l : list Status) : gmap Z Spec := list_to_map (map (fun st => (ID st, Spec_of st)) l).

(** [room] says that the driver has not run out of fresh IDs. *)
Record ManagerSpec {S : Type} `{!Manager S} (good room : S -> Prop) (table : S -> gmap Z Spec) : Prop := {
  add_ok s sp s' st : good s -> room s -> AddPort s sp = (s', Ok st) ->
    good s' /\ table s !! ID st = None /\ table s' = <[ID st := Spec_of st]> (table s) /\ same_forward sp (Spec_of st);
  add_err s sp s' e : good s -> room s -> AddPort s sp = (s', Err e) -> good s' /\ table s' = table s;
  list_ok s s' l : good s -> ListPorts s = (s', Ok l) ->
    s' = s /\ table_of l = table s /\ NoDup (map ID l);
  remove_ok s id s' : good s -> RemovePort s id = (s', Ok tt) -> good s' /\ table s' = delete id (table s);
  remove_err s id s' e : good s -> RemovePort s id = (s', Err e) ->
    good s' /\ (table s' = table s \/ table s' = delete id (table s));
}.

(** ** Clients see a table *)

(** A history of calls: what was added and not removed since. *)
Inductive call : Set :=
  | CAdd (sp : Spec)
  | CRemove (id : Z).

Inductive answer : Set :=
  | RAdd (r : result Status)
  | RRemove (r : result unit).

Section clients.
Context {S : Type} `{M : !Manager S} (good room : S -> Prop) (table : S -> gmap Z Spec).
Context (HS : ManagerSpec good room table).

Definition do_call (s : S) (c : call) : S * answer :=
  match c with
  | CAdd sp => let '(s', r) := AddPort s sp in (s', RAdd r)
  | CRemove id => let '(s', r) := RemovePort s id in (s', RRemove r)
  end.

Fixpoint do_calls (s : S) (cs : list call) : S * list answer :=
  match cs with
  | [] => (s, [])
  | c :: cs' =>
      let '(s1, a) := do_call s c in
      let '(s2, l) := do_calls s1 cs' in (s2, a :: l)
  end.

(** There is room before each of the calls. *)
Fixpoint has_room (s : S) (cs : list call) : Prop :=
  match cs with
  | [] => True
  | c :: cs' => room s /\ has_room (do_call s c).1 cs'
  end.

Lemma do_call_good s c : good s -> room s -> good (do_call s c).1.
Proof using HS.
  intros Hs Hr. destruct c as [sp|id]; simpl.
  - destruct (AddPort s sp) as [s' [st|e]] eqn:E; simpl.
    + by destruct (add_ok _ _ _ HS _ _ _ _ Hs Hr E) as [? _].
    + by destruct (add_err _ _ _ HS _ _ _ _ Hs Hr E) as [? _].
  - destruct (RemovePort s id) as [s' [[]|e]] eqn:E; simpl.
    + by destruct (remove_ok _ _ _ HS _ _ _ Hs E) as [? _].
    + by destruct (remove_err _ _ _ HS _ _ _ _ Hs E) as [? _].
Qed.

(** A port that was added stays in the table, with its specification, until it
    is removed. *)
Lemma added_port_stays s sp s1 st cs :
  good s -> room s -> AddPort s sp = (s1, Ok st) -> has_room s1 cs -> CRemove (ID st) ∉ cs ->
  table (do_calls s1 cs).1 !! ID st = Some (Spec_of st).
Proof using HS.
  intros Hs Hr Ha Hroom Hcs. destruct (add_ok _ _ _ HS _ _ _ _ Hs Hr Ha) as (Hs1 & _ & Ht & _).
  assert (table s1 !! ID st = Some (Spec_of st)) as Hin by (rewrite Ht; apply lookup_insert_eq). clear Ht Ha.
  revert s1 Hs1 Hin Hroom; induction cs as [|c cs IH]; intros s1 Hs1 Hin Hroom; [done|].
  destruct Hroom as [Hr1 Hroom]. apply not_elem_of_cons in Hcs as [Hc Hcs]. simpl.
  assert (table (do_call s1 c).1 !! ID st = Some (Spec_of st)) as Hin'.
  { destruct c as [sp'|id]; simpl.
    - destruct (AddPort s1 sp') as [s' [st'|e]] eqn:E; simpl.
      + destruct (add_ok _ _ _ HS _ _ _ _ Hs1 Hr1 E) as (_ & Hn & -> & _). rewrite lookup_insert_ne; [done|]. congruence.
      + by destruct (add_err _ _ _ HS _ _ _ _ Hs1 Hr1 E) as [_ ->].
    - assert (id <> ID st) by congruence. destruct (RemovePort s1 id) as [s' [[]|e]] eqn:E; simpl.
      + destruct (remove_ok _ _ _ HS _ _ _ Hs1 E) as [_ ->]. by rewrite lookup_delete_ne.
      + destruct (remove_err _ _ _ HS _ _ _ _ Hs1 E) as [_ [->| ->]]; [done|by rewrite lookup_delete_ne]. }
  pose proof (do_call_good s1 c Hs1 Hr1) as Hg. destruct (do_call s1 c) as [s2 a].
  specialize (IH Hcs s2 Hg Hin' Hroom). by destruct (do_calls s2 cs).
Qed.
End clients.

(** What a driver lists from a map of statuses recorded under their own IDs. *)
Lemma table_of_map (ps : gmap Z Status) :
  (forall id st, ps !! id = Some st -> ID st = id) ->
  table_of (map_to_list ps).*2 = Spec_of <$> ps /\ NoDup (map ID (map_to_list ps).*2).
Proof.
  intros Hid.
  assert (Forall (fun x => ID x.2 = x.1) (map_to_list ps)) as HF.
  { apply Forall_forall. intros [id st] H. apply elem_of_map_to_list in H. by apply Hid. }
  assert (map (fun st => (ID st, Spec_of st)) (map_to_list ps).*2 = prod_map id Spec_of <$> map_to_list ps) as E.
  { induction HF as [|[id st] l H _ IH]; [done|]. cbn in *. by rewrite H, IH. }
  split.
  - unfold table_of. rewrite E. rewrite list_to_map_fmap. by rewrite list_to_map_to_list.
  - assert (map ID (map_to_list ps).*2 = (map_to_list ps).*1) as ->.
    { clear E. induction HF as [|[id st] l H _ IH]; [done|]. cbn in *. by rewrite H, IH. }
    apply NoDup_fst_map_to_list.
Qed.
