(* ===== verification/BuiltinParent.v ===== *)
(** * pkg/port/builtin/parent: the parent side of the builtin port driver

    The driver keeps the table of ports, one stopper per port, and the next
    ID, under a mutex.  [AddPort] takes the mutex twice: to validate the
    specification and, after the socket is bound, to record the port; several
    API calls run concurrently.  The calls are modelled as threads whose steps
    are the critical sections and the bind in between, over a shared driver
    and the sockets of the kernel. *)
From S2P Require Import Prelude GoStrings NetIP PortSpec Manager.
Import port.

(** the text of an error, up to the arguments of its format *)
Fixpoint Error (e : error) : str :=
  match e with
  | Errorf f _ => f
  | Wrapf f _ i => f ++ Error i
  | Extern w => w
  | Exit _ => "exit status"
  | Panic w => w
  end.

Module builtin.

(** ** Errors of a privileged port *)
Definition EPERM : error := Extern "operation not permitted".

Definition isEPERM (err : error) : bool :=
  errors_Is err EPERM || strings.Contains (Error err) "permission denied".

(** [start_file] is the contents of ip_unprivileged_port_start, [arg0] is
    [os.Args[0]]. *)
Definition annotateEPERM (start_file : result str) (arg0 : str) (origErr : error) (spec : Spec) : error :=
  match start_file with
  | Err _ => origErr
  | Ok b =>
      match strconv.Atoi (strings.TrimSpace b) with
      | Err _ => origErr
      | Ok start =>
          if start <=? ParentPort spec then origErr
          else
            let p := strconv.Itoa (ParentPort spec) in
            let text := lit "cannot expose privileged port " ++ p ++
              lit ", you can add 'net.ipv4.ip_unprivileged_port_start=" ++ p ++
              lit "' to /etc/sysctl.conf (currently " ++ strconv.Itoa start ++ lit ")" in
            let text := if bool_decide (filepath.Base arg0 = lit "rootlesskit")
                        then text ++ lit ", or set CAP_NET_BIND_SERVICE on rootlesskit binary" else text in
            let text := text ++ lit ", or choose a larger port number (>= " ++ strconv.Itoa start ++ lit ")" in
            Wrapf (text ++ lit ": %w") [] origErr
      end
  end.

(** ** The driver *)

(** A stopper closes the channel of its routine, named by a number. *)
Record driver : Set := mkDriver {
  socketPath : str;
  childReadyPipePath : str;
  sourceIPTransparent : bool;
  ports : gmap Z Status;
  stoppers : gmap Z Z;
  nextID : Z;
}.

Definition NewDriver (stateDir : str) (transparent : bool) : driver :=
  mkDriver (filepath.Join [stateDir; lit ".bp.sock"]) (filepath.Join [stateDir; lit ".bp-ready.pipe"])
    transparent ∅ ∅ 1.

Definition SocketPath : str := "builtin.socketpath".
Definition ChildReadyPipePath : str := "builtin.readypipepath".
Definition SourceIPTransparent : str := "builtin.source-ip-transparent".

Definition OpaqueForChild (d : driver) : list (str * str) :=
  [(SocketPath, socketPath d); (ChildReadyPipePath, childReadyPipePath d)] ++
  (if sourceIPTransparent d then [(SourceIPTransparent, lit "true")] else []).

Definition set_ports (d : driver) (ps : gmap Z Status) (ss : gmap Z Z) (n : Z) : driver :=
  mkDriver (socketPath d) (childReadyPipePath d) (sourceIPTransparent d) ps ss n.

(** The first critical section of [AddPort]. *)
Definition AddPort_validate (d : driver) (spec : Spec) : result unit :=
  portutil.ValidatePortSpec spec (map_to_list (ports d)).

(** What [tcp.Run] and [udp.Run] listen on. *)
Definition listen_addr (spec : Spec) : str * str :=
  (Proto spec, net.JoinHostPort (ParentIP spec) (strconv.Itoa (ParentPort spec))).

(** The switch on the protocol: is it one that has a routine? *)
Definition has_routine (spec : Spec) : bool :=
  bool_decide (Proto spec ∈ [lit "tcp"; lit "tcp4"; lit "tcp6"; lit "udp"; lit "udp4"; lit "udp6"]).

(** The second critical section of [AddPort], for a running routine [r]. *)
Definition AddPort_commit (d : driver) (spec : Spec) (r : Z) : driver * Status :=
  let id := nextID d in
  let st := mkStatus id spec in
  (set_ports d (<[id := st]> (ports d)) (<[id := r]> (stoppers d)) (wrap64 (nextID d + 1)), st).

Definition ListPorts (d : driver) : list Status := (map_to_list (ports d)).*2.

(** [RemovePort]: [stop r] is the answer of the stopper.  The entry is deleted
    even when the stopper fails. *)
Definition RemovePort (d : driver) (id : Z) (stop : Z -> result unit) : driver * result unit :=
  match stoppers d !! id with
  | None => (d, Err (Errorf "unknown id: %d" [AInt id]))
  | Some r => (set_ports d (delete id (ports d)) (delete id (stoppers d)) (nextID d), stop r)
  end.

(** ** Concurrent calls *)

Inductive thread : Set :=
  | AddStart (spec : Spec)              (** before the first critical section *)
  | AddRun (spec : Spec)                (** validated, before the bind *)
  | AddCommit (spec : Spec) (r : Z)     (** bound, before the second section *)
  | AddDone (res : result Status)
  | RemoveStart (id : Z)
  | RemoveDone (res : result unit)
  | ListStart
  | ListDone (res : list Status).

Record world : Set := mkWorld {
  drv : driver;
  sockets : gmap Z (str * str);    (** the listening sockets, by routine *)
  next_routine : Z;
  closed : gset Z;                 (** the routines whose stop channel is closed *)
  panicked : bool;                 (** a stop channel was closed twice *)
  lost_listener : bool;            (** some listener stopped on its own *)
  threads : list thread;
}.

Section steps.
(** whether the kernel lets a socket be bound *)
Context (may_bind : gmap Z (str * str) -> str * str -> bool).

Definition set_thread (w : world) (i : nat) (t : thread) : world :=
  mkWorld (drv w) (sockets w) (next_routine w) (closed w) (panicked w) (lost_listener w) (<[i := t]> (threads w)).

Inductive step : world -> world -> Prop :=
  (** a new API call *)
  | step_call w t : (match t with AddStart _ | RemoveStart _ | ListStart => True | _ => False end) ->
      step w (mkWorld (drv w) (sockets w) (next_routine w) (closed w) (panicked w) (lost_listener w) (threads w ++ [t]))
  | step_validate w i spec :
      threads w !! i = Some (AddStart spec) ->
      step w (set_thread w i (match AddPort_validate (drv w) spec with
                              | Ok _ => AddRun spec
                              | Err e => AddDone (Err e)
                              end))
  | step_unsupported w i spec :
      threads w !! i = Some (AddRun spec) -> has_routine spec = false ->
      step w (set_thread w i (AddDone (Err (Errorf "unsupported port protocol %s" [AStr (Proto spec)]))))
  | step_run_error w i spec e :
      threads w !! i = Some (AddRun spec) -> has_routine spec = true ->
      step w (set_thread w i (AddDone (Err e)))
  | step_run w i spec :
      threads w !! i = Some (AddRun spec) -> has_routine spec = true ->
      may_bind (sockets w) (listen_addr spec) = true ->
      step w (mkWorld (drv w) (<[next_routine w := listen_addr spec]> (sockets w)) (next_routine w + 1)
                (closed w) (panicked w) (lost_listener w) (<[i := AddCommit spec (next_routine w)]> (threads w)))
  (** runs in which the 63-bit counter of IDs overflows are left out *)
  | step_commit w i spec r d st :
      threads w !! i = Some (AddCommit spec r) -> nextID (drv w) < int_max -> AddPort_commit (drv w) spec r = (d, st) ->
      step w (mkWorld d (sockets w) (next_routine w) (closed w) (panicked w) (lost_listener w)
                (<[i := AddDone (Ok st)]> (threads w)))
  | step_remove_unknown w i id :
      threads w !! i = Some (RemoveStart id) -> stoppers (drv w) !! id = None ->
      step w (set_thread w i (RemoveDone (RemovePort (drv w) id (fun _ => Ok tt)).2))
  (** the routine stops in time, or it does not and goes on by itself *)
  | step_remove w i id r (in_time : bool) (answer : result unit) :
      threads w !! i = Some (RemoveStart id) -> stoppers (drv w) !! id = Some r ->
      step w (mkWorld (RemovePort (drv w) id (fun _ => answer)).1
                (if in_time then delete r (sockets w) else sockets w) (next_routine w)
                ({[r]} ∪ closed w) (panicked w || bool_decide (r ∈ closed w)) (lost_listener w)
                (<[i := RemoveDone (RemovePort (drv w) id (fun _ => answer)).2]> (threads w)))
  | step_list w i :
      threads w !! i = Some ListStart ->
      step w (set_thread w i (ListDone (ListPorts (drv w))))
  (** a stopped routine closes its listener *)
  | step_stopped w r :
      r ∈ closed w ->
      step w (mkWorld (drv w) (delete r (sockets w)) (next_routine w) (closed w) (panicked w) (lost_listener w) (threads w))
  (** [Accept] fails and the routine closes its listener *)
  | step_accept_error w r :
      step w (mkWorld (drv w) (delete r (sockets w)) (next_routine w) (closed w) (panicked w) true (threads w)).

Inductive reachable (d0 : driver) : world -> Prop :=
  | reach_init : reachable d0 (mkWorld d0 ∅ 0 ∅ false false [])
  | reach_step w w' : reachable d0 w -> step w w' -> reachable d0 w'.
End steps.

End builtin.
Import builtin.

(** ** Who owns a routine *)

Inductive owner (d : driver) (ths : list thread) : Z + nat -> Z -> Spec -> Prop :=
  | own_port id r st : stoppers d !! id = Some r -> ports d !! id = Some st -> owner d ths (inl id) r (Spec_of st)
  | own_thread i r spec : ths !! i = Some (AddCommit spec r) -> owner d ths (inr i) r spec.

Definition plain (t : thread) : Prop := match t with AddCommit _ _ => False | _ => True end.

Lemma owner_set_plain d ths i t t' o r s :
  ths !! i = Some t -> plain t -> plain t' -> owner d (<[i := t']> ths) o r s <-> owner d ths o r s.
Proof.
  intros Hi Ht Ht'. split; intros [id r' st H1 H2|j r' spec H]; try (by eapply own_port);
    destruct (decide (i = j)) as [<-|Hj].
  - rewrite list_lookup_insert_eq in H by (by eapply lookup_lt_Some). injection H as ->. done.
  - rewrite list_lookup_insert_ne in H by done. by constructor.
  - rewrite Hi in H. injection H as ->. done.
  - constructor. by rewrite list_lookup_insert_ne.
Qed.

Lemma owner_call d ths t o r s : plain t -> owner d (ths ++ [t]) o r s <-> owner d ths o r s.
Proof.
  intros Ht. split; intros [id r' st H1 H2|j r' spec H]; try (by eapply own_port).
  - apply lookup_app_Some in H as [H|[Hl H]]; [by constructor|].
    apply list_lookup_singleton_Some in H as [_ ->]. done.
  - constructor. by apply lookup_app_l_Some.
Qed.

(** ** The invariant *)

Record driver_ok (d : driver) : Prop := {
  ok_dom : dom (ports d) = dom (stoppers d);
  ok_id id st : ports d !! id = Some st -> ID st = id /\ 1 <= id < nextID d;
  ok_next : 1 <= nextID d <= int_max;
}.

Record inv (w : world) : Prop := {
  inv_driver : driver_ok (drv w);
  inv_owner o r s : owner (drv w) (threads w) o r s -> r < next_routine w /\ r ∉ closed w;
  inv_unique o o' r s s' : owner (drv w) (threads w) o r s -> owner (drv w) (threads w) o' r s' -> o = o';
  inv_closed r : r ∈ closed w -> r < next_routine w;
  inv_socket r a : sockets w !! r = Some a -> r < next_routine w /\
    (r ∈ closed w \/ exists o s, owner (drv w) (threads w) o r s /\ listen_addr s = a);
  inv_live o r s : lost_listener w = false -> owner (drv w) (threads w) o r s ->
    sockets w !! r = Some (listen_addr s);
  inv_excl r r' a : sockets w !! r = Some a -> sockets w !! r' = Some a -> r = r';
  inv_no_panic : panicked w = false;
}.

(** A step that only changes threads, and no owner. *)
Lemma inv_plain w ths :
  inv w -> (forall o r s, owner (drv w) ths o r s <-> owner (drv w) (threads w) o r s) ->
  inv (mkWorld (drv w) (sockets w) (next_routine w) (closed w) (panicked w) (lost_listener w) ths).
Proof.
  intros [H1 H2 H3 H4 H5 H6 H7 H8] Ho. split; simpl; auto.
  - intros o r s Hw. apply Ho in Hw. eauto.
  - intros o o' r s s' Hw Hw'. apply Ho in Hw, Hw'. eauto.
  - intros r a Hs. destruct (H5 r a Hs) as [? [?|(o & s & Hw & ?)]]; split; auto.
    right. exists o, s. by rewrite Ho.
  - intros o r s Hl Hw. apply Ho in Hw. eauto.
Qed.

(** A step that only closes a socket that has no owner. *)
Lemma inv_close w r :
  inv w -> (lost_listener w = false -> forall o s, ~ owner (drv w) (threads w) o r s) ->
  inv (mkWorld (drv w) (delete r (sockets w)) (next_routine w) (closed w) (panicked w) (lost_listener w) (threads w)).
Proof.
  intros [H1 H2 H3 H4 H5 H6 H7 H8] Hr. split; simpl; auto.
  - intros r' a [_ Hs]%lookup_delete_Some. eauto.
  - intros o r' s Hl Hw. rewrite lookup_delete_ne; [eauto|]. intros <-. by eapply Hr.
  - intros r1 r2 a [_ Ha]%lookup_delete_Some [_ Hb]%lookup_delete_Some. eauto.
Qed.

Lemma AddPort_commit_ok d spec r :
  driver_ok d -> nextID d < int_max -> driver_ok (AddPort_commit d spec r).1.
Proof.
  intros [Hd Hi Hn] Hmax. unfold AddPort_commit. simpl.
  assert (wrap64 (nextID d + 1) = nextID d + 1) as Hw.
  { apply wrap64_id. unfold in_int64, int_min. rewrite andb_true_iff, !Z.leb_le. lia. }
  split; simpl; rewrite ?Hw; [by rewrite !dom_insert_L, Hd| |lia].
  intros id st [[<- <-]|[Hne H]]%lookup_insert_Some; simpl; [lia|]. apply Hi in H. lia.
Qed.

Lemma RemovePort_ok d id stop : driver_ok d -> driver_ok (RemovePort d id stop).1.
Proof.
  intros [Hd Hi Hn]. unfold RemovePort. destruct (stoppers d !! id); [|done].
  split; simpl; [by rewrite !dom_delete_L, Hd| |done]. intros j st [_ H]%lookup_delete_Some. by apply Hi.
Qed.

(** The owners after the second critical section of [AddPort]. *)
Lemma owner_commit d ths i spec r o r' s :
  driver_ok d -> ths !! i = Some (AddCommit spec r) ->
  owner (AddPort_commit d spec r).1 (<[i := AddDone (Ok (AddPort_commit d spec r).2)]> ths) o r' s <->
  (o = inl (nextID d) /\ r' = r /\ s = spec) \/ (o <> inr i /\ owner d ths o r' s).
Proof.
  intros Hd Hi. split.
  - intros [id r1 st H1 H2|j r1 sp H]; simpl in *.
    + apply lookup_insert_Some in H1 as [[<- <-]|[Hne H1]].
      * rewrite lookup_insert_eq in H2. injection H2 as <-. by left.
      * rewrite lookup_insert_ne in H2 by done. right. split; [done|]. by constructor.
    + destruct (decide (i = j)) as [<-|Hj].
      * rewrite list_lookup_insert_eq in H by (by eapply lookup_lt_Some). done.
      * rewrite list_lookup_insert_ne in H by done. right. split; [congruence|]. by constructor.
  - intros [(-> & -> & ->)|[Hne Hw]].
    + replace spec with (Spec_of (mkStatus (nextID d) spec)) by done. constructor; simpl; apply lookup_insert_eq.
    + destruct Hw as [id r1 st H1 H2|j r1 sp H].
      * assert (id <> nextID d) by (apply (ok_id d Hd) in H2; lia).
        constructor; simpl; by rewrite lookup_insert_ne.
      * constructor. rewrite list_lookup_insert_ne; [done|]. congruence.
Qed.

(** The owners after [RemovePort] of an ID with routine [q]. *)
Lemma owner_remove d ths i id q stop res o r s :
  ths !! i = Some (RemoveStart id) -> stoppers d !! id = Some q ->
  owner (RemovePort d id stop).1 (<[i := RemoveDone res]> ths) o r s <->
  o <> inl id /\ owner d ths o r s.
Proof.
  intros Hi Hq. unfold RemovePort. rewrite Hq. simpl. split.
  - intros [j r1 st H1 H2|j r1 sp H]; simpl in *.
    + apply lookup_delete_Some in H1 as [Hne H1], H2 as [_ H2]. split; [congruence|]. by constructor.
    + destruct (decide (i = j)) as [<-|Hj].
      * rewrite list_lookup_insert_eq in H by (by eapply lookup_lt_Some). done.
      * rewrite list_lookup_insert_ne in H by done. split; [done|]. by constructor.
  - intros [Hne Hw]. destruct Hw as [j r1 st H1 H2|j r1 sp H].
    + apply own_port; simpl; (rewrite lookup_delete_ne; [done|intros E; apply Hne; by rewrite E]).
    + constructor. rewrite list_lookup_insert_ne; [done|]. intros ->. congruence.
Qed.

Section preservation.
Context (may_bind : gmap Z (str * str) -> str * str -> bool).
(** The kernel does not let a socket listen on the address of another. *)
Context (bind_excl : forall ss a r, may_bind ss a = true -> ss !! r <> Some a).

Lemma inv_run w i spec :
  inv w -> threads w !! i = Some (AddRun spec) -> may_bind (sockets w) (listen_addr spec) = true ->
  inv (mkWorld (drv w) (<[next_routine w := listen_addr spec]> (sockets w)) (next_routine w + 1)
         (closed w) (panicked w) (lost_listener w) (<[i := AddCommit spec (next_routine w)]> (threads w))).
Proof using bind_excl.
  intros [H1 H2 H3 H4 H5 H6 H7 H8] Hi Hb.
  assert (forall o r s, owner (drv w) (<[i := AddCommit spec (next_routine w)]> (threads w)) o r s <->
    (o = inr i /\ r = next_routine w /\ s = spec) \/ owner (drv w) (threads w) o r s) as Ho.
  { intros o r s. split.
    - intros [id r1 st Ha Hb'|j r1 sp H]; [right; by constructor|]. destruct (decide (i = j)) as [<-|Hj].
      + rewrite list_lookup_insert_eq in H by (by eapply lookup_lt_Some). injection H as <- <-. by left.
      + rewrite list_lookup_insert_ne in H by done. right. by constructor.
    - intros [(-> & -> & ->)|[id r1 st Ha Hb'|j r1 sp H]].
      + constructor. apply list_lookup_insert_eq. by eapply lookup_lt_Some.
      + by constructor.
      + constructor. rewrite list_lookup_insert_ne; [done|]. intros ->. congruence. }
  assert (next_routine w ∉ closed w) as Hnc by (intros Hc; apply H4 in Hc; lia).
  split; simpl; auto.
  - intros o r s [(-> & -> & ->)|Hw]%Ho; [split; [lia|done]|]. apply H2 in Hw as [? ?]. split; [lia|done].
  - intros o o' r s s' [(-> & -> & ->)|Hw]%Ho [(-> & E & ->)|Hw']%Ho; [done| | |by eapply H3].
    + apply H2 in Hw' as [? _]. lia.
    + subst r. apply H2 in Hw as [? _]. lia.
  - intros r Hr. apply H4 in Hr. lia.
  - intros r a [[<- <-]|[Hne Hs]]%lookup_insert_Some.
    + split; [lia|]. right. exists (inr i), spec. rewrite Ho. auto.
    + destruct (H5 r a Hs) as [? [?|(o & s & Hw & ?)]]; (split; [lia|]); [by left|].
      right. exists o, s. rewrite Ho. auto.
  - intros o r s Hl [(-> & -> & ->)|Hw]%Ho; [apply lookup_insert_eq|].
    rewrite lookup_insert_ne; [by eauto|]. apply H2 in Hw as [? _]. lia.
  - intros r r' a [[<- <-]|[Hne Hs]]%lookup_insert_Some [[<- E]|[Hne' Hs']]%lookup_insert_Some; auto.
    + by destruct (bind_excl _ _ r' Hb).
    + subst a. by destruct (bind_excl _ _ r Hb).
    + eauto.
Qed.

Lemma inv_commit w i spec r :
  inv w -> threads w !! i = Some (AddCommit spec r) -> nextID (drv w) < int_max ->
  inv (mkWorld (AddPort_commit (drv w) spec r).1 (sockets w) (next_routine w) (closed w) (panicked w)
         (lost_listener w) (<[i := AddDone (Ok (AddPort_commit (drv w) spec r).2)]> (threads w))).
Proof.
  intros [H1 H2 H3 H4 H5 H6 H7 H8] Hi Hmax.
  assert (Ho := fun o r' s => owner_commit (drv w) (threads w) i spec r o r' s H1 Hi).
  assert (owner (drv w) (threads w) (inr i) r spec) as Hown by by constructor.
  split; cbn [drv sockets next_routine closed panicked lost_listener threads]; auto.
  - by apply AddPort_commit_ok.
  - intros o r' s [(-> & -> & ->)|[_ Hw]]%Ho; eauto.
  - intros o o' r' s s' [(-> & -> & ->)|[Hne Hw]]%Ho [(-> & E & ->)|[Hne' Hw']]%Ho; [done| | |by eapply H3].
    + destruct Hne'. by eapply H3.
    + subst r'. destruct Hne. by eapply H3.
  - intros r' a Hs. destruct (H5 r' a Hs) as [? [?|(o & s & Hw & <-)]]; (split; [done|]); [by left|].
    right. destruct (decide (o = inr i)) as [->|Hne].
    + inversion Hw as [|? ? ? Hi']; subst. rewrite Hi in Hi'. simplify_eq. exists (inl (nextID (drv w))), s. rewrite Ho. auto.
    + exists o, s. rewrite Ho. auto.
  - intros o r' s Hl [(-> & -> & ->)|[_ Hw]]%Ho; eauto.
Qed.

Lemma inv_remove w i id r (in_time : bool) answer :
  inv w -> threads w !! i = Some (RemoveStart id) -> stoppers (drv w) !! id = Some r ->
  inv (mkWorld (RemovePort (drv w) id (fun _ => answer)).1
         (if in_time then delete r (sockets w) else sockets w) (next_routine w)
         ({[r]} ∪ closed w) (panicked w || bool_decide (r ∈ closed w)) (lost_listener w)
         (<[i := RemoveDone (RemovePort (drv w) id (fun _ => answer)).2]> (threads w))).
Proof.
  intros [H1 H2 H3 H4 H5 H6 H7 H8] Hi Hq.
  assert (Ho := fun res o r' s => owner_remove (drv w) (threads w) i id r (fun _ => answer) res o r' s Hi Hq).
  assert (exists st, ports (drv w) !! id = Some st) as [st Hst].
  { apply elem_of_dom. rewrite (ok_dom _ H1). by eapply elem_of_dom_2. }
  assert (owner (drv w) (threads w) (inl id) r (Spec_of st)) as Hown by by constructor.
  assert (r < next_routine w /\ r ∉ closed w) as [Hr Hc] by eauto.
  assert (forall r' a, (if in_time then delete r (sockets w) else sockets w) !! r' = Some a -> sockets w !! r' = Some a) as Hsub.
  { intros r' a. destruct in_time; [|done]. by intros [_ ?]%lookup_delete_Some. }
  split; cbn [drv sockets next_routine closed panicked lost_listener threads]; auto.
  - by apply RemovePort_ok.
  - intros o r' s [Hne Hw]%Ho. split; [by eapply H2|].
    intros [->%elem_of_singleton|Hin]%elem_of_union; [destruct Hne; by eapply H3|]. by apply H2 in Hw as [_ ?].
  - intros o o' r' s s' [_ Hw]%Ho [_ Hw']%Ho. eauto.
  - intros r' [->%elem_of_singleton|Hin]%elem_of_union; auto.
  - intros r' a Hs%Hsub. destruct (H5 r' a Hs) as [? [?|(o & s & Hw & <-)]]; (split; [done|]); [left; set_solver|].
    destruct (decide (o = inl id)) as [->|Hne].
    + left. inversion Hw; subst. simplify_eq. set_solver.
    + right. exists o, s. rewrite Ho. auto.
  - intros o r' s Hl [Hne Hw]%Ho. assert (r' <> r) as Hrr by (intros ->; destruct Hne; by eapply H3).
    destruct in_time; [rewrite lookup_delete_ne by done|]; eauto.
  - intros r1 r2 a Ha%Hsub Hb%Hsub. eauto.
  - rewrite H8. simpl. by rewrite bool_decide_eq_false_2.
Qed.

Lemma builtin_inv_step w w' : inv w -> step may_bind w w' -> inv w'.
Proof using bind_excl.
  intros Hw Hs. destruct Hs.
  - apply (inv_plain w); [done|]. intros o r s. apply owner_call. by destruct t.
  - apply (inv_plain w); [done|]. intros o r s. eapply owner_set_plain; [done|done|].
    by destruct (AddPort_validate _ _).
  - apply (inv_plain w); [done|]. intros o r s. by eapply owner_set_plain.
  - apply (inv_plain w); [done|]. intros o r s. by eapply owner_set_plain.
  - by apply inv_run.
  - replace d with (AddPort_commit (drv w) spec r).1 by by rewrite H1.
    replace st with (AddPort_commit (drv w) spec r).2 by by rewrite H1. by apply inv_commit.
  - apply (inv_plain w); [done|]. intros o r s. by eapply owner_set_plain.
  - by apply inv_remove.
  - apply (inv_plain w); [done|]. intros o r s. by eapply owner_set_plain.
  - apply inv_close; [done|]. intros _ o s Hown. by apply (inv_owner w Hw) in Hown as [_ ?].
  - destruct Hw as [H1 H2 H3 H4 H5 H6 H7 H8]. split; simpl; auto; try done.
    + intros r' a [_ Hs]%lookup_delete_Some. eauto.
    + intros r1 r2 a [_ Ha]%lookup_delete_Some [_ Hb]%lookup_delete_Some. eauto.
Qed.

Lemma builtin_reachable_inv stateDir transparent w :
  reachable may_bind (NewDriver stateDir transparent) w -> inv w.
Proof using bind_excl.
  induction 1 as [|w w' _ IH Hs]; [|by eapply builtin_inv_step].
  assert (forall o r s, ~ owner (NewDriver stateDir transparent) [] o r s) as Hno.
  { intros o r s [id r' st H _|i r' spec H]; [simpl in H; by rewrite lookup_empty in H|done]. }
  split; simpl; try done.
  - intros o r s H. by apply Hno in H.
  - intros o o' r s s' H. by apply Hno in H.
  - intros o r s _ H. by apply Hno in H.
Qed.
End preservation.

(** ** Which ports listen *)

(** What the kernel keeps apart. *)
Definition port_key (p : Z * Status) : str * str * Z :=
  (Proto (Spec_of p.2), ParentIP (Spec_of p.2), ParentPort (Spec_of p.2)).

(** The routine of the port has its socket. *)
Definition listening (w : world) (id : Z) : Prop :=
  exists r, stoppers (drv w) !! id = Some r /\ is_Some (sockets w !! r).

Lemma port_owner w id st :
  inv w -> ports (drv w) !! id = Some st ->
  exists r, stoppers (drv w) !! id = Some r /\ owner (drv w) (threads w) (inl id) r (Spec_of st).
Proof.
  intros Hi Hst. assert (exists r, stoppers (drv w) !! id = Some r) as [r Hr].
  { apply elem_of_dom. rewrite <- (ok_dom _ (inv_driver _ Hi)). by eapply elem_of_dom_2. }
  exists r. split; [done|]. by apply own_port.
Qed.

Lemma recorded_listening w id st :
  inv w -> lost_listener w = false -> ports (drv w) !! id = Some st -> listening w id.
Proof.
  intros Hi Hl Hst. destruct (port_owner w id st Hi Hst) as (r & Hr & Ho). exists r. split; [done|].
  eexists. by eapply inv_live.
Qed.

Lemma listening_addr w id st :
  inv w -> ports (drv w) !! id = Some st -> listening w id ->
  exists r, stoppers (drv w) !! id = Some r /\ sockets w !! r = Some (listen_addr (Spec_of st)).
Proof.
  intros Hi Hst (r & Hr & a & Ha). destruct (port_owner w id st Hi Hst) as (r' & Hr' & Ho).
  assert (r' = r) as -> by congruence. exists r. split; [done|].
  destruct (inv_socket _ Hi _ _ Ha) as [_ [Hc|(o & s & Ho' & <-)]].
  - by apply (inv_owner _ Hi) in Ho as [_ ?].
  - assert (o = inl id) as -> by (by eapply inv_unique). inversion Ho'; subst. inversion Ho; subst. congruence.
Qed.

Lemma exclusive w id id' st st' :
  inv w -> ports (drv w) !! id = Some st -> ports (drv w) !! id' = Some st' ->
  port_key (id, st) = port_key (id', st') -> listening w id -> listening w id' -> id = id'.
Proof.
  intros Hi H1 H2 [= E1 E2 E3] L1 L2.
  destruct (listening_addr w id st Hi H1 L1) as (r & Hr & S1), (listening_addr w id' st' Hi H2 L2) as (r' & Hr' & S2).
  assert (listen_addr (Spec_of st) = listen_addr (Spec_of st')) as E by (unfold listen_addr; by rewrite E1, E2, E3).
  rewrite E in S1. pose proof (inv_excl _ Hi _ _ _ S1 S2) as <-.
  by injection (inv_unique _ Hi _ _ _ _ _ (own_port _ (threads w) _ _ _ Hr H1) (own_port _ (threads w) _ _ _ Hr' H2)).
Qed.

(** ** What holds in every reachable state *)
Section reachable_facts.
Context (may_bind : gmap Z (str * str) -> str * str -> bool).
Context (bind_excl : forall ss a r, may_bind ss a = true -> ss !! r <> Some a).

(** C23: however the calls of [AddPort], [RemovePort] and [ListPorts] are
    interleaved, no stop channel is closed twice (which would panic), every
    port has a stopper and vice versa, each port is recorded under its own ID,
    and IDs are handed out once. *)
Theorem builtin_table_ok stateDir transparent w :
  reachable may_bind (NewDriver stateDir transparent) w ->
  panicked w = false /\ dom (ports (drv w)) = dom (stoppers (drv w)) /\
  (forall id st, ports (drv w) !! id = Some st -> ID st = id /\ 1 <= id < nextID (drv w)) /\
  (forall id id' r, stoppers (drv w) !! id = Some r -> stoppers (drv w) !! id' = Some r -> id = id').
Proof using bind_excl.
  intros Hw. apply (builtin_reachable_inv _ bind_excl) in Hw as [[Hd Hi _] _ Hu _ _ _ _ Hp].
  split; [done|]. split; [done|]. split; [done|]. intros id id' r H1 H2.
  assert (forall j q, stoppers (drv w) !! j = Some q -> exists st, ports (drv w) !! j = Some st) as Hst.
  { intros j q Hj. apply elem_of_dom. rewrite Hd. by eapply elem_of_dom_2. }
  destruct (Hst _ _ H1) as [st Hs1], (Hst _ _ H2) as [st' Hs2].
  by injection (Hu _ _ _ _ _ (own_port _ (threads w) _ _ _ H1 Hs1) (own_port _ (threads w) _ _ _ H2 Hs2)).
Qed.

(** C11: no listening socket is ever leaked: each one belongs to a recorded
    port, to an [AddPort] call that has yet to record it, or to a routine that
    was told to stop; and, as long as no listener failed on its own, every
    recorded port listens on its own address. *)
Theorem builtin_sockets_owned stateDir transparent w :
  reachable may_bind (NewDriver stateDir transparent) w ->
  (forall r a, sockets w !! r = Some a ->
     r ∈ closed w \/
     (exists id st, ports (drv w) !! id = Some st /\ stoppers (drv w) !! id = Some r /\ listen_addr (Spec_of st) = a) \/
     (exists i spec, threads w !! i = Some (AddCommit spec r) /\ listen_addr spec = a)) /\
  (lost_listener w = false -> forall id st, ports (drv w) !! id = Some st ->
     exists r, stoppers (drv w) !! id = Some r /\ sockets w !! r = Some (listen_addr (Spec_of st))).
Proof using bind_excl.
  intros Hw. apply (builtin_reachable_inv _ bind_excl) in Hw as [[Hd Hi _] _ _ _ Hs Hl _ _]. split.
  - intros r a Ha. destruct (Hs r a Ha) as [_ [?|(o & s & Ho & <-)]]; [by left|]. right.
    destruct Ho as [id q st H1 H2|i q sp H]; [left; by exists id, st|right; by exists i, sp].
  - intros Hlost id st Hst.
    assert (exists r, stoppers (drv w) !! id = Some r) as [r Hr].
    { apply elem_of_dom. rewrite <- Hd. by eapply elem_of_dom_2. }
    exists r. split; [done|]. by eapply Hl, own_port.
Qed.

(** C12: [AddPort] validates and records in two separate critical sections; still,
    in every interleaving, as long as no listener failed on its own, no two
    recorded ports have the same protocol, parent IP and parent port.  After
    such a failure an entry may be left without a listener, and its address be
    taken again; but two ports of one address never listen both. *)
Theorem builtin_ports_exclusive stateDir transparent w :
  reachable may_bind (NewDriver stateDir transparent) w ->
  (lost_listener w = false -> NoDup (port_key <$> map_to_list (ports (drv w)))) /\
  (forall id id' st st', ports (drv w) !! id = Some st -> ports (drv w) !! id' = Some st' ->
     port_key (id, st) = port_key (id', st') -> listening w id -> listening w id' -> id = id').
Proof using bind_excl.
  intros Hi. apply (builtin_reachable_inv _ bind_excl) in Hi. split.
  - intros Hlost. apply NoDup_fmap_2_strong; [|apply NoDup_map_to_list].
    intros [id st] [id' st'] H1%elem_of_map_to_list H2%elem_of_map_to_list E.
    assert (id = id') as <- by (eapply exclusive; eauto; by eapply recorded_listening). congruence.
  - intros id id' st st' H1 H2 E. by eapply exclusive.
Qed.
End reachable_facts.

(** ** A concrete kernel and run *)

(** A socket may be bound when no open socket has its address. *)
Definition free_addr (ss : gmap Z (str * str)) (a : str * str) : bool :=
  forallb (fun x => negb (bool_decide (x.2 = a))) (map_to_list ss).

Lemma free_addr_excl ss a r : free_addr ss a = true -> ss !! r <> Some a.
Proof.
  unfold free_addr. rewrite forallb_forall. intros H Hr.
  specialize (H (r, a)). rewrite <- list_elem_of_In, elem_of_map_to_list in H. specialize (H Hr).
  simpl in H. by rewrite bool_decide_eq_true_2 in H.
Qed.

Definition spec80 : Spec := mkSpec "tcp" "127.0.0.1" 8080 80 [].

(** Two calls add the same port concurrently: both are validated, one binds. *)
Definition raced : world :=
  mkWorld (AddPort_commit (NewDriver "/run/rk" false) spec80 0).1 {[0 := listen_addr spec80]} 1 ∅ false false
    [AddDone (Ok (mkStatus 1 spec80)); AddDone (Err (Extern "address already in use"))].

Lemma raced_reachable : reachable free_addr (NewDriver "/run/rk" false) raced.
Proof.
  pose (D := NewDriver "/run/rk" false). pose (S1 := {[0 := listen_addr spec80]} : gmap Z (str * str)).
  pose (mid := fun d ss n ths => mkWorld d ss n ∅ false false ths).
  pose (err := Extern "address already in use").
  assert (reachable free_addr D (mid D ∅ 0 [AddStart spec80])) as H1
    by (eapply reach_step; [apply reach_init|]; by apply (step_call _ (mid D ∅ 0 []) (AddStart spec80))).
  assert (reachable free_addr D (mid D ∅ 0 [AddStart spec80; AddStart spec80])) as H2
    by (eapply reach_step; [exact H1|]; by apply (step_call _ (mid D ∅ 0 [AddStart spec80]) (AddStart spec80))).
  assert (reachable free_addr D (mid D ∅ 0 [AddRun spec80; AddStart spec80])) as H3
    by (eapply reach_step; [exact H2|];
        by apply (step_validate _ (mid D ∅ 0 [AddStart spec80; AddStart spec80]) 0 spec80)).
  assert (reachable free_addr D (mid D ∅ 0 [AddRun spec80; AddRun spec80])) as H4
    by (eapply reach_step; [exact H3|]; by apply (step_validate _ (mid D ∅ 0 [AddRun spec80; AddStart spec80]) 1 spec80)).
  assert (reachable free_addr D (mid D S1 1 [AddCommit spec80 0; AddRun spec80])) as H5
    by (eapply reach_step; [exact H4|]; by apply (step_run _ (mid D ∅ 0 [AddRun spec80; AddRun spec80]) 0 spec80)).
  assert (reachable free_addr D (mid D S1 1 [AddCommit spec80 0; AddDone (Err err)])) as H6
    by (eapply reach_step; [exact H5|]; by apply (step_run_error _ (mid D S1 1 [AddCommit spec80 0; AddRun spec80]) 1 spec80 err)).
  eapply reach_step; [exact H6|].
  by apply (step_commit _ (mid D S1 1 [AddCommit spec80 0; AddDone (Err err)]) 0 spec80 0).
Qed.

Theorem builtin_table_ok_witness :
  panicked raced = false /\ dom (ports (drv raced)) = dom (stoppers (drv raced)).
Proof.
  destruct (builtin_table_ok free_addr free_addr_excl "/run/rk" false raced raced_reachable) as (H1 & H2 & _).
  split; assumption.
Defined.

Theorem builtin_sockets_owned_witness :
  exists r, stoppers (drv raced) !! 1 = Some r /\ sockets raced !! r = Some (lit "tcp", lit "127.0.0.1:8080").
Proof.
  destruct (builtin_sockets_owned free_addr free_addr_excl "/run/rk" false raced raced_reachable) as [_ H].
  exact (H eq_refl 1 (mkStatus 1 spec80) eq_refl).
Defined.

(** After the race another port is added. *)
Definition spec81 : Spec := mkSpec "tcp" "127.0.0.1" 8081 80 [].

Definition two_ports : world :=
  mkWorld (AddPort_commit (drv raced) spec81 1).1 (<[1 := listen_addr spec81]> (sockets raced)) 2 ∅ false false
    (threads raced ++ [AddDone (Ok (mkStatus 2 spec81))]).

Lemma two_ports_reachable : reachable free_addr (NewDriver "/run/rk" false) two_ports.
Proof.
  pose (D := NewDriver "/run/rk" false). pose (now := fun t => mkWorld (drv raced) (sockets raced) 1 ∅ false false (threads raced ++ [t])).
  assert (reachable free_addr D (now (AddStart spec81))) as H1
    by (eapply reach_step; [exact raced_reachable|]; by apply (step_call _ raced (AddStart spec81))).
  assert (reachable free_addr D (now (AddRun spec81))) as H2
    by (eapply reach_step; [exact H1|]; by apply (step_validate _ (now (AddStart spec81)) 2 spec81)).
  assert (reachable free_addr D (mkWorld (drv raced) (<[1 := listen_addr spec81]> (sockets raced)) 2 ∅ false false
            (threads raced ++ [AddCommit spec81 1]))) as H3
    by (eapply reach_step; [exact H2|]; by apply (step_run _ (now (AddRun spec81)) 2 spec81)).
  eapply reach_step; [exact H3|]. by eapply (step_commit _ (mkWorld _ _ 2 ∅ false false (threads raced ++ [AddCommit spec81 1])) 2 spec81 1).
Qed.

(** Of the two calls for port 8080 one is recorded, next to port 8081. *)
Theorem builtin_ports_exclusive_witness :
  size (ports (drv two_ports)) = 2%nat /\ NoDup (port_key <$> map_to_list (ports (drv two_ports))).
Proof.
  split; [vm_compute; reflexivity|].
  apply (builtin_ports_exclusive free_addr free_addr_excl "/run/rk" false two_ports two_ports_reachable). reflexivity.
Defined.

(** ** One call at a time: the driver implements the contract of [port.Manager] *)
Section sequential.
(** what [AddPort] reads, and the routines: [run] is [tcp.Run] or [udp.Run],
    [stop] the stopper of a routine *)
Context {X : Type} (start_file : result str) (arg0 : str).
Context (run : X -> Spec -> X * result Z) (stop : X -> Z -> X * result unit).

Definition builtin_AddPort (s : driver * X) (spec : Spec) : (driver * X) * result Status :=
  let '(d, x) := s in
  match AddPort_validate d spec with
  | Err e => ((d, x), Err e)
  | Ok _ =>
      if has_routine spec then
        let '(x', r) := run x spec in
        match r with
        | Err e => ((d, x'), Err (if isEPERM e then annotateEPERM start_file arg0 e spec else e))
        | Ok r => let '(d', st) := AddPort_commit d spec r in ((d', x'), Ok st)
        end
      else ((d, x), Err (Errorf "unsupported port protocol %s" [AStr (Proto spec)]))
  end.

Definition builtin_RemovePort (s : driver * X) (id : Z) : (driver * X) * result unit :=
  let '(d, x) := s in
  let '(x', r) := match stoppers d !! id with
                  | Some q => stop x q
                  | None => (x, Ok tt)
                  end in
  let '(d', r') := RemovePort d id (fun _ => r) in ((d', x'), r').

#[export] Instance builtin_Manager : Manager (driver * X) := {
  AddPort := builtin_AddPort;
  ListPorts := fun s => (s, Ok (ListPorts s.1));
  RemovePort := builtin_RemovePort;
}.

Definition builtin_good (s : driver * X) : Prop := driver_ok s.1.
Definition builtin_room (s : driver * X) : Prop := nextID s.1 < int_max.
Definition builtin_table (s : driver * X) : gmap Z Spec := Spec_of <$> ports s.1.

(** C22: the builtin port driver implements the contract of [port.Manager]: an
    added port gets a fresh ID and is recorded as it was asked for; a failed
    call leaves the table alone; [RemovePort] removes the entry even when its
    stopper fails. *)
Theorem builtin_implements_Manager :
  @ManagerSpec _ builtin_Manager builtin_good builtin_room builtin_table.
Proof.
  split.
  - intros [d x] sp s' st Hd Hr. simpl. unfold builtin_AddPort.
    destruct (AddPort_validate d sp); [|discriminate]. destruct (has_routine sp); [|discriminate].
    destruct (run x sp) as [x' [r|e]]; [|discriminate]. intros [= <- <-].
    split; [by apply (AddPort_commit_ok d sp r)|]. split; [|split; [apply fmap_insert|done]].
    unfold builtin_table. rewrite lookup_fmap. simpl. destruct (ports d !! nextID d) as [st|] eqn:E; [|done].
    apply (ok_id d Hd) in E. lia.
  - intros [d x] sp s' e Hd _. simpl. unfold builtin_AddPort.
    destruct (AddPort_validate d sp); [|by intros [= <- _]]. destruct (has_routine sp); [|by intros [= <- _]].
    destruct (run x sp) as [x' [r|e']]; [discriminate|]. by intros [= <- _].
  - intros [d x] s' l Hd. simpl. intros [= <- <-]. split; [done|]. apply table_of_map.
    intros id st H. by apply (ok_id d Hd) in H as [? _].
  - intros [d x] id s' Hd. simpl. unfold builtin_RemovePort. pose proof (RemovePort_ok d id) as Hok.
    unfold RemovePort in *. destruct (stoppers d !! id) as [q|] eqn:E; [|discriminate].
    destruct (stop x q) as [x' r]. intros [= <- ->]. split; [by apply (Hok (fun _ => Ok tt))|apply fmap_delete].
  - intros [d x] id s' e Hd. simpl. unfold builtin_RemovePort. pose proof (RemovePort_ok d id) as Hok.
    unfold RemovePort in *. destruct (stoppers d !! id) as [q|] eqn:E.
    + destruct (stop x q) as [x' r]. intros [= <- ->]. split; [by apply (Hok (fun _ => Ok tt))|right; apply fmap_delete].
    + intros [= <- _]. split; [done|by left].
Qed.
End sequential.

(** ** Privileged ports *)

(** [annotateEPERM] never hides the error of the kernel. *)
Lemma annotateEPERM_wraps start_file arg0 err spec :
  let r := annotateEPERM start_file arg0 err spec in r = err \/ errors_Unwrap r = Some err.
Proof. unfold annotateEPERM. repeat case_match; auto. Qed.

(** The text for a port below the default range. *)
Example annotateEPERM_text :
  annotateEPERM (Ok (lit "1024" ++ ["010"%char])) "rootlesskit" (Extern "permission denied") (mkSpec "tcp" [] 80 80 []) =
  Wrapf "cannot expose privileged port 80, you can add 'net.ipv4.ip_unprivileged_port_start=80' to /etc/sysctl.conf (currently 1024), or set CAP_NET_BIND_SERVICE on rootlesskit binary, or choose a larger port number (>= 1024): %w"
    [] (Extern "permission denied").
Proof. vm_compute. reflexivity. Qed.
