(* ===== verification/SlirpPort.v ===== *)
(** * pkg/port/slirp4netns: the port driver over the API socket of slirp4netns

    The whole of [AddPort] and [RemovePort] runs under the mutex; each makes
    one call of slirp4netns, which picks the IDs.  slirp4netns itself and its
    socket are parameters: its state, and what is read after a request was
    written, which may be nothing although the request was served. *)
From S2P Require Import Prelude GoStrings NetIP PortSpec Framing Manager.
Import port.

Module slirp4netns.

Record addHostFwdArguments : Set := mkAddArgs {
  fProto : str;
  HostAddr : str;
  HostPort : Z;
  GuestAddr : str;
  GuestPort : Z;
}.

(** [request]: the two commands with their arguments *)
Inductive request : Set :=
  | add_hostfwd (args : addHostFwdArguments)
  | remove_hostfwd (id : Z).

(** The value of [rep.Return[id]]: an interface, a number of which [int()]
    keeps the integer part, or something else. *)
Inductive json_id : Set :=
  | Number (z : Z)
  | NotNumber.

Record reply : Set := mkReply {
  Return_id : option json_id;
  Error_empty : bool;          (** [len(rep.Error) == 0] *)
}.

Record driver : Set := mkDriver {
  apiSocketPath : str;
  childIP : str;
  ports : gmap Z Status;
}.

Definition NewParentDriver (apiSocketPath : str) : result driver :=
  if bool_decide (apiSocketPath = []) then Err (errors_New "api socket path is not set")
  else Ok (mkDriver apiSocketPath [] ∅).

Definition Protos : list str := [lit "tcp"; lit "tcp4"; lit "udp"; lit "udp4"].

(** [RunParentDriver] up to the wait for quit: it stores the IPv4 address of
    the child. *)
Definition RunParentDriver (d : driver) (cctx_IP : option net.IP) : driver :=
  match cctx_IP with
  | Some ip =>
      match net.To4 ip with
      | Some ip4 => mkDriver (apiSocketPath d) (net.String ip4) (ports d)
      | None => d
      end
  | None => d
  end.

(** The address of the guest, in dotted form. *)
Definition guest_addr (d : driver) (spec : Spec) : result str :=
  if bool_decide (ChildIP spec = []) then Ok (childIP d)
  else
    match net.ParseIP (ChildIP spec) with
    | None => Err (Errorf "invalid IP: %q" [AStr (ChildIP spec)])
    | Some p =>
        match net.To4 p with
        | None => Err (Errorf "unsupported IP (v6?): %s" [AStr (ChildIP spec)])
        | Some p4 => Ok (net.String p4)
        end
    end.

(** The request of [AddPort]. *)
Definition add_request (d : driver) (spec : Spec) : result request :=
  _ <-? portutil.ValidatePortSpec spec (map_to_list (ports d)) ;;
  if strings.HasSuffix (Proto spec) "6" then Err (Errorf "unsupported protocol %q" [AStr (Proto spec)])
  else
    ip <-? guest_addr d spec ;;
    Ok (add_hostfwd (mkAddArgs (strings.TrimSuffix (Proto spec) "4") (ParentIP spec) (ParentPort spec) ip
                       (ChildPort spec))).

(** The ID in the reply. *)
Definition reply_id (rep : reply) : result Z :=
  if negb (Error_empty rep) then Err (errors_New "reply.Error: %+v")
  else match Return_id rep with
       | None => Err (errors_New "unexpected reply: %+v")
       | Some NotNumber => Err (errors_New "unexpected id: %+v")
       | Some (Number z) => Ok z
       end.

Definition set_ports (d : driver) (ps : gmap Z Status) : driver := mkDriver (apiSocketPath d) (childIP d) ps.

(** One call over the API socket: [dial] connects, [exchange] sends the request,
    closes the write side and reads the whole answer. *)
Definition callAPI {X} `{JsonCodec request} `{JsonCodec reply} (dial : X -> X * option error)
    (exchange : X -> str -> X * result str) (x : X) (req : request) : X * result reply :=
  let '(x, err) := dial x in
  match err with
  | Some e => (x, Err e)
  | None =>
      match json_Marshal req with
      | Err e => (x, Err e)
      | Ok m =>
          let '(x, b) := exchange x (m ++ ["010"%char]) in
          (x, b <-? b ;; json_Unmarshal b)
      end
  end.

Section api.
(** slirp4netns: its state, and one call of its API *)
Context {X : Type} (callAPI : X -> request -> X * result reply).

Definition AddPort (s : driver * X) (spec : Spec) : (driver * X) * result Status :=
  let '(d, x) := s in
  match add_request d spec with
  | Err e => ((d, x), Err e)
  | Ok req =>
      let '(x', rep) := callAPI x req in
      match (rep <-? rep ;; reply_id rep) with
      | Err e => ((d, x'), Err e)
      | Ok id =>
          let st := mkStatus id spec in
          ((set_ports d (<[id := st]> (ports d)), x'), Ok st)
      end
  end.

Definition ListPorts (s : driver * X) : (driver * X) * result (list Status) :=
  (s, Ok (map_to_list (ports s.1)).*2).

Definition RemovePort (s : driver * X) (id : Z) : (driver * X) * result unit :=
  let '(d, x) := s in
  let '(x', rep) := callAPI x (remove_hostfwd id) in
  match rep with
  | Err e => ((d, x'), Err e)
  | Ok rep =>
      if negb (Error_empty rep) then ((d, x'), Err (errors_New "reply.Error: %v"))
      else ((set_ports d (delete id (ports d)), x'), Ok tt)
  end.
End api.

End slirp4netns.

#[export] Instance slirp_Manager {X} (callAPI : X -> slirp4netns.request -> X * result slirp4netns.reply) :
    Manager (slirp4netns.driver * X) := {
  AddPort := slirp4netns.AddPort callAPI;
  ListPorts := slirp4netns.ListPorts;
  RemovePort := slirp4netns.RemovePort callAPI;
}.

(** ** What slirp4netns does *)

(** The forwards that slirp4netns has, by ID, with their arguments. *)
Abbreviation table := (gmap Z slirp4netns.addHostFwdArguments).

(** A request that was served, and its reply: add_hostfwd makes a forward of a
    new ID, which it returns, remove_hostfwd removes one; with an error nothing
    changes. *)
Definition serves (f : table) (req : slirp4netns.request) (rep : slirp4netns.reply) (f' : table) : Prop :=
  if slirp4netns.Error_empty rep then
    match req with
    | slirp4netns.add_hostfwd args => exists id, slirp4netns.Return_id rep = Some (slirp4netns.Number id) /\
        f !! id = None /\ f' = <[id := args]> f
    | slirp4netns.remove_hostfwd id => f' = delete id f
    end
  else f' = f.

(** What slirp4netns is asked to forward for a specification. *)
Definition forward_of (d : slirp4netns.driver) (sp : Spec) (args : slirp4netns.addHostFwdArguments) : Prop :=
  exists ip, slirp4netns.guest_addr d sp = Ok ip /\
    args = slirp4netns.mkAddArgs (strings.TrimSuffix (Proto sp) "4") (ParentIP sp) (ParentPort sp) ip (ChildPort sp).

Lemma add_request_args d sp req :
  slirp4netns.add_request d sp = Ok req -> exists args, req = slirp4netns.add_hostfwd args /\ forward_of d sp args.
Proof.
  unfold slirp4netns.add_request. intros H. apply rbind_ok_inv in H as (? & _ & H).
  destruct (strings.HasSuffix _ _); [discriminate|]. apply rbind_ok_inv in H as (ip & Hip & [= <-]).
  eexists. split; [done|]. by exists ip.
Qed.

(** ** The driver implements the contract *)
Section contract.
Context {X : Type} `{JReq : JsonCodec slirp4netns.request} `{JRep : JsonCodec slirp4netns.reply}.
Context (dial : X -> X * option error) (exchange : X -> str -> X * result str) (forwards : X -> table).

(** What is documented of the API: connecting changes nothing; the reply that
    is read is that of the request.  When none can be read, because writing or
    reading failed or was cut short, the request was served once or not at all. *)
Record slirp_api : Prop := {
  api_dial x x' e : dial x = (x', e) -> forwards x' = forwards x;
  api_exchange x req m x' r : json_Marshal req = Ok m -> exchange x (m ++ ["010"%char]) = (x', r) ->
    match (b <-? r ;; json_Unmarshal b) with
    | Ok rep => serves (forwards x) req rep (forwards x')
    | Err _ => forwards x' = forwards x \/ exists rep, serves (forwards x) req rep (forwards x')
    end;
}.

(** No reply is lost: a request whose reply cannot be read was not served. *)
Definition no_reply_lost : Prop :=
  forall x m x' r e, exchange x m = (x', r) -> (b <-? r ;; json_Unmarshal (A := slirp4netns.reply) b) = Err e ->
    forwards x' = forwards x.

Abbreviation call := (slirp4netns.callAPI dial exchange).
Abbreviation AddPort := (slirp4netns.AddPort call).
Abbreviation RemovePort := (slirp4netns.RemovePort call).

Context (API : slirp_api).

Lemma call_effect x req x' r :
  call x req = (x', r) ->
  match r with
  | Ok rep => serves (forwards x) req rep (forwards x')
  | Err _ => (forwards x' = forwards x \/ exists rep, serves (forwards x) req rep (forwards x')) /\
      (no_reply_lost -> forwards x' = forwards x)
  end.
Proof using API.
  unfold slirp4netns.callAPI. destruct (dial x) as [x1 [e|]] eqn:Ed; apply (api_dial API) in Ed.
  { intros [= <- <-]. by split; [left|]. }
  destruct (json_Marshal req) as [m|e] eqn:Em; [|by intros [= <- <-]; split; [left|]].
  destruct (exchange x1 _) as [x2 b] eqn:Ex. intros [= <- <-]. rewrite <- Ed.
  pose proof (api_exchange API _ _ _ _ _ Em Ex) as H.
  destruct (b <-? b ;; json_Unmarshal b) as [rep|e] eqn:Er; [done|]. split; [done|]. intros Hk. by eapply Hk.
Qed.

(** The effect of the two calls that change something. *)
Definition add_effect (d : slirp4netns.driver) (x : X) (sp : Spec) (s' : slirp4netns.driver * X) (r : result Status) : Prop :=
  match r with
  | Ok st => Spec_of st = sp /\ s'.1 = slirp4netns.set_ports d (<[ID st := st]> (slirp4netns.ports d)) /\
      exists args, forward_of d sp args /\ forwards x !! ID st = None /\ forwards s'.2 = <[ID st := args]> (forwards x)
  | Err _ => s'.1 = d /\ (no_reply_lost -> forwards s'.2 = forwards x) /\
      (forwards s'.2 = forwards x \/
       exists id args, forward_of d sp args /\ forwards x !! id = None /\ forwards s'.2 = <[id := args]> (forwards x))
  end.

Definition remove_effect (d : slirp4netns.driver) (x : X) (id : Z) (s' : slirp4netns.driver * X) (r : result unit) : Prop :=
  match r with
  | Ok _ => s'.1 = slirp4netns.set_ports d (delete id (slirp4netns.ports d)) /\ forwards s'.2 = delete id (forwards x)
  | Err _ => s'.1 = d /\ (no_reply_lost -> forwards s'.2 = forwards x) /\
      (forwards s'.2 = forwards x \/ forwards s'.2 = delete id (forwards x))
  end.

Lemma AddPort_effect d x sp s' r : AddPort (d, x) sp = (s', r) -> add_effect d x sp s' r.
Proof using API.
  unfold slirp4netns.AddPort. destruct (slirp4netns.add_request d sp) as [req|e] eqn:Er.
  2:{ intros [= <- <-]. split; [done|]. by split; [|left]. }
  apply add_request_args in Er as (args & -> & Hargs). destruct (call x _) as [x' rep] eqn:Ec.
  apply call_effect in Ec. destruct rep as [rep|e]; cbn [rbind].
  - unfold slirp4netns.reply_id, serves in *. destruct (slirp4netns.Error_empty rep) eqn:Ee; cbn [negb].
    + destruct Ec as (id & -> & Hn & Hf). intros [= <- <-]. split; [done|]. split; [done|]. by exists args.
    + intros [= <- <-]. split; [done|]. by split; [|left].
  - intros [= <- <-]. destruct Ec as [Ho Hk]. split; [done|]. split; [done|].
    destruct Ho as [?|[rep Hs]]; [by left|]. unfold serves in Hs.
    destruct (slirp4netns.Error_empty rep); [|by left]. destruct Hs as (id & _ & Hn & Hf). right. by exists id, args.
Qed.

Lemma RemovePort_effect d x id s' r : RemovePort (d, x) id = (s', r) -> remove_effect d x id s' r.
Proof using API.
  unfold slirp4netns.RemovePort. destruct (call x _) as [x' rep] eqn:Ec.
  apply call_effect in Ec. destruct rep as [rep|e].
  - unfold serves in Ec. destruct (slirp4netns.Error_empty rep) eqn:Ee; cbn [negb]; intros [= <- <-]; [done|].
    split; [done|]. by split; [|left].
  - intros [= <- <-]. destruct Ec as [Ho Hk]. split; [done|]. split; [done|].
    destruct Ho as [?|[rep Hs]]; [by left|]. unfold serves in Hs. destruct (slirp4netns.Error_empty rep); [by right|by left].
Qed.

(** The table of the driver and the forwards of slirp4netns agree. *)
Definition slirp_good (s : slirp4netns.driver * X) : Prop :=
  (forall id st, slirp4netns.ports s.1 !! id = Some st -> ID st = id) /\
  dom (slirp4netns.ports s.1) = dom (forwards s.2) /\
  (forall id st args, slirp4netns.ports s.1 !! id = Some st -> forwards s.2 !! id = Some args ->
     forward_of s.1 (Spec_of st) args).

Definition slirp_table (s : slirp4netns.driver * X) : gmap Z Spec := Spec_of <$> slirp4netns.ports s.1.

Lemma slirp_good_same d x x' : slirp_good (d, x) -> forwards x' = forwards x -> slirp_good (d, x').
Proof using. intros (H1 & H2 & H3) E. unfold slirp_good. cbn in *. by rewrite E. Qed.

Lemma slirp_good_add d x sp d' x' st :
  slirp_good (d, x) -> add_effect d x sp (d', x') (Ok st) ->
  slirp_good (d', x') /\ slirp4netns.ports d !! ID st = None.
Proof using.
  intros (Hid & Hdom & Hfw) (<- & Hd & args & Hargs & Hn & Hf). cbn in *. subst d'.
  assert (slirp4netns.ports d !! ID st = None) as Hnone by (rewrite <- not_elem_of_dom, Hdom, not_elem_of_dom; done).
  split; [|done]. split; [|split]; cbn.
  - intros j st' [[<- <-]|[_ Hj]]%lookup_insert_Some; [done|by apply Hid].
  - by rewrite Hf, !dom_insert_L, Hdom.
  - rewrite Hf. intros j st' a [[<- <-]|[Hne Hj]]%lookup_insert_Some Ha.
    + rewrite lookup_insert_eq in Ha. by injection Ha as <-.
    + rewrite lookup_insert_ne in Ha by done. by eapply Hfw.
Qed.

Lemma slirp_good_remove d x id d' x' :
  slirp_good (d, x) -> remove_effect d x id (d', x') (Ok tt) -> slirp_good (d', x').
Proof using.
  intros (Hid & Hdom & Hfw) (Hd & Hf). cbn in *. subst d'. split; [|split]; cbn.
  - intros j st [_ Hj]%lookup_delete_Some. by apply Hid.
  - by rewrite Hf, !dom_delete_L, Hdom.
  - rewrite Hf. intros j st a [_ Hj]%lookup_delete_Some [_ Ha]%lookup_delete_Some. by eapply Hfw.
Qed.

(** C34: the slirp4netns port driver, one call at a time (its mutex), over the code
    of callAPI.  When [AddPort] succeeds, slirp4netns has made a new forward for
    what the specification asks, and the port is recorded under its ID; when
    [RemovePort] succeeds, the forward and the record are removed.  A
    call that fails leaves the table alone; what it asked for was not done, or,
    when the reply was lost, may have been done once.  As long as no reply is
    lost, the driver implements the contract of [port.Manager], and in every
    state its table and the forwards of slirp4netns agree on the IDs, and each
    forward carries what the recorded specification asks for. *)
Theorem slirp_implements_Manager :
  (forall d x sp s' r, AddPort (d, x) sp = (s', r) -> add_effect d x sp s' r) /\
  (forall d x id s' r, RemovePort (d, x) id = (s', r) -> remove_effect d x id s' r) /\
  (no_reply_lost -> @ManagerSpec _ (slirp_Manager call) slirp_good (fun _ => True) slirp_table).
Proof using API.
  split; [exact AddPort_effect|]. split; [exact RemovePort_effect|]. intros Hk. split.
  - intros [d x] sp [d' x'] st Hg _ H%AddPort_effect. destruct (slirp_good_add _ _ _ _ _ _ Hg H) as [Hg' Hn].
    destruct H as (<- & Hd & _). cbn in Hd. subst d'. split; [done|]. unfold slirp_table. cbn.
    split; [by rewrite lookup_fmap, Hn|]. split; [by apply fmap_insert|done].
  - intros [d x] sp [d' x'] e Hg _ (Hd & Hf & _)%AddPort_effect. cbn in *. subst d'.
    split; [|done]. apply (slirp_good_same _ x); auto.
  - intros [d x] s' l (Hid & _) [= <- <-]. split; [done|]. by apply table_of_map.
  - intros [d x] id [d' x'] Hg H%RemovePort_effect. split; [by eapply slirp_good_remove|].
    destruct H as [Hd _]. cbn in Hd. subst d'. apply fmap_delete.
  - intros [d x] id [d' x'] e Hg (Hd & Hf & _)%RemovePort_effect. cbn in *. subst d'.
    split; [|by left]. apply (slirp_good_same _ x); auto.
Qed.
End contract.

(** ** A slirp4netns that behaves as documented *)

#[export] Instance addArgs_eq_dec : EqDecision slirp4netns.addHostFwdArguments.
Proof. solve_decision. Defined.
#[export] Instance addArgs_countable : Countable slirp4netns.addHostFwdArguments.
Proof.
  refine (inj_countable' (fun a => (slirp4netns.fProto a, slirp4netns.HostAddr a, slirp4netns.HostPort a, slirp4netns.GuestAddr a, slirp4netns.GuestPort a))
    (fun '(p, h, hp, g, gp) => slirp4netns.mkAddArgs p h hp g gp) _). by intros [].
Defined.
#[export] Instance request_eq_dec : EqDecision slirp4netns.request.
Proof. solve_decision. Defined.
#[export] Instance request_countable : Countable slirp4netns.request.
Proof.
  refine (inj_countable' (fun r => match r with slirp4netns.add_hostfwd a => inl a | slirp4netns.remove_hostfwd i => inr i end)
    (fun r => match r with inl a => slirp4netns.add_hostfwd a | inr i => slirp4netns.remove_hostfwd i end) _). by intros [].
Defined.
#[export] Instance json_id_eq_dec : EqDecision slirp4netns.json_id.
Proof. solve_decision. Defined.
#[export] Instance json_id_countable : Countable slirp4netns.json_id.
Proof.
  refine (inj_countable' (fun i => match i with slirp4netns.Number z => Some z | slirp4netns.NotNumber => None end)
    (fun i => match i with Some z => slirp4netns.Number z | None => slirp4netns.NotNumber end) _). by intros [].
Defined.
#[export] Instance reply_eq_dec : EqDecision slirp4netns.reply.
Proof. solve_decision. Defined.
#[export] Instance reply_countable : Countable slirp4netns.reply.
Proof.
  refine (inj_countable' (fun r => (slirp4netns.Return_id r, slirp4netns.Error_empty r)) (fun '(i, e) => slirp4netns.mkReply i e) _).
  by intros [].
Defined.

Definition simple_slirp (f : table) (req : slirp4netns.request) : table * slirp4netns.reply :=
  match req with
  | slirp4netns.add_hostfwd args =>
      let id := fresh (dom f) in (<[id := args]> f, slirp4netns.mkReply (Some (slirp4netns.Number id)) true)
  | slirp4netns.remove_hostfwd id =>
      if bool_decide (is_Some (f !! id)) then (delete id f, slirp4netns.mkReply None true)
      else (f, slirp4netns.mkReply None false)
  end.

Lemma simple_slirp_serves f req : serves f req (simple_slirp f req).2 (simple_slirp f req).1.
Proof.
  destruct req as [args|id]; cbn.
  - exists (fresh (dom f)). split; [done|]. split; [|done]. apply not_elem_of_dom, is_fresh.
  - by case_bool_decide.
Qed.

#[local] Existing Instance count_codec.

Definition simple_dial (f : table) : table * option error := (f, None).

(** [lossy]: the reply to a request that removes is lost. *)
Definition simple_exchange (lossy : bool) (f : table) (m : str) : table * result str :=
  match json_Unmarshal m with
  | Err e => (f, Err e)
  | Ok req =>
      let '(f', rep) := simple_slirp f req in
      (f', match req with
           | slirp4netns.remove_hostfwd _ => if lossy then Err (Extern "connection reset by peer") else json_Marshal rep
           | _ => json_Marshal rep
           end)
  end.

Lemma count_answer (rep : slirp4netns.reply) : (b <-? json_Marshal rep ;; json_Unmarshal b) = Ok rep.
Proof. destruct (json_Marshal rep) as [b|e] eqn:E; [|discriminate]. exact (json_roundtrip rep b E). Qed.

Lemma simple_slirp_api lossy : slirp_api simple_dial (simple_exchange lossy) (fun f => f).
Proof.
  split; [by intros x x' e [= <- _]|]. intros f req m f' r Hm. unfold simple_exchange.
  change (json_Unmarshal (m ++ ["010"%char])) with (count_Unmarshal (A := slirp4netns.request) (m ++ ["010"%char])).
  rewrite (count_roundtrip req m) by done. pose proof (simple_slirp_serves f req) as Hs.
  destruct (simple_slirp f req) as [f1 rep]. cbn [fst snd] in Hs.
  destruct req as [args|id]; [|destruct lossy]; intros [<- <-]%pair_equal_spec; rewrite ?count_answer; try done.
  right. by exists rep.
Qed.

Lemma simple_no_reply_lost : no_reply_lost (simple_exchange false) (fun f => f).
Proof.
  intros f m f' r e. unfold simple_exchange. destruct (json_Unmarshal m) as [req|e']; [|by intros [= <- <-]].
  destruct (simple_slirp f req) as [f1 rep]. by destruct req; intros [<- <-]%pair_equal_spec; rewrite count_answer.
Qed.

Definition slirp_start : slirp4netns.driver * table := (slirp4netns.mkDriver "api.sock" "10.0.2.100" ∅, ∅).
Definition web (p : Z) : Spec := mkSpec "tcp4" "127.0.0.1" p 80 [].

Theorem slirp_implements_Manager_witness :
  let call := slirp4netns.callAPI simple_dial (simple_exchange false) in
  @ManagerSpec _ (slirp_Manager call) (slirp_good (fun f => f)) (fun _ => True) slirp_table /\
  exists s' args, slirp4netns.AddPort call slirp_start (web 8080) = (s', Ok (mkStatus 0 (web 8080))) /\
    forward_of slirp_start.1 (web 8080) args /\ s'.2 = {[0 := args]}.
Proof.
  intros call. destruct (slirp_implements_Manager _ _ _ (simple_slirp_api false)) as (Ha & _ & Hm).
  split; [exact (Hm simple_no_reply_lost)|].
  destruct (slirp4netns.AddPort call slirp_start (web 8080)) as [s' r] eqn:E.
  assert (r = Ok (mkStatus 0 (web 8080))) as -> by (assert (r = (slirp4netns.AddPort call slirp_start (web 8080)).2) as -> by (rewrite E; reflexivity); vm_compute; reflexivity).
  destruct (Ha _ _ _ _ _ E) as (_ & _ & args & Hf & _ & Hs).
  exists s', args. split; [reflexivity|]. split; [exact Hf|exact Hs].
Defined.

(** When the reply to the request that removes a port is lost, the record
    stays; slirp4netns may give the ID to another port, whose record then takes
    its place. *)
Lemma slirp_lost_reply :
  let call := slirp4netns.callAPI simple_dial (simple_exchange true) in
  let s1 := (slirp4netns.AddPort call slirp_start (web 8080)).1 in
  let s2 := (slirp4netns.RemovePort call s1 0).1 in
  let s3 := (slirp4netns.AddPort call s2 (web 8081)).1 in
  slirp_table s2 !! 0 = Some (web 8080) /\ s2.2 = ∅ /\ slirp_table s3 !! 0 = Some (web 8081) /\ size (slirp_table s3) = 1%nat.
Proof. vm_compute. repeat split; reflexivity. Qed.
