(* ===== verification/GvisorPort.v ===== *)
(** * pkg/port/gvisortapvsock: the port driver over the in-process virtual network

    [AddPort] records the port in one critical section, exposes it through the
    HTTP handler of the virtual network in a second one, and deletes the record
    in a third one when that failed.  [RemovePort] deletes the record first and
    unexposes the port afterwards.  The handler of the network is a parameter,
    with the laws [forwarder] of what it exposes. *)
From S2P Require Import Prelude GoStrings NetIP PortSpec Manager.
Import port.

Module gvisortapvsock.

Inductive TransportProtocol : Set := TCP | UDP.

(** [types.ExposeRequest] and [types.UnexposeRequest] *)
Inductive request : Set :=
  | Expose (protocol : TransportProtocol) (local remote : str)
  | Unexpose (protocol : TransportProtocol) (local : str).

Record driver : Set := mkDriver {
  ports : gmap Z Status;
  portSeq : Z;
  childIP : str;
  gatewayIP : option net.IP;
  servicesMux : bool;          (** set: not nil *)
  mu_held : bool;              (** the mutex was left locked *)
}.

Definition NewParentDriver : driver := mkDriver ∅ 1 [] None false false.

Definition Protos : list str := [lit "tcp"; lit "tcp4"; lit "udp"; lit "udp4"].

(** [RunParentDriver] up to the wait for quit.  Without a network it returns
    before it unlocks the mutex. *)
Definition RunParentDriver (d : driver) (cctx_IP : option net.IP) (network : bool) (gateway : option net.IP)
    : driver * result unit :=
  match cctx_IP with
  | None => (d, Err (errors_New "child context IP is required"))
  | Some ip =>
      let mux := servicesMux d || network in
      let d' := mkDriver (ports d) (portSeq d) (net.String ip) gateway mux (negb mux) in
      if mux then (d', Ok tt)
      else (d', Err (errors_New "Virtual network services mux not available in child context"))
  end.

Definition protocol_of (proto : str) : TransportProtocol :=
  if strings.HasPrefix proto "udp" then UDP else TCP.

(** [fmt.Sprintf(%s:%d)] *)
Definition addr (ip : str) (p : Z) : str := ip ++ lit ":" ++ strconv.Itoa p.

(** the key of the local address, and what is sent to the network *)
Definition localAddr (spec : Spec) : str :=
  match protocol_of (Proto spec) with
  | UDP => lit "udp:" ++ addr (ParentIP spec) (ParentPort spec)
  | TCP => addr (ParentIP spec) (ParentPort spec)
  end.
Definition exposeLocalAddr (spec : Spec) : str :=
  match protocol_of (Proto spec) with
  | UDP => strings.TrimPrefix (localAddr spec) "udp:"
  | TCP => localAddr spec
  end.

Definition set_ports (d : driver) (ps : gmap Z Status) (n : Z) : driver :=
  mkDriver ps n (childIP d) (gatewayIP d) (servicesMux d) (mu_held d).

(** The first critical section of [AddPort]. *)
Definition AddPort_record (d : driver) (spec : Spec) : driver * result Status :=
  if negb (strings.HasPrefix (Proto spec) "tcp") && negb (strings.HasPrefix (Proto spec) "udp")
  then (d, Err (Errorf "unsupported protocol: %s" [AStr (Proto spec)]))
  else
    let spec := if bool_decide (ChildIP spec = [])
                then mkSpec (Proto spec) (ParentIP spec) (ParentPort spec) (ChildPort spec) (childIP d)
                else spec in
    let id := portSeq d in
    let st := mkStatus id spec in
    (set_ports d (<[id := st]> (ports d)) (wrap64 (portSeq d + 1)), Ok st).

(** [RemovePort] up to the unlock. *)
Definition RemovePort_record (d : driver) (id : Z) : driver * result Status :=
  match ports d !! id with
  | None => (d, Err (Errorf "unknown port id: %d" [AInt id]))
  | Some st => (set_ports d (delete id (ports d)) (portSeq d), Ok st)
  end.

Definition expose_request (spec : Spec) : request :=
  Expose (protocol_of (Proto spec)) (exposeLocalAddr spec) (addr (ChildIP spec) (ChildPort spec)).
Definition unexpose_request (spec : Spec) : request :=
  Unexpose (protocol_of (Proto spec)) (exposeLocalAddr spec).

Section network.
(** the handler of the virtual network: its state, the status code and body *)
Context {X : Type} (ServeHTTP : X -> request -> X * (Z * str)).

(** [exposePort] and [unexposePort] *)
Definition post (d : driver) (x : X) (req : request) : X * result unit :=
  if negb (servicesMux d) then (x, Err (errors_New "services mux not initialized"))
  else
    let '(x', (code, body)) := ServeHTTP x req in
    (x', if code =? 200 then Ok tt
         else Err (Errorf (match req with
                           | Expose _ _ _ => "expose request failed with status %d: %s"
                           | Unexpose _ _ => "unexpose request failed with status %d: %s"
                           end) [AInt code; AStr body])).

Definition AddPort (s : driver * X) (spec : Spec) : (driver * X) * result Status :=
  let '(d, x) := s in
  match AddPort_record d spec with
  | (d1, Err e) => ((d1, x), Err e)
  | (d1, Ok st) =>
      let '(x', r) := post d1 x (expose_request (Spec_of st)) in
      match r with
      | Ok _ => ((d1, x'), Ok st)
      | Err e => ((set_ports d1 (delete (ID st) (ports d1)) (portSeq d1), x'), Err (Wrapf "failed to expose port: %w" [] e))
      end
  end.

Definition ListPorts (s : driver * X) : (driver * X) * result (list Status) :=
  (s, Ok (map_to_list (ports s.1)).*2).

(** A failure to unexpose is only logged. *)
Definition RemovePort (s : driver * X) (id : Z) : (driver * X) * result unit :=
  let '(d, x) := s in
  match RemovePort_record d id with
  | (d1, Err e) => ((d1, x), Err e)
  | (d1, Ok st) =>
      let '(x', _) := post d1 x (unexpose_request (Spec_of st)) in
      ((d1, x'), Ok tt)
  end.

(** ** Concurrent calls *)
Inductive thread : Set :=
  | AddStart (spec : Spec)
  | AddExpose (st : Status)         (** recorded, not yet exposed *)
  | AddCleanup (id : Z)             (** the exposure failed *)
  | RemoveStart (id : Z)
  | RemoveUnexpose (st : Status)
  | Finished.

Record world : Type := mkWorld { drv : driver; net_state : X; threads : list thread }.

(** The next critical section of one call. *)
Definition advance (d : driver) (x : X) (t : thread) : driver * X * thread :=
  match t with
  | AddStart spec =>
      match AddPort_record d spec with
      | (d', Ok st) => (d', x, AddExpose st)
      | (d', Err _) => (d', x, Finished)
      end
  | AddExpose st =>
      match post d x (expose_request (Spec_of st)) with
      | (x', Ok _) => (d, x', Finished)
      | (x', Err _) => (d, x', AddCleanup (ID st))
      end
  | AddCleanup id => (set_ports d (delete id (ports d)) (portSeq d), x, Finished)
  | RemoveStart id =>
      match RemovePort_record d id with
      | (d', Ok st) => (d', x, RemoveUnexpose st)
      | (d', Err _) => (d', x, Finished)
      end
  | RemoveUnexpose st => let '(x', _) := post d x (unexpose_request (Spec_of st)) in (d, x', Finished)
  | Finished => (d, x, Finished)
  end.

Inductive step : world -> world -> Prop :=
  | step_call w t : (match t with AddStart _ | RemoveStart _ => True | _ => False end) ->
      step w (mkWorld (drv w) (net_state w) (threads w ++ [t]))
  | step_advance w i t d x t' :
      threads w !! i = Some t -> mu_held (drv w) = false -> advance (drv w) (net_state w) t = (d, x, t') ->
      step w (mkWorld d x (<[i := t']> (threads w))).

Inductive reachable (w0 : world) : world -> Prop :=
  | reach_init : reachable w0 w0
  | reach_step w w' : reachable w0 w -> step w w' -> reachable w0 w'.
End network.
Arguments world X : clear implicits.

End gvisortapvsock.

#[export] Instance gvisor_Manager {X} (ServeHTTP : X -> gvisortapvsock.request -> X * (Z * str)) :
    Manager (gvisortapvsock.driver * X) := {
  AddPort := gvisortapvsock.AddPort ServeHTTP;
  ListPorts := gvisortapvsock.ListPorts;
  RemovePort := gvisortapvsock.RemovePort ServeHTTP;
}.

(** ** One call at a time *)
#[export] Instance TransportProtocol_eq_dec : EqDecision gvisortapvsock.TransportProtocol.
Proof. solve_decision. Defined.
#[export] Instance TransportProtocol_countable : Countable gvisortapvsock.TransportProtocol.
Proof.
  refine (inj_countable' (fun p => match p with gvisortapvsock.TCP => true | gvisortapvsock.UDP => false end)
    (fun b : bool => if b then gvisortapvsock.TCP else gvisortapvsock.UDP) _). by intros [].
Defined.

Section contract.
Import gvisortapvsock.
Context {X : Type} (ServeHTTP : X -> gvisortapvsock.request -> X * (Z * str)).
(** What the network forwards: the remote address by protocol and local address. *)
Context (exposed : X -> gmap (TransportProtocol * str) str).

(** The forwarder of gvisor-tap-vsock: it answers 200 when it has done what it
    was asked, which it refuses for a local address that is in use, and does
    nothing otherwise. *)
Record forwarder : Prop := {
  net_expose x p l r x' code body : ServeHTTP x (Expose p l r) = (x', (code, body)) ->
    if code =? 200 then exposed x !! (p, l) = None /\ exposed x' = <[(p, l) := r]> (exposed x) else exposed x' = exposed x;
  net_unexpose x p l x' code body : ServeHTTP x (Unexpose p l) = (x', (code, body)) ->
    exposed x' = if code =? 200 then delete (p, l) (exposed x) else exposed x;
}.

Definition key (sp : Spec) : TransportProtocol * str := (protocol_of (Proto sp), exposeLocalAddr sp).
Definition remote (sp : Spec) : str := addr (ChildIP sp) (ChildPort sp).

(** Each port is recorded under its ID, and exposed as the record says. *)
Record gvisor_good (s : driver * X) : Prop := {
  good_id id st : ports s.1 !! id = Some st -> ID st = id /\ id < portSeq s.1;
  good_seq : 1 <= portSeq s.1 <= int_max;
  good_exposed id st : ports s.1 !! id = Some st -> exposed s.2 !! key (Spec_of st) = Some (remote (Spec_of st));
  good_keys id id' st st' : ports s.1 !! id = Some st -> ports s.1 !! id' = Some st' ->
    key (Spec_of st) = key (Spec_of st') -> id = id';
}.
Definition gvisor_room (s : driver * X) : Prop := portSeq s.1 < int_max.
Definition gvisor_table (s : driver * X) : gmap Z Spec := Spec_of <$> ports s.1.

Context (FW : forwarder).

Lemma post_expose d x sp x' r :
  post ServeHTTP d x (expose_request sp) = (x', r) ->
  match r with
  | Ok _ => exposed x !! key sp = None /\ exposed x' = <[key sp := remote sp]> (exposed x)
  | Err _ => exposed x' = exposed x
  end.
Proof using FW.
  unfold post. destruct (negb _); [by intros [= <- <-]|].
  destruct (ServeHTTP x _) as [x1 [code body]] eqn:E. apply (net_expose FW) in E. intros [= <- <-].
  by destruct (code =? 200).
Qed.

Lemma post_unexpose d x sp x' r :
  post ServeHTTP d x (unexpose_request sp) = (x', r) ->
  exposed x' = if is_ok r then delete (key sp) (exposed x) else exposed x.
Proof using FW.
  unfold post. destruct (negb _); [by intros [= <- <-]|].
  destruct (ServeHTTP x _) as [x1 [code body]] eqn:E. apply (net_unexpose FW) in E. intros [= <- <-].
  by destruct (code =? 200).
Qed.

(** The ID that a successful [AddPort_record] hands out. *)
Lemma AddPort_record_ok d sp d1 st :
  AddPort_record d sp = (d1, Ok st) ->
  ID st = portSeq d /\ d1 = set_ports d (<[ID st := st]> (ports d)) (wrap64 (portSeq d + 1)) /\ same_forward sp (Spec_of st).
Proof using.
  unfold AddPort_record. destruct (_ && _); [discriminate|]. intros [= <- <-]. split; [done|]. split; [done|].
  cbn. case_bool_decide as E; [|done]. unfold same_forward. cbn. repeat (split; [done|]). by intros ?.
Qed.

Lemma AddPort_record_err d sp d1 e : AddPort_record d sp = (d1, Err e) -> d1 = d.
Proof using. unfold AddPort_record. destruct (_ && _); by intros [= <- _]. Qed.

Lemma gvisor_fresh s : gvisor_good s -> ports s.1 !! portSeq s.1 = None.
Proof using. intros G. destruct (ports s.1 !! _) as [st|] eqn:E; [|done]. apply (good_id s G) in E as [_ ?]. lia. Qed.

Lemma gvisor_next s : gvisor_good s -> gvisor_room s -> wrap64 (portSeq s.1 + 1) = portSeq s.1 + 1.
Proof using.
  intros G Hr. pose proof (good_seq s G). unfold gvisor_room in Hr. apply wrap64_id. unfold in_int64, int_min.
  rewrite andb_true_iff, !Z.leb_le. lia.
Qed.

(** The record after a failed exposure is gone. *)
Lemma gvisor_forgotten d x st n x' :
  gvisor_good (d, x) -> ID st = portSeq d -> portSeq d <= n <= int_max -> exposed x' = exposed x ->
  gvisor_good (set_ports d (delete (ID st) (<[ID st := st]> (ports d))) n, x').
Proof using.
  intros G Hi Hn Hx. pose proof (gvisor_fresh _ G) as Hf. cbn in Hf. rewrite <- Hi in Hf.
  rewrite delete_insert_id by done. destruct G as [H1 H2 H3 H4]. split; cbn in *; rewrite ?Hx; try done; [|lia].
  intros id st' H. apply H1 in H as [? ?]. split; [done|lia].
Qed.

Lemma gvisor_added d x st x' :
  gvisor_good (d, x) -> gvisor_room (d, x) -> ID st = portSeq d ->
  exposed x !! key (Spec_of st) = None -> exposed x' = <[key (Spec_of st) := remote (Spec_of st)]> (exposed x) ->
  gvisor_good (set_ports d (<[ID st := st]> (ports d)) (portSeq d + 1), x').
Proof using.
  intros G Hr Hi Hk Hx. unfold gvisor_room in Hr. destruct G as [H1 H2 H3 H4]. cbn in *.
  assert (forall id st', ports d !! id = Some st' -> key (Spec_of st') <> key (Spec_of st)) as Hne.
  { intros id st' H E. apply H3 in H. congruence. }
  split; cbn; [|lia| |].
  - intros id st' [[<- <-]|[_ H]]%lookup_insert_Some; [split; [done|lia]|]. apply H1 in H as [? ?]. split; [done|lia].
  - intros id st' [[<- <-]|[_ H]]%lookup_insert_Some; rewrite Hx; [apply lookup_insert_eq|].
    rewrite lookup_insert_ne; [by eapply H3|]. intros E. by apply (Hne _ _ H).
  - intros id id' s1 s2 [[<- <-]|[_ Ha]]%lookup_insert_Some [[<- <-]|[_ Hb]]%lookup_insert_Some E; [done| | |by eapply H4].
    + by destruct (Hne _ _ Hb).
    + by destruct (Hne _ _ Ha).
Qed.

Lemma gvisor_removed d x id st x' (done_ : bool) :
  gvisor_good (d, x) -> ports d !! id = Some st ->
  exposed x' = (if done_ then delete (key (Spec_of st)) (exposed x) else exposed x) ->
  gvisor_good (set_ports d (delete id (ports d)) (portSeq d), x').
Proof using.
  intros [H1 H2 H3 H4] Hst Hx. split; cbn in *; [|done| |].
  - intros j st' [_ H]%lookup_delete_Some. by apply H1.
  - intros j st' [Hne H]%lookup_delete_Some. rewrite Hx. destruct done_; [|by eapply H3].
    rewrite lookup_delete_ne; [by eapply H3|]. intros E. apply Hne. by eapply H4.
  - intros j j' s1 s2 [_ Ha]%lookup_delete_Some [_ Hb]%lookup_delete_Some. by eapply H4.
Qed.

End contract.

(** A network that forwards what it is asked to. *)
Import gvisortapvsock.

Definition simple_net (x : gmap (TransportProtocol * str) str) (req : request) : gmap (TransportProtocol * str) str * (Z * str) :=
  match req with
  | Expose p l r =>
      if bool_decide (is_Some (x !! (p, l))) then (x, (500, lit "proxy already running")) else (<[(p, l) := r]> x, (200, []))
  | Unexpose p l =>
      if bool_decide (is_Some (x !! (p, l))) then (delete (p, l) x, (200, [])) else (x, (500, lit "proxy not found"))
  end.

Lemma simple_net_forwarder : forwarder simple_net (fun x => x).
Proof.
  split; intros * H; cbn in H; case_bool_decide as E; simplify_eq; cbn; try done.
  split; [by apply eq_None_not_Some|done].
Qed.

Definition web : Spec := mkSpec "tcp" "127.0.0.1" 8080 80 [].
Definition gvisor_ready : driver := mkDriver ∅ 1 "10.0.2.100" None true false.


(** ** Concurrent calls: what goes wrong *)
(** A schedule: the call that makes its next step. *)
Fixpoint schedule {X} (serve : X -> request -> X * (Z * str)) (js : list nat) (w : world X) : world X :=
  match js with
  | [] => w
  | i :: js' =>
      match threads w !! i with
      | Some t =>
          let '(d, x, t') := advance serve (drv w) (net_state w) t in
          schedule serve js' (mkWorld d x (<[i := t']> (threads w)))
      | None => w
      end
  end.

Lemma advance_mu_held {X} (serve : X -> request -> X * (Z * str)) d x t :
  mu_held (advance serve d x t).1.1 = mu_held d.
Proof.
  destruct t as [sp|st|id|id|st|]; simpl; try done.
  - unfold AddPort_record. by destruct (_ && _).
  - by destruct (post _ _ _ _) as [? [|]].
  - unfold RemovePort_record. by destruct (ports d !! id).
  - by destruct (post _ _ _ _).
Qed.

Lemma schedule_reachable {X} (serve : X -> request -> X * (Z * str)) w0 js w :
  mu_held (drv w) = false -> reachable serve w0 w -> reachable serve w0 (schedule serve js w).
Proof.
  revert w; induction js as [|i js IH]; intros w Hm Hw; simpl; [done|].
  destruct (threads w !! i) as [t|] eqn:Et; [|done].
  pose proof (advance_mu_held serve (drv w) (net_state w) t) as Hadv.
  destruct (advance serve (drv w) (net_state w) t) as [[d x] t'] eqn:Ea. simpl in Hadv. apply IH; simpl; [congruence|].
  eapply reach_step; [exact Hw|]. by eapply step_advance.
Qed.

Definition gvisor_start : world (gmap (TransportProtocol * str) str) := mkWorld gvisor_ready ∅ [].

(** The record and the exposure of a port are not one step: when a port is
    removed while it is being added, the removal finds nothing to unexpose, the
    addition exposes the port after that and succeeds, and the port stays
    exposed without a record, so that it cannot be listed nor removed. *)
Theorem gvisor_remove_during_add :
  exists w, reachable simple_net gvisor_start w /\
    Forall (fun t => t = Finished) (threads w) /\ ports (drv w) = ∅ /\
    net_state w !! (TCP, lit "127.0.0.1:8080") = Some (lit "10.0.2.100:80").
Proof.
  pose (w1 := mkWorld (drv gvisor_start) (net_state gvisor_start) [AddStart (mkSpec "tcp" "127.0.0.1" 8080 80 [])]).
  pose (w2 := mkWorld (drv gvisor_start) (net_state gvisor_start) [AddStart (mkSpec "tcp" "127.0.0.1" 8080 80 []); RemoveStart 1]).
  exists (schedule simple_net [0; 1; 1; 0]%nat w2). split; [|split; [|split]].
  - apply schedule_reachable; [done|]. eapply reach_step; [eapply reach_step; [apply reach_init|]|].
    + by apply (step_call _ gvisor_start (AddStart (mkSpec "tcp" "127.0.0.1" 8080 80 []))).
    + by apply (step_call _ w1 (RemoveStart 1)).
  - assert (threads (schedule simple_net [0; 1; 1; 0]%nat w2) = [Finished; Finished]) as -> by (vm_compute; reflexivity).
    by repeat constructor.
  - vm_compute. reflexivity.
  - vm_compute. reflexivity.
Qed.

(** [RunParentDriver] returns with the mutex locked when the child context
    offers no network; from then on no call makes a step. *)
Theorem gvisor_mutex_left_locked {X} (serve : X -> request -> X * (Z * str)) ip gateway x ths w :
  let d := (RunParentDriver NewParentDriver (Some ip) false gateway).1 in
  is_ok (RunParentDriver NewParentDriver (Some ip) false gateway).2 = false /\
  (reachable serve (mkWorld d x ths) w ->
   drv w = d /\ net_state w = x /\ exists new, threads w = ths ++ new).
Proof.
  split; [done|]. induction 1 as [|w w' Hw IH Hs].
  { split; [done|]. split; [done|]. exists (@nil thread). by rewrite app_nil_r. }
  destruct IH as (Hd & Hx & new & Ht). destruct Hs as [w t Hc|w i t d' x' t' Hi Hm Ha]; simpl.
  - split; [done|]. split; [done|]. exists (new ++ [t]). by rewrite Ht, app_assoc.
  - rewrite Hd in Hm. discriminate.
Qed.
