(* ===== verification/Api.v ===== *)
(** * pkg/api and pkg/httputil: the REST API, its client and its errors

    The handlers of the router run against the state of a [Manager] and write
    to a [ResponseWriter] whose header can no longer change once the status
    was written.  The client is itself a [Manager] whose state is that of the
    server's driver: what it does is shown to be what the driver does.  The
    JSON codecs and stream decoders of the structs are interfaces ([JsonCodec],
    [JsonDecoder]). *)
From S2P Require Import Prelude GoStrings PortSpec Framing Manager BuiltinParent.
Import port.

(** ** net/http, as far as it is used *)

Record request : Set := mkRequest { method : str; path : str; body : str }.
Record response : Set := mkResponse { code : Z; content_type : option str; rbody : str }.

(** [http.ResponseWriter] *)
Record writer : Set := mkWriter { w_code : option Z; w_ctype : option str; w_body : str }.
Definition new_writer : writer := mkWriter None None [].
Definition WriteHeader (w : writer) (c : Z) : writer :=
  match w_code w with
  | None => mkWriter (Some c) (w_ctype w) (w_body w)
  | Some _ => w
  end.
(** changing the header after [WriteHeader] has no effect *)
Definition SetContentType (w : writer) (t : str) : writer :=
  match w_code w with
  | None => mkWriter None (Some t) (w_body w)
  | Some _ => w
  end.
Definition Write (w : writer) (b : str) : writer :=
  mkWriter (Some (default 200 (w_code w))) (w_ctype w) (w_body w ++ b).
Definition finish (w : writer) : response := mkResponse (default 200 (w_code w)) (w_ctype w) (w_body w).

Definition StatusOK : Z := 200.
Definition StatusCreated : Z := 201.
Definition StatusBadRequest : Z := 400.
Definition StatusNotFound : Z := 404.
Definition StatusMethodNotAllowed : Z := 405.
Definition StatusInternalServerError : Z := 500.

Definition application_json : str := "application/json".

(** ** pkg/httputil *)
Module httputil.

Record ErrorJSON : Set := mkErrorJSON { Message : str }.

Definition HTTPStatusErrorBodyMaxLength : nat := Z.to_nat 65536.

(** At most [maxBytes] bytes, and an error when there are that many. *)
Definition readAtMost (b : str) (maxBytes : nat) : str * option error :=
  (take maxBytes b,
   if (maxBytes <=? length b)%nat then Some (Errorf "expected at most %d bytes, got more" [AInt (Z.of_nat maxBytes)])
   else None).

Record HTTPStatusError : Set := mkHTTPStatusError { StatusCode : Z; Body : str }.

(** The error value that the client returns. *)
Definition as_error (e : HTTPStatusError) : error :=
  Errorf "unexpected HTTP status %s, body=%q" [AInt (StatusCode e); AStr (Body e)].

Definition Successful (resp : response) : option HTTPStatusError :=
  if negb (Z.quot (code resp) 100 =? 2)
  then Some (mkHTTPStatusError (code resp) (readAtMost (rbody resp) HTTPStatusErrorBodyMaxLength).1)
  else None.

Section errors.
Context `{JE : JsonCodec ErrorJSON}.

Definition WriteError (w : writer) (err : error) (ec : Z) : writer :=
  let w := WriteHeader w ec in
  let w := SetContentType w application_json in
  match json_Marshal (mkErrorJSON (Error err)) with
  | Ok b => Write w (b ++ ["010"%char])
  | Err _ => w
  end.

(** [HTTPStatusError.Error]: the message when the body is that of [WriteError] *)
Definition HTTPStatusError_message (e : HTTPStatusError) : option str :=
  if negb (bool_decide (Body e = [])) && (length (Body e) <? HTTPStatusErrorBodyMaxLength)%nat
  then match json_Unmarshal (Body e) with Ok ej => Some (Message ej) | Err _ => None end
  else None.
End errors.

End httputil.
Import httputil.

(** ** pkg/api *)
Module api.

Record NetworkDriverInfo : Set := mkNetworkDriverInfo {
  nd_Driver : str;
  nd_DNS : list str;
  nd_ChildIP : str;
  nd_DynamicChildIP : bool;
}.
Record PortDriverInfo : Set := mkPortDriverInfo {
  pd_Driver : str;
  pd_Protos : list str;
  pd_DisallowLoopbackChildIP : bool;
}.
Record Info : Set := mkInfo {
  APIVersion : str;
  info_Version : str;
  info_StateDir : str;
  info_ChildPID : Z;
  info_NetworkDriver : option NetworkDriverInfo;
  info_PortDriver : option PortDriverInfo;
}.

Definition Version : str := "1.1.1".

End api.
Import api.

(** The [Info] methods of the port drivers. *)
Definition builtin_Info : PortDriverInfo :=
  mkPortDriverInfo "builtin" (map lit ["tcp"; "tcp4"; "tcp6"; "udp"; "udp4"; "udp6"]%string) false.
Definition slirp_Info : PortDriverInfo :=
  mkPortDriverInfo "slirp4netns" (map lit ["tcp"; "tcp4"; "udp"; "udp4"]%string) true.
Definition gvisor_Info : PortDriverInfo :=
  mkPortDriverInfo "gvisor-tap-vsock" (map lit ["tcp"; "tcp4"; "udp"; "udp4"]%string) true.

(** ** pkg/api/router *)
Module router.
Section handlers.
Context {S : Type} `{MS : !Manager S}.
Context `{JSpec : JsonDecoder Spec} `{JStatus : JsonCodec Status} `{JList : JsonCodec (list Status)}.
Context `{JE : JsonCodec ErrorJSON} `{JInfo : JsonCodec Info}.

Record Backend : Type := mkBackend {
  StateDir : str;
  ChildPID : Z;
  NetworkDriver : option (result NetworkDriverInfo);   (** what its [Info] returns *)
  PortDriver : option (result PortDriverInfo);
}.
Context (version : str) (b : Backend).

Definition onPortDriverNil (w : writer) : writer :=
  WriteError w (errors_New "no PortDriver is available") StatusBadRequest.

(** a JSON answer *)
Definition reply (w : writer) (ec : Z) (m : result str) : writer :=
  match m with
  | Err e => WriteError w e StatusInternalServerError
  | Ok m => Write (WriteHeader (SetContentType w application_json) ec) m
  end.

Definition GetPorts (s : S) (w : writer) : S * writer :=
  match PortDriver b with
  | None => (s, onPortDriverNil w)
  | Some _ =>
      let '(s', ports) := ListPorts s in
      (s', match ports with
           | Err e => WriteError w e StatusInternalServerError
           | Ok ports => reply w StatusOK (json_Marshal ports)
           end)
  end.

Definition PostPort (s : S) (w : writer) (r : request) : S * writer :=
  match PortDriver b with
  | None => (s, onPortDriverNil w)
  | Some _ =>
      match json_Decode (body r) with
      | Err e => (s, WriteError w e StatusBadRequest)
      | Ok portSpec =>
          let '(s', portStatus) := AddPort s portSpec in
          (s', match portStatus with
               | Err e => WriteError w e StatusBadRequest
               | Ok st => reply w StatusCreated (json_Marshal st)
               end)
      end
  end.

(** [vars_id] is [mux.Vars(r)] at id. *)
Definition DeletePort (s : S) (w : writer) (vars_id : option str) : S * writer :=
  match PortDriver b with
  | None => (s, onPortDriverNil w)
  | Some _ =>
      match vars_id with
      | None => (s, WriteError w (errors_New "id not specified") StatusBadRequest)
      | Some idStr =>
          match strconv.Atoi idStr with
          | Err e => (s, WriteError w (Wrapf "bad id %s: %w" [AStr idStr] e) StatusBadRequest)
          | Ok id =>
              let '(s', r) := RemovePort s id in
              (s', match r with
                   | Err e => WriteError w e StatusBadRequest
                   | Ok _ => WriteHeader w StatusOK
                   end)
          end
      end
  end.

Definition GetInfo (s : S) (w : writer) : S * writer :=
  (s,
   match NetworkDriver b, PortDriver b with
   | Some (Err e), _ => WriteError w e StatusInternalServerError
   | _, Some (Err e) => WriteError w e StatusInternalServerError
   | nd, pd =>
       reply w StatusOK (json_Marshal
         (mkInfo Version version (StateDir b) (ChildPID b)
            (match nd with Some (Ok i) => Some i | _ => None end)
            (match pd with Some (Ok i) => Some i | _ => None end)))
   end).

(** [AddRoutes], with what gorilla/mux documents: a path has a handler per
    method, a variable matches one non-empty segment, another method is not
    allowed, another path is not found. *)
Definition serve (s : S) (r : request) : S * response :=
  let '(s', w) :=
    match strings.Split (path r) "/"%char with
    | [e; v; p] =>
        if bool_decide (e = []) && bool_decide (v = lit "v1") then
          if bool_decide (p = lit "ports") then
            if bool_decide (method r = lit "GET") then GetPorts s new_writer
            else if bool_decide (method r = lit "POST") then PostPort s new_writer r
            else (s, WriteHeader new_writer StatusMethodNotAllowed)
          else if bool_decide (p = lit "info") then
            if bool_decide (method r = lit "GET") then GetInfo s new_writer
            else (s, WriteHeader new_writer StatusMethodNotAllowed)
          else (s, WriteHeader new_writer StatusNotFound)
        else (s, WriteHeader new_writer StatusNotFound)
    | [e; v; p; id] =>
        if bool_decide (e = []) && bool_decide (v = lit "v1") && bool_decide (p = lit "ports") && negb (bool_decide (id = []))
        then if bool_decide (method r = lit "DELETE") then DeletePort s new_writer (Some id)
             else (s, WriteHeader new_writer StatusMethodNotAllowed)
        else (s, WriteHeader new_writer StatusNotFound)
    | _ => (s, WriteHeader new_writer StatusNotFound)
    end in
  (s', finish w).
End handlers.
End router.

(** ** pkg/api/client *)
Module client.
Section client.
Context {S : Type}.
Context `{JSpec : JsonCodec Spec} `{JStatus : JsonDecoder Status} `{JList : JsonDecoder (list Status)}.
Context `{JInfo : JsonDecoder Info}.
(** one HTTP exchange *)
Context (Do : S -> request -> S * response).

Definition ports_path : str := "/v1/ports".

(** The decoded body of a successful response. *)
Definition decode {A} `{JsonDecoder A} (resp : response) : result A :=
  match Successful resp with
  | Some e => Err (as_error e)
  | None => json_Decode (rbody resp)
  end.

Definition AddPort (s : S) (spec : Spec) : S * result Status :=
  match json_Marshal spec with
  | Err e => (s, Err e)
  | Ok m => let '(s', resp) := Do s (mkRequest "POST" ports_path m) in (s', decode resp)
  end.

Definition ListPorts (s : S) : S * result (list Status) :=
  let '(s', resp) := Do s (mkRequest "GET" ports_path []) in (s', decode resp).

Definition RemovePort (s : S) (id : Z) : S * result unit :=
  let '(s', resp) := Do s (mkRequest "DELETE" (ports_path ++ lit "/" ++ strconv.Itoa id) []) in
  (s', match Successful resp with Some e => Err (as_error e) | None => Ok tt end).

Definition Info (s : S) : S * result Info :=
  let '(s', resp) := Do s (mkRequest "GET" "/v1/info" []) in (s', decode resp).
End client.
End client.

(** ** The client does what the driver does *)

Lemma Itoa_segment z : lacks "/"%char (strconv.Itoa z) = true /\ strconv.Itoa z <> [].
Proof.
  unfold strconv.Itoa.
  assert (forall n, lacks "/"%char (strconv.itoa_N n) = true /\ strconv.itoa_N n <> []) as Hn.
  { intros n. destruct (itoa_N_digits n) as (c & s & -> & Hd). split; [|done]. unfold lacks.
    rewrite forallb_forall in Hd |- *. intros x Hx. specialize (Hd x Hx). case_bool_decide as E; [|done]. by subst x. }
  destruct (z <? 0); [|apply Hn]. destruct (Hn (Z.to_N (- z))) as [H1 H2]. split; [|done]. simpl. by rewrite H1.
Qed.

Section remote.
Context {S : Type} `{MS : !Manager S}.
Context `{JSpec : JsonCodec Spec} `{JStatus : JsonCodec Status} `{JList : JsonCodec (list Status)}.
Context `{JE : JsonCodec ErrorJSON} `{JInfo : JsonCodec Info}.
Context `{DSpec : JsonDecoder Spec} `{DStatus : JsonDecoder Status} `{DList : JsonDecoder (list Status)}.
Context (FSpec : JsonStream Spec) (FStatus : JsonStream Status) (FList : JsonStream (list Status)) (FE : JsonTotal ErrorJSON).
Context (version : str) (b : router.Backend) (pd : result PortDriverInfo).
Context (Hpd : router.PortDriver b = Some pd).

(** The body of the answer to a failed call. *)
Definition error_body (e : error) : str :=
  match json_Marshal (mkErrorJSON (Error e)) with Ok m => m ++ ["010"%char] | Err _ => [] end.

(** What the client makes of an error of the driver. *)
Definition http_error (ec : Z) (e : error) : HTTPStatusError :=
  mkHTTPStatusError ec (take HTTPStatusErrorBodyMaxLength (error_body e)).

Definition remote_result {A} (norm : A -> A) (ec : Z) (r : result A) : result A :=
  match r with Ok a => Ok (norm a) | Err e => Err (as_error (http_error ec e)) end.

Lemma WriteError_response e ec :
  finish (WriteError new_writer e ec) = mkResponse ec None (error_body e).
Proof using FE.
  unfold WriteError, error_body. destruct (f_total _ FE (mkErrorJSON (Error e))) as [m ->]. done.
Qed.

Definition remote_serve (s : S) (r : request) : S * response := router.serve version b s r.

Lemma serve_ports s m bd :
  remote_serve s (mkRequest m client.ports_path bd) =
  let '(s', w) :=
    if bool_decide (m = lit "GET") then router.GetPorts b s new_writer
    else if bool_decide (m = lit "POST") then router.PostPort b s new_writer (mkRequest m client.ports_path bd)
    else (s, WriteHeader new_writer StatusMethodNotAllowed) in
  (s', finish w).
Proof. reflexivity. Qed.

Lemma serve_id s bd id :
  remote_serve s (mkRequest "DELETE" (client.ports_path ++ lit "/" ++ strconv.Itoa id) bd) =
  let '(s', w) := router.DeletePort b s new_writer (Some (strconv.Itoa id)) in (s', finish w).
Proof.
  unfold remote_serve, router.serve. cbn [path method].
  replace (strings.Split _ "/"%char) with [lit ""; lit "v1"; lit "ports"; strconv.Itoa id].
  - cbn [bool_decide]. rewrite (bool_decide_eq_false_2 (strconv.Itoa id = [])) by apply Itoa_segment. reflexivity.
  - symmetry. apply (Split_Join [lit ""; lit "v1"; lit "ports"; strconv.Itoa id]); [done|].
    cbn [forallb]. by rewrite (proj1 (Itoa_segment id)).
Qed.

Lemma client_AddPort s sp :
  client.AddPort (router.serve version b) s sp =
  ((AddPort s (json_norm sp)).1, remote_result json_norm StatusBadRequest (AddPort s (json_norm sp)).2).
Proof using FSpec FStatus FE Hpd.
  unfold client.AddPort. destruct (s_roundtrip FSpec sp) as (m & -> & Hm).
  change (router.serve version b) with remote_serve. rewrite serve_ports. cbn [bool_decide].
  change (bool_decide (lit "POST" = lit "GET")) with false. change (bool_decide (lit "POST" = lit "POST")) with true. cbn iota.
  unfold router.PostPort. rewrite Hpd. cbn [body]. rewrite Hm.
  destruct (AddPort s (json_norm sp)) as [s' [st|e]]; cbn [fst snd].
  - destruct (s_roundtrip FStatus st) as (n & Hn & Hn'). unfold router.reply. rewrite Hn. cbn. f_equal. exact Hn'.
  - by rewrite WriteError_response.
Qed.

Lemma client_ListPorts s :
  client.ListPorts (router.serve version b) s =
  ((ListPorts s).1, remote_result json_norm StatusInternalServerError (ListPorts s).2).
Proof using FList FE Hpd.
  unfold client.ListPorts. change (router.serve version b) with remote_serve. rewrite serve_ports.
  change (bool_decide (lit "GET" = lit "GET")) with true. cbn iota.
  unfold router.GetPorts. rewrite Hpd. destruct (ListPorts s) as [s' [l|e]]; cbn [fst snd].
  - destruct (s_roundtrip FList l) as (n & Hn & Hn'). unfold router.reply. rewrite Hn. cbn. f_equal. exact Hn'.
  - by rewrite WriteError_response.
Qed.

Lemma client_RemovePort s id :
  in_int64 id = true ->
  client.RemovePort (router.serve version b) s id =
  ((RemovePort s id).1, remote_result (fun u => u) StatusBadRequest (RemovePort s id).2).
Proof using FE Hpd.
  intros Hid. unfold client.RemovePort. change (router.serve version b) with remote_serve. rewrite serve_id.
  unfold router.DeletePort. rewrite Hpd, Atoi_Itoa by done.
  destruct (RemovePort s id) as [s' [[]|e]]; cbn [fst snd]; [done|]. by rewrite WriteError_response.
Qed.

(** The text that the client shows for an error of the driver is that of the
    driver, when it fits. *)
Lemma http_error_message ec e :
  (length (error_body e) < HTTPStatusErrorBodyMaxLength)%nat ->
  HTTPStatusError_message (http_error ec e) = Some (Message (json_norm (mkErrorJSON (Error e)))).
Proof using FE.
  unfold HTTPStatusError_message, http_error, error_body. intros Hl. cbn [Body].
  destruct (f_total _ FE (mkErrorJSON (Error e))) as [m Hm]. rewrite Hm in *.
  rewrite take_ge by lia. rewrite bool_decide_eq_false_2 by (by destruct m).
  rewrite (proj2 (Nat.ltb_lt _ _) Hl). cbn [negb andb]. by rewrite (f_newline _ FE _ _ Hm).
Qed.

(** C7: the client is a manager of the server's driver: each of its methods,
    through the request, the router, the handler and the response, does to the
    driver what the method of the driver does, and returns what it returns, up
    to what JSON keeps; an error becomes a status that carries its text. *)
Theorem client_refines_driver s sp id :
  in_int64 id = true ->
  client.AddPort (router.serve version b) s sp =
    ((AddPort s (json_norm sp)).1, remote_result json_norm StatusBadRequest (AddPort s (json_norm sp)).2) /\
  client.ListPorts (router.serve version b) s =
    ((ListPorts s).1, remote_result json_norm StatusInternalServerError (ListPorts s).2) /\
  client.RemovePort (router.serve version b) s id =
    ((RemovePort s id).1, remote_result (fun u => u) StatusBadRequest (RemovePort s id).2) /\
  (forall ec e, (length (error_body e) < HTTPStatusErrorBodyMaxLength)%nat ->
    HTTPStatusError_message (http_error ec e) = Some (Message (json_norm (mkErrorJSON (Error e))))).
Proof using FSpec FStatus FList FE Hpd.
  intros Hid. split; [apply client_AddPort|]. split; [apply client_ListPorts|].
  split; [by apply client_RemovePort|]. intros; by apply http_error_message.
Qed.
End remote.

(** ** The types of the codec of the witness *)
#[export] Instance Spec_countable : Countable Spec.
Proof.
  refine (inj_countable' (fun s => (Proto s, ParentIP s, ParentPort s, ChildPort s, ChildIP s))
    (fun '(p, pip, pp, cp, cip) => mkSpec p pip pp cp cip) _). by intros [].
Defined.
#[export] Instance Status_countable : Countable Status.
Proof. refine (inj_countable' (fun s => (ID s, Spec_of s)) (fun '(i, s) => mkStatus i s) _). by intros []. Defined.
#[export] Instance ErrorJSON_eq_dec : EqDecision ErrorJSON.
Proof. solve_decision. Defined.
#[export] Instance ErrorJSON_countable : Countable ErrorJSON.
Proof. refine (inj_countable' Message mkErrorJSON _). by intros []. Defined.
#[export] Instance NetworkDriverInfo_eq_dec : EqDecision NetworkDriverInfo.
Proof. solve_decision. Defined.
#[export] Instance NetworkDriverInfo_countable : Countable NetworkDriverInfo.
Proof.
  refine (inj_countable' (fun i => (nd_Driver i, nd_DNS i, nd_ChildIP i, nd_DynamicChildIP i))
    (fun '(d, dns, ip, dyn) => mkNetworkDriverInfo d dns ip dyn) _). by intros [].
Defined.
#[export] Instance PortDriverInfo_eq_dec : EqDecision PortDriverInfo.
Proof. solve_decision. Defined.
#[export] Instance PortDriverInfo_countable : Countable PortDriverInfo.
Proof.
  refine (inj_countable' (fun i => (pd_Driver i, pd_Protos i, pd_DisallowLoopbackChildIP i))
    (fun '(d, ps, b) => mkPortDriverInfo d ps b) _). by intros [].
Defined.
#[export] Instance Info_eq_dec : EqDecision Info.
Proof. solve_decision. Defined.
#[export] Instance Info_countable : Countable Info.
Proof.
  refine (inj_countable' (fun i => (APIVersion i, info_Version i, info_StateDir i, info_ChildPID i, info_NetworkDriver i, info_PortDriver i))
    (fun '(a, v, sd, pid, n, p) => mkInfo a v sd pid n p) _). by intros [].
Defined.

(** The client of a builtin driver that publishes a port and removes it. *)
Theorem client_refines_driver_witness :
  let M := builtin_Manager (X := unit) (Ok []) "rootlesskit" (fun x _ => (x, Ok 0)) (fun x _ => (x, Ok tt)) in
  let s := (builtin.NewDriver "/run/rk" false, tt) in
  let sp := mkSpec "tcp" "0.0.0.0" 8080 80 [] in
  let b := router.mkBackend "/run/rk" 42 None (Some (Ok builtin_Info)) in
  client.AddPort (JSpec := count_codec) (JStatus := count_decoder)
    (router.serve (MS := M) (JSpec := count_decoder) (JStatus := count_codec) (JList := count_codec)
       (JE := count_codec) (JInfo := count_codec) "v3" b) s sp =
  ((AddPort (Manager := M) s sp).1, Ok (mkStatus 1 sp)).
Proof.
  intros M s sp b.
  destruct (client_refines_driver (MS := M) (JInfo := count_codec)
    count_stream count_stream (count_stream (A := list Status)) count_total
    "v3" b (Ok builtin_Info) eq_refl s sp 1 eq_refl) as (H & _).
  exact H.
Defined.
