(* ===== verification/PortMsg.v ===== *)
(** * The sockets of the builtin port driver, and pkg/port/builtin/msg

    The signature [sock] lists what the two sides of the builtin port driver
    call; the messages go through [Framing.v], so that sending and receiving
    one is a single call here.  Then the client side of the protocol: how the
    parent asks the child for a connected socket ([ConnectToChild]) and how it
    retries.  The encoding of control messages is that of golang.org/x/sys,
    an interface ([Cmsg]). *)
From S2P Require Import Prelude GoStrings NetIP PortSpec Effects Framing.
Import port.

Module msg.

(** ** Messages *)
Record Request : Set := mkRequest {
  Type_ : str;
  Proto : str;
  IP : str;
  Port : Z;
  ParentIP : str;
  HostGatewayIP : str;
  SourceIP : str;
  SourcePort : Z;
}.
Record Reply : Set := mkReply { Error : str }.

Definition RequestTypeInit : str := "init".
Definition RequestTypeConnect : str := "connect".

(** [net.Addr]: a TCP address or another one *)
Inductive Addr : Set := TCPAddr (ip : net.IP) (port : Z) | OtherAddr.
(** an element of [net.InterfaceAddrs] *)
Inductive IfAddr : Set := IPNet (ip : net.IP) | OtherIfAddr.

End msg.
Import msg.

(** ** The calls *)

(** The two [sync.Once] of the child.  [OnceDo] is the start of [Do]: it is
    answered by whether the caller has to run the function, [OnceDone] is the
    end of that run. *)
Inductive once : Set := RoutingSetup | RoutingWarn.
#[export] Instance once_eq_dec : EqDecision once.
Proof. solve_decision. Defined.

Inductive sock : Set :=
  | InterfaceAddrs
  | DialUnix (path : str) | ListenUnix (path : str) | AcceptUnix
  | CloseRead (c : Z) | CloseWrite (c : Z) | CloseConn (c : Z)
  | SendRequest (c : Z) (r : Request) | RecvRequest (c : Z)
  | SendReply (c : Z) (r : option Reply) | RecvReply (c : Z)
  | ReadMsgUnix (c : Z) (oobLen : Z) | Sendmsg (c : Z) (data oob : str)
  | SleepMs (ms : Z)
  | Dial (proto addr : str) | DialTransparent (proto addr srcIP : str) (srcPort : Z)
  | ConnFile (c : Z) | NewFile (fd : Z) | FileConn (f : Z) | IsUDPConn (c : Z)
  | LookPath (file : str) | CombinedOutput (argv : list str) | Log (what : str)
  | EnterNetNS (path : str) | LeaveNetNS
  | OpenPipe (path : str) (write : bool) | ReadAll (f : Z) | CloseFile (f : Z)
  | OnceDo (o : once) | OnceDone (o : once) | SetRoutingReady (b : bool) | GetRoutingReady
  | GoServe (c : Z) | QuitPending | WaitQuit | InitComplete
  | RemoteAddr (c : Z) | Bicopy (x y : Z)
  | ListenTCP (proto addr : str) | ResolveUDPAddr (proto addr : str) | ListenUDP (proto : str) (addr : Z) | GoProxy (l : Z).

(** [ReadMsgUnix] and [Sendmsg] answer [None] for EINTR. *)
Definition sres (c : sock) : Type :=
  match c with
  | InterfaceAddrs => result (list IfAddr)
  | DialUnix _ | AcceptUnix | Dial _ _ | DialTransparent _ _ _ _ | ConnFile _ | FileConn _ => result Z
  | NewFile _ => Z
  | OpenPipe _ _ => result Z
  | ListenTCP _ _ | ResolveUDPAddr _ _ | ListenUDP _ _ => result Z
  | RecvRequest _ => result Request
  | RecvReply _ => result Reply
  | ReadMsgUnix _ _ => option (result str)
  | Sendmsg _ _ _ => option (result unit)
  | IsUDPConn _ | QuitPending | OnceDo _ | GetRoutingReady => bool
  | RemoteAddr _ => Addr
  | ListenUnix _ | CloseRead _ | CloseWrite _ | SendRequest _ _ | SendReply _ _ | LookPath _
  | CombinedOutput _ | EnterNetNS _ | ReadAll _ | CloseFile _ => result unit
  | OnceDone _ | SetRoutingReady _
  | CloseConn _ | SleepMs _ | Log _ | LeaveNetNS | GoServe _ | WaitQuit | InitComplete | Bicopy _ _ | GoProxy _ => unit
  end.

Abbreviation sio := (prog sres).
Abbreviation scall := (@Effects.call sock sres).
Definition sfail {A} (e : error) : sio (result A) := Ret (Err e).

(** [for { err = f(); if err != unix.EINTR { break } }].  The loop has no bound;
    here it ends with an error of its own after [fuel] interruptions, for any
    [fuel]: whatever the loop does until then is done here, and what follows an
    error is only what follows any other error of the call. *)
Definition interrupted : error := Extern "interrupted".
Fixpoint retry_eintr {A} (fuel : nat) (p : sio (option (result A))) : sio (result A) :=
  match fuel with
  | O => sfail interrupted
  | S fuel =>
      r <- p ;;
      match r with Some x => Ret x | None => retry_eintr fuel p end
  end.

(** Control messages: golang.org/x/sys/unix. *)
Class Cmsg : Type := {
  scm : Type;
  CmsgSpace : Z -> Z;
  UnixRights : Z -> str;
  ParseSocketControlMessage : str -> result (list scm);
  ParseUnixRights : scm -> result (list Z);
}.

(** What cmsg(3) and unix(7) say of one descriptor. *)
Record CmsgLaws `{Cmsg} : Prop := {
  space_pos : 0 < CmsgSpace 4;
  rights_length fd : Z.of_nat (length (UnixRights fd)) = CmsgSpace 4;
  rights_parse fd : 0 <= fd < 2 ^ 31 ->
    exists m, ParseSocketControlMessage (UnixRights fd) = Ok [m] /\ ParseUnixRights m = Ok [fd];
}.

(** A small encoding with these laws: the number alone. *)
Definition plain_cmsg : Cmsg := {|
  scm := Z;
  CmsgSpace n := n;
  UnixRights := PutUint32;
  ParseSocketControlMessage b := Ok [Uint_le b];
  ParseUnixRights m := Ok [m];
|}.

Lemma plain_cmsg_laws : @CmsgLaws plain_cmsg.
Proof. split; [done|done|]. intros fd H. exists fd. split; [|done].
  change (Ok [Uint_le (PutUint32 fd)] = Ok [fd]). rewrite Uint32_PutUint32; [done|lia]. Qed.

Module msg_ops.
Section ops.
Context `{Cmsg}.

Definition Initiate (c : Z) : sio (result unit) :=
  _ <-! scall (SendRequest c (mkRequest RequestTypeInit [] [] 0 [] [] [] 0)) ;;
  _ <-! scall (CloseWrite c) ;;
  _ <-! scall (RecvReply c) ;;
  scall (CloseRead c).

Fixpoint first_v4 (addrs : list IfAddr) : str :=
  match addrs with
  | [] => []
  | IPNet ip :: l =>
      if negb (net.IsLoopback ip) && bool_decide (is_Some (net.To4 ip)) then net.String ip else first_v4 l
  | OtherIfAddr :: l => first_v4 l
  end.

Definition hostGatewayIP : sio str :=
  addrs <- scall InterfaceAddrs ;;
  Ret (match addrs with Err _ => [] | Ok l => first_v4 l end).

Definition parseFDFromOOB (oob : str) : result Z :=
  scms <-? ParseSocketControlMessage oob ;;
  match scms with
  | [scm] =>
      fds <-? ParseUnixRights scm ;;
      match fds with
      | [fd] => Ok fd
      | _ => Err (Errorf "unexpected fds: %v" [])
      end
  | _ => Err (Errorf "unexpected scms: %v" [])
  end.

(** The request for a specification. *)
Definition connect_request (spec : Spec) (gateway : str) (sourceAddr : option Addr) : Request :=
  let '(sip, sport) := match sourceAddr with
                       | Some (TCPAddr ip p) => (net.String ip, p)
                       | _ => ([], 0)
                       end in
  mkRequest RequestTypeConnect (port.Proto spec) (ChildIP spec) (ChildPort spec) (port.ParentIP spec) gateway sip sport.

Definition ConnectToChild (fuel : nat) (c : Z) (spec : Spec) (sourceAddr : option Addr) : sio (result Z) :=
  gateway <- hostGatewayIP ;;
  _ <-! scall (SendRequest c (connect_request spec gateway sourceAddr)) ;;
  _ <-! scall (CloseWrite c) ;;
  let oobSpace := CmsgSpace 4 in
  oob <-! retry_eintr fuel (scall (ReadMsgUnix c oobSpace)) ;;
  let oobN := Z.of_nat (length oob) in
  if negb (oobN =? oobSpace) then sfail (Errorf "expected OOB space %d, got %d" [AInt oobSpace; AInt oobN])
  else
    match parseFDFromOOB oob with
    | Err e => sfail e
    | Ok fd =>
        _ <-! scall (CloseRead c) ;;
        Ret (Ok fd)
    end.

Definition ConnectToChildWithSocketPath (fuel : nat) (socketPath : str) (spec : Spec) (sourceAddr : option Addr) : sio (result Z) :=
  c <-! scall (DialUnix socketPath) ;;
  defer (scall (CloseConn c)) (ConnectToChild fuel c spec sourceAddr).

(** [attempt] is [ConnectToChildWithSocketPath] at the arguments; [n] attempts
    are left, [i] were made. *)
Fixpoint retry_loop {A} (attempt : sio (result A)) (i : Z) (n : nat) : sio (result A) :=
  match n with
  | O => sfail (errors_New "reached max retry")
  | S n =>
      r <- attempt ;;
      match r with
      | Ok fd => Ret (Ok fd)
      | Err e =>
          match n with
          | O => sfail e
          | S _ => _ <- scall (SleepMs (i * 5)) ;; retry_loop attempt (i + 1) n
          end
      end
  end.

Definition ConnectToChildWithRetry (fuel : nat) (socketPath : str) (spec : Spec) (retries : Z) (sourceAddr : option Addr)
    : sio (result Z) :=
  retry_loop (ConnectToChildWithSocketPath fuel socketPath spec sourceAddr) 0 (Z.to_nat retries).
End ops.
End msg_ops.
Import msg_ops.

(** ** Retrying *)

(** The trace of a list of attempts: after a failed attempt that is not the
    last one, the program sleeps five milliseconds longer than before. *)
Fixpoint attempts_trace {A} (i : Z) (l : list (trace sres * result A)) : trace sres :=
  match l with
  | [] => []
  | [(t, _)] => t
  | (t, _) :: l' => t ++ ev (SleepMs (i * 5)) tt :: attempts_trace (i + 1) l'
  end.

Lemma retry_loop_attempts {A} (attempt : sio (result A)) i n t r :
  behaves (retry_loop attempt i (S n)) t r ->
  exists l tl, Forall (fun a => behaves attempt a.1 a.2) (l ++ [(tl, r)]) /\
    Forall (fun a => is_ok a.2 = false) l /\ (length l <= n)%nat /\ (is_ok r = false -> length l = n) /\
    t = attempts_trace i (l ++ [(tl, r)]).
Proof.
  revert i t; induction n as [|n IH]; intros i t; cbn [retry_loop]; intros (t1 & t2 & a & -> & H1 & H2)%behaves_bind.
  - assert (t2 = [] /\ r = a) as [-> ->] by (destruct a; by destruct H2).
    exists [], t1. rewrite app_nil_r. split; [by repeat constructor|]. by repeat split.
  - destruct a as [a|e].
    + destruct H2 as [-> ->]. exists [], t1. rewrite app_nil_r. repeat split; [by repeat constructor|constructor|simpl; lia|done].
    + apply behaves_bind in H2 as (t3 & t4 & [] & -> & H3 & H4).
      destruct H3 as ([] & t' & -> & [-> _]).
      change (behaves (retry_loop attempt (i + 1) (S n)) t4 r) in H4.
      apply IH in H4 as (l & tl & HF & Hl & Hn & Hr & ->).
      exists ((t1, Err e) :: l), tl. simpl. split; [by constructor|]. split; [by constructor|].
      split; [lia|]. split; [intros; f_equal; auto|]. by destruct l.
Qed.

(** [ConnectToChildWithRetry] makes between one and [retries] attempts, one
    after another, and returns what the last one returned: all before it failed,
    and when the last one fails too, there were [retries] of them.  It sleeps
    0, 5, 10, ... milliseconds between them and not after the last one; without
    retries it fails at once. *)
Theorem ConnectToChildWithRetry_attempts `{Cmsg} fuel socketPath spec retries src t r :
  behaves (ConnectToChildWithRetry fuel socketPath spec retries src) t r ->
  if 0 <? retries then
    exists l tl, Forall (fun a => behaves (ConnectToChildWithSocketPath fuel socketPath spec src) a.1 a.2) (l ++ [(tl, r)]) /\
      Forall (fun a => is_ok a.2 = false) l /\ Z.of_nat (length l) < retries /\
      (is_ok r = false -> Z.of_nat (length l) = retries - 1) /\
      t = attempts_trace 0 (l ++ [(tl, r)])
  else t = [] /\ r = Err (errors_New "reached max retry").
Proof.
  unfold ConnectToChildWithRetry. destruct (Z.ltb_spec 0 retries) as [Hr|Hr].
  - destruct (Z.to_nat retries) as [|n] eqn:E; [lia|]. intros (l & tl & H1 & H2 & H3 & H4 & H5)%retry_loop_attempts.
    exists l, tl. repeat split; try done; [lia|]. intros. rewrite H4 by done. lia.
  - replace (Z.to_nat retries) with 0%nat by lia. done.
Qed.

(** A child whose socket does not exist: two attempts, one sleep of no length. *)
Theorem ConnectToChildWithRetry_attempts_witness :
  exists (l : list (trace sres * result Z)) tl, Z.of_nat (length l) < 2 /\
    attempts_trace 0 (l ++ [(tl, Err (Extern "ENOENT"))]) =
    [ev (DialUnix "s") (Err (Extern "ENOENT")); ev (SleepMs 0) tt; ev (DialUnix "s") (Err (Extern "ENOENT"))].
Proof.
  destruct (ConnectToChildWithRetry_attempts (H := plain_cmsg) 1 "s" (mkSpec "tcp" [] 8080 80 []) 2 None
    [ev (DialUnix "s") (Err (Extern "ENOENT")); ev (SleepMs 0) tt; ev (DialUnix "s") (Err (Extern "ENOENT"))]
    (Err (Extern "ENOENT"))) as (l & tl & _ & _ & Hl & _ & Ht).
  - cbn. repeat eexists.
  - exists l, tl. split; [exact Hl|exact (eq_sym Ht)].
Defined.
