(* ===== verification/PortChild.v ===== *)
(** * pkg/port/builtin/child: the child side of the builtin port driver

    The child accepts connections on its UNIX socket and answers each request
    in a goroutine: it dials the target inside the network namespace and sends
    the descriptor of the connection back.  The handlers are programs over
    [PortMsg.sock].  The goroutines share the two [sync.Once] (whether the policy
    routing for transparent source addresses was set up, and whether the
    fallback was reported) and a flag; they reach them by calls, which Routing.v
    runs on a common memory. *)
From S2P Require Import Prelude GoStrings NetIP PortSpec Effects Framing PortMsg.
Import msg msg_ops.

Module builtin_child.
Section child.
Context `{Cmsg}.

(** What the goroutines share: the option is set before they start, the rest
    is what the calls [OnceDo], [OnceDone], [SetRoutingReady] and
    [GetRoutingReady] work on (Routing.v says how). *)
Inductive once_state : Set := OnceNew | OnceRunning (goroutine : nat) | OnceOver.
Record childDriver : Set := mkChildDriver {
  sourceIPTransparent : bool;
  routingSetup : once_state;
  routingReady : bool;
  routingWarn : once_state;
}.

Definition NewDriver : childDriver := mkChildDriver false OnceNew false OnceNew.

Definition cmdline (s : string) : list str := strings.Split s " "%char.

(** The commands of the policy routing. *)
Definition routing_cmds : list (list str) := map cmdline [
  "ip route add local default dev lo table 100";
  "ip -6 route add local default dev lo table 100";
  "ip rule add fwmark 100 lookup 100 priority 100";
  "ip -6 rule add fwmark 100 lookup 100 priority 100";
  "sysctl -w net.ipv4.tcp_fwmark_accept=1";
  "iptables -t mangle -A OUTPUT -p tcp -m addrtype ! --src-type LOCAL -j CONNMARK --set-mark 100";
  "ip6tables -t mangle -A OUTPUT -p tcp -m addrtype ! --src-type LOCAL -j CONNMARK --set-mark 100";
  "iptables -t mangle -A PREROUTING -p tcp -m connmark --mark 100 -j MARK --set-mark 100";
  "ip6tables -t mangle -A PREROUTING -p tcp -m connmark --mark 100 -j MARK --set-mark 100"
]%string.

Definition setupTransparentRouting : sio bool :=
  r <- scall (LookPath "iptables") ;;
  match r with
  | Err _ => _ <- scall (Log "source IP transparent: iptables not found, disabling") ;; Ret false
  | Ok _ =>
      r <- scall (CombinedOutput (cmdline "iptables -t mangle -L -n")) ;;
      match r with
      | Err _ => _ <- scall (Log "source IP transparent: iptables mangle table not available, disabling") ;; Ret false
      | Ok _ =>
          _ <- for_all routing_cmds (fun args =>
            r <- scall (CombinedOutput args) ;;
            match r with
            | Err _ => scall (Log "source IP transparent routing setup")
            | Ok _ => Ret tt
            end) ;;
          Ret true
      end
  end.

Definition known_protos : list str := map lit ["tcp"; "tcp4"; "tcp6"; "udp"; "udp4"; "udp6"]%string.

Definition dialProto (proto : str) : str := strings.TrimSuffix (strings.TrimSuffix proto "6") "4".

Definition target_ip (req : Request) : result str :=
  if bool_decide (IP req = []) then
    Ok (if negb (bool_decide (ParentIP req = [])) && negb (bool_decide (ParentIP req = HostGatewayIP req)) &&
           negb (bool_decide (ParentIP req = lit "0.0.0.0"))
        then ParentIP req else "127.0.0.1")
  else
    match net.ParseIP (IP req) with
    | None => Err (Errorf "invalid IP: %q" [AStr (IP req)])
    | Some p => Ok (net.String p)
    end.

Definition wants_transparent (transparency : bool) (req : Request) : bool :=
  transparency && negb (bool_decide (SourceIP req = [])) && negb (SourcePort req =? 0) &&
  bool_decide (dialProto (Proto req) = lit "tcp") &&
  negb (match net.ParseIP (SourceIP req) with Some ip => net.IsLoopback ip | None => false end).

Definition fallback_warning : str :=
  "source IP transparent: falling back to non-transparent mode, client source IPs will not be preserved".

(** [routingSetup.Do] and [routingWarn.Do] *)
Definition once_do (o : once) (f : sio unit) : sio unit :=
  first <- scall (OnceDo o) ;;
  if (first : bool) then
    _ <- f ;;
    scall (OnceDone o)
  else Ret tt.

Definition setup_once : sio unit :=
  once_do RoutingSetup (ready <- setupTransparentRouting ;; scall (SetRoutingReady ready)).

Definition warn_once : sio unit := once_do RoutingWarn (scall (Log fallback_warning)).

(** [transparentDial] is the call [DialTransparent] of [transparent] below.  What
    it gives to [net.Dialer]: a timeout in nanoseconds, the local address and
    the control function, which is called with the network of the socket; the
    library and the socket are parameters. *)
Definition SOL_IP : Z := 0.
Definition IP_TRANSPARENT : Z := 19.
Definition SOL_IPV6 : Z := 41.
Definition IPV6_TRANSPARENT : Z := 75.

Definition transparent_option (network : str) : Z * Z :=
  if strings.Contains network "6" then (SOL_IPV6, IPV6_TRANSPARENT) else (SOL_IP, IP_TRANSPARENT).

Definition transparent_control (raw : result unit) (setsockopt : Z -> Z -> Z -> result unit) (network : str) : result unit :=
  match raw with
  | Err e => Err e
  | Ok _ => let '(level, opt) := transparent_option network in setsockopt level opt 1
  end.

Definition transparentDial {Conn} (raw : result unit) (setsockopt : Z -> Z -> Z -> result unit)
    (dial : Z -> option net.IP * Z -> (str -> result unit) -> str -> str -> result Conn)
    (dialProto targetAddr sourceIP : str) (sourcePort : Z) : result Conn :=
  dial 1000000000 (net.ParseIP sourceIP, sourcePort) (transparent_control raw setsockopt) dialProto targetAddr.

(** The transparent connection, when there is one; [transparency] is
    [sourceIPTransparent] of the driver. *)
Definition transparent (transparency : bool) (req : Request) (targetAddr : str) : sio (option Z) :=
  if wants_transparent transparency req then
    _ <- setup_once ;;
    ready <- scall GetRoutingReady ;;
    if (ready : bool) then
      r <- scall (DialTransparent (dialProto (Proto req)) targetAddr (SourceIP req) (SourcePort req)) ;;
      match r with
      | Ok c => Ret (Some c)
      | Err _ => _ <- scall (Log "transparent dial failed, falling back") ;; Ret None
      end
    else
      _ <- warn_once ;;
      Ret None
  else Ret None.

(** The descriptor of [targetConn] is sent to the peer of [c]. *)
Definition send_conn (fuel : nat) (c targetConn : Z) : sio (result unit) :=
  targetConnFile <-! scall (ConnFile targetConn) ;;
  defer (scall (CloseConn targetConnFile))
    (f <-! scall (ConnFile c) ;;
     defer (scall (CloseConn f)) (retry_eintr fuel (scall (Sendmsg f "dummy" (UnixRights targetConnFile))))).

Definition handleConnectRequest (fuel : nat) (transparency : bool) (c : Z) (req : Request) : sio (result unit) :=
  if negb (bool_decide (Proto req ∈ known_protos)) then sfail (Errorf "unknown proto: %q" [AStr (Proto req)])
  else
    match target_ip req with
    | Err e => sfail e
    | Ok ip =>
        let targetAddr := net.JoinHostPort ip (strconv.Itoa (Port req)) in
        conn <- transparent transparency req targetAddr ;;
        conn <-! match conn with
                 | Some conn => Ret (Ok conn)
                 | None => scall (Dial (dialProto (Proto req)) targetAddr)
                 end ;;
        defer (scall (CloseConn conn)) (send_conn fuel c conn)
    end.

Definition handleConnectInit (c : Z) : sio (result unit) := scall (SendReply c None).

Definition routine (fuel : nat) (transparency : bool) (c : Z) (detachedNetNSPath : str) : sio (result unit) :=
  req <-! scall (RecvRequest c) ;;
  if bool_decide (Type_ req = RequestTypeInit) then handleConnectInit c
  else if bool_decide (Type_ req = RequestTypeConnect) then
    if bool_decide (detachedNetNSPath = []) then handleConnectRequest fuel transparency c req
    else
      _ <-! scall (EnterNetNS detachedNetNSPath) ;;
      defer (scall LeaveNetNS) (handleConnectRequest fuel transparency c req)
  else sfail (Errorf "unknown request type %q" [AStr (Type_ req)]).

(** The goroutine of an accepted connection; [text] is [error.Error]. *)
Definition serve_conn (text : error -> str) (fuel : nat) (transparency : bool) (c : Z) (detachedNetNSPath : str) : sio unit :=
  r <- routine fuel transparency c detachedNetNSPath ;;
  _ <- match r with
       | Err e => _ <- scall (SendReply c (Some (mkReply (text e)))) ;; Ret tt
       | Ok _ => Ret tt
       end ;;
  scall (CloseConn c).

(** The accept loop, [fuel] connections long; [None] when it still runs.
    [QuitPending] is the receive from [stopAccept] that does not block. *)
Fixpoint accept_loop (fuel : nat) : sio (option (result unit)) :=
  match fuel with
  | O => Ret None
  | S fuel =>
      r <- scall AcceptUnix ;;
      match r with
      | Err e =>
          stop <- scall QuitPending ;;
          Ret (Some (if (stop : bool) then Ok tt else Err e))
      | Ok c =>
          _ <- scall (GoServe c) ;;
          accept_loop fuel
      end
  end.

Definition opaque_get (opaque : list (str * str)) (k : str) : str :=
  match List.find (fun kv => bool_decide (kv.1 = k)) opaque with Some (_, v) => v | None => [] end.

Definition SocketPath : str := "builtin.socketpath".
Definition ChildReadyPipePath : str := "builtin.readypipepath".
Definition SourceIPTransparent : str := "builtin.source-ip-transparent".

Definition RunChildDriver (fuel : nat) (opaque : list (str * str)) : sio (childDriver * option (result unit)) :=
  let d := mkChildDriver (bool_decide (opaque_get opaque SourceIPTransparent = lit "true")) OnceNew false OnceNew in
  let socketPath := opaque_get opaque SocketPath in
  if bool_decide (socketPath = []) then Ret (d, Some (Err (errors_New "socket path not set")))
  else
    let pipe := opaque_get opaque ChildReadyPipePath in
    if bool_decide (pipe = []) then Ret (d, Some (Err (errors_New "child ready pipe path not set")))
    else
      r <- (w <-! scall (OpenPipe pipe true) ;;
            _ <-! scall (ListenUnix socketPath) ;;
            scall (CloseFile w)) ;;
      match r with
      | Err e => Ret (d, Some (Err e))
      | Ok _ => r <- accept_loop fuel ;; Ret (d, r)
      end.
End child.
End builtin_child.
Import builtin_child.

(** ** Descriptors are closed in reverse order, on every path *)

(** The stack of the descriptors that are open. *)
Definition fd_step (s : list Z) (c : sock) : sres c -> option (list Z) :=
  match c return sres c -> option (list Z) with
  | DialUnix _ | Dial _ _ | DialTransparent _ _ _ _ | ConnFile _ | FileConn _ =>
      fun r => Some (match r with Ok x => x :: s | Err _ => s end)
  | NewFile _ => fun x => Some (x :: s)
  | CloseConn x => fun _ => match s with y :: s' => if x =? y then Some s' else None | [] => None end
  | _ => fun _ => Some s
  end.

Definition fd_neutral (c : sock) : bool :=
  match c with
  | DialUnix _ | Dial _ _ | DialTransparent _ _ _ _ | ConnFile _ | FileConn _ | NewFile _ | CloseConn _ => false
  | _ => true
  end.

Lemma fd_neutral_step s c r : fd_neutral c = true -> fd_step s c r = Some s.
Proof. by destruct c. Qed.

Lemma tracks_fd_only {A} (p : sio A) s (Q : A -> list Z -> Prop) :
  only fd_neutral p -> (forall a, Q a s) -> tracks fd_step p s Q.
Proof. intros Hp HQ. apply (tracks_only _ fd_neutral); [done|intros; by apply fd_neutral_step|done]. Qed.

(** [p] leaves the stack as it found it. *)
Definition fd_balanced {A} (p : sio A) : Prop := forall s, tracks fd_step p s (fun _ s' => s' = s).

Lemma fd_balanced_only {A} (p : sio A) : only fd_neutral p -> fd_balanced p.
Proof. intros Hp s. by apply tracks_fd_only. Qed.

Lemma fd_balanced_bind {A B} (p : sio A) (f : A -> sio B) :
  fd_balanced p -> (forall a, fd_balanced (f a)) -> fd_balanced (bind p f).
Proof. intros Hp Hf s. apply tracks_bind. eapply tracks_mono; [apply Hp|]. intros a s' ->. apply Hf. Qed.

Lemma fd_balanced_ret {A} (a : A) : fd_balanced (Ret a).
Proof. done. Qed.

(** A descriptor in use, which [defer] closes. *)
Lemma fd_defer_close {A} x (p : sio A) s :
  fd_balanced p -> tracks fd_step (defer (scall (CloseConn x)) p) (x :: s) (fun _ s' => s' = s).
Proof.
  intros Hp. unfold defer. apply tracks_bind. eapply tracks_mono; [apply Hp|]. intros a s' ->. simpl.
  intros _. by rewrite Z.eqb_refl.
Qed.

Lemma retry_eintr_only {A} P fuel (p : sio (option (result A))) : only P p -> only P (retry_eintr fuel p).
Proof.
  intros Hp. induction fuel as [|fuel IH]; simpl; [done|]. apply only_bind; [done|]. by intros [x|].
Qed.
#[export] Hint Resolve retry_eintr_only : only.

Section child_facts.
Context `{CM : Cmsg}.

Lemma send_conn_balanced fuel c conn : fd_balanced (send_conn fuel c conn).
Proof.
  intros s. unfold send_conn, ebind. apply tracks_bind. intros [f|e]; cbn [fd_step tracks]; [|done].
  apply fd_defer_close. intros s1. apply tracks_bind. intros [f'|e]; cbn [fd_step tracks]; [|done].
  apply fd_defer_close. apply fd_balanced_only. by apply retry_eintr_only.
Qed.

(** The calls of the set-up and of the report. *)
Definition routing_call (c : sock) : bool :=
  match c with
  | LookPath _ | CombinedOutput _ | Log _ | OnceDo _ | OnceDone _ | SetRoutingReady _ | GetRoutingReady => true
  | _ => false
  end.

Lemma setup_only : only routing_call setupTransparentRouting.
Proof. only_tac. Qed.

#[local] Hint Resolve setup_only : only.

Lemma setup_once_only : only routing_call setup_once.
Proof. only_tac. Qed.

Lemma warn_once_only : only routing_call warn_once.
Proof. only_tac. Qed.

Lemma fd_balanced_routing (p : sio unit) : only routing_call p -> fd_balanced p.
Proof. intros Hp. apply fd_balanced_only. by eapply only_mono, Hp; intros []. Qed.

(** What the transparent part leaves open is the connection it returns. *)
Lemma transparent_fds transparency req addr s :
  tracks fd_step (transparent transparency req addr) s (fun o s' => s' = match o with Some c => c :: s | None => s end).
Proof.
  unfold transparent. destruct (wants_transparent _ _); [|done].
  apply tracks_bind. eapply tracks_mono; [apply fd_balanced_routing, setup_once_only|]. intros _ s' ->.
  intros [|]; [by intros [c|e]|].
  apply (tracks_bind fd_step warn_once). eapply tracks_mono; [apply fd_balanced_routing, warn_once_only|]. by intros _ s' ->.
Qed.

Lemma handleConnectRequest_balanced fuel transparency c req : fd_balanced (handleConnectRequest fuel transparency c req).
Proof.
  intros s. unfold handleConnectRequest. destruct (negb _); [done|]. destruct (target_ip req) as [ip|e]; [|done].
  apply tracks_bind. eapply tracks_mono; [apply transparent_fds|]. intros o s' ->.
  assert (Hc : forall conn, tracks fd_step (defer (scall (CloseConn conn)) (send_conn fuel c conn)) (conn :: s) (fun _ s' => s' = s))
    by (intros conn; apply fd_defer_close, send_conn_balanced).
  destruct o as [conn|]; [apply Hc|]. intros [conn|e]; [apply Hc|done].
Qed.

Lemma routine_balanced fuel transparency c ns : fd_balanced (routine fuel transparency c ns).
Proof.
  unfold routine. apply fd_balanced_bind; [by apply fd_balanced_only|]. intros [req|e]; [|done].
  destruct (bool_decide _); [by apply fd_balanced_only|]. destruct (bool_decide _); [|done].
  destruct (bool_decide _); [apply handleConnectRequest_balanced|].
  apply fd_balanced_bind; [by apply fd_balanced_only|]. intros [[]|e]; [|done].
  apply fd_balanced_bind; [apply handleConnectRequest_balanced|]. intros a. by apply fd_balanced_only.
Qed.

(** C27: whatever fails, the goroutine of a connection closes that connection
    and every descriptor that it opened for it, in reverse order and once. *)
Theorem serve_conn_closes text fuel transparency c ns t :
  behaves (serve_conn text fuel transparency c ns) t tt -> steps fd_step [c] t = Some [].
Proof.
  intros Hb. assert (tracks fd_step (serve_conn text fuel transparency c ns) [c] (fun _ s => s = [])) as Ht.
  { unfold serve_conn. apply tracks_bind. eapply tracks_mono; [apply routine_balanced|]. intros r s ->.
    apply tracks_bind, tracks_fd_only; [by destruct r|]. intros _. simpl. intros _. by rewrite Z.eqb_refl. }
  by destruct (tracks_behaves _ _ _ _ _ _ Ht Hb) as (s & -> & ->).
Qed.

End child_facts.

(** ** From the request of the parent to the descriptor it receives *)

Definition oob_of (c : sock) : option str := match c with Sendmsg _ _ oob => Some oob | _ => None end.

Section end_to_end.
Context `{CM : Cmsg} (laws : CmsgLaws).
(** the kernels that the parent and the child talk to *)
Context (kp kc : forall c, sres c).

(** The connection to the target. *)
Definition chosen (transparency : bool) (req : Request) (addr : str) : result Z :=
  match (exec kc (transparent transparency req addr)).1 with
  | Some c => Ok c
  | None => kc (Dial (dialProto (Proto req)) addr)
  end.

Lemma chosen_dialled transparency req addr conn :
  chosen transparency req addr = Ok conn ->
  kc (Dial (dialProto (Proto req)) addr) = Ok conn \/
  (wants_transparent transparency req = true /\
   kc (DialTransparent (dialProto (Proto req)) addr (SourceIP req) (SourcePort req)) = Ok conn).
Proof using.
  unfold chosen, transparent. destruct (wants_transparent transparency req); [|by left].
  rewrite exec_bind, exec_bind. cbn [exec scall fst]. destruct (kc GetRoutingReady); [|rewrite exec_bind; by left].
  rewrite exec_bind. cbn [exec scall fst]. destruct (kc (DialTransparent _ _ _ _)) as [c'|e]; cbn [exec fst snd bind].
  - intros [= ->]. by right.
  - by left.
Qed.

Lemma chosen_plain transparency req addr :
  wants_transparent transparency req = false -> chosen transparency req addr = kc (Dial (dialProto (Proto req)) addr).
Proof using. unfold chosen, transparent. by intros ->. Qed.

Lemma send_conn_sends n c conn f :
  kc (ConnFile c) = Ok f -> (forall data oob, kc (Sendmsg f data oob) = Some (Ok tt)) ->
  omap oob_of (exec kc (defer (scall (CloseConn conn)) (send_conn (S n) c conn))).2 =
  match kc (ConnFile conn) with Ok tfd => [UnixRights tfd] | Err _ => [] end.
Proof using.
  intros Hf Hs. unfold defer, send_conn, ebind. cbn [bind scall exec].
  destruct (kc (ConnFile conn)) as [tfd|e]; [|done]. unfold defer. cbn [bind scall exec]. rewrite Hf.
  cbn [bind scall exec retry_eintr]. rewrite Hs. done.
Qed.

Lemma routing_sends_nothing (p : sio unit) : only routing_call p -> only (fun c => bool_decide (oob_of c = None)) p.
Proof using. apply only_mono. by intros []. Qed.

Lemma transparent_sends_nothing transparency req addr : omap oob_of (exec kc (transparent transparency req addr)).2 = [].
Proof using.
  apply exec_only_omap. unfold transparent. destruct (wants_transparent _ _); [|done].
  apply only_bind; [apply routing_sends_nothing, setup_once_only|]. intros _.
  split; [done|]. intros [|]; [|apply (only_bind _ warn_once); [apply routing_sends_nothing, warn_once_only|done]].
  split; [done|]. by intros [?|?].
Qed.

(** What the child sends for a request. *)
Lemma handleConnectRequest_sends n transparency c req f :
  kc (ConnFile c) = Ok f -> (forall data oob, kc (Sendmsg f data oob) = Some (Ok tt)) ->
  omap oob_of (exec kc (handleConnectRequest (S n) transparency c req)).2 =
  match (if bool_decide (Proto req ∈ known_protos) then target_ip req else Err interrupted) with
  | Err _ => []
  | Ok ip =>
      match chosen transparency req (net.JoinHostPort ip (strconv.Itoa (Port req))) with
      | Err _ => []
      | Ok conn => match kc (ConnFile conn) with Ok tfd => [UnixRights tfd] | Err _ => [] end
      end
  end.
Proof using.
  intros Hf Hs. unfold handleConnectRequest. destruct (bool_decide (Proto req ∈ known_protos)); [|done]. cbn [negb].
  destruct (target_ip req) as [ip|e]; [|done]. set (addr := net.JoinHostPort _ _).
  rewrite exec_bind. cbn [snd]. rewrite omap_app, transparent_sends_nothing. cbn [app].
  unfold chosen. destruct (exec kc (transparent transparency req addr)).1 as [conn|]; cbn [ebind bind].
  { by apply (send_conn_sends n c conn f). }
  unfold ebind. rewrite exec_bind. cbn [snd exec scall omap app]. destruct (kc (Dial _ addr)) as [conn|e]; [|done].
  cbn [fst]. by apply (send_conn_sends n c conn f).
Qed.

(** What the parent makes of it. *)
Lemma ConnectToChild_receives m p spec src sent :
  let req := connect_request spec (exec kp hostGatewayIP).1 src in
  kp (SendRequest p req) = Ok tt -> kp (CloseWrite p) = Ok tt -> kp (CloseRead p) = Ok tt ->
  kp (ReadMsgUnix p (CmsgSpace 4)) = Some (Ok (default [] (head sent))) ->
  (forall oob, oob ∈ sent -> exists fd, 0 <= fd < 2 ^ 31 /\ oob = UnixRights fd) ->
  forall fd, (exec kp (ConnectToChild (S m) p spec src)).1 = Ok fd <-> exists l, sent = UnixRights fd :: l /\ 0 <= fd < 2 ^ 31.
Proof using laws.
  intros req H1 H2 H3 H4 Hsent fd. unfold ConnectToChild. rewrite exec_bind. cbn [fst]. fold req.
  unfold ebind. cbn [bind scall exec]. rewrite H1. cbn [bind scall exec]. rewrite H2. cbn [bind scall exec retry_eintr]. rewrite H4.
  cbn [bind scall exec]. destruct sent as [|oob l]; cbn [head from_option id].
  - cbn [length Z.of_nat]. pose proof (space_pos laws). replace (0 =? CmsgSpace 4) with false by (symmetry; apply Z.eqb_neq; lia).
    cbn. split; [discriminate|]. by intros (l & ? & _).
  - destruct (Hsent oob) as (fd0 & Hfd & ->); [by left|]. rewrite (rights_length laws), Z.eqb_refl. cbn [negb].
    unfold parseFDFromOOB. destruct (rights_parse laws fd0 Hfd) as (mm & -> & Hm). cbn [rbind]. rewrite Hm. cbn [rbind].
    cbn [bind scall exec]. rewrite H3. cbn. split.
    + intros [= <-]. by exists l.
    + intros (l' & [= Hr _] & Hfd'). destruct (rights_parse laws fd Hfd') as (m' & Hp & Hm'). 
      destruct (rights_parse laws fd0 Hfd) as (m0 & Hp0 & Hm0). rewrite Hr in Hp0. congruence.
Qed.

(** When the parent asks the child for a connection, over a socket on which
    nothing fails, then the descriptor that it receives is that of a connection
    that the child made, to the child IP and port of the specification or to the
    address that stands for it, over the protocol of the specification without
    its suffix, possibly with the address of the client; and it receives the
    connection when the child can make it. *)
Theorem ConnectToChild_connects n m transparency c f p spec src :
  let req := connect_request spec (exec kp hostGatewayIP).1 src in
  kc (RecvRequest c) = Ok req ->
  kc (ConnFile c) = Ok f -> (forall data oob, kc (Sendmsg f data oob) = Some (Ok tt)) ->
  (forall x y, kc (ConnFile x) = Ok y -> 0 <= y < 2 ^ 31) ->
  kp (SendRequest p req) = Ok tt -> kp (CloseWrite p) = Ok tt -> kp (CloseRead p) = Ok tt ->
  kp (ReadMsgUnix p (CmsgSpace 4)) = Some (Ok (default [] (head (omap oob_of (exec kc (routine (S n) transparency c [])).2)))) ->
  let answer := (exec kp (ConnectToChild (S m) p spec src)).1 in
  let addr ip := net.JoinHostPort ip (strconv.Itoa (port.ChildPort spec)) in
  let proto := dialProto (port.Proto spec) in
  (forall fd, answer = Ok fd ->
     exists ip conn, port.Proto spec ∈ known_protos /\ target_ip req = Ok ip /\ kc (ConnFile conn) = Ok fd /\
       (kc (Dial proto (addr ip)) = Ok conn \/
        wants_transparent transparency req = true /\ kc (DialTransparent proto (addr ip) (SourceIP req) (SourcePort req)) = Ok conn)) /\
  (forall ip conn fd, port.Proto spec ∈ known_protos -> target_ip req = Ok ip -> wants_transparent transparency req = false ->
     kc (Dial proto (addr ip)) = Ok conn -> kc (ConnFile conn) = Ok fd -> answer = Ok fd).
Proof using laws.
  intros req Hreq Hf Hsend Hrange H1 H2 H3 H4 answer addr proto.
  assert (Hout : omap oob_of (exec kc (routine (S n) transparency c [])).2 = omap oob_of (exec kc (handleConnectRequest (S n) transparency c req)).2).
  { unfold routine, ebind. rewrite exec_bind. cbn [scall exec fst snd app]. rewrite Hreq.
    assert (Type_ req = RequestTypeConnect) as -> by (unfold req, connect_request; by destruct src as [[]|]).
    reflexivity. }
  rewrite Hout, (handleConnectRequest_sends n transparency c req f Hf Hsend) in H4.
  assert (HP : Proto req = port.Proto spec) by (unfold req, connect_request; by destruct src as [[]|]).
  assert (Hport : Port req = port.ChildPort spec) by (unfold req, connect_request; by destruct src as [[]|]).
  rewrite HP, Hport in H4. pose proof (ConnectToChild_receives m p spec src _ H1 H2 H3 H4) as Hrec. clear H4 Hout.
  match type of Hrec with (forall oob, oob ∈ ?S -> _) -> _ => set (sent := S) in *; assert (Hin : forall oob, oob ∈ sent ->
    exists ip conn fd, oob = UnixRights fd /\ port.Proto spec ∈ known_protos /\ target_ip req = Ok ip /\
      chosen transparency req (addr ip) = Ok conn /\ kc (ConnFile conn) = Ok fd) end.
  { intros oob. unfold sent. case_bool_decide as HK; [|by intros ?%elem_of_nil].
    destruct (target_ip req) as [ip|]; [|by intros ?%elem_of_nil]. fold (addr ip).
    destruct (chosen transparency req (addr ip)) as [conn|] eqn:Ec; [|by intros ?%elem_of_nil].
    destruct (kc (ConnFile conn)) as [y|] eqn:E; [|by intros ?%elem_of_nil].
    intros ->%list_elem_of_singleton. eauto 10. }
  specialize (Hrec ltac:(intros oob (ip & conn & fd & -> & _ & _ & _ & Hfd)%Hin; eauto)). split.
  - intros fd (l & Hl & Hr)%Hrec. destruct (Hin (UnixRights fd)) as (ip & conn & fd' & Hu & HK & Hip & Hc & Hfd).
    { rewrite Hl. by left. }
    assert (fd' = fd) as ->.
    { destruct (rights_parse laws fd Hr) as (a & Ha & Ha'), (rights_parse laws fd' (Hrange _ _ Hfd)) as (b & Hb & Hb').
      rewrite Hu in Ha. congruence. }
    exists ip, conn. repeat split; try done. apply chosen_dialled in Hc. by rewrite HP in Hc.
  - intros ip conn fd HK Hip Hw Hd Hfd. apply Hrec. exists []. split; [|by apply Hrange in Hfd].
    unfold sent. rewrite bool_decide_eq_true_2, Hip, chosen_plain, HP by done. unfold addr, proto in Hd. by rewrite Hd, Hfd.
Qed.
End end_to_end.

(** ** A concrete run: a port of 192.168.1.2 forwarded to the container *)
Definition ok_sock (c : sock) : sres c :=
  match c return sres c with
  | InterfaceAddrs => Ok [IPNet [127; 0; 0; 1]; IPNet [192; 168; 1; 2]]
  | DialUnix _ | AcceptUnix => Ok 3
  | Dial _ _ | DialTransparent _ _ _ _ => Ok 7
  | ConnFile x | FileConn x => Ok (if x =? 7 then 8 else 9)
  | NewFile fd => fd
  | OpenPipe _ _ => Ok 5
  | ListenTCP _ _ | ResolveUDPAddr _ _ | ListenUDP _ _ => Ok 4
  | RecvRequest _ => Ok (mkRequest RequestTypeConnect "tcp4" [] 80 "192.168.1.2" "192.168.1.2" [] 0)
  | RecvReply _ => Ok (mkReply [])
  | ReadMsgUnix _ _ => Some (Ok (PutUint32 8))
  | Sendmsg _ _ _ => Some (Ok tt)
  | IsUDPConn _ | QuitPending | OnceDo _ | GetRoutingReady => true
  | RemoteAddr _ => OtherAddr
  | ListenUnix _ | CloseRead _ | CloseWrite _ | SendRequest _ _ | SendReply _ _ | LookPath _
  | CombinedOutput _ | EnterNetNS _ | ReadAll _ | CloseFile _ => Ok tt
  | OnceDone _ | SetRoutingReady _
  | CloseConn _ | SleepMs _ | Log _ | LeaveNetNS | GoServe _ | WaitQuit | InitComplete | Bicopy _ _ | GoProxy _ => tt
  end.

Theorem ConnectToChild_connects_witness :
  (exec ok_sock (ConnectToChild (H := plain_cmsg) 1 3 (port.mkSpec "tcp4" "192.168.1.2" 8080 80 []) None)).1 = Ok 8.
Proof.
  destruct (ConnectToChild_connects (CM := plain_cmsg) plain_cmsg_laws ok_sock ok_sock 0 0 false 3 9 3
    (port.mkSpec "tcp4" "192.168.1.2" 8080 80 []) None) as [_ H].
  - vm_compute. reflexivity.
  - reflexivity.
  - reflexivity.
  - intros x y. cbn. destruct (x =? 7); intros [= <-]; lia.
  - reflexivity.
  - reflexivity.
  - reflexivity.
  - vm_compute. reflexivity.
  - apply (H "127.0.0.1" 7 8); [apply (bool_decide_unpack _); vm_compute; exact I|vm_compute; reflexivity..].
Defined.

Theorem serve_conn_closes_witness :
  exists t, behaves (serve_conn (H := plain_cmsg) (fun _ => []) 1 true 3 []) t tt /\ steps fd_step [3] t = Some [].
Proof.
  destruct (exec_behaves ok_sock (serve_conn (H := plain_cmsg) (fun _ => []) 1 true 3 [])) as (t & Hb & _).
  destruct (exec ok_sock _).1. exists t. split; [exact Hb|]. exact (serve_conn_closes (CM := plain_cmsg) _ _ _ _ _ _ Hb).
Defined.
