(* ===== verification/Routing.v ===== *)
(** * The policy routing of the builtin port driver, under concurrency

    Every connection that the child accepts is served in a goroutine of its
    own (PortChild.v); they share the two [sync.Once] of the driver and the flag
    [routingReady].  Here any number of goroutines run at the same time, one
    call after another in any order; a goroutine that calls [Do] while another
    one runs the function waits.  The policy routing is set up at most once,
    a connection with the address of the client is dialled only when that is
    over, and no goroutine waits for ever. *)
From S2P Require Import Prelude GoStrings NetIP PortSpec Effects PortMsg PortChild.
Import msg builtin_child.

(** ** Goroutines and their memory *)
Module goroutines.

Definition once_get (o : once) (d : childDriver) : once_state :=
  match o with RoutingSetup => routingSetup d | RoutingWarn => routingWarn d end.

Definition once_set (o : once) (s : once_state) (d : childDriver) : childDriver :=
  match o with
  | RoutingSetup => mkChildDriver (sourceIPTransparent d) s (routingReady d) (routingWarn d)
  | RoutingWarn => mkChildDriver (sourceIPTransparent d) (routingSetup d) (routingReady d) s
  end.

Definition set_ready (b : bool) (d : childDriver) : childDriver :=
  mkChildDriver (sourceIPTransparent d) (routingSetup d) b (routingWarn d).

(** The answer [r] of a call that goroutine [i] makes, and what becomes of the
    memory. *)
Inductive answer (i : nat) (d : childDriver) : forall c, sres c -> childDriver -> Prop :=
  | answer_first o : once_get o d = OnceNew -> answer i d (OnceDo o) true (once_set o (OnceRunning i) d)
  | answer_later o : once_get o d = OnceOver -> answer i d (OnceDo o) false d
  | answer_done o : answer i d (OnceDone o) tt (once_set o OnceOver d)
  | answer_set b : answer i d (SetRoutingReady b) tt (set_ready b d)
  | answer_get : answer i d GetRoutingReady (routingReady d) d
  | answer_other c r :
      match c with OnceDo _ | OnceDone _ | SetRoutingReady _ | GetRoutingReady => False | _ => True end ->
      answer i d c r d.

Record pool : Type := mkPool {
  threads : list (sio unit);
  memory : childDriver;
  history : list (nat * sock);   (** who has made which call *)
}.

(** A goroutine makes its next call. *)
Inductive moves (i : nat) : pool -> pool -> Prop :=
  | move x c k r d :
      threads x !! i = Some (Call c k) -> answer i (memory x) c r d ->
      moves i x (mkPool (<[i := k r]> (threads x)) d (history x ++ [(i, c)])).

Section child.
Context `{Cmsg} (text : error -> str) (fuel : nat) (ns : str).

Inductive step : pool -> pool -> Prop :=
  | step_accept x c :
      step x (mkPool (threads x ++ [serve_conn text fuel (sourceIPTransparent (memory x)) c ns]) (memory x) (history x))
  | step_move i x y : moves i x y -> step x y.

Inductive reachable (x0 : pool) : pool -> Prop :=
  | reach_refl : reachable x0 x0
  | reach_step x y : reachable x0 x -> step x y -> reachable x0 y.
End child.

(** The driver when [RunChildDriver] has read its options. *)
Definition started (transparency : bool) : pool := mkPool [] (mkChildDriver transparency OnceNew false OnceNew) [].
End goroutines.
Import goroutines.

(** ** What one goroutine does *)

(** The calls that the functions of the two [Do] make once. *)
Definition marks (o : once) (c : sock) : bool :=
  match o, c with
  | RoutingSetup, LookPath _ => true
  | RoutingWarn, Log m => bool_decide (m = fallback_warning)
  | _, _ => false
  end.

(** [holds]: the [Do] whose function it runs, and whether the mark was made;
    [over]: it has seen the end of the set-up; [seen]: what it has read. *)
Record stage : Set := mkStage {
  holds : option (once * bool);
  over : bool;
  seen : option bool;
}.
Definition stage0 : stage := mkStage None false None.

Definition not_loopback (ip : str) : bool :=
  negb (match net.ParseIP ip with Some ip => net.IsLoopback ip | None => false end).

Definition marked (o : once) (s : stage) : option stage :=
  if bool_decide (holds s = Some (o, false)) then Some (mkStage (Some (o, true)) (over s) (seen s)) else None.

Definition stage_step (transparency : bool) (s : stage) (c : sock) : sres c -> option stage :=
  match c return sres c -> option stage with
  | OnceDo o => fun r =>
      if bool_decide (holds s = None) && transparency
      then Some (if (r : bool) then mkStage (Some (o, false)) (over s) (seen s)
                 else mkStage None (over s || bool_decide (o = RoutingSetup)) (seen s)) else None
  | OnceDone o => fun _ =>
      if bool_decide (fst <$> holds s = Some o)
      then Some (mkStage None (over s || bool_decide (o = RoutingSetup)) (seen s)) else None
  | SetRoutingReady _ => fun _ => if bool_decide (fst <$> holds s = Some RoutingSetup) then Some s else None
  | GetRoutingReady => fun r => if bool_decide (holds s = None) && over s then Some (mkStage None true (Some r)) else None
  | LookPath _ => fun _ => marked RoutingSetup s
  | Log m => fun _ => if bool_decide (m = fallback_warning) then marked RoutingWarn s else Some s
  | CombinedOutput _ => fun _ => if bool_decide (fst <$> holds s = Some RoutingSetup) then Some s else None
  | DialTransparent proto _ sip _ => fun _ =>
      if bool_decide (seen s = Some true) && bool_decide (proto = lit "tcp") && not_loopback sip then Some s else None
  | _ => fun _ => Some s
  end.

(** The calls that have nothing to do with it. *)
Definition apart (c : sock) : bool :=
  match c with
  | OnceDo _ | OnceDone _ | SetRoutingReady _ | GetRoutingReady | LookPath _ | CombinedOutput _ | DialTransparent _ _ _ _ => false
  | Log m => negb (bool_decide (m = fallback_warning))
  | _ => true
  end.

Lemma apart_step transparency s c r : apart c = true -> stage_step transparency s c r = Some s.
Proof. destruct c; try done. simpl. by destruct (bool_decide _). Qed.

Definition idle (s : stage) : Prop := holds s = None.

Section one.
Context `{CM : Cmsg} (transparency : bool).
Abbreviation stracks := (tracks (stage_step transparency)).

Lemma stage_apart {A} (p : sio A) s (Q : A -> stage -> Prop) : only apart p -> (forall a, Q a s) -> stracks p s Q.
Proof. intros Hp HQ. apply (tracks_only _ apart); [done|intros; by apply apart_step|done]. Qed.

Lemma setup_tracks o sn :
  stracks setupTransparentRouting (mkStage (Some (RoutingSetup, false)) o sn)
    (fun _ s => s = mkStage (Some (RoutingSetup, true)) o sn).
Proof.
  assert (HL : forall (m : string) s, bool_decide (lit m = fallback_warning) = false ->
    stracks (_ <- scall (Log m) ;; Ret false) s (fun _ s' => s' = s)).
  { intros m s Hm. intros []. cbn [stage_step]. by rewrite Hm. }
  set (s := mkStage (Some (RoutingSetup, true)) o sn).
  assert (HC : forall args (k : result unit -> sio bool), (forall r, stracks (k r) s (fun _ s' => s' = s)) ->
    stracks (r <- scall (CombinedOutput args) ;; k r) s (fun _ s' => s' = s)).
  { intros args k Hk r. cbn [stage_step]. rewrite bool_decide_eq_true_2 by done. apply Hk. }
  intros r. cbn [stage_step]. unfold marked. rewrite bool_decide_eq_true_2 by done. change (mkStage (Some (RoutingSetup, true)) _ _) with s.
  destruct r as [[]|e]; [|by apply HL]. apply HC. intros [[]|e]; [|by apply HL].
  apply tracks_bind. eapply (tracks_mono _ _ _ (fun _ s' => s' = s)); [|by intros _ s' ->].
  induction routing_cmds as [|args l IH]; [done|]. cbn [for_all].
  intros r. cbn [stage_step]. rewrite bool_decide_eq_true_2 by done. destruct r as [[]|e]; [exact IH|].
  intros []. cbn [stage_step]. exact IH.
Qed.
Lemma stage_do s o r :
  transparency = true -> holds s = None ->
  stage_step transparency s (OnceDo o) r =
  Some (if r then mkStage (Some (o, false)) (over s) (seen s) else mkStage None (over s || bool_decide (o = RoutingSetup)) (seen s)).
Proof. intros Ht Hs. simpl. by rewrite bool_decide_eq_true_2, Ht. Qed.

Lemma setup_once_tracks :
  transparency = true -> stracks setup_once stage0 (fun _ s => s = mkStage None true None).
Proof.
  intros Ht r. rewrite stage_do by done.
  destruct r; [|done]. cbn [bind]. apply tracks_bind, tracks_bind. eapply tracks_mono; [apply setup_tracks|].
  intros ready s ->. intros []. cbn [stage_step]. rewrite bool_decide_eq_true_2 by done.
  intros []. cbn [stage_step]. by rewrite !bool_decide_eq_true_2.
Qed.

Lemma warn_once_tracks sn :
  transparency = true -> stracks warn_once (mkStage None true sn) (fun _ s => idle s).
Proof.
  intros Ht r. rewrite stage_do by done. destruct r; [|done].
  intros []. cbn [stage_step]. unfold marked. rewrite !bool_decide_eq_true_2 by done.
  intros []. cbn [stage_step]. by rewrite bool_decide_eq_true_2.
Qed.

Lemma wants_transparent_inv req :
  wants_transparent transparency req = true ->
  transparency = true /\ dialProto (Proto req) = lit "tcp" /\ not_loopback (SourceIP req) = true.
Proof.
  unfold wants_transparent. rewrite !andb_true_iff. intros [[[[Ht _] _] Hp] Hl]. by apply bool_decide_eq_true in Hp.
Qed.

Lemma transparent_tracks_stage req addr :
  stracks (transparent transparency req addr) stage0 (fun _ s => idle s).
Proof.
  unfold transparent. destruct (wants_transparent transparency req) eqn:Hw; [|done].
  apply wants_transparent_inv in Hw as (Ht & Hp & Hl).
  apply tracks_bind. eapply tracks_mono; [by apply setup_once_tracks|]. intros _ s ->.
  intros ready. cbn [stage_step]. rewrite bool_decide_eq_true_2 by done. cbn [over andb]. destruct ready.
  - intros r. cbn [stage_step seen]. rewrite !bool_decide_eq_true_2, Hl by done. cbn [andb]. destruct r as [conn|e]; [done|].
    intros []. cbn [stage_step]. rewrite bool_decide_eq_false_2 by done. done.
  - apply (tracks_bind _ warn_once). eapply tracks_mono; [by apply warn_once_tracks|]. done.
Qed.

Lemma handleConnectRequest_stage fuel c req :
  stracks (handleConnectRequest fuel transparency c req) stage0 (fun _ s => idle s).
Proof.
  unfold handleConnectRequest. destruct (negb _); [done|]. destruct (target_ip req) as [ip|e]; [|done].
  apply tracks_bind. eapply tracks_mono; [apply transparent_tracks_stage|]. intros conn s Hs.
  apply stage_apart; [|done]. apply only_ebind; [by destruct conn|]. intros x.
  apply only_bind; [|done]. apply only_ebind; [done|]. intros f. apply only_bind; [|done].
  apply only_ebind; [done|]. intros f'. apply only_bind; [|done]. by apply retry_eintr_only.
Qed.

Lemma serve_conn_stage text fuel c ns :
  stracks (serve_conn text fuel transparency c ns) stage0 (fun _ s => idle s).
Proof.
  assert (HR : stracks (routine fuel transparency c ns) stage0 (fun _ s => idle s)).
  { intros [req|e]; [|done]. cbn [stage_step bind]. destruct (bool_decide _).
    { apply stage_apart; [only_tac|done]. }
    destruct (bool_decide _); [|done]. destruct (bool_decide _); [apply handleConnectRequest_stage|].
    intros [[]|e]; [|done]. cbn [stage_step bind]. apply tracks_bind. eapply tracks_mono; [apply handleConnectRequest_stage|].
    intros r s Hs. apply stage_apart; [only_tac|done]. }
  apply tracks_bind. eapply tracks_mono; [exact HR|]. intros r s Hs. apply stage_apart; [|done].
  apply only_bind; [by destruct r|]. done.
Qed.
End one.

(** ** All of them together *)

Definition count {X} (f : X -> bool) (l : list X) : nat := length (List.filter f l).

Lemma count_snoc {X} (f : X -> bool) l a : count f (l ++ [a]) = (count f l + (if f a then 1 else 0))%nat.
Proof. unfold count. rewrite List.filter_app, length_app. simpl. by destruct (f a). Qed.

Definition is_done (c : sock) : bool := match c with OnceDone RoutingSetup => true | _ => false end.
Definition is_ready (c : sock) : bool := match c with SetRoutingReady true => true | _ => false end.
Definition is_transparent (c : sock) : bool := match c with DialTransparent _ _ _ _ => true | _ => false end.

(** What the stages of the goroutines, the memory and the calls so far have to
    do with each other. *)
Record coherent (transparency : bool) (ss : list stage) (d : childDriver) (h : list sock) : Prop := {
  co_holds i s o b : ss !! i = Some s -> holds s = Some (o, b) -> once_get o d = OnceRunning i;
  co_runs i o : once_get o d = OnceRunning i -> exists s b, ss !! i = Some s /\ holds s = Some (o, b);
  co_over i s : ss !! i = Some s -> over s = true -> routingSetup d = OnceOver;
  co_seen i s b : ss !! i = Some s -> seen s = Some b -> over s = true;
  co_saw i s : ss !! i = Some s -> seen s = Some true -> SetRoutingReady true ∈ h;
  co_new o : once_get o d = OnceNew -> count (marks o) h = 0%nat;
  co_unmarked i s o : ss !! i = Some s -> holds s = Some (o, false) -> count (marks o) h = 0%nat;
  co_once o : (count (marks o) h <= 1)%nat;
  co_done : routingSetup d = OnceOver -> exists c, c ∈ h /\ is_done c = true;
  co_ready : routingReady d = true -> SetRoutingReady true ∈ h;
  co_before : before is_done is_transparent h;
  co_before_ready : before is_ready is_transparent h;
  co_option : transparency = false -> routingSetup d = OnceNew;
}.

Section steps.
Context (transparency : bool).

Lemma elem_of_snoc {X} (l : list X) x a : x ∈ l -> x ∈ l ++ [a].
Proof. intros H. apply elem_of_app. by left. Qed.

Lemma done_snoc (h : list sock) x : (exists c, c ∈ h /\ is_done c = true) -> exists c, c ∈ h ++ [x] /\ is_done c = true.
Proof. intros (c & H & Hd). exists c. split; [by apply elem_of_snoc|done]. Qed.

(** A call that changes nothing and marks nothing. *)
Lemma coherent_quiet ss d h i s c :
  coherent transparency ss d h -> ss !! i = Some s -> (forall o, marks o c = false) ->
  (is_transparent c = true -> seen s = Some true) -> coherent transparency ss d (h ++ [c]).
Proof.
  intros I Hi Hm Ht. assert (HC : forall o, count (marks o) (h ++ [c]) = count (marks o) h).
  { intros o. rewrite count_snoc, Hm. lia. }
  destruct I. split; try done; try (intros *; rewrite HC; eauto).
  - intros j s1 Hj H. by eapply elem_of_snoc, co_saw0.
  - intros H. by apply done_snoc, co_done0.
  - intros H. by apply elem_of_snoc, co_ready0.
  - apply before_snoc; [done|]. intros H. apply co_done0, (co_over0 i s Hi), (co_seen0 i s true Hi), Ht, H.
  - apply before_snoc; [done|]. intros H. exists (SetRoutingReady true). split; [|done]. eapply co_saw0; [done|by apply Ht].
Qed.

(** A change of one stage and of the memory. *)
Lemma lookup_update (ss : list stage) i s' j s :
  <[i := s']> ss !! j = Some s -> (j = i /\ s = s') \/ (j <> i /\ ss !! j = Some s).
Proof. rewrite list_lookup_insert_Some. intros [(-> & -> & _)|[? ?]]; [by left|right; by split]. Qed.

Record change (i : nat) (s s' : stage) (d d' : childDriver) (h : list sock) (c : sock) : Prop := {
  ch_marks o : count (marks o) (h ++ [c]) = (count (marks o) h + (if bool_decide (holds s = Some (o, false) /\ holds s' = Some (o, true)) then 1 else 0))%nat;
  ch_transparent : is_transparent c = false;
  ch_holds o b : holds s' = Some (o, b) -> once_get o d' = OnceRunning i;
  ch_runs o j : once_get o d' = OnceRunning j ->
    (j = i /\ exists b, holds s' = Some (o, b)) \/ (j <> i /\ once_get o d = OnceRunning j);
  ch_others o j : j <> i -> once_get o d = OnceRunning j -> once_get o d' = OnceRunning j;
  ch_over : over s' = true -> routingSetup d' = OnceOver;
  ch_stays : routingSetup d = OnceOver -> routingSetup d' = OnceOver;
  ch_seen b : seen s' = Some b -> over s' = true;
  ch_saw : seen s' = Some true -> seen s = Some true \/ routingReady d = true;
  ch_new o : once_get o d' = OnceNew -> once_get o d = OnceNew;
  ch_unmarked o : holds s' = Some (o, false) -> count (marks o) h = 0%nat;
  ch_done : routingSetup d' = OnceOver -> routingSetup d = OnceOver \/ is_done c = true;
  ch_ready : routingReady d' = true -> routingReady d = true \/ c = SetRoutingReady true;
  ch_option : transparency = false -> routingSetup d' = OnceNew;
}.

Lemma coherent_change ss d h i s s' d' c :
  coherent transparency ss d h -> ss !! i = Some s -> change i s s' d d' h c ->
  coherent transparency (<[i := s']> ss) d' (h ++ [c]).
Proof.
  intros I Hi C. assert (Hlt : (i < length ss)%nat) by by eapply lookup_lt_Some.
  assert (HM : forall o, count (marks o) (h ++ [c]) = count (marks o) h \/
    holds s = Some (o, false) /\ holds s' = Some (o, true) /\ count (marks o) (h ++ [c]) = 1%nat).
  { intros o. rewrite (ch_marks _ _ _ _ _ _ _ C o). case_bool_decide as H; [|left; lia]. destruct H as [H1 H2]. right.
    rewrite (co_unmarked _ _ _ _ I _ _ _ Hi H1). by repeat split. }
  destruct C, I. split; try done.
  - intros j s1 o b [[-> ->]|[Hn Hj]]%lookup_update H; [by eapply ch_holds0|]. eapply ch_others0; [done|]. by eapply co_holds0.
  - intros j o [[-> [b Hb]]|[Hn Hj]]%ch_runs0; [exists s', b; by rewrite list_lookup_insert_eq|].
    destruct (co_runs0 _ _ Hj) as (s1 & b & H1 & H2). exists s1, b. by rewrite list_lookup_insert_ne.
  - intros j s1 [[-> ->]|[Hn Hj]]%lookup_update H; [by apply ch_over0|]. apply ch_stays0. by eapply co_over0.
  - intros j s1 b [[-> ->]|[Hn Hj]]%lookup_update; [by apply ch_seen0|by eapply co_seen0].
  - intros j s1 [[-> ->]|[Hn Hj]]%lookup_update H; apply elem_of_snoc; [|by eapply co_saw0].
    destruct (ch_saw0 H); [by eapply co_saw0|by apply co_ready0].
  - intros o H. destruct (HM o) as [->|(Hs & _ & _)]; [by apply co_new0, ch_new0|].
    apply ch_new0 in H. rewrite (co_holds0 _ _ _ _ Hi Hs) in H. done.
  - intros j s1 o [[-> ->]|[Hn Hj]]%lookup_update H.
    + destruct (HM o) as [->|(_ & Hs & _)]; [by apply ch_unmarked0|congruence].
    + destruct (HM o) as [->|(Hs & _ & _)]; [by eapply co_unmarked0|].
      pose proof (co_holds0 _ _ _ _ Hi Hs). pose proof (co_holds0 _ _ _ _ Hj H). congruence.
  - intros o. destruct (HM o) as [->|(_ & _ & ->)]; [done|lia].
  - intros [H|H]%ch_done0; [by apply done_snoc, co_done0|]. exists c. split; [apply elem_of_app; right; by left|done].
  - intros [H| ->]%ch_ready0; [by apply elem_of_snoc, co_ready0|]. apply elem_of_app. right. by left.
  - apply before_snoc; [done|]. by rewrite ch_transparent0.
  - apply before_snoc; [done|]. by rewrite ch_transparent0.
Qed.
Lemma once_get_set o o' st d : once_get o (once_set o' st d) = if bool_decide (o = o') then st else once_get o d.
Proof. by destruct o, o'. Qed.

Lemma count_unmarked h c o (P : Prop) `{!Decision P} :
  marks o c = false -> ~ P -> count (marks o) (h ++ [c]) = (count (marks o) h + (if bool_decide P then 1 else 0))%nat.
Proof. intros Hm HP. rewrite count_snoc, Hm, bool_decide_eq_false_2; done. Qed.

(** [Do] of a goroutine that runs the function. *)
Lemma change_first ss d h i s o :
  coherent transparency ss d h -> ss !! i = Some s -> holds s = None -> transparency = true -> once_get o d = OnceNew ->
  change i s (mkStage (Some (o, false)) (over s) (seen s)) d (once_set o (OnceRunning i) d) h (OnceDo o).
Proof.
  intros I Hi Hs Ht Ho. split; cbn [holds over seen]; try done.
  - intros o'. apply count_unmarked; [by destruct o'|]. by intros [_ ?].
  - intros o' b [= <- <-]. by rewrite once_get_set, bool_decide_eq_true_2.
  - intros o' j. rewrite once_get_set. case_bool_decide as E; [intros [= <-]; subst; left; eauto|].
    intros Hj. right. split; [|done]. intros ->. destruct (co_runs _ _ _ _ I _ _ Hj) as (s1 & b & H1 & H2). congruence.
  - intros o' j Hn Hj. rewrite once_get_set. case_bool_decide; [congruence|done].
  - intros H. pose proof (co_over _ _ _ _ I _ _ Hi H) as E. destruct o; simpl in *; congruence.
  - intros E. destruct o; simpl in *; congruence.
  - intros b H. by eapply (co_seen _ _ _ _ I).
  - by left.
  - intros o'. rewrite once_get_set. by case_bool_decide.
  - intros o' [= <-]. by apply (co_new _ _ _ _ I).
  - destruct o; simpl; [done|by left].
  - by destruct o; left.
  - congruence.
Qed.

(** [Do] of a goroutine that comes when it is over. *)
Lemma change_later ss d h i s o :
  coherent transparency ss d h -> ss !! i = Some s -> holds s = None -> once_get o d = OnceOver ->
  change i s (mkStage None (over s || bool_decide (o = RoutingSetup)) (seen s)) d d h (OnceDo o).
Proof.
  intros I Hi Hs Ho. split; cbn [holds over seen]; try done; try (by left); try apply (co_option _ _ _ _ I).
  - intros o'. apply count_unmarked; [by destruct o'|]. by intros [_ ?].
  - intros o' j Hj. right. split; [|done]. intros ->. destruct (co_runs _ _ _ _ I _ _ Hj) as (s1 & b & H1 & H2). congruence.
  - intros [H|H%bool_decide_eq_true]%orb_true_iff; [by eapply (co_over _ _ _ _ I)|by subst].
  - intros b H. by rewrite (co_seen _ _ _ _ I _ _ _ Hi H).
Qed.

(** The end of the function. *)
Lemma change_done ss d h i s o b :
  coherent transparency ss d h -> ss !! i = Some s -> holds s = Some (o, b) ->
  change i s (mkStage None (over s || bool_decide (o = RoutingSetup)) (seen s)) d (once_set o OnceOver d) h (OnceDone o).
Proof.
  intros I Hi Hs. pose proof (co_holds _ _ _ _ I _ _ _ _ Hi Hs) as Hr.
  split; cbn [holds over seen]; try done.
  - intros o'. apply count_unmarked; [by destruct o'|]. by intros [_ ?].
  - intros o' j. rewrite once_get_set. case_bool_decide as E; [done|]. intros Hj. right. split; [|done].
    intros ->. destruct (co_runs _ _ _ _ I _ _ Hj) as (s1 & b' & H1 & H2). congruence.
  - intros o' j Hn Hj. rewrite once_get_set. case_bool_decide; [congruence|done].
  - intros [H|H%bool_decide_eq_true]%orb_true_iff; [|by subst].
    pose proof (co_over _ _ _ _ I _ _ Hi H) as E. destruct o; simpl in *; congruence.
  - by destruct o.
  - intros b' H. by rewrite (co_seen _ _ _ _ I _ _ _ Hi H).
  - by left.
  - intros o'. rewrite once_get_set. by case_bool_decide.
  - destruct o; [by right|by left].
  - by destruct o; left.
  - intros Ht. pose proof (co_option _ _ _ _ I Ht). destruct o; simpl in *; congruence.
Qed.

(** The flag is written and read. *)
Lemma change_set ss d h i s b b' :
  coherent transparency ss d h -> ss !! i = Some s -> holds s = Some (RoutingSetup, b') ->
  change i s s d (set_ready b d) h (SetRoutingReady b).
Proof.
  intros I Hi Hs. assert (HG : forall o, once_get o (set_ready b d) = once_get o d) by by intros [].
  split; try done; try (by left); try apply (co_option _ _ _ _ I).
  - intros o'. apply count_unmarked; [by destruct o'|]. rewrite Hs. intros [[= <- ->] ?]. done.
  - intros o' b1 H. rewrite HG. by eapply (co_holds _ _ _ _ I).
  - intros o' j. rewrite HG. intros Hj. destruct (decide (j = i)) as [->|Hn]; [left; split; [done|]|by right].
    destruct (co_runs _ _ _ _ I _ _ Hj) as (s1 & b1 & H1 & H2). exists b1. congruence.
  - intros H. by eapply (co_over _ _ _ _ I).
  - intros b1 H. by eapply (co_seen _ _ _ _ I).
  - intros o' H. by eapply (co_unmarked _ _ _ _ I).
  - destruct b; [by right|done].
Qed.

Lemma change_get ss d h i s :
  coherent transparency ss d h -> ss !! i = Some s -> holds s = None -> over s = true ->
  change i s (mkStage None true (Some (routingReady d))) d d h GetRoutingReady.
Proof.
  intros I Hi Hs Ho. split; cbn [holds over seen]; try done; try (by left); try apply (co_option _ _ _ _ I).
  - intros o'. apply count_unmarked; [by destruct o'|]. by intros [_ ?].
  - intros o' j Hj. right. split; [|done]. intros ->. destruct (co_runs _ _ _ _ I _ _ Hj) as (s1 & b & H1 & H2). congruence.
  - intros _. by eapply (co_over _ _ _ _ I).
  - intros [= ->]. by right.
Qed.

(** The function makes its mark. *)
Lemma change_marked ss d h i s o c :
  coherent transparency ss d h -> ss !! i = Some s -> holds s = Some (o, false) ->
  (forall o', marks o' c = bool_decide (o' = o)) -> is_transparent c = false ->
  change i s (mkStage (Some (o, true)) (over s) (seen s)) d d h c.
Proof.
  intros I Hi Hs Hm Ht. split; cbn [holds over seen]; try done; try (by left); try apply (co_option _ _ _ _ I).
  - intros o'. rewrite count_snoc, Hm. case_bool_decide as E; [subst; by rewrite bool_decide_eq_true_2|].
    rewrite bool_decide_eq_false_2; [done|]. intros [H _]. congruence.
  - intros o' b [= <- <-]. by eapply (co_holds _ _ _ _ I).
  - intros o' j Hj. destruct (decide (j = i)) as [->|Hn]; [left; split; [done|]|by right].
    destruct (co_runs _ _ _ _ I _ _ Hj) as (s1 & b1 & H1 & H2). exists true. congruence.
  - intros H. by eapply (co_over _ _ _ _ I).
  - intros b1 H. by eapply (co_seen _ _ _ _ I).
Qed.
Lemma holds_fst s o : fst <$> holds s = Some o -> exists b, holds s = Some (o, b).
Proof. destruct (holds s) as [[o' b]|]; [|done]. intros [= ->]. by exists b. Qed.

Lemma marked_inv o s s' : marked o s = Some s' -> holds s = Some (o, false) /\ s' = mkStage (Some (o, true)) (over s) (seen s).
Proof. unfold marked. case_bool_decide; [|done]. by intros [= <-]. Qed.

(** A call that is answered from elsewhere. *)
Lemma other_step ss d h i s s' c (r : sres c) :
  coherent transparency ss d h -> ss !! i = Some s -> stage_step transparency s c r = Some s' ->
  match c with OnceDo _ | OnceDone _ | SetRoutingReady _ | GetRoutingReady => False | _ => True end ->
  coherent transparency (<[i := s']> ss) d (h ++ [c]).
Proof.
  intros I Hi Hs Hc.
  assert (HQ : s' = s -> (forall o, marks o c = false) -> (is_transparent c = true -> seen s = Some true) ->
    coherent transparency (<[i := s']> ss) d (h ++ [c])).
  { intros -> Hm Ht. rewrite list_insert_id by done. by eapply coherent_quiet. }
  destruct c; try done; try (injection Hs as <-; apply HQ; [done|by intros []|done]); cbn [stage_step] in Hs.
  - (* DialTransparent *) destruct (_ && _) eqn:G; [|done]. injection Hs as <-. apply andb_true_iff in G as [G _].
    apply andb_true_iff in G as [G%bool_decide_eq_true _]. apply HQ; [done|by intros []|done].
  - (* LookPath *) apply marked_inv in Hs as [Hs ->]. eapply coherent_change; [done..|].
    eapply change_marked; [done..| |done]. by intros [].
  - (* CombinedOutput *) case_bool_decide; [|done]. injection Hs as <-. apply HQ; [done|by intros []|done].
  - (* Log *) case_bool_decide as G.
    + apply marked_inv in Hs as [Hs ->]. eapply coherent_change; [done..|]. eapply change_marked; [done..| |done].
      intros []; simpl; [done|]. by rewrite !bool_decide_eq_true_2.
    + injection Hs as <-. apply HQ; [done| |done]. intros []; simpl; [done|by apply bool_decide_eq_false_2].
Qed.

Lemma coherent_step ss d h i s s' c r d' :
  coherent transparency ss d h -> ss !! i = Some s -> stage_step transparency s c r = Some s' -> answer i d c r d' ->
  coherent transparency (<[i := s']> ss) d' (h ++ [c]).
Proof.
  intros I Hi Hs Ha. destruct Ha as [o Ho|o Ho|o|b| |c r Hc]; [| | | | |by eapply other_step];
    cbn [stage_step] in Hs; (destruct (_ && _) eqn:G || destruct (bool_decide _) eqn:G); try done;
    injection Hs as <-; eapply coherent_change; try done.
  - apply andb_true_iff in G as [G%bool_decide_eq_true Ht]. by eapply change_first.
  - apply andb_true_iff in G as [G%bool_decide_eq_true Ht]. by eapply change_later.
  - apply bool_decide_eq_true, holds_fst in G as [b Hb]. by eapply change_done.
  - apply bool_decide_eq_true, holds_fst in G as [b' Hb]. by eapply change_set.
  - apply andb_true_iff in G as [G%bool_decide_eq_true Ho]. by eapply change_get.
Qed.

(** A goroutine that has not made a call yet. *)
Lemma coherent_accept ss d h : coherent transparency ss d h -> coherent transparency (ss ++ [stage0]) d h.
Proof.
  intros []. assert (HL : forall j s, (ss ++ [stage0]) !! j = Some s -> ss !! j = Some s \/ s = stage0).
  { intros j s [H|[_ H]]%lookup_app_Some; [by left|]. by apply list_lookup_singleton_Some in H as [_ <-]; right. }
  split; try done.
  - intros j s o b [H| ->]%HL; [by eapply co_holds0|done].
  - intros j o (s & b & H & Hb)%co_runs0. exists s, b. split; [by apply lookup_app_l_Some|done].
  - intros j s [H| ->]%HL; [by eapply co_over0|done].
  - intros j s b [H| ->]%HL; [by eapply co_seen0|done].
  - intros j s [H| ->]%HL; [by eapply co_saw0|done].
  - intros j s o [H| ->]%HL; [by eapply co_unmarked0|done].
Qed.

Lemma coherent_started : coherent transparency [] (memory (started transparency)) [].
Proof.
  split; try done; try apply before_nil; try (by intros []); [by intros i []|].
  intros o. unfold count. simpl. lia.
Qed.
End steps.

(** ** Executions end *)

(** One program of a list makes a call. *)
Definition next_of {A} (l l' : list (sio A)) : Prop :=
  exists i p q, l !! i = Some p /\ next p q /\ l' = <[i := q]> l.

Lemma next_ends {A} (p : sio A) : Acc (fun q p => next p q) p.
Proof. induction p as [a|c k IH]; constructor; [by intros q []|]. intros q [r ->]. apply IH. Qed.

Lemma next_of_ends {A} (l : list (sio A)) : Acc (fun l' l => next_of l l') l.
Proof.
  assert (HC : forall p : sio A, Acc (fun q p => next p q) p -> forall l, Acc (fun l' l => next_of l l') l ->
    Acc (fun l' l => next_of l l') (p :: l)).
  { induction 1 as [p Hp IHp]. induction 1 as [l' Hl IHl]. constructor. intros l1 (i & a & b & Hi & Hn & ->).
    destruct i as [|i]; simpl in *.
    - injection Hi as ->. apply IHp; [done|]. by constructor.
    - apply IHl. by exists i, a, b. }
  induction l as [|p l IH]; [|apply HC; [apply next_ends|done]].
  constructor. intros l' (i & a & b & Hi & _). by rewrite lookup_nil in Hi.
Qed.

Lemma pool_ends x : Acc (fun y x => exists i, moves i x y) x.
Proof.
  assert (H : forall l, Acc (fun l' l => next_of l l') l -> forall x, threads x = l -> Acc (fun y x => exists i, moves i x y) x).
  { induction 1 as [l Hl IH]. intros z <-. constructor. intros y [i Hm]. destruct Hm as [z c k r d Hk Ha].
    eapply IH; [|done]. exists i, (Call c k), (k r). split; [done|]. split; [by exists r|done]. }
  by eapply H, eq_refl; apply next_of_ends.
Qed.

(** ** The goroutines of a driver *)
Section driver.
Context `{CM : Cmsg} (text : error -> str) (fuel : nat) (ns : str) (transparency : bool).
Abbreviation pool_reachable := (reachable text fuel ns (started transparency)).

Definition at_stage (p : sio unit) (s : stage) : Prop := tracks (stage_step transparency) p s (fun _ s' => idle s').

Lemma pool_inv x :
  pool_reachable x ->
  sourceIPTransparent (memory x) = transparency /\
  exists ss, Forall2 at_stage (threads x) ss /\ coherent transparency ss (memory x) (map snd (history x)).
Proof.
  induction 1 as [|x y _ (Ht & ss & HF & I) Hs].
  { split; [done|]. exists []. split; [done|apply coherent_started]. }
  destruct Hs as [x c|i x y [x0 c k r d Hk Ha]].
  - split; [done|]. exists (ss ++ [stage0]). split; [|by apply coherent_accept].
    apply Forall2_app; [done|]. constructor; [|done]. simpl. rewrite Ht. apply serve_conn_stage.
  - split.
    { cbn [memory]. rewrite <- Ht. destruct Ha; try done; by destruct o. }
    destruct (Forall2_lookup_l _ _ _ _ _ HF Hk) as (s & Hi & HT). specialize (HT r).
    destruct (stage_step transparency s c r) as [s'|] eqn:E; [|done].
    exists (<[i := s']> ss). cbn [threads memory history]. split; [by apply Forall2_insert|].
    rewrite map_app. by eapply coherent_step.
Qed.

(** C28: however many connections are served at the same time, and in whatever
    order their goroutines run, the policy routing is set up at most once and
    the fallback is reported at most once; a connection with the address of the
    client is dialled only after the set-up is over and has succeeded; without
    the option there is no set-up. *)
Theorem routing_setup_once x :
  pool_reachable x ->
  let h := map snd (history x) in
  (count (marks RoutingSetup) h <= 1)%nat /\ (count (marks RoutingWarn) h <= 1)%nat /\
  before is_done is_transparent h /\ before is_ready is_transparent h /\
  (transparency = false -> count (marks RoutingSetup) h = 0%nat).
Proof.
  intros Hx h. destruct (pool_inv x Hx) as (_ & ss & _ & I).
  split; [apply (co_once _ _ _ _ I RoutingSetup)|]. split; [apply (co_once _ _ _ _ I RoutingWarn)|].
  split; [apply (co_before _ _ _ _ I)|]. split; [apply (co_before_ready _ _ _ _ I)|].
  intros Ht. apply (co_new _ _ _ _ I RoutingSetup), (co_option _ _ _ _ I Ht).
Qed.
(** Whoever does not call [Do] can go on. *)
Lemma can_answer i d c : match c with OnceDo _ => False | _ => True end -> exists r d', answer i d c r d'.
Proof.
  destruct c; intros Hc; try done; try (by eexists (ok_sock _), d; apply answer_other).
  - eexists tt, _. apply answer_done.
  - eexists tt, _. apply answer_set.
  - eexists _, d. apply answer_get.
Qed.

Lemma can_move x i c k r d :
  threads x !! i = Some (Call c k) -> answer i (memory x) c r d -> exists y, moves i x y.
Proof. intros Hk Ha. eexists. by apply move. Qed.

Lemma someone_moves x i c k :
  pool_reachable x -> threads x !! i = Some (Call c k) -> exists j y, moves j x y.
Proof.
  intros Hx Hk. destruct (pool_inv x Hx) as (_ & ss & HF & I).
  assert (HO : (exists o, c = OnceDo o) \/ match c with OnceDo _ => False | _ => True end) by (destruct c; eauto).
  destruct HO as [[o ->]|Hc].
  2: { destruct (can_answer i (memory x) c Hc) as (r & d & Ha). exists i. by eapply can_move. }
  destruct (once_get o (memory x)) as [|j|] eqn:E.
  - exists i. eapply can_move; [done|]. by apply answer_first.
  - destruct (co_runs _ _ _ _ I j o E) as (s & b & Hj & Hb). destruct (Forall2_lookup_r _ _ _ _ _ HF Hj) as (p & Hp & HT).
    exists j. destruct p as [u|c' k']; [unfold at_stage, idle in HT; simpl in HT; congruence|].
    assert (Hc : match c' with OnceDo _ => False | _ => True end).
    { destruct c'; try done. specialize (HT true). simpl in HT. by rewrite Hb in HT. }
    destruct (can_answer j (memory x) c' Hc) as (r & d & Ha). by eapply can_move.
  - exists i. eapply can_move; [done|]. by apply answer_later.
Qed.

(** C29: no goroutine waits for ever for another one: when no more connections are
    accepted, every execution comes to an end, and in the end every goroutine
    has returned. *)
Theorem goroutines_complete x :
  pool_reachable x ->
  Acc (fun y x => exists i, moves i x y) x /\
  ((forall i y, ~ moves i x y) -> Forall (fun p => p = Ret tt) (threads x)).
Proof.
  intros Hx. split; [apply pool_ends|]. intros Hn. apply Forall_lookup. intros i [[]|c k] Hk; [done|].
  destruct (someone_moves x i c k Hx Hk) as (j & y & Hm). by destruct (Hn j y).
Qed.
End driver.

(** ** A concrete run: two clients at the same time *)
Section play.
#[local] Existing Instance plain_cmsg.

(** A kernel on which everything works, with a request for a remote client. *)
Definition client_sock (c : sock) : sres c :=
  match c return sres c with
  | RecvRequest _ => Ok (mkRequest RequestTypeConnect "tcp4" [] 80 "192.168.1.2" "192.168.1.2" "203.0.113.5" 40000)
  | c => ok_sock c
  end.

Definition reply (i : nat) (d : childDriver) (c : sock) : option (sres c * childDriver) :=
  match c return option (sres c * childDriver) with
  | OnceDo o =>
      match once_get o d with
      | OnceNew => Some (true, once_set o (OnceRunning i) d)
      | OnceOver => Some (false, d)
      | OnceRunning _ => None
      end
  | OnceDone o => Some (tt, once_set o OnceOver d)
  | SetRoutingReady b => Some (tt, set_ready b d)
  | GetRoutingReady => Some (routingReady d, d)
  | c => Some (client_sock c, d)
  end.

Lemma reply_answer i d c r d' : reply i d c = Some (r, d') -> answer i d c r d'.
Proof.
  destruct c; cbn [reply]; try (intros [= <- <-]; by apply answer_other).
  - destruct (once_get o d) eqn:E; [|done|]; intros [= <- <-]; [by apply answer_first|by apply answer_later].
  - intros [= <- <-]. apply answer_done.
  - intros [= <- <-]. apply answer_set.
  - intros [= <- <-]. apply answer_get.
Qed.

(** [None] accepts a connection, [Some i] lets goroutine [i] go on if it can. *)
Definition turn (fuel : nat) (x : pool) (choice : option nat) : pool :=
  match choice with
  | None => mkPool (threads x ++ [serve_conn (fun _ => []) fuel (sourceIPTransparent (memory x)) 3 []]) (memory x) (history x)
  | Some i =>
      match threads x !! i with
      | Some (Call c k) =>
          match reply i (memory x) c with
          | Some (r, d) => mkPool (<[i := k r]> (threads x)) d (history x ++ [(i, c)])
          | None => x
          end
      | _ => x
      end
  end.

Lemma choices_reachable fuel l x0 x :
  reachable (fun _ => []) fuel [] x0 x -> reachable (fun _ => []) fuel [] x0 (fold_left (turn fuel) l x).
Proof.
  revert x. induction l as [|o l IH]; intros x Hx; simpl; [done|]. apply IH. destruct o as [i|]; simpl.
  - destruct (threads x !! i) as [[|c k]|] eqn:E; [done| |done]. destruct (reply i (memory x) c) as [[r d]|] eqn:Er; [|done].
    eapply reach_step; [exact Hx|]. apply (step_move _ _ _ i), move; [done|by apply reply_answer].
  - eapply reach_step; [exact Hx|]. apply step_accept.
Qed.
End play.

(** The two take turns. *)
Definition two_clients : list (option nat) := None :: None :: concat (repeat [Some 0; Some 1]%nat 50).
Definition two_served : pool := fold_left (turn 1) two_clients (started true).

Theorem routing_setup_once_witness :
  count is_transparent (map snd (history two_served)) = 2%nat /\
  count (marks RoutingSetup) (map snd (history two_served)) = 1%nat /\
  before is_done is_transparent (map snd (history two_served)).
Proof.
  assert (Hx : reachable (H := plain_cmsg) (fun _ => []) 1 [] (started true) two_served) by apply choices_reachable, reach_refl.
  destruct (routing_setup_once (CM := plain_cmsg) (fun _ => []) 1 [] true two_served Hx) as (_ & _ & H & _).
  split; [vm_compute; reflexivity|]. split; [vm_compute; reflexivity|exact H].
Defined.

Theorem goroutines_complete_witness :
  length (threads two_served) = 2%nat /\ Forall (fun p => p = Ret tt) (threads two_served).
Proof.
  assert (Hx : reachable (H := plain_cmsg) (fun _ => []) 1 [] (started true) two_served) by apply choices_reachable, reach_refl.
  assert (E : threads two_served = [Ret tt; Ret tt]) by (vm_compute; reflexivity).
  split; [by rewrite E|]. apply (goroutines_complete (CM := plain_cmsg) (fun _ => []) 1 [] true two_served Hx).
  intros i y Hm. destruct Hm as [x c k r d Hk _]. rewrite E in Hk. by destruct i as [|[|i]].
Defined.
