(* ===== verification/Connect.v ===== *)
(** * A connection through the builtin port driver, both processes together

    [ConnectToChild] of the parent (PortMsg.v) and the goroutine [serve_conn]
    of the child (PortChild.v) run at the same time, joined by a UNIX socket
    that carries the request one way and packets with control messages the
    other way.  A descriptor that is sent arrives under another number.  The
    kernel may answer every other call of the two as it likes and may let any
    send or receive fail; the order of the two is arbitrary.

    [connection_handed] says what the descriptor is that the parent gets;
    [connection_completes] that it gets one, and that nobody waits for ever,
    when nothing fails. *)
From S2P Require Import Prelude GoStrings NetIP PortSpec Effects Framing PortMsg PortChild.
Import msg msg_ops builtin_child.

(** ** The socket *)
Module wire.

(** What the child has written and the parent has not read yet: data with a
    control message (which may be empty), or the end of the stream. *)
Inductive packet : Set := Data (oob : str) | End.

Section wire.
Context `{Cmsg}.

(** A control message arrives: none, or a descriptor under a new number. *)
Inductive arrives : packet -> str -> Prop :=
  | arrives_plain : arrives (Data []) []
  | arrives_fd fd g : 0 <= g < 2 ^ 31 -> arrives (Data (UnixRights fd)) (UnixRights g)
  | arrives_end : arrives End [].

(** [f] was made from the connection [c]. *)
Definition file_of (c : Z) (t : trace sres) (f : Z) : bool :=
  existsb (fun e : event sres =>
    match e with existT (ConnFile x) (Ok y) => (x =? c) && (y =? f) | _ => false end) t.

(** What an event of the child writes to the connection [c], after [t]. *)
Definition puts (c : Z) (t : trace sres) (e : event sres) : list packet :=
  match e with
  | existT (Sendmsg f _ oob) (Some (Ok _)) => if file_of c t f then [Data oob] else []
  | existT (SendReply x _) (Ok _) => if x =? c then [Data []] else []
  | existT (CloseConn x) _ => if x =? c then [End] else []
  | _ => []
  end.

Context {A B : Type}.

Record conf : Type := mkConf {
  asker : sio A;
  server : sio B;
  requests : list Request;        (** sent, not received *)
  packets : list packet;          (** sent, not read *)
  sent : list packet;             (** every packet that was sent *)
  got : list (packet * str);      (** what was read, and as what it arrived *)
  ptrace : trace sres;            (** what the two have done *)
  ctrace : trace sres;
}.

Context (p c : Z).   (** the two ends of the socket *)

Definition own_of_asker (x : sock) : bool :=
  match x with SendRequest y _ | ReadMsgUnix y _ => y =? p | _ => false end.
Definition own_of_server (x : sock) : bool := match x with RecvRequest y => y =? c | _ => false end.

Inductive step : conf -> conf -> Prop :=
  | ask_other x a k r :
      asker x = Call a k -> own_of_asker a = false ->
      step x (mkConf (k r) (server x) (requests x) (packets x) (sent x) (got x) (ptrace x ++ [ev a r]) (ctrace x))
  | ask_send x q k r :
      asker x = Call (SendRequest p q) k ->
      step x (mkConf (k r) (server x) (requests x ++ (if is_ok r then [q] else [])) (packets x) (sent x) (got x)
        (ptrace x ++ [ev (SendRequest p q) r]) (ctrace x))
  | ask_read x n k pk l s :
      asker x = Call (ReadMsgUnix p n) k -> packets x = pk :: l -> arrives pk s -> Z.of_nat (length s) <= n ->
      step x (mkConf (k (Some (Ok s))) (server x) (requests x) (match pk with End => packets x | Data _ => l end)
        (sent x) (got x ++ [(pk, s)]) (ptrace x ++ [ev (ReadMsgUnix p n) (Some (Ok s))]) (ctrace x))
  | ask_read_fails x n k (r : option error) :
      asker x = Call (ReadMsgUnix p n) k ->
      let r := match r with Some e => Some (Err e) | None => None end in
      step x (mkConf (k r) (server x) (requests x) (packets x) (sent x) (got x)
        (ptrace x ++ [ev (ReadMsgUnix p n) r]) (ctrace x))
  | serve_other x a k r :
      server x = Call a k -> own_of_server a = false ->
      let out := puts c (ctrace x) (ev a r) in
      step x (mkConf (asker x) (k r) (requests x) (packets x ++ out) (sent x ++ out) (got x)
        (ptrace x) (ctrace x ++ [ev a r]))
  | serve_recv x k q l :
      server x = Call (RecvRequest c) k -> requests x = q :: l ->
      step x (mkConf (asker x) (k (Ok q)) l (packets x) (sent x) (got x)
        (ptrace x) (ctrace x ++ [ev (RecvRequest c) (Ok q)]))
  | serve_recv_fails x k e :
      server x = Call (RecvRequest c) k ->
      step x (mkConf (asker x) (k (Err e)) (requests x) (packets x) (sent x) (got x)
        (ptrace x) (ctrace x ++ [ev (RecvRequest c) (Err e)])).

Inductive reachable (x0 : conf) : conf -> Prop :=
  | reach_refl : reachable x0 x0
  | reach_step x y : reachable x0 x -> step x y -> reachable x0 y.
End wire.
Arguments conf A B : clear implicits.
End wire.
Import wire.

(** The calls of which the failure makes the connection fail; what goes wrong
    with the transparent part does not. *)
Definition failure (c : sock) : sres c -> bool :=
  match c return sres c -> bool with
  | SendRequest _ _ | CloseWrite _ | CloseRead _ | EnterNetNS _ | SendReply _ _ => fun r => negb (is_ok r)
  | RecvRequest _ => fun r => negb (is_ok r)
  | Dial _ _ | ConnFile _ => fun r => negb (is_ok r)
  | ReadMsgUnix _ _ => fun r => match r with Some (Ok _) => false | _ => true end
  | Sendmsg _ _ _ => fun r => match r with Some (Ok _) => false | _ => true end
  | _ => fun _ => false
  end.

Definition failed (e : event sres) : bool := let '(existT c r) := e in failure c r.

Lemma ok_sock_good c : failed (ev c (ok_sock c)) = false.
Proof. by destruct c. Qed.

(** What went over the socket in a trace. *)
Definition request_to (p : Z) (e : event sres) : option Request :=
  match e with existT (SendRequest y q) (Ok _) => if y =? p then Some q else None | _ => None end.
Definition read_from (p : Z) (e : event sres) : option str :=
  match e with existT (ReadMsgUnix y _) (Some (Ok s)) => if y =? p then Some s else None | _ => None end.
Definition request_from (c : Z) (e : event sres) : option Request :=
  match e with existT (RecvRequest y) (Ok q) => if y =? c then Some q else None | _ => None end.

Lemma omap_snoc {X Y} (f : X -> option Y) l x :
  omap f (l ++ [x]) = omap f l ++ match f x with Some y => [y] | None => [] end.
Proof. rewrite omap_app. simpl. by destruct (f x). Qed.

#[export] Instance Request_eq_dec : EqDecision Request.
Proof. solve_decision. Defined.

(** ** The parent *)
Section asking.
Context `{CM : Cmsg} (p : Z) (spec : port.Spec) (src : option Addr).

Definition gateway (r : result (list IfAddr)) : str := match r with Ok l => first_v4 l | Err _ => [] end.

Record asked : Set := mkAsked {
  a_gw : option str;
  a_req : option Request;
  a_oob : option str;
  a_failed : bool;
}.

Definition ask_step (s : asked) (c : sock) : sres c -> option asked :=
  match c return sres c -> option asked with
  | InterfaceAddrs => fun r =>
      if bool_decide (a_gw s = None) then Some (mkAsked (Some (gateway r)) (a_req s) (a_oob s) (a_failed s)) else None
  | SendRequest y q => fun r =>
      if bool_decide (y = p /\ a_req s = None /\ (fun gw => connect_request spec gw src) <$> a_gw s = Some q)
      then Some (mkAsked (a_gw s) (if is_ok r then Some q else None) (a_oob s) (a_failed s || negb (is_ok r))) else None
  | ReadMsgUnix y n => fun r =>
      if bool_decide (y = p /\ n = CmsgSpace 4 /\ is_Some (a_req s) /\ a_oob s = None)
      then Some (match r with
                 | Some (Ok o) => mkAsked (a_gw s) (a_req s) (Some o) (a_failed s)
                 | _ => mkAsked (a_gw s) (a_req s) None true
                 end) else None
  | c => fun r => Some (mkAsked (a_gw s) (a_req s) (a_oob s) (a_failed s || failure c r))
  end.

Definition asked0 : asked := mkAsked None None None false.

(** The result of the parent is the descriptor of what it has read. *)
Definition answered (r : result Z) (a : asked) : Prop :=
  (forall g, r = Ok g -> exists s, a_oob a = Some s /\ Z.of_nat (length s) = CmsgSpace 4 /\ parseFDFromOOB s = Ok g) /\
  (a_failed a = false -> exists s, a_oob a = Some s /\
     (Z.of_nat (length s) = CmsgSpace 4 -> r = parseFDFromOOB s)).

Lemma read_tracks m a (Q : result str -> asked -> Prop) :
  is_Some (a_req a) -> a_oob a = None ->
  (forall s b, Q (Ok s) (mkAsked (a_gw a) (a_req a) (Some s) b)) ->
  (forall e, Q (Err e) (mkAsked (a_gw a) (a_req a) None true)) ->
  tracks ask_step (retry_eintr (S m) (scall (ReadMsgUnix p (CmsgSpace 4)))) a Q.
Proof.
  revert a. induction m as [|m IH]; intros a Hr Ho HO HE; cbn [retry_eintr scall bind tracks ask_step];
    intros r; rewrite bool_decide_eq_true_2 by done; (destruct r as [[s|e]|]; [apply HO|apply HE|]).
  - apply HE.
  - by apply IH.
Qed.

Lemma ConnectToChild_tracks m :
  tracks ask_step (ConnectToChild (S m) p spec src) asked0 answered.
Proof.
  intros r. cbn [ask_step asked0 a_gw]. rewrite bool_decide_eq_true_2 by done. cbn [bind].
  change (match r with Err _ => [] | Ok l => first_v4 l end) with (gateway r). cbn [bind].
  intros r1. cbn [ask_step]. rewrite bool_decide_eq_true_2 by done. destruct r1 as [[]|e]; [|by split].
  intros r2. cbn [ask_step]. destruct r2 as [[]|e]; [|by split]. cbn [is_ok negb orb].
  apply (tracks_bind ask_step (retry_eintr (S m) _)). apply read_tracks; [done|done| |by split].
  intros s b. case (Z.eqb_spec (Z.of_nat (length s)) (CmsgSpace 4)) as [E|E]; cbn [negb].
  2: { split; [done|]. intros _. exists s. split; [done|]. intros H. by destruct (E H). }
  destruct (parseFDFromOOB s) as [g|e] eqn:Ep.
  2: { split; [done|]. intros _. exists s. split; [done|]. intros _. by rewrite Ep. }
  intros [[]|e]; cbn.
  - split; [intros g' [= <-]; eauto|]. intros _. exists s. by rewrite Ep.
  - rewrite orb_true_r. by split.
Qed.

(** What the state says of the trace. *)
Record asks (t : trace sres) (a : asked) : Prop := {
  asks_gw gw : a_gw a = Some gw -> exists r, ev InterfaceAddrs r ∈ t /\ gw = gateway r;
  asks_req q : a_req a = Some q -> exists gw, a_gw a = Some gw /\ q = connect_request spec gw src;
  asks_reqs : omap (request_to p) t = match a_req a with Some q => [q] | None => [] end;
  asks_oob : omap (read_from p) t = match a_oob a with Some s => [s] | None => [] end;
  asks_order : a_req a = None -> a_oob a = None;
  asks_failed : a_failed a = existsb failed t;
}.

Lemma asks_steps t a : steps ask_step asked0 t = Some a -> asks t a.
Proof.
  revert a. induction t as [|[c r] t IH] using rev_ind; intros a; [intros [= <-]; by split|].
  rewrite steps_app. destruct (steps _ _ t) as [a0|]; [|done]. specialize (IH a0 eq_refl).
  cbn [steps]. destruct (ask_step a0 c r) as [a1|] eqn:E; [|done]. intros [= <-]. destruct IH as [I1 I2 I3 I4 IO I5].
  assert (Hgw : forall gw, a_gw a0 = Some gw -> exists r', ev InterfaceAddrs r' ∈ t ++ [ev c r] /\ gw = gateway r').
  { intros gw (r' & H & ->)%I1. exists r'. split; [|done]. apply elem_of_app. by left. }
  assert (Hk : forall b b' : bool, b = existsb failed t -> (b || b') = existsb failed t || (b' || false)) by
    (intros b b' ->; by rewrite orb_false_r).
  destruct c; cbn [ask_step] in E; try (case_bool_decide as HG; [|done]); injection E as <-;
    split; cbn [a_gw a_req a_oob a_failed]; try done; rewrite ?omap_snoc, ?existsb_app, ?I3, ?I4;
    cbn [request_to read_from existsb failed failure]; rewrite ?app_nil_r, ?orb_false_r; try done;
    try (by apply Hk); try (by rewrite I5, ?orb_false_r).
  - intros gw [= <-]. exists r. split; [apply elem_of_app; right; by left|done].
  - by intros q (gw & H & _)%I2; rewrite HG in H.
  - destruct HG as (-> & HN & HQ). destruct r as [[]|e]; [|done]. intros q [= <-].
    apply fmap_Some in HQ as (gw & -> & ->). by exists gw.
  - destruct HG as (-> & -> & _). destruct r as [[]|e]; [|done]. by rewrite Z.eqb_refl.
  - destruct HG as (_ & H%IO & _). done.
  - by destruct r as [[s|e]|].
  - by destruct r as [[s|e]|].
  - by destruct r as [[s|e]|].
  - destruct HG as (-> & _ & _ & ->). destruct r as [[s|e]|]; [|done..]. by rewrite Z.eqb_refl.
  - destruct HG as (_ & _ & [q Hq] & _). rewrite Hq. by destruct r as [[s|e]|].
  - destruct r as [[s|e]|]; cbn; by rewrite ?I5, ?orb_false_r, ?orb_true_r.
Qed.
End asking.

(** ** The child *)
Section serving.
Context `{CM : Cmsg} (c : Z) (transparency : bool) (ns : str).

(** A request that the child does not refuse. *)
Definition servable (q : Request) : bool :=
  bool_decide (Type_ q = RequestTypeConnect) && bool_decide (Proto q ∈ known_protos) && is_ok (target_ip q).

Record served : Set := mkServed {
  s_req : option Request;
  s_in : bool;              (** inside the detached network namespace *)
  s_conn : option Z;        (** the connection to the target *)
  s_file : option Z;        (** its descriptor *)
  s_dup : option Z;         (** the descriptor of [c] *)
  s_out : list packet;
  s_failed : bool;
}.

Definition served0 : served := mkServed None false None None None [] false.

(** [addr] is the target of the request over [proto], and this is the place to
    dial it from. *)
Definition targets (s : served) (proto addr : str) : option Request :=
  q ← s_req s;
  if bool_decide (Proto q ∈ known_protos) && bool_decide (proto = dialProto (Proto q)) &&
     match target_ip q with Ok ip => bool_decide (addr = net.JoinHostPort ip (strconv.Itoa (Port q))) | Err _ => false end &&
     (bool_decide (ns = []) || s_in s)
  then Some q else None.

Definition failing (s : served) (b : bool) : served :=
  mkServed (s_req s) (s_in s) (s_conn s) (s_file s) (s_dup s) (s_out s) (s_failed s || b).
Definition put (s : served) (l : list packet) : served :=
  mkServed (s_req s) (s_in s) (s_conn s) (s_file s) (s_dup s) (s_out s ++ l) (s_failed s).
Definition dialled (s : served) (r : result Z) : served :=
  mkServed (s_req s) (s_in s) (match r with Ok x => Some x | Err _ => None end) (s_file s) (s_dup s) (s_out s) (s_failed s).
Definition entered (s : served) (b : bool) : served :=
  mkServed (s_req s) b (s_conn s) (s_file s) (s_dup s) (s_out s) (s_failed s).

Definition serve_step (s : served) (x : sock) : sres x -> option served :=
  match x return sres x -> option served with
  | RecvRequest y => fun r =>
      if bool_decide (y = c /\ s_req s = None)
      then Some (mkServed (match r with Ok q => Some q | Err _ => None end) (s_in s) (s_conn s) (s_file s) (s_dup s)
                   (s_out s) (s_failed s || negb (is_ok r)))
      else None
  | EnterNetNS path => fun r =>
      if bool_decide (path = ns) then Some (failing (entered s (is_ok r)) (negb (is_ok r))) else None
  | LeaveNetNS => fun _ => Some (entered s false)
  | Dial proto addr => fun r =>
      if bool_decide (s_conn s = None /\ is_Some (targets s proto addr)) then Some (failing (dialled s r) (negb (is_ok r))) else None
  | DialTransparent proto addr sip sport => fun r =>
      match targets s proto addr with
      | Some q =>
          if bool_decide (s_conn s = None) && wants_transparent transparency q && bool_decide (sip = SourceIP q) && (sport =? SourcePort q)
          then Some (dialled s r) else None
      | None => None
      end
  | ConnFile y => fun r =>
      let r' := match r with Ok f => Some f | Err _ => None end in
      match s_file s, s_conn s with
      | None, Some conn =>
          if y =? conn then Some (mkServed (s_req s) (s_in s) (s_conn s) r' (s_dup s) (s_out s) (s_failed s || negb (is_ok r))) else None
      | Some _, _ =>
          if (y =? c) && bool_decide (s_dup s = None)
          then Some (mkServed (s_req s) (s_in s) (s_conn s) (s_file s) r' (s_out s) (s_failed s || negb (is_ok r))) else None
      | None, None => None
      end
  | Sendmsg f _ oob => fun r =>
      if bool_decide (s_dup s = Some f /\ UnixRights <$> s_file s = Some oob)
      then Some (match r with Some (Ok _) => put s [Data oob] | _ => failing s true end) else None
  | SendReply y _ => fun r =>
      Some (if is_ok r then put s (if y =? c then [Data []] else []) else failing s true)
  | CloseConn y => fun _ => Some (put s (if y =? c then [End] else []))
  | x => fun r => Some (failing s (failure x r))
  end.

(** It is decided what the parent reads first. *)
Definition settled (s : served) : Prop :=
  s_failed s = true \/ (exists fd l, s_out s = Data (UnixRights fd) :: l) \/
  (exists q, s_req s = Some q /\ servable q = false).

Lemma settled_failing s b : settled s -> settled (failing s b).
Proof. intros [H|[H|H]]; [left; simpl; by rewrite H|right; by left|right; by right]. Qed.
Lemma settled_failed s : settled (failing s true).
Proof. left. apply orb_true_r. Qed.
Lemma settled_put s l : settled s -> settled (put s l).
Proof. intros [H|[(fd & l' & H)|H]]; [by left| |right; by right]. right. left. exists fd, (l' ++ l). simpl. by rewrite H. Qed.
(** The calls that come last do not change that. *)
Definition closing (x : sock) : bool := match x with CloseConn _ | LeaveNetNS | SendReply _ _ => true | _ => false end.

Lemma closing_settled {A} (q : sio A) s (Q : A -> served -> Prop) :
  only closing q -> settled s -> (forall a s', settled s' -> Q a s') -> tracks serve_step q s Q.
Proof.
  intros Hq Hs HQ. revert s Hs. induction q as [a|x k IH]; intros s Hs; [by apply HQ|]. destruct Hq as [Hx Hk].
  intros r. destruct x; try done; cbn [serve_step]; apply IH; try done.
  - by apply settled_put.
  - destruct (is_ok r); [by apply settled_put|apply settled_failed].
Qed.

Lemma closing_defer {A} (q : sio A) d s :
  tracks serve_step q s (fun _ s' => settled s') -> only closing d -> tracks serve_step (defer d q) s (fun _ s' => settled s').
Proof.
  intros Hq Hd. apply tracks_bind. eapply tracks_mono; [exact Hq|]. intros a s' Hs.
  apply closing_settled; [by apply only_bind|done|done].
Qed.

Lemma sendmsg_tracks n s f fd :
  s_dup s = Some f -> s_file s = Some fd -> s_out s = [] \/ settled s ->
  tracks serve_step (retry_eintr (S n) (scall (Sendmsg f "dummy" (UnixRights fd)))) s (fun _ s' => settled s').
Proof.
  revert s. induction n as [|n IH]; intros s Hd Hf Ho; cbn [retry_eintr scall bind tracks serve_step];
    intros r; rewrite bool_decide_eq_true_2 by (by rewrite Hf); destruct r as [[[]|e]|]; try apply settled_failed.
  1,2: destruct Ho as [Ho|Ho]; [right; left; simpl; rewrite Ho; by exists fd, []|by apply settled_put].
  apply IH; [done..|]. right. apply settled_failed.
Qed.

Lemma send_conn_tracks n s conn :
  s_conn s = Some conn -> s_file s = None -> s_dup s = None -> s_out s = [] ->
  tracks serve_step (send_conn (S n) c conn) s (fun _ s' => settled s').
Proof.
  intros Hc Hf Hd Ho. unfold send_conn, ebind. intros r. cbn [serve_step]. rewrite Hf, Hc, Z.eqb_refl.
  destruct r as [fd|e]; [|apply settled_failed]. apply closing_defer; [|by split].
  intros r. cbn [serve_step s_file]. rewrite Z.eqb_refl, bool_decide_eq_true_2 by done. cbn [andb].
  destruct r as [f|e]; [|apply settled_failed]. apply closing_defer; [|by split].
  apply sendmsg_tracks; [done..|]. by left.
Qed.

Lemma failing_false s : failing s false = s.
Proof. destruct s. unfold failing. simpl. by rewrite orb_false_r. Qed.

Lemma unseen_step s x r : routing_call x = true -> serve_step s x r = Some s.
Proof. destruct x; try done; intros _; cbn; by rewrite failing_false. Qed.

(** Nothing was dialled yet. *)
Definition fresh (s : served) : Prop := s_conn s = None /\ s_file s = None /\ s_dup s = None /\ s_out s = [].

Lemma unseen_bind {A B} (q : sio A) (k : A -> sio B) s (Q : B -> served -> Prop) :
  only routing_call q -> (forall a, tracks serve_step (k a) s Q) -> tracks serve_step (bind q k) s Q.
Proof. intros Hq Hk. apply (tracks_quiet_bind _ routing_call); [intros; by apply unseen_step|done|done]. Qed.

Lemma transparent_tracks q s addr :
  targets s (dialProto (Proto q)) addr = Some q -> s_conn s = None ->
  tracks serve_step (transparent transparency q addr) s (fun o s' => s' = match o with Some conn => dialled s (Ok conn) | None => s end).
Proof.
  intros HT Hc. unfold transparent. destruct (wants_transparent transparency q) eqn:Hw; [|done].
  apply unseen_bind; [apply setup_once_only|]. intros _.
  apply unseen_bind; [by split|]. intros [|].
  2: { apply unseen_bind; [apply warn_once_only|done]. }
  intros r. cbn [serve_step]. rewrite HT, bool_decide_eq_true_2, Hw, bool_decide_eq_true_2, Z.eqb_refl by done. cbn [andb].
  destruct r as [conn|e]; [done|]. cbn [bind]. apply unseen_bind; [by split|]. intros _. cbn.
  destruct s. simpl in Hc. by subst.
Qed.

Lemma handleConnectRequest_tracks n q s :
  fresh s -> s_req s = Some q -> (ns = [] \/ s_in s = true) ->
  tracks serve_step (handleConnectRequest (S n) transparency c q) s (fun _ s' => settled s').
Proof.
  intros (Hc & Hf & Hd & Ho) Hq Hin. unfold handleConnectRequest.
  assert (Hbad : servable q = false -> settled s) by (intros H; right; right; by exists q).
  destruct (bool_decide (Proto q ∈ known_protos)) eqn:Ep; cbn [negb]; [|apply Hbad; unfold servable; by rewrite Ep, andb_false_r].
  destruct (target_ip q) as [ip|e] eqn:Ei; [|apply Hbad; unfold servable; by rewrite Ei, andb_false_r].
  set (addr := net.JoinHostPort ip _).
  assert (HT : targets s (dialProto (Proto q)) addr = Some q).
  { unfold targets. rewrite Hq. cbn [mbind option_bind]. rewrite Ep, Ei, !bool_decide_eq_true_2 by done. simpl.
    by destruct Hin as [->| ->]; rewrite ?orb_true_r. }
  apply tracks_bind. eapply tracks_mono; [by apply transparent_tracks|]. intros conn s' ->.
  assert (Hsend : forall conn, tracks serve_step (defer (scall (CloseConn conn)) (send_conn (S n) c conn))
    (dialled s (Ok conn)) (fun _ s' => settled s')).
  { intros x. apply closing_defer; [by apply send_conn_tracks|by split]. }
  destruct conn as [conn|]; [apply Hsend|].
  intros r. cbn [serve_step]. rewrite HT, bool_decide_eq_true_2 by (split; [done|by eexists]).
  destruct r as [conn|e]; [|apply settled_failed]. rewrite failing_false. apply Hsend.
Qed.

Lemma routine_tracks n : tracks serve_step (routine (S n) transparency c ns) served0 (fun _ s' => settled s').
Proof.
  intros r. cbn [serve_step]. rewrite bool_decide_eq_true_2 by done.
  destruct r as [q|e]; [|by left]. cbn [bind is_ok negb].
  assert (Hbad : forall s, s_req s = Some q -> Type_ q <> RequestTypeConnect -> settled s).
  { intros s Hs Hq. right. right. exists q. split; [done|]. unfold servable. by rewrite bool_decide_eq_false_2. }
  case_bool_decide as Hi.
  { assert (HN : Type_ q <> RequestTypeConnect) by by rewrite Hi.
    apply closing_settled; [by split|by apply Hbad|done]. }
  case_bool_decide as HC; [|by apply Hbad].
  case_bool_decide as Hns; [apply handleConnectRequest_tracks; [done|done|by left]|].
  intros r. cbn [serve_step]. rewrite bool_decide_eq_true_2 by done. destruct r as [[]|e]; [|apply settled_failed].
  rewrite failing_false. apply closing_defer; [|by split].
  apply handleConnectRequest_tracks; [done|done|by right].
Qed.

Lemma serve_conn_tracks text n :
  tracks serve_step (serve_conn text (S n) transparency c ns) served0 (fun _ s' => settled s').
Proof.
  apply tracks_bind. eapply tracks_mono; [apply routine_tracks|]. intros r s Hs.
  apply closing_settled; [|done|done]. apply only_bind; [by destruct r|]. by split.
Qed.

(** *** What the state says of the trace *)

Definition entered_in (t : trace sres) : Prop :=
  exists t1 t2, t = t1 ++ ev (EnterNetNS ns) (Ok tt) :: t2 /\ LeaveNetNS ∉ calls t2.

(** The child has connected to the target of [q] from the right namespace. *)
Definition dialled_in (t : trace sres) (q : Request) (conn : Z) : Prop :=
  exists ip t1 e t2, Proto q ∈ known_protos /\ target_ip q = Ok ip /\ t = t1 ++ e :: t2 /\ (ns = [] \/ entered_in t1) /\
    let addr := net.JoinHostPort ip (strconv.Itoa (Port q)) in
    (e = ev (Dial (dialProto (Proto q)) addr) (Ok conn) \/
     wants_transparent transparency q = true /\ e = ev (DialTransparent (dialProto (Proto q)) addr (SourceIP q) (SourcePort q)) (Ok conn)).

(** [fd] is the descriptor of such a connection. *)
Definition made (t : trace sres) (q : Request) (fd : Z) : Prop :=
  exists conn, dialled_in t q conn /\ ev (ConnFile conn) (Ok fd) ∈ t.

Lemma entered_in_snoc t e : entered_in t -> projT1 e <> LeaveNetNS -> entered_in (t ++ [e]).
Proof.
  intros (t1 & t2 & -> & H) He. exists t1, (t2 ++ [e]). split; [by rewrite <- app_assoc|].
  unfold calls. rewrite map_app. intros [?|[Hx|Hx%elem_of_nil]%elem_of_cons]%elem_of_app; [done|by symmetry in Hx|done].
Qed.

Lemma dialled_in_app t t' q conn : dialled_in t q conn -> dialled_in (t ++ t') q conn.
Proof.
  intros (ip & t1 & e & t2 & Hp & Hi & -> & H). exists ip, t1, e, (t2 ++ t'). split; [done|]. split; [done|].
  split; [by rewrite <- app_assoc|done].
Qed.

Lemma made_app t t' q fd : made t q fd -> made (t ++ t') q fd.
Proof. intros (conn & H & He). exists conn. split; [by apply dialled_in_app|]. apply elem_of_app. by left. Qed.

(** What may be written to the parent. *)
Definition sendable (t : trace sres) (s : served) (oob : str) : Prop :=
  oob = [] \/ exists q fd, s_req s = Some q /\ made t q fd /\ oob = UnixRights fd.

Record serves (t : trace sres) (s : served) : Prop := {
  serves_req : omap (request_from c) t = match s_req s with Some q => [q] | None => [] end;
  serves_in : s_in s = true -> entered_in t;
  serves_conn conn : s_conn s = Some conn -> exists q, s_req s = Some q /\ dialled_in t q conn;
  serves_file fd : s_file s = Some fd -> exists q, s_req s = Some q /\ made t q fd;
  serves_dup f : s_dup s = Some f -> file_of c t f = true;
  serves_out oob : Data oob ∈ s_out s -> sendable t s oob;
  serves_failed : s_failed s = existsb failed t;
}.

Lemma serves_grow t s e b i :
  serves t s -> request_from c e = None -> failed e = b -> (i = true -> entered_in (t ++ [e])) ->
  serves (t ++ [e]) (failing (entered s i) b).
Proof.
  intros [I1 I2 I3 I4 I5 I6 I7] Hr <- Hi. split; cbn [failing entered s_req s_in s_conn s_file s_dup s_out s_failed].
  - by rewrite omap_snoc, Hr, app_nil_r.
  - exact Hi.
  - intros conn (q & Hq & H)%I3. exists q. split; [done|]. by apply dialled_in_app.
  - intros fd (q & Hq & H)%I4. exists q. split; [done|]. by apply made_app.
  - intros f H%I5. unfold file_of in *. by rewrite existsb_app, H.
  - intros oob [?|(q & fd & Hq & H & ?)]%I6; [by left|]. right. exists q, fd. split; [done|]. split; [by apply made_app|done].
  - rewrite existsb_app, I7. simpl. by rewrite orb_false_r.
Qed.

Lemma serves_event t s e b :
  serves t s -> request_from c e = None -> projT1 e <> LeaveNetNS -> failed e = b -> serves (t ++ [e]) (failing s b).
Proof.
  intros I Hr Hl Hb. assert (H : serves (t ++ [e]) (failing (entered s (s_in s)) b)); [|by destruct s].
  apply serves_grow; [done..|]. intros Hi. apply entered_in_snoc; [by apply (serves_in _ _ I)|done].
Qed.

Lemma serves_leave t s : serves t s -> serves (t ++ [ev LeaveNetNS tt]) (entered s false).
Proof. intros I. rewrite <- (failing_false (entered s false)). by apply serves_grow. Qed.

Lemma serves_put t s l : serves t s -> (forall oob, Data oob ∈ l -> sendable t s oob) -> serves t (put s l).
Proof.
  intros [I1 I2 I3 I4 I5 I6 I7] Hl. split; try assumption. intros oob [H|H]%elem_of_app; [by apply I6|by apply Hl].
Qed.

Lemma serves_entered t s b : serves t s -> (b = true -> entered_in t) -> serves t (entered s b).
Proof. intros [] Hb. by split. Qed.

Lemma serves_dialled t s r :
  serves t s -> (forall conn, r = Ok conn -> exists q, s_req s = Some q /\ dialled_in t q conn) -> serves t (dialled s r).
Proof. intros [] Hr. split; try assumption. destruct r as [conn|e]; [|done]. intros conn' [= <-]. by apply Hr. Qed.

(** The connection that a dial has made. *)
Lemma targets_dialled t s proto addr q e conn :
  serves t s -> targets s proto addr = Some q ->
  e = ev (Dial proto addr) (Ok conn) \/ wants_transparent transparency q = true /\ e = ev (DialTransparent proto addr (SourceIP q) (SourcePort q)) (Ok conn) ->
  s_req s = Some q /\ dialled_in (t ++ [e]) q conn.
Proof.
  intros I HT He. unfold targets in HT. apply bind_Some in HT as (q' & Hq & HT).
  destruct (_ && _) eqn:G; [|done]. injection HT as ->. split; [done|].
  apply andb_true_iff in G as [G Hin]. apply andb_true_iff in G as [G Ht]. apply andb_true_iff in G as [Hp Hpr].
  apply bool_decide_eq_true in Hp, Hpr. destruct (target_ip q) as [ip|] eqn:Ei; [|done]. apply bool_decide_eq_true in Ht.
  exists ip, t, e, []. split; [done|]. split; [done|]. split; [done|]. split.
  - apply orb_true_iff in Hin as [H%bool_decide_eq_true|H]; [by left|right; by apply (serves_in _ _ I)].
  - subst proto addr. exact He.
Qed.
Lemma serves_received t s r :
  serves t s -> s_req s = None ->
  serves (t ++ [ev (RecvRequest c) r])
    (mkServed (match r with Ok q => Some q | Err _ => None end) (s_in s) (s_conn s) (s_file s) (s_dup s) (s_out s) (s_failed s || negb (is_ok r))).
Proof.
  intros [I1 I2 I3 I4 I5 I6 I7] HN. split; cbn [s_req s_in s_conn s_file s_dup s_out s_failed].
  - rewrite omap_snoc, I1, HN. destruct r; simpl; [by rewrite Z.eqb_refl|done].
  - intros H. by apply entered_in_snoc; [apply I2|].
  - intros conn (q & Hq & _)%I3. congruence.
  - intros fd (q & Hq & _)%I4. congruence.
  - intros f H%I5. unfold file_of in *. by rewrite existsb_app, H.
  - intros oob [?|(q & fd & Hq & _)]%I6; [by left|congruence].
  - rewrite existsb_app, I7. simpl. by rewrite orb_false_r.
Qed.

Lemma serves_conn_file t s y r s' :
  serves t s -> serve_step s (ConnFile y) r = Some s' -> serves (t ++ [ev (ConnFile y) r]) s'.
Proof.
  intros I. pose proof (serves_event t s (ev (ConnFile y) r) _ I eq_refl ltac:(done) eq_refl) as [I1 I2 I3 I4 I5 I6 I7].
  cbn [failing s_req s_in s_conn s_file s_dup s_out s_failed] in *.
  cbn [serve_step]. destruct (s_file s) as [fd|] eqn:Ef.
  - destruct (Z.eqb_spec y c) as [->|]; [|done]. case_bool_decide; [|done]. intros [= <-]. split; try assumption.
    destruct r as [f|e]; [|done]. intros f' [= <-]. unfold file_of. rewrite existsb_app. simpl. by rewrite !Z.eqb_refl, orb_true_r.
  - destruct (s_conn s) as [conn|] eqn:Ec; [|done]. destruct (Z.eqb_spec y conn) as [->|]; [|done]. intros [= <-].
    split; try assumption. destruct r as [f|e]; [|done]. intros f' [= <-].
    destruct (I3 conn eq_refl) as (q & Hq & Hd). exists q. split; [done|]. exists conn. split; [done|]. apply elem_of_app. right. by left.
Qed.

Lemma serves_step t s x r s' : serves t s -> serve_step s x r = Some s' -> serves (t ++ [ev x r]) s'.
Proof.
  intros I. pose proof (fun H1 H2 b => serves_event t s (ev x r) b I H1 H2) as HE. destruct x;
    try (intros [= <-]; apply HE; done); try (by apply serves_conn_file).
  - (* CloseConn *) intros [= <-]. rewrite <- (failing_false s). apply serves_put; [by apply HE|].
    intros oob. destruct (_ =? _); [intros [|H%elem_of_nil]%elem_of_cons; done|by intros ?%elem_of_nil].
  - (* RecvRequest *) cbn [serve_step]. case_bool_decide as HG; [|done]. destruct HG as [-> HN]. intros [= <-]. by apply serves_received.
  - (* SendReply *) intros [= <-]. destruct r0 as [a|].
    all: destruct (is_ok r) eqn:Er; [|apply HE; try done; simpl; by rewrite Er].
    all: rewrite <- (failing_false s); apply serves_put; [apply HE; try done; simpl; by rewrite Er|].
    all: intros oob; destruct (_ =? _); [|by intros ?%elem_of_nil]; intros [= ->]%list_elem_of_singleton; by left.
  - (* Sendmsg *) cbn [serve_step]. case_bool_decide as HG; [|done]. destruct HG as [Hd Hf]. intros [= <-].
    destruct r as [[[]|e]|]; [|by apply HE..]. rewrite <- (failing_false s). specialize (HE eq_refl ltac:(done) false eq_refl).
    apply serves_put; [exact HE|]. intros oob' [= ->]%list_elem_of_singleton. right.
    apply fmap_Some in Hf as (fd & Hf & ->). destruct (serves_file _ _ HE fd Hf) as (q & Hq & Hm). by exists q, fd.
  - (* Dial *) cbn [serve_step]. case_bool_decide as HG; [|done]. destruct HG as [HN [q HT]]. intros [= <-].
    change (serves (t ++ [ev (Dial proto addr) r]) (dialled (failing s (negb (is_ok r))) r)).
    apply serves_dialled; [by apply HE|]. intros conn ->. exists q. exact (targets_dialled t s _ _ q _ conn I HT (or_introl eq_refl)).
  - (* DialTransparent *) cbn [serve_step]. destruct (targets s proto addr) as [q|] eqn:HT; [|done].
    destruct (_ && _) eqn:G; [|done]. rewrite !andb_true_iff in G. destruct G as [[[_ Hw] Hs] Hp]. intros [= <-].
    apply bool_decide_eq_true in Hs as ->. apply Z.eqb_eq in Hp as ->. rewrite <- (failing_false s).
    apply serves_dialled; [by apply HE|]. intros conn ->. exists q. exact (targets_dialled t s _ _ q _ conn I HT (or_intror (conj Hw eq_refl))).
  - (* EnterNetNS *) cbn [serve_step]. case_bool_decide as HG; [|done]. subst path. intros [= <-].
    change (serves (t ++ [ev (EnterNetNS ns) r]) (entered (failing s (negb (is_ok r))) (is_ok r))).
    apply serves_entered; [by apply HE|]. destruct r as [[]|e]; [|done]. intros _. exists t, []. split; [done|by intros ?%elem_of_nil].
  - (* LeaveNetNS *) intros [= <-]. destruct r. by apply serves_leave.
Qed.

Lemma serves_steps t s : steps serve_step served0 t = Some s -> serves t s.
Proof.
  revert s. induction t as [|[x r] t IH] using rev_ind; intros s.
  - intros [= <-]. split; try done. by intros oob ?%elem_of_nil.
  - rewrite steps_app. destruct (steps _ _ t) as [s0|]; [|done]. cbn [steps].
    destruct (serve_step s0 x r) as [s1|] eqn:E; [|done]. intros [= <-]. eapply serves_step; [by apply IH|done].
Qed.

(** What a step writes is what goes over the socket. *)
Lemma serve_step_puts t s x r s' :
  serves t s -> serve_step s x r = Some s' -> s_out s' = s_out s ++ puts c t (ev x r).
Proof.
  intros I. assert (HN : s_out s = s_out s ++ []) by by rewrite app_nil_r. destruct x;
    try (intros [= <-]; exact HN); cbn [serve_step puts ev]; try (case_bool_decide as HG; [|done]).
  - intros [= <-]. done.
  - intros [= <-]. exact HN.
  - intros [= <-]. by destruct r.
  - intros [= <-]. destruct HG as [Hd _]. destruct r as [[[]|e]|]; try exact HN. by rewrite (serves_dup _ _ I _ Hd).
  - intros [= <-]. exact HN.
  - destruct (targets s proto addr); [|done]. destruct (_ && _); [|done]. intros [= <-]. exact HN.
  - destruct (s_file s); [destruct (_ && _); [|done]|destruct (s_conn s); [|done]; destruct (_ =? _); [|done]]; intros [= <-]; exact HN.
  - intros [= <-]. exact HN.
Qed.
End serving.

(** ** The two together *)
Section together.
Context `{CM : Cmsg} (p c : Z).

Record wired {A B} (P : sio A) (S : sio B) (x : conf A B) : Prop := {
  wired_asker : takes P (ptrace x) (asker x);
  wired_server : takes S (ctrace x) (server x);
  wired_requests : omap (request_to p) (ptrace x) = omap (request_from c) (ctrace x) ++ requests x;
  wired_reads : omap (read_from p) (ptrace x) = map snd (got x);
  wired_head : match got x with [] => packets x = sent x | (pk, _) :: _ => head (sent x) = Some pk end;
  wired_got pk s : (pk, s) ∈ got x -> pk ∈ sent x /\ arrives pk s;
  wired_packets pk : pk ∈ packets x -> pk ∈ sent x;
}.

Lemma head_app {X} (l l' : list X) a : head l = Some a -> head (l ++ l') = Some a.
Proof. by destruct l. Qed.

Lemma own_other e : own_of_asker p (projT1 e) = false -> request_to p e = None /\ read_from p e = None.
Proof.
  destruct e as [y r]. destruct y; try done; cbn; intros E; rewrite E; split; try done.
  - by destruct r.
  - by destruct r as [[]|].
Qed.

Lemma own_server_other e : own_of_server c (projT1 e) = false -> request_from c e = None.
Proof. destruct e as [y r]. destruct y; try done; cbn; intros ->; by destruct r. Qed.

Lemma wired_step {A B} (P : sio A) (S : sio B) x y : wired P S x -> step p c x y -> wired P S y.
Proof.
  intros [W1 W2 W3 W4 W5 W6 W7] Hs.
  destruct Hs as [x a k r Ha Ho|x q k r Ha|x n k pk l s Ha Hp Hr Hn|x n k r Ha r'|x a k r Ha Ho out|x k q l Ha Hq|x k e Ha];
    split; cbn [asker server requests packets sent got ptrace ctrace]; try done;
    try (rewrite Ha in W1; by apply takes_snoc); try (rewrite Ha in W2; by apply takes_snoc);
    rewrite ?omap_snoc.
  - destruct (own_other (ev a r) Ho) as [-> _]. by rewrite app_nil_r.
  - destruct (own_other (ev a r) Ho) as [_ ->]. by rewrite app_nil_r.
  - rewrite W3, <- app_assoc. f_equal. simpl. by destruct r; rewrite ?Z.eqb_refl.
  - by rewrite app_nil_r.
  - by rewrite app_nil_r.
  - rewrite W4, map_app. simpl. by rewrite Z.eqb_refl.
  - destruct (got x) as [|[pk' s'] g]; [|done]. simpl. by rewrite <- W5, Hp.
  - intros pk' s' [H|[= -> ->]%list_elem_of_singleton]%elem_of_app; [by apply W6|].
    split; [apply W7; rewrite Hp; by left|done].
  - intros pk' H. apply W7. destruct pk; [rewrite Hp; by right|done].
  - subst r'. by destruct r; rewrite app_nil_r.
  - subst r'. by destruct r; rewrite app_nil_r.
  - by rewrite (own_server_other (ev a r) Ho), app_nil_r.
  - destruct (got x) as [|[pk' s'] g]; [by rewrite W5|by apply head_app].
  - intros pk s [H1 H2]%W6. split; [apply elem_of_app; by left|done].
  - intros pk [H|H]%elem_of_app; apply elem_of_app; [left; by apply W7|by right].
  - rewrite W3, Hq, <- app_assoc. simpl. by rewrite Z.eqb_refl.
  - by rewrite app_nil_r.
Qed.

Definition start {A B} (P : sio A) (S : sio B) : conf A B := mkConf P S [] [] [] [] [] [].

Lemma wired_reachable {A B} (P : sio A) (S : sio B) x : reachable p c (start P S) x -> wired P S x.
Proof.
  induction 1 as [|x y _ I Hs]; [|by eapply wired_step].
  split; try done; cbn; intros *; by intros ?%elem_of_nil.
Qed.

(** The packets are those that the state of the child stands for. *)
Lemma sent_out {A B} (P : sio A) (S : sio B) tr ns x s :
  reachable p c (start P S) x -> steps (serve_step c tr ns) served0 (ctrace x) = Some s -> sent x = s_out s.
Proof.
  intros Hx. revert s. induction Hx as [|x y _ IH Hs]; intros s.
  { by intros [= <-]. }
  assert (H : forall a r out, steps (serve_step c tr ns) served0 (ctrace x ++ [ev a r]) = Some s ->
    out = puts c (ctrace x) (ev a r) -> sent x ++ out = s_out s).
  { intros a r out Ht ->. rewrite steps_app in Ht. destruct (steps _ _ (ctrace x)) as [s0|] eqn:E; [|done]. cbn [steps ev] in Ht.
    destruct (serve_step c tr ns s0 a r) as [s1|] eqn:E'; [|done]. injection Ht as <-. rewrite (IH _ eq_refl).
    symmetry. exact (serve_step_puts c tr ns _ _ _ _ _ (serves_steps c tr ns _ _ E) E'). }
  destruct Hs; cbn [sent ctrace]; try apply IH; intros Ht; [exact (H _ _ _ Ht eq_refl)|..];
    rewrite <- (app_nil_r (sent x)); exact (H _ _ [] Ht eq_refl).
Qed.
End together.

Section theorems.
Context `{CM : Cmsg} (laws : CmsgLaws).
Context (p c : Z) (spec : port.Spec) (src : option Addr) (m : nat).
Context (text : error -> str) (transparency : bool) (ns : str) (n : nat).

Definition connecting : conf (result Z) unit :=
  start (ConnectToChild (S m) p spec src) (serve_conn text (S n) transparency c ns).

Lemma connecting_asks x :
  reachable p c connecting x ->
  exists a, asks p spec src (ptrace x) a /\ tracks (ask_step p spec src) (asker x) a answered.
Proof.
  intros Hx. destruct (tracks_takes _ _ _ _ _ _ (ConnectToChild_tracks p spec src m)
    (wired_asker p c _ _ _ (wired_reachable _ _ _ _ _ Hx))) as (a & Ha & HT). exists a. split; [by apply asks_steps|done].
Qed.

Lemma connecting_serves x :
  reachable p c connecting x ->
  exists s, serves c transparency ns (ctrace x) s /\ sent x = s_out s /\
    tracks (serve_step c transparency ns) (server x) s (fun _ s' => settled s').
Proof.
  intros Hx. destruct (tracks_takes _ _ _ _ _ _ (serve_conn_tracks c transparency ns text n)
    (wired_server p c _ _ _ (wired_reachable _ _ _ _ _ Hx))) as (s & Hs & HT). exists s. split; [by apply serves_steps|].
  split; [by eapply sent_out|done].
Qed.

Lemma rights_not_empty fd : UnixRights fd <> [].
Proof using laws. intros E. pose proof (rights_length laws fd) as H. rewrite E in H. pose proof (space_pos laws). simpl in H. lia. Qed.

(** A control message of the right length is a descriptor. *)
Lemma arrives_descriptor pk s g :
  arrives pk s -> Z.of_nat (length s) = CmsgSpace 4 -> parseFDFromOOB s = Ok g ->
  s = UnixRights g /\ exists fd, pk = Data (UnixRights fd).
Proof using laws.
  intros Ha Hl. pose proof (space_pos laws). destruct Ha as [|fd g' Hg|]; [simpl in Hl; lia| |simpl in Hl; lia].
  unfold parseFDFromOOB. destruct (rights_parse laws g' Hg) as (mm & -> & Hm). cbn [rbind]. rewrite Hm. intros [= ->]. eauto.
Qed.

(** What the child has received is the request of the parent. *)
Lemma request_received x a s q :
  wired p c (ConnectToChild (S m) p spec src) (serve_conn text (S n) transparency c ns) x ->
  asks p spec src (ptrace x) a -> serves c transparency ns (ctrace x) s -> s_req s = Some q ->
  exists addrs, ev InterfaceAddrs addrs ∈ ptrace x /\ q = connect_request spec (gateway addrs) src.
Proof.
  intros W I J Hq. pose proof (wired_requests _ _ _ _ _ W) as E.
  rewrite (asks_reqs _ _ _ _ _ I), (serves_req _ _ _ _ _ J), Hq in E.
  destruct (a_req a) as [q'|] eqn:Eq; [|done]. injection E as -> _.
  destruct (asks_req _ _ _ _ _ I q Eq) as (gw & Hg & ->). destruct (asks_gw _ _ _ _ _ I gw Hg) as (r & Hr & ->). eauto.
Qed.

(** C9: when the parent gets a descriptor, then the child has received the
    request for the specification and connected to its target, from inside the
    detached network namespace when there is one, and the descriptor is the one
    of that connection, which the child has sent.  *)
Theorem connection_handed x g :
  reachable p c connecting x -> asker x = Ret (Ok g) ->
  exists addrs fd,
    ev InterfaceAddrs addrs ∈ ptrace x /\
    made transparency ns (ctrace x) (connect_request spec (gateway addrs) src) fd /\
    (Data (UnixRights fd), UnixRights g) ∈ got x.
Proof using laws.
  intros Hx Eg. pose proof (wired_reachable _ _ _ _ _ Hx) as W.
  destruct (connecting_asks x Hx) as (a & I & HT). rewrite Eg in HT. destruct HT as [HT _].
  destruct (HT g eq_refl) as (s & Hs & Hl & Hp).
  pose proof (wired_reads _ _ _ _ _ W) as Hr. rewrite (asks_oob _ _ _ _ _ I), Hs in Hr.
  destruct (got x) as [|[pk s'] [|]] eqn:Egot; try done. injection Hr as <-.
  destruct (wired_got _ _ _ _ _ W pk s) as [Hpk Ha]; [rewrite Egot; by left|].
  destruct (arrives_descriptor _ _ _ Ha Hl Hp) as [-> [fd ->]].
  destruct (connecting_serves x Hx) as (sv & J & Hout & _). rewrite Hout in Hpk.
  destruct (serves_out _ _ _ _ _ J _ Hpk) as [E|(q & fd' & Hq & Hm & E)]; [by destruct (rights_not_empty fd)|].
  destruct (request_received _ _ _ _ W I J Hq) as (addrs & Haddrs & ->).
  exists addrs, fd'. split; [done|]. split; [done|]. rewrite <- E. by left.
Qed.

(** ** Nobody waits for ever *)

Definition clean {A B} (x : conf A B) : Prop := existsb failed (ptrace x) = false /\ existsb failed (ctrace x) = false.

Lemma existsb_snoc {X} (f : X -> bool) l a : existsb f l = false -> f a = false -> existsb f (l ++ [a]) = false.
Proof. intros H1 H2. rewrite existsb_app, H1. simpl. by rewrite H2. Qed.

(** A request for a specification that is valid is served. *)
Lemma connect_request_servable gw :
  port.Proto spec ∈ known_protos -> port.ChildIP spec = [] \/ is_Some (net.ParseIP (port.ChildIP spec)) ->
  servable (connect_request spec gw src) = true.
Proof.
  intros HP HI. unfold connect_request. destruct (match src with Some (TCPAddr ip q) => _ | _ => _ end) as [sip sport].
  unfold servable, target_ip. cbn [Type_ Proto IP]. rewrite !(bool_decide_eq_true_2 (_ ∈ _)), bool_decide_eq_true_2 by done.
  case_bool_decide as E; [done|]. destruct HI as [HI|[ip ->]]; done.
Qed.

(** The calls that can always be answered without a failure. *)
Lemma asker_can_move {A B} (x : conf A B) a k :
  clean x -> asker x = Call a k -> (forall y, step p c x y -> ~ clean y) -> exists l, a = ReadMsgUnix p l.
Proof.
  intros [C1 C2] Ha Hstuck. destruct (own_of_asker p a) eqn:E.
  - destruct a; try done; apply Z.eqb_eq in E as ->; [|by eexists].
    exfalso. refine (Hstuck _ (ask_send p c x _ _ (Ok tt) Ha) _). split; [|done]. by apply existsb_snoc.
  - exfalso. refine (Hstuck _ (ask_other p c x _ _ (ok_sock a) Ha E) _). split; [|done].
    apply existsb_snoc; [done|apply ok_sock_good].
Qed.

Lemma server_can_move {A B} (x : conf A B) a k :
  clean x -> server x = Call a k -> (forall y, step p c x y -> ~ clean y) -> a = RecvRequest c /\ requests x = [].
Proof.
  intros [C1 C2] Ha Hstuck. destruct (own_of_server c a) eqn:E.
  - destruct a; try done. apply Z.eqb_eq in E as ->. split; [done|]. destruct (requests x) as [|q l] eqn:Eq; [done|].
    exfalso. refine (Hstuck _ (serve_recv p c x _ _ _ Ha Eq) _). split; [done|]. by apply existsb_snoc.
  - exfalso. refine (Hstuck _ (serve_other p c x _ _ (ok_sock a) Ha E) _). split; [done|].
    apply existsb_snoc; [done|apply ok_sock_good].
Qed.
(** The parent has not sent its request: it still can, or has failed. *)
Lemma asker_has_sent x a :
  reachable p c connecting x -> clean x -> (forall y, step p c x y -> ~ clean y) ->
  asks p spec src (ptrace x) a -> tracks (ask_step p spec src) (asker x) a answered -> is_Some (a_req a).
Proof.
  intros Hx Hc Hstuck I HT. destruct (a_req a) as [q|] eqn:Eq; [by eexists|exfalso].
  pose proof (asks_order _ _ _ _ _ I Eq) as Ho. destruct (asker x) as [r|y k] eqn:Ea.
  - destruct HT as [_ HT]. rewrite (asks_failed _ _ _ _ _ I) in HT. destruct Hc as [Hc _].
    destruct (HT Hc) as (s & Hs & _). congruence.
  - destruct (asker_can_move x y k Hc Ea Hstuck) as [l ->]. specialize (HT None). cbn [ask_step] in HT.
    case_bool_decide as HG; [|done]. destruct HG as (_ & _ & [q Hq] & _). congruence.
Qed.

(** When no step is left, the child has come to its end and has sent a
    descriptor first. *)
Lemma server_has_sent x :
  port.Proto spec ∈ known_protos -> port.ChildIP spec = [] \/ is_Some (net.ParseIP (port.ChildIP spec)) ->
  reachable p c connecting x -> clean x -> (forall y, step p c x y -> ~ clean y) ->
  exists fd l, server x = Ret tt /\ sent x = Data (UnixRights fd) :: l.
Proof.
  intros HP HI Hx Hc Hstuck. pose proof (wired_reachable _ _ _ _ _ Hx) as W.
  destruct (connecting_asks x Hx) as (a & I & HTa), (connecting_serves x Hx) as (s & J & Hout & HT).
  destruct (server x) as [[]|y k] eqn:Es.
  - destruct HT as [Hf|[(fd & l & Ho)|(q & Hq & Hbad)]].
    + rewrite (serves_failed _ _ _ _ _ J) in Hf. by destruct Hc as [_ Hc]; rewrite Hc in Hf.
    + exists fd, l. by rewrite Hout.
    + destruct (request_received _ _ _ _ W I J Hq) as (addrs & _ & ->). by rewrite connect_request_servable in Hbad.
  - exfalso. destruct (server_can_move x y k Hc Es Hstuck) as [-> Hr].
    specialize (HT (Err interrupted)). cbn [serve_step] in HT. case_bool_decide as HG; [|done]. destruct HG as [_ HN].
    destruct (asker_has_sent x a Hx Hc Hstuck I HTa) as [q Hq].
    pose proof (wired_requests _ _ _ _ _ W) as E.
    by rewrite (asks_reqs _ _ _ _ _ I), (serves_req _ _ _ _ _ J), HN, Hq, Hr in E.
Qed.

Lemma connecting_next {A B} (x y : conf A B) :
  step p c x y ->
  (next (asker x) (asker y) /\ server y = server x) \/ (asker y = asker x /\ next (server x) (server y)).
Proof.
  destruct 1 as [x a k r E _|x q k r E|x l k pk q s E _ _ _|x l k r E|x a k r E _|x k q l E _|x k e E];
    [left; split; [|done]..|right; split; [done|]| right; split; [done|]|right; split; [done|]];
    unfold next; cbn [asker server]; rewrite E; by eexists.
Qed.

(** C10: for a protocol that the child knows and a child IP that is empty or
    valid, every execution of the two comes to an end, and none of them waits
    for the other for ever: when no call that matters has failed, and no
    further step without a failure is possible, then the child is done and the
    parent has its descriptor. *)
Theorem connection_completes :
  port.Proto spec ∈ known_protos -> port.ChildIP spec = [] \/ is_Some (net.ParseIP (port.ChildIP spec)) ->
  Acc (fun y x => step p c x y) connecting /\
  forall x, reachable p c connecting x -> clean x -> (forall y, step p c x y -> ~ clean y) ->
    exists g, asker x = Ret (Ok g) /\ server x = Ret tt.
Proof using laws.
  intros HP HI. split; [apply (pair_ends asker server), connecting_next|]. intros x Hx Hc Hstuck.
  destruct (server_has_sent x HP HI Hx Hc Hstuck) as (fd & l & Es & Hsent).
  pose proof (wired_reachable _ _ _ _ _ Hx) as W. destruct (connecting_asks x Hx) as (a & I & HT).
  pose proof (wired_reads _ _ _ _ _ W) as Hr. rewrite (asks_oob _ _ _ _ _ I) in Hr.
  pose proof (wired_head _ _ _ _ _ W) as Hh. destruct (asker x) as [r|y k] eqn:Ea.
  - destruct HT as [_ HT]. rewrite (asks_failed _ _ _ _ _ I) in HT. destruct (HT (proj1 Hc)) as (s & Hs & Hp).
    rewrite Hs in Hr. destruct (got x) as [|[pk s'] [|]] eqn:Eg; try done. injection Hr as <-.
    rewrite Hsent in Hh. injection Hh as <-.
    destruct (wired_got _ _ _ _ _ W (Data (UnixRights fd)) s) as [_ Ha]; [rewrite Eg; by left|].
    inversion Ha as [E|fd' g Hg E1 E2|]; [by destruct (rights_not_empty fd)|subst s].
    exists g. split; [|done]. f_equal. rewrite Hp by apply (rights_length laws).
    unfold parseFDFromOOB. destruct (rights_parse laws g Hg) as (mm & -> & Hm). cbn [rbind]. by rewrite Hm.
  - exfalso. destruct (asker_can_move x y k Hc Ea Hstuck) as [len ->].
    specialize (HT None). cbn [ask_step] in HT. case_bool_decide as HG; [|done]. destruct HG as (_ & -> & _ & Ho).
    rewrite Ho in Hr. destruct (got x) as [|]; [|done]. rewrite Hsent in Hh.
    refine (Hstuck _ (ask_read p c x _ _ _ _ (UnixRights 0) Ea Hh (arrives_fd fd 0 ltac:(lia)) _) _).
    + by rewrite (rights_length laws).
    + destruct Hc as [C1 C2]. split; [|done]. by apply existsb_snoc.
Qed.
End theorems.

(** ** A concrete run: the descriptor 8 of the child arrives as 42 *)
Section play.
#[local] Existing Instance plain_cmsg.
Context (kern : forall x, sres x) (p c : Z) {A B : Type}.

(** The next step of the parent, or else of the child. *)
Definition ask_move (x : conf A B) : option (conf A B) :=
  match asker x with
  | Ret _ => None
  | Call a k =>
      match a return (sres a -> sio A) -> option (conf A B) with
      | SendRequest y q => fun k =>
          if y =? p then Some (mkConf (k (Ok tt)) (server x) (requests x ++ [q]) (packets x) (sent x) (got x)
            (ptrace x ++ [ev (SendRequest p q) (Ok tt)]) (ctrace x)) else None
      | ReadMsgUnix y n => fun k =>
          match packets x with
          | Data oob :: l =>
              if (y =? p) && bool_decide (oob = UnixRights 8) && (4 <=? n)
              then Some (mkConf (k (Some (Ok (UnixRights 42)))) (server x) (requests x) l (sent x) (got x ++ [(Data oob, UnixRights 42)])
                (ptrace x ++ [ev (ReadMsgUnix p n) (Some (Ok (UnixRights 42)))]) (ctrace x)) else None
          | _ => None
          end
      | a => fun k =>
          Some (mkConf (k (kern a)) (server x) (requests x) (packets x) (sent x) (got x) (ptrace x ++ [ev a (kern a)]) (ctrace x))
      end k
  end.

Definition serve_move (x : conf A B) : option (conf A B) :=
  match server x with
  | Ret _ => None
  | Call a k =>
      match a return (sres a -> sio B) -> option (conf A B) with
      | RecvRequest y => fun k =>
          match requests x with
          | q :: l =>
              if y =? c then Some (mkConf (asker x) (k (Ok q)) l (packets x) (sent x) (got x)
                (ptrace x) (ctrace x ++ [ev (RecvRequest c) (Ok q)])) else None
          | [] => None
          end
      | a => fun k =>
          let out := puts c (ctrace x) (ev a (kern a)) in
          Some (mkConf (asker x) (k (kern a)) (requests x) (packets x ++ out) (sent x ++ out) (got x)
            (ptrace x) (ctrace x ++ [ev a (kern a)]))
      end k
  end.

Lemma ask_move_step x y : ask_move x = Some y -> step p c x y.
Proof.
  unfold ask_move. destruct (asker x) as [a|a k] eqn:E; [done|]. destruct a;
    try (intros [= <-]; by apply (ask_other p c x _ k _ E)).
  - destruct (Z.eqb_spec c0 p) as [->|]; [|done]. intros [= <-]. exact (ask_send p c x _ k (Ok tt) E).
  - destruct (packets x) as [|[oob|] l] eqn:El; [done| |done]. destruct (_ && _) eqn:G; [|done].
    rewrite !andb_true_iff in G. destruct G as [[->%Z.eqb_eq ->%bool_decide_eq_true] Hn%Z.leb_le]. intros [= <-].
    exact (ask_read p c x _ k _ l (UnixRights 42) E El (arrives_fd 8 42 ltac:(lia)) Hn).
Qed.

Lemma serve_move_step x y : serve_move x = Some y -> step p c x y.
Proof.
  unfold serve_move. destruct (server x) as [a|a k] eqn:E; [done|]. destruct a;
    try (intros [= <-]; by apply (serve_other p c x _ k _ E)).
  destruct (requests x) as [|q l] eqn:El; [done|]. destruct (Z.eqb_spec c0 c) as [->|]; [|done]. intros [= <-].
  exact (serve_recv p c x k q l E El).
Qed.

Fixpoint play (fuel : nat) (x : conf A B) : conf A B :=
  match fuel with
  | O => x
  | Datatypes.S fuel =>
      match ask_move x with
      | Some y => play fuel y
      | None => match serve_move x with Some y => play fuel y | None => x end
      end
  end.

Lemma moves_reachable fuel x0 x : reachable p c x0 x -> reachable p c x0 (play fuel x).
Proof.
  revert x. induction fuel as [|fuel IH]; intros x Hx; simpl; [done|].
  destruct (ask_move x) as [y|] eqn:E; [apply IH; eapply reach_step; [exact Hx|by apply ask_move_step]|].
  destruct (serve_move x) as [y|] eqn:E'; [|done]. apply IH. eapply reach_step; [exact Hx|by apply serve_move_step].
Qed.
End play.

(** A port of 192.168.1.2 for a container with its own network namespace. *)
Definition test_spec : port.Spec := port.mkSpec "tcp4" "192.168.1.2" 8080 80 [].
Definition played : conf (result Z) unit :=
  play ok_sock 3 3 40 (connecting (CM := plain_cmsg) 3 3 test_spec None 0 (fun _ => []) false "/netns" 0).

Lemma played_reachable :
  reachable (H := plain_cmsg) 3 3 (connecting (CM := plain_cmsg) 3 3 test_spec None 0 (fun _ => []) false "/netns" 0) played.
Proof. apply moves_reachable, reach_refl. Qed.

Theorem connection_handed_witness :
  exists fd, asker played = Ret (Ok 42) /\ (Data (PutUint32 fd), PutUint32 42) ∈ got played /\
    exists gw conn ip, dialled_in false "/netns" (ctrace played) (connect_request test_spec gw None) conn /\
      target_ip (connect_request test_spec gw None) = Ok ip.
Proof.
  destruct (connection_handed (CM := plain_cmsg) plain_cmsg_laws 3 3 test_spec None 0 (fun _ => []) false "/netns" 0
    played 42 played_reachable) as (addrs & fd & _ & (conn & (ip & H) & _) & Hg); [vm_compute; reflexivity|].
  exists fd. split; [vm_compute; reflexivity|]. split; [exact Hg|]. exists (gateway addrs), conn, ip.
  destruct H as (t1 & e & t2 & H1 & H2 & H3). split; [|exact H2]. exists ip, t1, e, t2. split; [exact H1|]. split; [exact H2|exact H3].
Defined.

Lemma played_stuck y : ~ step (H := plain_cmsg) 3 3 played y.
Proof.
  assert (E1 : asker played = Ret (Ok 42)) by (vm_compute; reflexivity).
  assert (E2 : server played = Ret tt) by (vm_compute; reflexivity).
  intros Hs. revert E1 E2. by destruct Hs; congruence.
Qed.

Theorem connection_completes_witness :
  clean played /\ exists g, asker played = Ret (Ok g) /\ server played = Ret tt.
Proof.
  destruct (connection_completes (CM := plain_cmsg) plain_cmsg_laws 3 3 test_spec None 0 (fun _ => []) false "/netns" 0) as [_ H].
  - apply (bool_decide_unpack _). vm_compute. exact I.
  - left. reflexivity.
  - assert (Hc : clean played) by (split; vm_compute; reflexivity). split; [exact Hc|].
    apply (H played played_reachable Hc). intros y Hy. by destruct (played_stuck y).
Defined.
