(* ===== verification/UdpProxy.v ===== *)
(** * pkg/port/builtin/parent/udp/udpproxy: the UDP proxy

    The proxy keeps one connection to the container per client, in a table
    under a lock.  [Run] reads datagrams and looks up the connection of their
    sender; when there is none it dials one, and keeps the lock while
    [BackendDial] is under way; it writes without the lock.  A [replyLoop] per
    connection sends what comes back to the client, removes the table entry and
    closes the connection; [Close] closes the listener and then the connections
    of the table.  Both wait for the lock.  The goroutines are interleaved by
    the step relation, one call or one critical section that cannot block per
    step.  What was read, what was written and which client a connection was
    dialled for is recorded. *)
From stdpp Require Import gmap.
From S2P Require Import Prelude NetIP.

Module udpproxy.

Definition UDPBufSize : nat := Z.to_nat 65507.

(** [net.UDPAddr] *)
Record UDPAddr : Set := mkUDPAddr { IP : net.IP; Port : Z; Zone : str }.

Record connTrackKey : Set := mkKey { IPHigh : Z; IPLow : Z; key_Port : Z }.

#[export] Instance connTrackKey_eq_dec : EqDecision connTrackKey.
Proof. solve_decision. Defined.
#[export] Instance connTrackKey_countable : Countable connTrackKey.
Proof.
  refine (inj_countable' (fun k => (IPHigh k, IPLow k, key_Port k)) (fun '(h, l, p) => mkKey h l p) _). by intros [].
Defined.

Definition newConnTrackKey (addr : UDPAddr) : result connTrackKey :=
  if (length (IP addr) =? net.IPv4len)%nat then Ok (mkKey 0 (big_endian (IP addr)) (Port addr))
  else if (length (IP addr) <? 16)%nat then Err (Panic "slice bounds out of range")
  else Ok (mkKey (big_endian (take 8 (IP addr))) (big_endian (take 8 (drop 8 (IP addr)))) (Port addr)).

(** Addresses as [ReadFromUDP] returns them. *)
Definition wf_addr (a : UDPAddr) : Prop :=
  forallb is_byte (IP a) = true /\ (length (IP a) = 4 \/ length (IP a) = 16)%nat.

(** A reply loop is reading, or has removed its entry and will close. *)
Inductive phase : Set := Reading | Closing.
#[export] Instance phase_eq_dec : EqDecision phase.
Proof. solve_decision. Defined.

(** In [RunDial] the goroutine of [Run] holds the lock. *)
Inductive run_state : Set :=
  | RunIdle | RunGot (from : UDPAddr) (payload : str)
  | RunDial (from : UDPAddr) (key : connTrackKey) (payload : str) | RunWrite (from : UDPAddr) (conn : Z) (payload : str) | RunDone.
Inductive close_state : Set := CloseNot | CloseListener | CloseDone.

Record state : Type := mkState {
  connTrackTable : gmap connTrackKey Z;
  loops : gmap Z (UDPAddr * connTrackKey * phase);
  conns : gset Z;                          (** connections that are open *)
  listener_open : bool;
  run : run_state;
  closing : close_state;
  dialled : gmap Z UDPAddr;                (** for which client *)
  received : list (UDPAddr * str);         (** what [Run] read *)
  forwarded : list (UDPAddr * Z * str);    (** what was written to connections *)
  replied : list (Z * UDPAddr * str);      (** what was written to clients *)
}.

(** [NewProxy]: [Run] has made the table. *)
Definition start : state := mkState ∅ ∅ ∅ true RunIdle CloseNot ∅ [] [] [].

(** The inner loop [for i := 0; i != read; i += written]: over UDP a write takes
    the whole datagram or fails, so that it writes once, and not at all when
    nothing was read. *)
Definition datagrams (payload : str) : list str := match payload with [] => [] | _ => [payload] end.

Definition set_run (s : state) (r : run_state) : state :=
  mkState (connTrackTable s) (loops s) (conns s) (listener_open s) r (closing s) (dialled s) (received s) (forwarded s) (replied s).

(** Nobody is in [BackendDial]: the other critical sections are single steps. *)
Definition lock_free (s : state) : Prop := match run s with RunDial _ _ _ => False | _ => True end.

(** [ReadFromUDP]. *)
Definition receive (s : state) (from : UDPAddr) (payload : str) : state :=
  mkState (connTrackTable s) (loops s) (conns s) (listener_open s) (RunGot from payload) (closing s)
    (dialled s) (received s ++ [(from, payload)]) (forwarded s) (replied s).

(** The lookup of [Run]: it takes the lock, and keeps it when it has to dial. *)
Definition lookup (s : state) (from : UDPAddr) (key : connTrackKey) (payload : str) : state :=
  match connTrackTable s !! key with
  | Some c => set_run s (RunWrite from c payload)
  | None => set_run s (RunDial from key payload)
  end.

(** [BackendDial] has returned [dial]; the lock is released. *)
Definition dial_done (s : state) (from : UDPAddr) (key : connTrackKey) (payload : str) (dial : option Z) : state :=
  match dial with
  | None => set_run s RunIdle
  | Some c =>
      mkState (<[key := c]> (connTrackTable s)) (<[c := (from, key, Reading)]> (loops s)) ({[c]} ∪ conns s)
        (listener_open s) (RunWrite from c payload) (closing s) (<[c := from]> (dialled s)) (received s) (forwarded s) (replied s)
  end.

(** The write of [Run]; it fails on a closed connection. *)
Definition write_backend (s : state) (from : UDPAddr) (c : Z) (payload : str) (fails : bool) : state :=
  let out := if fails || negb (bool_decide (c ∈ conns s)) then [] else map (fun d => (from, c, d)) (datagrams payload) in
  mkState (connTrackTable s) (loops s) (conns s) (listener_open s) RunIdle (closing s)
    (dialled s) (received s) (forwarded s ++ out) (replied s).

(** The body of [replyLoop]. *)
Definition reply (s : state) (c : Z) (client : UDPAddr) (payload : str) : state :=
  mkState (connTrackTable s) (loops s) (conns s) (listener_open s) (run s) (closing s)
    (dialled s) (received s) (forwarded s) (replied s ++ map (fun d => (c, client, d)) (datagrams payload)).

(** Its deferred function: first the entry, under the lock, then the connection. *)
Definition forget (s : state) (c : Z) (client : UDPAddr) (key : connTrackKey) : state :=
  mkState (delete key (connTrackTable s)) (<[c := (client, key, Closing)]> (loops s)) (conns s) (listener_open s) (run s)
    (closing s) (dialled s) (received s) (forwarded s) (replied s).
Definition close_conn (s : state) (c : Z) : state :=
  mkState (connTrackTable s) (delete c (loops s)) (conns s ∖ {[c]}) (listener_open s) (run s) (closing s)
    (dialled s) (received s) (forwarded s) (replied s).

Definition close_listener (s : state) : state :=
  mkState (connTrackTable s) (loops s) (conns s) false (run s) CloseListener (dialled s) (received s) (forwarded s) (replied s).
Definition close_all (s : state) : state :=
  mkState (connTrackTable s) (loops s) (conns s ∖ map_img (connTrackTable s)) (listener_open s) (run s) CloseDone
    (dialled s) (received s) (forwarded s) (replied s).

Inductive step : state -> state -> Prop :=
  | step_datagram s from payload :
      run s = RunIdle -> listener_open s = true -> wf_addr from -> (length payload <= UDPBufSize)%nat ->
      step s (receive s from payload)
  | step_lookup s from key payload :
      run s = RunGot from payload -> newConnTrackKey from = Ok key ->
      step s (lookup s from key payload)
  (** a dialled connection is a new one *)
  | step_dial s from key payload dial :
      run s = RunDial from key payload -> (forall c, dial = Some c -> dialled s !! c = None) ->
      step s (dial_done s from key payload dial)
  | step_write s from c payload fails :
      run s = RunWrite from c payload -> step s (write_backend s from c payload fails)
  | step_read_error s : run s = RunIdle -> step s (set_run s RunDone)
  | step_reply s c client key payload :
      loops s !! c = Some (client, key, Reading) -> c ∈ conns s -> listener_open s = true ->
      (length payload <= UDPBufSize)%nat ->
      step s (reply s c client payload)
  (** the read fails, at its deadline at the latest, or the write does *)
  | step_reply_error s c client key :
      loops s !! c = Some (client, key, Reading) -> lock_free s -> step s (forget s c client key)
  | step_reply_close s c client key :
      loops s !! c = Some (client, key, Closing) -> step s (close_conn s c)
  | step_close_listener s : closing s = CloseNot -> step s (close_listener s)
  | step_close_all s : closing s = CloseListener -> lock_free s -> step s (close_all s).

Inductive reachable : state -> Prop :=
  | reach_start : reachable start
  | reach_step s s' : reachable s -> step s s' -> reachable s'.

End udpproxy.
Import udpproxy.

(** ** The invariant *)

(** The datagram that [Run] has read and not yet disposed of. *)
Definition in_hand (r : run_state) : list (UDPAddr * str) :=
  match r with
  | RunGot a p | RunDial a _ p | RunWrite a _ p => [(a, p)]
  | RunIdle | RunDone => []
  end.

(** What was written to connections, with its sender. *)
Definition passed (s : state) : list (UDPAddr * str) := (fun x => (x.1.1, x.2)) <$> forwarded s.

Record inv (s : state) : Prop := {
  (** an entry belongs to the reply loop of its connection *)
  inv_table k c : connTrackTable s !! k = Some c -> exists a, loops s !! c = Some (a, k, Reading);
  inv_loop c a k p : loops s !! c = Some (a, k, p) -> dialled s !! c = Some a /\ newConnTrackKey a = Ok k;
  inv_reading c a k : loops s !! c = Some (a, k, Reading) -> connTrackTable s !! k = Some c;
  inv_open c : c ∈ conns s -> is_Some (loops s !! c);
  inv_dialled c a : dialled s !! c = Some a -> wf_addr a;
  inv_hand a p : (a, p) ∈ in_hand (run s) -> wf_addr a;
  (** the lock keeps the missing entry missing *)
  inv_dial a k p : run s = RunDial a k p -> newConnTrackKey a = Ok k /\ connTrackTable s !! k = None;
  inv_run a c p : run s = RunWrite a c p -> exists b, dialled s !! c = Some b /\ newConnTrackKey b = newConnTrackKey a;
  inv_forwarded a c d : (a, c, d) ∈ forwarded s ->
    wf_addr a /\ exists b, dialled s !! c = Some b /\ newConnTrackKey b = newConnTrackKey a;
  inv_replied a c d : (c, a, d) ∈ replied s -> d <> [] /\ dialled s !! c = Some a;
  inv_order : passed s ++ in_hand (run s) `sublist_of` received s;
}.

Lemma inv_start : inv start.
Proof.
  split; intros *; cbn; try (rewrite lookup_empty; discriminate); try discriminate; try done;
    intros H; exfalso; first [by apply elem_of_empty in H | by apply elem_of_nil in H].
Qed.

(** The datagram in hand is dropped. *)
Lemma order_drop s : inv s -> passed s ++ [] `sublist_of` received s.
Proof. intros I. etrans; [|apply (inv_order s I)]. apply sublist_app; [done|apply sublist_nil_l]. Qed.

Lemma inv_lookup s from key payload :
  inv s -> run s = RunGot from payload -> newConnTrackKey from = Ok key -> inv (lookup s from key payload).
Proof.
  intros I Hr Hk. pose proof (inv_order s I) as Ho. pose proof (inv_hand s I from payload) as Hw. rewrite Hr in Ho, Hw.
  unfold lookup. destruct (connTrackTable s !! key) as [c|] eqn:E.
  - destruct (inv_table s I _ _ E) as (b & Hb). destruct (inv_loop s I _ _ _ _ Hb) as [Hb1 Hb2].
    split; cbn; try apply I; try done.
    + intros a p [= -> ->]%list_elem_of_singleton. apply Hw, list_elem_of_singleton. done.
    + intros a c' p [= <- <- <-]. exists b. split; [done|]. congruence.
  - split; cbn; try apply I; try done.
    + intros a p [= -> ->]%list_elem_of_singleton. apply Hw, list_elem_of_singleton. done.
    + intros a k p [= <- <- <-]. done.
Qed.

Lemma inv_dial_done s from key payload dial :
  inv s -> run s = RunDial from key payload -> (forall c, dial = Some c -> dialled s !! c = None) ->
  inv (dial_done s from key payload dial).
Proof.
  intros I Hr Hd. destruct (inv_dial s I _ _ _ Hr) as [Hk E].
  assert (wf_addr from) as Hw by (apply (inv_hand s I from payload); rewrite Hr; by apply list_elem_of_singleton).
  pose proof (inv_order s I) as Ho. rewrite Hr in Ho.
  destruct dial as [c|]; [|split; cbn; try apply I; try done; [by intros a p H%elem_of_nil|by apply order_drop]].
  specialize (Hd c eq_refl).
  assert (loops s !! c = None) as Hl.
  { destruct (loops s !! c) as [[[a k] p]|] eqn:El; [|done]. apply (inv_loop s I) in El as [El _]. congruence. }
  assert (forall b, dialled s !! c <> Some b) as Hn by (intros b; congruence).
  split; cbn; try done.
  - intros k c' [[-> ->]|[Hne H]]%lookup_insert_Some.
    + exists from. apply lookup_insert_eq.
    + destruct (inv_table s I _ _ H) as (a & Ha). exists a. rewrite lookup_insert_ne; [done|]. congruence.
  - intros c' a k p [[-> Heq]|[Hne H]]%lookup_insert_Some.
    + simplify_eq. split; [apply lookup_insert_eq|done].
    + apply (inv_loop s I) in H as [? ?]. by rewrite lookup_insert_ne.
  - intros c' a k [[-> Heq]|[Hne H]]%lookup_insert_Some; [simplify_eq; apply lookup_insert_eq|].
    apply (inv_reading s I) in H. rewrite lookup_insert_ne; [done|]. congruence.
  - intros c' [->%elem_of_singleton|H]%elem_of_union; [rewrite lookup_insert_eq; eauto|].
    apply (inv_open s I) in H. destruct (decide (c' = c)) as [->|]; [rewrite lookup_insert_eq; eauto|by rewrite lookup_insert_ne].
  - intros c' a [[_ <-]|[_ H]]%lookup_insert_Some; [done|]. by apply (inv_dialled s I) in H.
  - by intros a p [= -> ->]%list_elem_of_singleton.
  - intros a c' p [= <- <- <-]. exists from. split; [apply lookup_insert_eq|done].
  - intros a c' d H. destruct (inv_forwarded s I _ _ _ H) as (? & b & Hb & ?). split; [done|]. exists b.
    rewrite lookup_insert_ne; [done|]. intros ->. by eapply Hn.
  - intros a c' d H. destruct (inv_replied s I _ _ _ H) as (? & Hb). split; [done|].
    rewrite lookup_insert_ne; [done|]. intros ->. by eapply Hn.
Qed.

Lemma datagrams_not_empty d p : d ∈ datagrams p -> d <> [] /\ d = p.
Proof. destruct p; [by intros ?%elem_of_nil|]. by intros ->%list_elem_of_singleton. Qed.

Lemma inv_write s from c payload fails :
  inv s -> run s = RunWrite from c payload -> inv (write_backend s from c payload fails).
Proof.
  intros I Hr. assert (wf_addr from) as Hw by (apply (inv_hand s I from payload); rewrite Hr; by apply list_elem_of_singleton).
  pose proof (inv_order s I) as Ho. rewrite Hr in Ho.
  split; cbn; try apply I; try done.
  - by intros a p H%elem_of_nil.
  - intros a c' d [H|H]%elem_of_app; [by eapply (inv_forwarded s I)|].
    destruct (fails || _); [by apply elem_of_nil in H|]. apply list_elem_of_fmap in H as (d' & [= -> -> ->] & _).
    split; [done|]. by apply (inv_run s I) in Hr.
  - unfold passed in *. cbn. rewrite fmap_app, app_nil_r.
    destruct (fails || _); [by apply (order_drop s)|].
    destruct payload; [by apply (order_drop s)|exact Ho].
Qed.

Lemma inv_reply s c client key payload :
  inv s -> loops s !! c = Some (client, key, Reading) -> inv (reply s c client payload).
Proof.
  intros I Hlp. split; cbn; try apply I. intros a c' d [H|H]%elem_of_app; [by apply (inv_replied s I)|].
  apply list_elem_of_fmap in H as (d' & [= -> -> ->] & [Hd _]%datagrams_not_empty).
  split; [done|]. by apply (inv_loop s I) in Hlp as [? _].
Qed.

Lemma inv_forget s c client key :
  inv s -> loops s !! c = Some (client, key, Reading) -> lock_free s -> inv (forget s c client key).
Proof.
  intros I Hlp Hlock. pose proof (inv_loop s I _ _ _ _ Hlp) as [Hd Hk]. pose proof (inv_reading s I _ _ _ Hlp) as Ht.
  split; cbn; try apply I.
  - intros k c' [Hne H]%lookup_delete_Some. destruct (inv_table s I _ _ H) as (a & Ha). exists a.
    rewrite lookup_insert_ne; [done|]. intros <-. congruence.
  - intros c' a k p [[-> Heq]|[Hne H]]%lookup_insert_Some; [by simplify_eq|by apply (inv_loop s I) in H].
  - intros c' a k [[_ Heq]|[Hne H]]%lookup_insert_Some; [discriminate|]. apply (inv_reading s I) in H.
    rewrite lookup_delete_ne; [done|]. intros ->. congruence.
  - intros c' H%(inv_open s I). destruct (decide (c' = c)) as [->|]; [rewrite lookup_insert_eq; eauto|by rewrite lookup_insert_ne].
  - intros a k p Hr. unfold lock_free in Hlock. by rewrite Hr in Hlock.
Qed.

Lemma inv_close_conn s c client key : inv s -> loops s !! c = Some (client, key, Closing) -> inv (close_conn s c).
Proof.
  intros I Hlp. split; cbn; try apply I.
  - intros k c' H. destruct (inv_table s I _ _ H) as (a & Ha). exists a. rewrite lookup_delete_ne; [done|]. intros <-. congruence.
  - intros c' a k p [Hne H]%lookup_delete_Some. by apply (inv_loop s I) in H.
  - intros c' a k [Hne H]%lookup_delete_Some. by apply (inv_reading s I) in H.
  - intros c' [H Hne]%elem_of_difference. apply (inv_open s I) in H. rewrite lookup_delete_ne; [done|]. set_solver.
Qed.

Lemma udp_inv_step s s' : inv s -> step s s' -> inv s'.
Proof.
  intros I. destruct 1 as [s from payload Hr Hl Hw Hp|s from key payload Hr Hk|s from key payload dial Hr Hd
    |s from c payload fails Hr|s Hr|s c client key payload Hlp Hc Hl Hp|s c client key Hlp Hlock|s c client key Hlp|s Hc|s Hc Hlock].
  - split; cbn; try apply I; try done.
    + by intros a p [= -> ->]%list_elem_of_singleton.
    + apply sublist_app; [|done]. etrans; [|apply (order_drop s I)]. by rewrite app_nil_r.
  - by apply inv_lookup.
  - by apply inv_dial_done.
  - by apply inv_write.
  - split; cbn; try apply I; try done; [by intros a p H%elem_of_nil|by apply order_drop].
  - by eapply inv_reply.
  - by apply inv_forget.
  - by eapply inv_close_conn.
  - split; cbn; apply I.
  - split; cbn; try apply I. intros c [H _]%elem_of_difference. by apply (inv_open s I).
Qed.

Lemma udp_reachable_inv s : reachable s -> inv s.
Proof. induction 1; [apply inv_start|by eapply udp_inv_step]. Qed.

(** ** Sessions *)

(** The key of an address of the same family determines IP and port. *)
Lemma newConnTrackKey_inj a b :
  wf_addr a -> wf_addr b -> length (IP a) = length (IP b) -> newConnTrackKey a = newConnTrackKey b ->
  IP a = IP b /\ Port a = Port b.
Proof.
  unfold newConnTrackKey. intros [Ha Hla] [Hb Hlb] Hl. rewrite <- Hl. change net.IPv4len with 4%nat.
  destruct (Nat.eqb_spec (length (IP a)) 4) as [H4|H4].
  - intros [= H ->]. split; [|done]. by destruct (big_endian_inj _ _ 0 0 Hl Ha Hb H).
  - assert (length (IP a) = 16%nat) as H16 by lia. rewrite H16. cbn [Nat.ltb Nat.leb].
    rewrite <- (take_drop 8 (IP a)), forallb_app in Ha. rewrite <- (take_drop 8 (IP b)), forallb_app in Hb.
    apply andb_true_iff in Ha as [Ha1 Ha2], Hb as [Hb1 Hb2].
    rewrite !(take_ge (drop 8 _)) by (rewrite length_drop; lia). intros [= H1 H2 ->]. split; [|done].
    destruct (big_endian_inj (take 8 (IP a)) (take 8 (IP b)) 0 0) as [_ E1]; [rewrite !length_take; lia|done..|].
    destruct (big_endian_inj (drop 8 (IP a)) (drop 8 (IP b)) 0 0) as [_ E2]; [rewrite !length_drop; lia|done..|].
    by rewrite <- (take_drop 8 (IP a)), <- (take_drop 8 (IP b)), E1, E2.
Qed.

(** C13: however the goroutines are interleaved: the datagrams that [Run] writes to
    the connections are among those it read, with their senders, each once and
    in their order; what comes back on a connection goes to one client, and that
    client has the tracking key of every client whose datagrams were written to
    the connection; so, when the addresses are of one family and have the same
    IPv6 zone, which is not part of the key, it is that client; a key has one
    connection at a time; and no empty datagram is sent to a client. *)
Theorem udp_sessions s :
  reachable s ->
  passed s `sublist_of` received s /\
  (forall a b c d d', (c, a, d) ∈ replied s -> (b, c, d') ∈ forwarded s ->
     newConnTrackKey a = newConnTrackKey b /\ (length (IP a) = length (IP b) -> Zone a = Zone b -> a = b)) /\
  (forall a a' c d d', (c, a, d) ∈ replied s -> (c, a', d') ∈ replied s -> a = a' /\ d <> []) /\
  (forall c c' a b k, loops s !! c = Some (a, k, Reading) -> loops s !! c' = Some (b, k, Reading) -> c = c') /\
  (forall k c, connTrackTable s !! k = Some c -> exists a, loops s !! c = Some (a, k, Reading)).
Proof.
  intros I%udp_reachable_inv. split; [|split; [|split; [|split]]].
  - rewrite <- (app_nil_r (passed s)). by apply order_drop.
  - intros a b c d d' (Hd & Ha)%(inv_replied s I) (Hwb & a' & Hb & Hk)%(inv_forwarded s I).
    rewrite Ha in Hb. injection Hb as <-. split; [done|]. intros Hl Hz.
    destruct (newConnTrackKey_inj a b (inv_dialled s I _ _ Ha) Hwb Hl Hk) as [E1 E2].
    destruct a, b; cbn in *. congruence.
  - intros a a' c d d' (Hd & Ha)%(inv_replied s I) (_ & Ha')%(inv_replied s I). split; [congruence|done].
  - intros c c' a b k H1%(inv_reading s I) H2%(inv_reading s I). congruence.
  - apply (inv_table s I).
Qed.

(** ** Runs *)
Definition linklocal (zone : str) : UDPAddr := mkUDPAddr ([254; 128] ++ replicate 13 0 ++ [1]) 5000 zone.
Definition client4 (port : Z) : UDPAddr := mkUDPAddr [192; 0; 2; 1] port [].
Definition key_of (a : UDPAddr) : connTrackKey := match newConnTrackKey a with Ok k => k | Err _ => mkKey 0 0 0 end.

(** A datagram is read, its connection looked up or dialled. *)
Definition looked_up (s : state) (from : UDPAddr) (payload : str) (dial : option Z) : state :=
  let s1 := lookup (receive s from payload) from (key_of from) payload in
  match run s1 with RunDial a k p => dial_done s1 a k p dial | _ => s1 end.

(** And it is written. *)
Definition one_datagram (s : state) (from : UDPAddr) (payload : str) (dial : option Z) : state :=
  let s2 := looked_up s from payload dial in
  match run s2 with RunWrite a c p => write_backend s2 a c p false | _ => s2 end.

Lemma one_datagram_reachable s from payload dial :
  reachable s -> run s = RunIdle -> listener_open s = true -> wf_addr from -> (length payload <= UDPBufSize)%nat ->
  newConnTrackKey from = Ok (key_of from) -> (forall c, dial = Some c -> dialled s !! c = None) ->
  reachable (one_datagram s from payload dial).
Proof.
  intros Hs Hr Hl Hw Hp Hk Hd. unfold one_datagram.
  assert (reachable (looked_up s from payload dial)) as H.
  { assert (reachable (lookup (receive s from payload) from (key_of from) payload)) as H1
      by (eapply reach_step; [eapply reach_step; [exact Hs|by apply step_datagram]|by apply step_lookup]).
    unfold looked_up. destruct (run (lookup _ _ _ _)) as [|??|a k p|a c p|] eqn:E; try done.
    eapply reach_step; [exact H1|]. apply step_dial; [done|]. intros c Hc. specialize (Hd c Hc).
    unfold lookup in *. by destruct (connTrackTable _ !! _). }
  destruct (run (looked_up _ _ _ _)) as [|??|a k p|a c p|] eqn:E; try done. eapply reach_step; [exact H|by apply step_write].
Qed.

Lemma small_payload (p : str) : (Z.of_nat (length p) <=? 65507) = true -> (length p <= UDPBufSize)%nat.
Proof. intros H%Z.leb_le. unfold UDPBufSize. lia. Qed.

Ltac one_datagram_tac :=
  apply one_datagram_reachable;
  [try done|done|done|by split; [vm_compute|cbn; lia]|by apply small_payload|done|intros ? [= <-]; vm_compute; reflexivity].

Definition confused1 : state := one_datagram start (linklocal "eth0") "a" (Some 1).
Definition confused2 : state := one_datagram confused1 (linklocal "eth1") "b" (Some 2).
Definition confused : state := reply confused2 1 (linklocal "eth0") "answer to b".

Lemma confused_reachable : reachable confused.
Proof.
  assert (reachable confused1) as H1 by (one_datagram_tac; apply reach_start).
  assert (reachable confused2) as H2 by one_datagram_tac.
  eapply reach_step; [exact H2|].
  apply (step_reply _ 1 (linklocal "eth0") (key_of (linklocal "eth0"))); [vm_compute; reflexivity| |done|by apply small_payload].
  apply (bool_decide_unpack _). vm_compute. exact I.
Qed.

(** The zone of an IPv6 address is not part of the key: two clients that have
    the same link-local address on two networks share a connection, and both get
    the answers sent to the first. *)
Lemma udp_zone_confusion :
  exists s a b c d d', reachable s /\ (b, c, d) ∈ forwarded s /\ (c, a, d') ∈ replied s /\
    IP a = IP b /\ Port a = Port b /\ Zone a <> Zone b.
Proof.
  exists confused, (linklocal "eth0"), (linklocal "eth1"), 1, (lit "b"), (lit "answer to b").
  split; [apply confused_reachable|].
  split; [vm_compute; right; left|]. split; [vm_compute; left|]. done.
Qed.

(** [Close] may end before [Run] dials: the connection that is dialled then is
    in the table and open, and only its read deadline ends it. *)
Lemma udp_conn_after_close :
  exists s c, reachable s /\ closing s = CloseDone /\ run s = RunDone /\ c ∈ conns s.
Proof.
  pose (a := client4 5000). pose (s1 := receive start a "x"). pose (s2 := close_all (close_listener s1)).
  pose (s3 := dial_done (lookup s2 a (key_of a) "x") a (key_of a) "x" (Some 1)).
  exists (set_run (write_backend s3 a 1 "x" false) RunDone), 1.
  split; [|split; [done|split; [done|apply (bool_decide_unpack _); vm_compute; exact I]]].
  eapply reach_step; [|by apply step_read_error]. eapply reach_step; [|by apply step_write].
  eapply reach_step; [|apply step_dial; [done|intros c _; done]]. eapply reach_step; [|by apply step_lookup].
  eapply reach_step; [|by apply step_close_all]. eapply reach_step; [|by apply step_close_listener].
  eapply reach_step; [apply reach_start|].
  apply step_datagram; [done|done|by split; [vm_compute|cbn; lia]|by apply small_payload].
Qed.

(** Two clients on one host: each has its connection, and the answer goes to the
    second, which has sent the datagram. *)
Definition talked1 : state := one_datagram start (client4 5000) "a" (Some 1).
Definition talked2 : state := one_datagram talked1 (client4 6000) "b" (Some 2).
Definition talked : state := reply talked2 2 (client4 6000) "answer to b".

Lemma talked_reachable : reachable talked.
Proof.
  assert (reachable talked1) as H1 by (one_datagram_tac; apply reach_start).
  assert (reachable talked2) as H2 by one_datagram_tac.
  eapply reach_step; [exact H2|].
  apply (step_reply _ 2 (client4 6000) (key_of (client4 6000))); [vm_compute; reflexivity| |done|by apply small_payload].
  apply (bool_decide_unpack _). vm_compute. exact I.
Qed.

Theorem udp_sessions_witness :
  replied talked = [(2, client4 6000, lit "answer to b")] /\
  passed talked = [(client4 5000, lit "a"); (client4 6000, lit "b")] /\
  passed talked `sublist_of` received talked /\
  newConnTrackKey (client4 6000) <> newConnTrackKey (client4 5000) /\
  ~ (client4 5000, 2, lit "a") ∈ forwarded talked.
Proof.
  destruct (udp_sessions talked talked_reachable) as (Hs & H & _).
  split; [vm_compute; reflexivity|]. split; [vm_compute; reflexivity|]. split; [exact Hs|].
  split; [discriminate|]. intros Hf.
  assert ((2, client4 6000, lit "answer to b") ∈ replied talked) as Hr by (vm_compute; left).
  destruct (H _ _ _ _ _ Hr Hf) as (Hk & _). discriminate Hk.
Defined.
