(* ===== verification/PortProxy.v ===== *)
(** * pkg/port/builtin/parent: the proxies of the builtin port driver

    How the parent waits for the child and serves a published port: the program
    of [RunParentDriver], of the start of a port and of one TCP connection (in
    which the copying, modelled in Bicopy.v, is one call), the dialler of the UDP
    proxy, and the goroutines of the TCP proxy as a step relation. *)
From S2P Require Import Prelude GoStrings NetIP PortSpec Effects Framing PortMsg PortChild.
Import port msg msg_ops builtin_child.

Module proxy.
Section programs.
Context `{Cmsg}.

Definition RunParentDriver (childReadyPipePath socketPath : str) : sio (result unit) :=
  childReadyPipeR <-! scall (OpenPipe childReadyPipePath false) ;;
  _ <-! scall (ReadAll childReadyPipeR) ;;
  _ <- scall (CloseFile childReadyPipeR) ;;
  conn <-! scall (DialUnix socketPath) ;;
  err <- Initiate conn ;;
  _ <- scall (CloseConn conn) ;;
  match err with
  | Err e => sfail e
  | Ok _ =>
      _ <- scall InitComplete ;;
      _ <- scall WaitQuit ;;
      Ret (Ok tt)
  end.

Definition retries : Z := 10.

Definition copyConnToChild (fuel : nat) (c : Z) (socketPath : str) (spec : Spec) : sio (result unit) :=
  defer (scall (CloseConn c))
    (addr <- scall (RemoteAddr c) ;;
     fd <-! ConnectToChildWithRetry fuel socketPath spec retries (Some addr) ;;
     f <- scall (NewFile fd) ;;
     defer (scall (CloseConn f))
       (fc <-! scall (FileConn f) ;;
        defer (scall (CloseConn fc))
          (_ <- scall (Bicopy c fc) ;;
           Ret (Ok tt)))).

(** [tcp.Run] and [udp.Run] until their goroutines have started; the listener
    is what these serve. *)
Definition host_port (spec : Spec) : str := net.JoinHostPort (port.ParentIP spec) (strconv.Itoa (port.ParentPort spec)).

Definition tcp_Run (spec : Spec) : sio (result Z) :=
  ln <- scall (ListenTCP (port.Proto spec) (host_port spec)) ;;
  match ln with
  | Err e => _ <- scall (Log "listen") ;; sfail e
  | Ok ln => _ <- scall (GoProxy ln) ;; Ret (Ok ln)
  end.

Definition udp_Run (spec : Spec) : sio (result Z) :=
  addr <-! scall (ResolveUDPAddr (port.Proto spec) (host_port spec)) ;;
  c <-! scall (ListenUDP (port.Proto spec) addr) ;;
  _ <- scall (GoProxy c) ;;
  Ret (Ok c).

(** The [BackendDial] of the UDP proxy. *)
Definition backend_dial (fuel : nat) (socketPath : str) (spec : Spec) : sio (result Z) :=
  fd <-! ConnectToChildWithRetry fuel socketPath spec retries None ;;
  f <- scall (NewFile fd) ;;
  defer (scall (CloseConn f))
    (fc <-! scall (FileConn f) ;;
     ok <- scall (IsUDPConn fc) ;;
     if (ok : bool) then Ret (Ok fc)
     else sfail (Errorf "file conn doesn't implement *net.UDPConn: %+v" [])).
End programs.

(** ** The goroutines of tcp.Run *)

(** The goroutine that accepts: in [Accept], sending a connection to
    [newConns], or ended (after closing [newConns]). *)
Inductive acceptor : Set := Accepting | Handing (c : Z) | AcceptorDone.
(** The goroutine that selects: it then closes the listener and sends the
    result to [stoppedCh], which is not buffered. *)
Inductive selector : Set := Selecting | Sending | SelectorDone.
(** The [stopper] that [RemovePort] calls: it closes [stopCh] and waits for
    [stoppedCh] or its context. *)
Inductive stopper : Set := StopNot | StopWaiting | StopGot | StopTimeout.

Record tcp_state : Type := mkTcp {
  acc : acceptor;
  sel : selector;
  stop : stopper;
  ln_open : bool;            (** the listener *)
  accepted : list Z;
  copying : list Z;          (** connections given to [copyConnToChild] *)
}.

Definition tcp_start : tcp_state := mkTcp Accepting Selecting StopNot true [] [].

(** The selecting goroutine leaves its loop. *)
Definition sel_return (s : tcp_state) : tcp_state := mkTcp (acc s) Sending (stop s) false (accepted s) (copying s).

Inductive tcp_step : tcp_state -> tcp_state -> Prop :=
  | tcp_accept s c :
      acc s = Accepting -> ln_open s = true ->
      tcp_step s (mkTcp (Handing c) (sel s) (stop s) (ln_open s) (c :: accepted s) (copying s))
  | tcp_accept_error s :
      acc s = Accepting ->
      tcp_step s (mkTcp AcceptorDone (sel s) (stop s) (ln_open s) (accepted s) (copying s))
  | tcp_hand s c :
      acc s = Handing c -> sel s = Selecting ->
      tcp_step s (mkTcp Accepting (sel s) (stop s) (ln_open s) (accepted s) (c :: copying s))
  | tcp_no_more s : acc s = AcceptorDone -> sel s = Selecting -> tcp_step s (sel_return s)
  | tcp_stopped s : stop s <> StopNot -> sel s = Selecting -> tcp_step s (sel_return s)
  | tcp_stop s :
      stop s = StopNot -> tcp_step s (mkTcp (acc s) (sel s) StopWaiting (ln_open s) (accepted s) (copying s))
  | tcp_received s :
      sel s = Sending -> stop s = StopWaiting ->
      tcp_step s (mkTcp (acc s) SelectorDone StopGot (ln_open s) (accepted s) (copying s))
  | tcp_timeout s :
      stop s = StopWaiting -> tcp_step s (mkTcp (acc s) (sel s) StopTimeout (ln_open s) (accepted s) (copying s)).

Inductive tcp_steps (s : tcp_state) : tcp_state -> Prop :=
  | tcp_refl : tcp_steps s s
  | tcp_more s' s'' : tcp_steps s s' -> tcp_step s' s'' -> tcp_steps s s''.

(** The scheduler, and the choice of a [select] with two ready cases: the
    goroutine that selects does not overlook the closed stop channel for ever. *)
Definition stop_selected (r : nat -> tcp_state) : Prop :=
  forall n, stop (r n) <> StopNot -> exists m, (n <= m)%nat /\ sel (r m) <> Selecting.

(** Nothing happens any more. *)
Definition tcp_final (s : tcp_state) : Prop := forall s', ~ tcp_step s s'.

End proxy.
Import proxy.

Definition held (a : acceptor) : list Z := match a with Handing c => [c] | _ => [] end.

Record tcp_inv (s : tcp_state) : Prop := {
  tcp_conns : accepted s ≡ₚ held (acc s) ++ copying s;
  tcp_listener : ln_open s = true <-> sel s = Selecting;
  tcp_got : stop s = StopGot <-> sel s = SelectorDone;
}.

Lemma tcp_inv_step s s' : tcp_inv s -> tcp_step s s' -> tcp_inv s'.
Proof.
  intros [Hc Hl Hg]. destruct 1 as [s c Ha Ho|s Ha|s c Ha Hsel|s Ha Hsel|s Hst Hsel|s Hst|s Hsel Hst|s Hst];
    rewrite ?Ha in *; split; cbn in *; rewrite ?Ha; try done.
  1: by rewrite Hc.
  all: try rewrite Hsel in *; try rewrite Hst in *; naive_solver.
Qed.

Lemma tcp_inv_steps s s' : tcp_inv s -> tcp_steps s s' -> tcp_inv s'.
Proof. intros I. induction 1; [done|by eapply tcp_inv_step]. Qed.

Lemma tcp_inv_start : tcp_inv tcp_start.
Proof. by split. Qed.

Lemma tcp_stop_stays s s' : stop s <> StopNot -> tcp_step s s' -> stop s' <> StopNot.
Proof. intros Hs. by destruct 1. Qed.

(** After the listener is closed at most four things happen. *)
Definition tcp_work (s : tcp_state) : nat :=
  (match acc s with Accepting => 1 | _ => 0 end + match sel s with Sending => 1 | _ => 0 end +
   match stop s with StopNot => 2 | StopWaiting => 1 | _ => 0 end)%nat.

Lemma tcp_terminates s : tcp_inv s -> ln_open s = false -> Acc (fun b a => tcp_step a b) s.
Proof.
  remember (tcp_work s) as n eqn:En. revert s En. induction n as [n IH] using lt_wf_ind. intros s -> I Hl.
  constructor. intros s' Hs. assert (tcp_inv s') as I' by (by eapply tcp_inv_step). destruct I as [_ Hln _].
  enough (ln_open s' = false /\ (tcp_work s' < tcp_work s)%nat) as [? ?] by (by eapply IH).
  unfold tcp_work. destruct Hs as [s c Ha Ho|s Ha|s c Ha Hsel|s Ha Hsel|s Hst Hsel|s Hst|s Hsel Hst|s Hst];
    cbn; try (rewrite (proj2 Hln Hsel) in Hl; discriminate); [congruence|..]; (split; [done|]).
  - rewrite Ha. lia.
  - rewrite Hst. lia.
  - rewrite Hsel, Hst. lia.
  - rewrite Hst. lia.
Qed.


Definition tcp_stuck (c : Z) : tcp_state := mkTcp (Handing c) SelectorDone StopGot false [c] [].

(** A connection that is accepted while the port is removed stays with the
    accepting goroutine: nobody receives it, so that it is never closed. *)
Lemma tcp_connection_leaks c :
  tcp_steps tcp_start (tcp_stuck c) /\ (forall s, tcp_steps (tcp_stuck c) s -> acc s = Handing c /\ copying s = []).
Proof.
  split.
  - eapply tcp_more; [eapply tcp_more; [eapply tcp_more; [eapply tcp_more; [apply tcp_refl|]|]|]|].
    + by apply (tcp_accept _ c).
    + by apply tcp_stop.
    + by apply tcp_stopped.
    + by apply (tcp_received (mkTcp (Handing c) Sending StopWaiting false [c] [])).
  - intros s Hs. assert (s = tcp_stuck c) as ->; [|done]. induction Hs as [|s s' _ -> Hs]; [done|].
    inversion Hs; subst; cbn in *; congruence.
Qed.

(** A port that is stopped while a connection is accepted. *)
Definition tcp_stopping : tcp_state := mkTcp (Handing 7) Sending StopWaiting false [7] [].

Lemma tcp_stopping_reachable : tcp_steps tcp_start tcp_stopping.
Proof.
  eapply tcp_more; [eapply tcp_more; [eapply tcp_more; [apply tcp_refl|]|]|].
  - by apply (tcp_accept _ 7).
  - by apply tcp_stop.
  - by apply (tcp_stopped (mkTcp (Handing 7) Selecting StopWaiting true [7] [])).
Qed.


(** ** The programs close what they open *)
Section proxy_facts.
Context `{CM : Cmsg}.

Lemma ConnectToChildWithSocketPath_balanced fuel path spec src : fd_balanced (ConnectToChildWithSocketPath fuel path spec src).
Proof.
  intros s. unfold ConnectToChildWithSocketPath, ebind. apply tracks_bind. intros [c|e]; cbn [fd_step tracks]; [|done].
  apply fd_defer_close, fd_balanced_only. unfold ConnectToChild, hostGatewayIP.
  apply only_bind; [by apply only_bind|]. intros gw. apply only_ebind; [by split|]. intros _.
  apply only_ebind; [by split|]. intros _. apply only_ebind; [by apply retry_eintr_only|]. intros oob.
  destruct (negb _); [done|]. destruct (parseFDFromOOB oob); [|done]. by apply only_ebind.
Qed.

Lemma retry_loop_balanced {A} (attempt : sio (result A)) i n : fd_balanced attempt -> fd_balanced (retry_loop attempt i n).
Proof.
  intros Ha. revert i; induction n as [|n IH]; intros i; [done|]. cbn [retry_loop]. apply fd_balanced_bind; [done|].
  intros [x|e]; [done|]. destruct n as [|n]; [done|]. apply fd_balanced_bind; [by apply fd_balanced_only|]. intros []. apply IH.
Qed.

(** Whatever fails, the proxy of a TCP connection closes the client's
    connection, the descriptor it got from the child and the connection made of
    it, each once. *)
Theorem copyConnToChild_closes fuel c path spec t r :
  behaves (copyConnToChild fuel c path spec) t r -> steps fd_step [c] t = Some [].
Proof.
  intros Hb. assert (tracks fd_step (copyConnToChild fuel c path spec) [c] (fun _ s => s = [])) as Ht.
  { unfold copyConnToChild. apply fd_defer_close. apply fd_balanced_bind; [by apply fd_balanced_only|]. intros addr.
    apply fd_balanced_bind; [apply retry_loop_balanced, ConnectToChildWithSocketPath_balanced|]. intros [fd|e]; [|done].
    intros s. apply tracks_bind. intros f. cbn [fd_step tracks]. apply fd_defer_close. intros s1.
    apply tracks_bind. intros [fc|e]; cbn [fd_step tracks]; [|done]. apply fd_defer_close, fd_balanced_only. by split. }
  by destruct (tracks_behaves _ _ _ _ _ _ Ht Hb) as (s & -> & ->).
Qed.
End proxy_facts.

Theorem copyConnToChild_closes_witness :
  exists t r, behaves (copyConnToChild (H := plain_cmsg) 1 20 "sock" (mkSpec "tcp" [] 8080 80 [])) t r /\ steps fd_step [20] t = Some [].
Proof.
  destruct (exec_behaves ok_sock (copyConnToChild (H := plain_cmsg) 1 20 "sock" (mkSpec "tcp" [] 8080 80 []))) as (t & Hb & _).
  eexists t, _. split; [exact Hb|]. exact (copyConnToChild_closes (CM := plain_cmsg) _ _ _ _ _ _ Hb).
Defined.
