(* ===== verification/UdpPort.v ===== *)
(** * pkg/port/builtin/parent/udp: a UDP port and how it stops

    [udp.Run] starts the goroutine of the proxy (UdpProxy.v) and one that waits
    for the stop channel, closes the proxy and reports on a channel that is not
    buffered; the stopper of [AddPort] (PortProxy.v) closes the first channel and
    waits for the second or its context.  Once the listener is closed every
    execution ends, with everything closed. *)
From stdpp Require Import gmap.
From S2P Require Import Prelude NetIP Effects PortMsg PortChild PortProxy UdpProxy.
Import udpproxy.

Module udp.

Record port_state : Type := mkPort {
  px : udpproxy.state;
  stopper : proxy.stopper;
}.

Definition port_start : port_state := mkPort udpproxy.start proxy.StopNot.

Inductive port_step : port_state -> port_state -> Prop :=
  (** the proxy, but for [Close] *)
  | port_proxy s px' :
      udpproxy.step (px s) px' -> closing px' = closing (px s) ->
      port_step s (mkPort px' (stopper s))
  | port_stop s : stopper s = proxy.StopNot -> port_step s (mkPort (px s) proxy.StopWaiting)
  (** the goroutine: [udpp.Close()], then [stoppedCh <- nil] *)
  | port_close_listener s :
      stopper s <> proxy.StopNot -> closing (px s) = CloseNot ->
      port_step s (mkPort (close_listener (px s)) (stopper s))
  | port_close_all s :
      closing (px s) = CloseListener -> lock_free (px s) -> port_step s (mkPort (close_all (px s)) (stopper s))
  | port_received s :
      closing (px s) = CloseDone -> stopper s = proxy.StopWaiting ->
      port_step s (mkPort (px s) proxy.StopGot)
  | port_timeout s : stopper s = proxy.StopWaiting -> port_step s (mkPort (px s) proxy.StopTimeout).

Inductive port_steps (s : port_state) : port_state -> Prop :=
  | port_refl : port_steps s s
  | port_more s' s'' : port_steps s s' -> port_step s' s'' -> port_steps s s''.

(** The scheduler: the goroutine that waits for the stop channel gets to its
    first call, closing the listener, which cannot block. *)
Definition stop_noticed (r : nat -> port_state) : Prop :=
  forall n, stopper (r n) <> proxy.StopNot -> exists m, (n <= m)%nat /\ closing (px (r m)) <> CloseNot.

(** Nothing happens any more, and nobody is waited for. *)
Definition port_final (s : port_state) : Prop := forall s', ~ port_step s s'.

(** Everything that belongs to the port has ended and is closed. *)
Record port_ended (s : port_state) : Prop := {
  ended_listener : listener_open (px s) = false;
  ended_close : closing (px s) = CloseDone;
  ended_run : run (px s) = RunDone;
  ended_loops : loops (px s) = ∅;
  ended_table : connTrackTable (px s) = ∅;
  ended_conns : conns (px s) = ∅;
  ended_stopper : stopper s = proxy.StopGot \/ stopper s = proxy.StopTimeout;
}.

End udp.
Import udp.

(** The connections that a client still has after the port was closed. *)
Definition left_open (p : udpproxy.state) (c : Z) : Prop := c ∈ conns p /\ exists k, connTrackTable p !! k = Some c.

(** [Run] has a datagram in hand for which it may dial. *)
Definition about_to_dial (p : udpproxy.state) : Prop :=
  match run p with RunGot _ _ | RunDial _ _ _ => True | _ => False end.

Record port_inv (s : port_state) : Prop := {
  port_reach : reachable (px s);
  port_listener : listener_open (px s) = true <-> closing (px s) = CloseNot;
  port_got : stopper s = proxy.StopGot -> closing (px s) = CloseDone;
  port_waits : stopper s = proxy.StopNot -> closing (px s) = CloseNot;
  (** what [Close] closed stays closed; [Run] dials at most once more *)
  port_none : closing (px s) = CloseDone -> about_to_dial (px s) -> forall c, ~ left_open (px s) c;
  port_one : closing (px s) = CloseDone -> forall c c', left_open (px s) c -> left_open (px s) c' -> c = c';
}.

(** What a step of the proxy other than [Close] does after [Close]. *)
Lemma step_after_close p p' :
  udpproxy.step p p' -> closing p' = closing p ->
  listener_open p' = listener_open p /\
  (listener_open p = false ->
    (about_to_dial p' -> about_to_dial p) /\
    ((forall c, left_open p' c -> left_open p c) \/
     exists c0, about_to_dial p /\ ~ about_to_dial p' /\ forall c, left_open p' c -> c = c0 \/ left_open p c)).
Proof.
  unfold about_to_dial.
  destruct 1 as [s from payload Hr Hl Hw Hp|s from key payload Hr Hk|s from key payload dial Hr Hd
    |s from c payload fails Hr|s Hr|s c client key payload Hlp Hc Hl Hp|s c client key Hlp Hlock|s c client key Hlp|s Hc|s Hc Hlock];
    intros E.
  - split; [done|]. congruence.
  - unfold lookup. destruct (connTrackTable s !! key); (split; [done|]; intros _; rewrite Hr; split; [done|by left]).
  - destruct dial as [c0|]; (split; [done|]; intros _; rewrite Hr; split; [done|]); [right|by left].
    exists c0. split; [done|]. split; [by intros []|]. intros c' [Hc (k & Hkc)]. cbn in Hc, Hkc.
    apply lookup_insert_Some in Hkc as [[_ <-]|[_ Hkc]]; [by left|].
    apply elem_of_union in Hc as [Hc%elem_of_singleton|Hc]; [by left|right]. split; [done|by exists k].
  - split; [done|]. intros _. split; [done|]. by left.
  - split; [done|]. intros _. split; [done|]. by left.
  - split; [done|]. congruence.
  - split; [done|]. intros _. split; [done|]. left. intros c' [Hc (k & Hk)]. split; [done|].
    cbn in Hk. apply lookup_delete_Some in Hk as [_ Hk]. by exists k.
  - split; [done|]. intros _. split; [done|]. left. intros c' [Hc (k & Hk)]. split; [|by exists k].
    cbn in Hc. by apply elem_of_difference in Hc as [Hc _].
  - cbn in E. congruence.
  - cbn in E. congruence.
Qed.

Lemma listener_closed s : port_inv s -> closing (px s) <> CloseNot -> listener_open (px s) = false.
Proof. intros I Hc. destruct (listener_open (px s)) eqn:E; [|done]. by apply (port_listener s I) in E. Qed.

Lemma port_inv_step s s' : port_inv s -> port_step s s' -> port_inv s'.
Proof.
  intros I. destruct 1 as [s p' Hs Hc|s Hst|s Hst Hc|s Hc Hlock|s Hc Hst|s Hst].
  - destruct (step_after_close _ _ Hs Hc) as [Hl Hafter]. split; cbn; rewrite ?Hl, ?Hc; try apply I.
    + eapply reach_step; [apply I|done].
    + intros Hd Hr c Ho. destruct (Hafter (listener_closed s I ltac:(congruence))) as [Hrun [Hsub|(c0 & _ & Hno & _)]]; [|done].
      eapply (port_none s I Hd); [by apply Hrun|by apply Hsub].
    + intros Hd c c' Ho Ho'. destruct (Hafter (listener_closed s I ltac:(congruence))) as [Hrun [Hsub|(c0 & Hr & _ & Hone)]].
      * apply (port_one s I Hd); by apply Hsub.
      * pose proof (port_none s I Hd Hr) as Hnone.
        destruct (Hone c Ho) as [->|Hc1]; [|by apply Hnone in Hc1]. by destruct (Hone c' Ho') as [->|Hc2]; [|apply Hnone in Hc2].
  - split; cbn; try apply I; done.
  - split; cbn; try done; [eapply reach_step; [apply I|by apply step_close_listener]|].
    intros Hg%(port_got s I). congruence.
  - assert (forall c, ~ left_open (close_all (px s)) c) as Hnone.
    { intros c [Hc' (k & Hk)]. cbn in Hc', Hk. apply elem_of_difference in Hc' as [_ Hn]. apply Hn.
      by eapply elem_of_map_img_2. }
    split; cbn; try done.
    + eapply reach_step; [apply I|by apply step_close_all].
    + rewrite (port_listener s I). by rewrite Hc.
    + intros Hst. apply (port_waits s I) in Hst. congruence.
    + intros _ c c' Ho. by apply Hnone in Ho.
  - split; cbn; try apply I; done.
  - split; cbn; try apply I; done.
Qed.

Lemma port_inv_steps s s' : port_inv s -> port_steps s s' -> port_inv s'.
Proof. intros I. induction 1; [done|by eapply port_inv_step]. Qed.

Lemma port_inv_start : port_inv port_start.
Proof. split; cbn; try done. apply reach_start. Qed.

(** ** Every execution ends *)

Definition run_work (r : run_state) : nat :=
  match r with RunGot _ _ => 6 | RunDial _ _ _ => 5 | RunWrite _ _ _ => 2 | RunIdle => 1 | RunDone => 0 end.
Definition close_work (c : close_state) : nat := match c with CloseNot => 2 | CloseListener => 1 | CloseDone => 0 end.
Definition stop_work (s : proxy.stopper) : nat :=
  match s with proxy.StopNot => 2 | proxy.StopWaiting => 1 | _ => 0 end.

(** A reply loop that reads has an entry in the table. *)
Definition port_work (s : port_state) : nat :=
  size (loops (px s)) + size (connTrackTable (px s)) + run_work (run (px s)) + close_work (closing (px s)) + stop_work (stopper s).

Lemma size_insert_le `{Countable K} {A} (m : gmap K A) k x : (size (<[k:=x]> m) <= S (size m))%nat.
Proof. rewrite map_size_insert. destruct (m !! k); cbn; lia. Qed.

Lemma size_delete_lt `{Countable K} {A} (m : gmap K A) k x : m !! k = Some x -> (size (delete k m) < size m)%nat.
Proof. intros Hk. rewrite map_size_delete, Hk. cbn. pose proof (map_size_ne_0_lookup_2 m k (ltac:(by eexists))). lia. Qed.

Lemma proxy_work p p' st :
  UdpProxy.inv p -> listener_open p = false -> udpproxy.step p p' -> closing p' = closing p ->
  (port_work (mkPort p' st) < port_work (mkPort p st))%nat.
Proof.
  intros I Hlo. unfold port_work.
  destruct 1 as [s from payload Hr Hl Hw Hp|s from key payload Hr Hk|s from key payload dial Hr Hd
    |s from c payload fails Hr|s Hr|s c client key payload Hlp Hc Hl Hp|s c client key Hlp Hlock|s c client key Hlp|s Hc|s Hc Hlock];
    intros E; cbn in E |- *; try congruence; rewrite ?Hr.
  - unfold lookup. destruct (connTrackTable s !! key); cbn; lia.
  - destruct dial as [c|]; cbn; [|lia].
    pose proof (size_insert_le (loops s) c (from, key, Reading)). pose proof (size_insert_le (connTrackTable s) key c). lia.
  - cbn. lia.
  - cbn. lia.
  - pose proof (size_delete_lt _ _ _ (inv_reading s I _ _ _ Hlp)).
    rewrite map_size_insert, Hlp. cbn. lia.
  - pose proof (size_delete_lt _ _ _ Hlp). lia.
Qed.

Lemma port_work_step s s' :
  port_inv s -> listener_open (px s) = false -> port_step s s' -> (port_work s' < port_work s)%nat.
Proof.
  intros I Hl. destruct 1 as [s p' Hs Hc|s Hst|s Hst Hc|s Hc Hlock|s Hc Hst|s Hst].
  - destruct s as [p st]. apply proxy_work; [apply udp_reachable_inv, I|done..].
  - unfold port_work. cbn. rewrite Hst. cbn. lia.
  - apply (port_listener s I) in Hc. congruence.
  - unfold port_work. cbn. rewrite Hc. cbn. lia.
  - unfold port_work. cbn. rewrite Hst. cbn. lia.
  - unfold port_work. cbn. rewrite Hst. cbn. lia.
Qed.

Lemma listener_stays_closed s s' :
  port_inv s -> listener_open (px s) = false -> port_step s s' -> listener_open (px s') = false.
Proof.
  intros I Hl. destruct 1 as [s p' Hs Hc|s Hst|s Hst Hc|s Hc Hlock|s Hc Hst|s Hst]; cbn; try done.
  by destruct (step_after_close _ _ Hs Hc) as [-> _].
Qed.

Lemma port_terminates s : port_inv s -> listener_open (px s) = false -> Acc (fun b a => port_step a b) s.
Proof.
  remember (port_work s) as n eqn:En. revert s En. induction n as [n IH] using lt_wf_ind. intros s -> I Hl.
  constructor. intros s' Hs. eapply IH; [by apply port_work_step|done|by eapply port_inv_step|by eapply listener_stays_closed].
Qed.

Lemma stop_stays s s' : stopper s <> proxy.StopNot -> port_step s s' -> stopper s' <> proxy.StopNot.
Proof. intros Hs. by destruct 1. Qed.

Lemma newConnTrackKey_ok a : wf_addr a -> exists k, newConnTrackKey a = Ok k.
Proof.
  intros [_ Hl]. unfold newConnTrackKey. destruct (_ =? _)%nat eqn:E; [by eexists|]. apply Nat.eqb_neq in E.
  change net.IPv4len with 4%nat in E. assert (length (IP a) = 16%nat) as -> by lia. cbn. by eexists.
Qed.

(** Where nothing is left to do, all is closed. *)
Lemma final_ended s : port_inv s -> stopper s <> proxy.StopNot -> port_final s -> port_ended s.
Proof.
  intros I Hst Hf. pose proof (udp_reachable_inv _ (port_reach s I)) as P.
  assert (closing (px s) <> CloseNot) as Hc by (intros Hc; by apply (Hf _ (port_close_listener s Hst Hc))).
  assert (forall p', udpproxy.step (px s) p' -> closing p' <> closing (px s)) as Hp
    by (intros p' Hs He; by apply (Hf _ (port_proxy s p' Hs He))).
  assert (run (px s) = RunDone) as Hr.
  { destruct (run (px s)) as [|a d|a k d|a c d|] eqn:E; [| | | |done]; exfalso.
    - by eapply Hp; [by apply step_read_error|].
    - destruct (newConnTrackKey_ok a) as [k Hk]; [apply (inv_hand _ P a d); rewrite E; by apply list_elem_of_singleton|].
      eapply Hp; [by apply (step_lookup _ a k d)|]. unfold lookup. by destruct (_ !! _).
    - by eapply Hp; [by apply (step_dial _ a k d None)|].
    - by eapply Hp; [by apply (step_write _ a c d true)|]. }
  assert (lock_free (px s)) as Hlock by (unfold lock_free; by rewrite Hr).
  assert (loops (px s) = ∅) as Hls.
  { apply map_eq. intros c. rewrite lookup_empty. destruct (loops (px s) !! c) as [[[a k] [|]]|] eqn:E; [| |done]; exfalso.
    - by eapply Hp; [by eapply step_reply_error|].
    - by eapply Hp; [by eapply step_reply_close|]. }
  split; [by apply listener_closed| |done|done| | |].
  - destruct (closing (px s)) eqn:E; [done| |done]. by destruct (Hf _ (port_close_all s E Hlock)).
  - apply map_eq. intros k. rewrite lookup_empty. destruct (connTrackTable (px s) !! k) eqn:E; [|done].
    apply (inv_table _ P) in E as [a Ha]. by rewrite Hls, lookup_empty in Ha.
  - apply set_eq. intros c. split; [|by intros ?%elem_of_empty]. intros Hi%(inv_open _ P).
    rewrite Hls, lookup_empty in Hi. by destruct Hi.
  - destruct (stopper s) eqn:E; [done| |by left|by right]. by destruct (Hf _ (port_timeout s E)).
Qed.


(** A port that is stopped while its proxy dials: [Close] waits for the lock.
    The dial fails, and the port comes to its end. *)
Definition dialling : udpproxy.state := lookup (receive udpproxy.start (client4 5000) "x") (client4 5000) (key_of (client4 5000)) "x".
Definition waiting_for_dial : port_state := mkPort (close_listener dialling) proxy.StopWaiting.
Definition after_dial : port_state :=
  mkPort (close_all (set_run (dial_done (close_listener dialling) (client4 5000) (key_of (client4 5000)) "x" None) RunDone)) proxy.StopGot.

Lemma waiting_for_dial_reachable : port_steps port_start waiting_for_dial.
Proof.
  eapply port_more; [|by apply (port_close_listener (mkPort dialling proxy.StopWaiting))].
  eapply port_more; [|by apply (port_stop (mkPort dialling proxy.StopNot))].
  eapply port_more; [|by apply (port_proxy (mkPort (receive udpproxy.start (client4 5000) "x") proxy.StopNot) dialling);
    [apply step_lookup|]].
  eapply port_more; [apply port_refl|]. apply (port_proxy port_start); [|done].
  apply step_datagram; [done|done|by split; [vm_compute|cbn; lia]|by apply small_payload].
Qed.

Lemma after_dial_reached : port_steps waiting_for_dial after_dial.
Proof.
  pose (p := dial_done (close_listener dialling) (client4 5000) (key_of (client4 5000)) "x" None).
  eapply port_more; [|by apply (port_received (mkPort (close_all (set_run p RunDone)) proxy.StopWaiting))].
  eapply port_more; [|by apply (port_close_all (mkPort (set_run p RunDone) proxy.StopWaiting))].
  eapply port_more; [|by apply (port_proxy (mkPort p proxy.StopWaiting) (set_run p RunDone)); [apply step_read_error|]].
  eapply port_more; [apply port_refl|]. apply (port_proxy waiting_for_dial p); [|done]. by apply step_dial.
Qed.

Lemma after_dial_final : port_final after_dial.
Proof.
  intros s' Hs. assert (port_inv after_dial) as I.
  { eapply port_inv_steps; [|apply after_dial_reached]. eapply port_inv_steps; [apply port_inv_start|apply waiting_for_dial_reachable]. }
  pose proof (port_work_step _ _ I eq_refl Hs) as H. change (port_work after_dial) with O in H. lia.
Qed.

