(* ===== verification/Bicopy.v ===== *)
(** * pkg/port/builtin/parent/tcp: copying in both directions

    [bicopy] of a TCP proxy: two goroutines that copy, one per direction, the
    goroutine that waits for both and the function that waits for it or for
    the stop of the port, as a step relation.  The peers of the two
    connections send and read what they like, when they like; a write waits
    while the peer does not read and the buffers on the way to it are full. *)
From S2P Require Import Prelude.

Module bicopy.

(** The two connections: [x] is false and [y] is true; the broker of a side
    reads from it and writes to the other one. *)
Abbreviation side := bool.
Abbreviation other := negb.

(** A broker: in [io.Copy] before a read or with bytes to write, after it (and
    whether it saw the end of the stream), or after [wg.Done]. *)
Inductive broker : Set :=
  | Copying
  | Holding (b : str)
  | ClosingRead (clean : bool)
  | ClosingWrite (clean : bool)
  | Done (clean : bool).

Inductive main_state : Set := Selecting | ClosingX | ClosingY | WaitFinish | Returned.

Record state : Type := mkState {
  sent : side -> str;        (** all that the peer of a side has sent *)
  eof : side -> bool;        (** the peer has ended its stream *)
  inp : side -> str;         (** arrived and not yet read *)
  out : side -> str;         (** written to the connection *)
  room : side -> nat;        (** what the buffers on the way to the peer still take *)
  fin : side -> bool;        (** after [CloseWrite] *)
  is_open : side -> bool;
  brk : side -> broker;
  main : main_state;
  quit : bool;
}.

Definition upd {A} (f : side -> A) (d : side) (v : A) : side -> A :=
  fun d' => if Bool.eqb d' d then v else f d'.

Definition start : state :=
  mkState (fun _ => []) (fun _ => false) (fun _ => []) (fun _ => []) (fun _ => O) (fun _ => false) (fun _ => true)
    (fun _ => Copying) Selecting false.

Definition set_brk (s : state) (d : side) (b : broker) : state :=
  mkState (sent s) (eof s) (inp s) (out s) (room s) (fin s) (is_open s) (upd (brk s) d b) (main s) (quit s).
Definition set_main (s : state) (m : main_state) : state :=
  mkState (sent s) (eof s) (inp s) (out s) (room s) (fin s) (is_open s) (brk s) m (quit s).
Definition read (s : state) (d : side) (b rest : str) : state :=
  mkState (sent s) (eof s) (upd (inp s) d rest) (out s) (room s) (fin s) (is_open s) (upd (brk s) d (Holding b)) (main s) (quit s).
Definition write (s : state) (d : side) (b : str) (k : broker) : state :=
  mkState (sent s) (eof s) (inp s) (upd (out s) (other d) (out s (other d) ++ b))
    (upd (room s) (other d) (room s (other d) - length b)%nat) (fin s) (is_open s) (upd (brk s) d k) (main s) (quit s).
Definition close (s : state) (d : side) (m : main_state) : state :=
  mkState (sent s) (eof s) (inp s) (out s) (room s) (fin s) (upd (is_open s) d false) (brk s) m (quit s).

(** A broker with bytes left to write. *)
Definition held (b : str) : broker := match b with [] => Copying | _ => Holding b end.

(** What the program does. *)
Inductive prog_step (s : state) : state -> Prop :=
  (* io.Copy *)
  | step_read d b rest :
      brk s d = Copying -> is_open s d = true -> inp s d = b ++ rest -> b <> [] -> prog_step s (read s d b rest)
  | step_eof d :
      brk s d = Copying -> is_open s d = true -> inp s d = [] -> eof s d = true -> prog_step s (set_brk s d (ClosingRead true))
  | step_read_closed d : brk s d = Copying -> is_open s d = false -> prog_step s (set_brk s d (ClosingRead false))
  | step_write d b1 b2 :
      brk s d = Holding (b1 ++ b2) -> is_open s (other d) = true -> b1 <> [] -> (length b1 <= room s (other d))%nat ->
      prog_step s (write s d b1 (held b2))
  | step_write_closed d b :
      brk s d = Holding b -> is_open s (other d) = false -> prog_step s (set_brk s d (ClosingRead false))
  (* CloseRead, CloseWrite, wg.Done *)
  | step_close_read d c : brk s d = ClosingRead c -> prog_step s (set_brk s d (ClosingWrite c))
  | step_close_write d c :
      brk s d = ClosingWrite c ->
      prog_step s (mkState (sent s) (eof s) (inp s) (out s) (room s) (upd (fin s) (other d) true) (is_open s)
                     (upd (brk s) d (Done c)) (main s) (quit s))
  (* select, x.Close, y.Close, the last receive *)
  | step_quit : main s = Selecting -> quit s = true -> prog_step s (set_main s ClosingX)
  | step_finish c c' : main s = Selecting -> brk s false = Done c -> brk s true = Done c' -> prog_step s (set_main s ClosingX)
  | step_close_x : main s = ClosingX -> prog_step s (close s false ClosingY)
  | step_close_y : main s = ClosingY -> prog_step s (close s true WaitFinish)
  | step_return c c' : main s = WaitFinish -> brk s false = Done c -> brk s true = Done c' -> prog_step s (set_main s Returned).

(** What the peers, the network and the owner of the port do: [step_peer_read]
    makes room for [n] more bytes. *)
Inductive env_step (s : state) : state -> Prop :=
  | step_peer_send d b :
      eof s d = false ->
      env_step s (mkState (upd (sent s) d (sent s d ++ b)) (eof s) (upd (inp s) d (inp s d ++ b)) (out s) (room s) (fin s)
                    (is_open s) (brk s) (main s) (quit s))
  | step_peer_end d :
      env_step s (mkState (sent s) (upd (eof s) d true) (inp s) (out s) (room s) (fin s) (is_open s) (brk s) (main s) (quit s))
  | step_peer_read d n :
      env_step s (mkState (sent s) (eof s) (inp s) (out s) (upd (room s) d (room s d + n)%nat) (fin s) (is_open s)
                    (brk s) (main s) (quit s))
  (* a read or a write fails, the write after some bytes *)
  | step_read_reset d : brk s d = Copying -> env_step s (set_brk s d (ClosingRead false))
  | step_write_reset d b1 b2 :
      brk s d = Holding (b1 ++ b2) -> is_open s (other d) = true -> env_step s (write s d b1 (ClosingRead false))
  | step_stop : env_step s (mkState (sent s) (eof s) (inp s) (out s) (room s) (fin s) (is_open s) (brk s) (main s) true).

Inductive reachable : state -> Prop :=
  | reach_start : reachable start
  | reach_prog s s' : reachable s -> prog_step s s' -> reachable s'
  | reach_env s s' : reachable s -> env_step s s' -> reachable s'.

Definition step (s s' : state) : Prop := prog_step s s' \/ env_step s s'.

(** [n] is the number of steps of the program. *)
Inductive runs : nat -> state -> state -> Prop :=
  | runs_nil s : runs 0 s s
  | runs_prog n s s' s'' : prog_step s s' -> runs n s' s'' -> runs (S n) s s''
  | runs_env n s s' s'' : env_step s s' -> runs n s' s'' -> runs n s s''.

(** A broker waits in a write for its peer to read. *)
Definition blocked (s : state) (d : side) : Prop :=
  exists b, brk s d = Holding b /\ is_open s (other d) = true /\ room s (other d) = O.

(** The next call of the function itself does not block. *)
Definition main_ready (s : state) : bool :=
  match main s with Selecting => quit s | ClosingX | ClosingY => true | WaitFinish | Returned => false end.

(** The scheduler: the function goes on when it can, and the program as a whole
    is not passed over for ever. *)
Definition fair (r : nat -> state) : Prop :=
  (forall n, main_ready (r n) = true -> exists m, (n <= m)%nat /\ main (r (S m)) <> main (r n)) /\
  (forall n, (exists s', prog_step (r n) s') -> exists m, (n <= m)%nat /\ prog_step (r m) (r (S m))).

End bicopy.
Import bicopy.

Lemma upd_here {A} (f : side -> A) d v : upd f d v d = v.
Proof. unfold upd. by rewrite Bool.eqb_reflx. Qed.
Lemma upd_other {A} (f : side -> A) d v : upd f d v (other d) = f (other d).
Proof. by destruct d. Qed.
Lemma upd_away {A} (f : side -> A) d v : upd f (other d) v d = f d.
Proof. by destruct d. Qed.

(** Bytes that a broker has read and not yet written. *)
Definition pending (b : broker) : str := match b with Holding b => b | _ => [] end.
(** Whether the stream was copied to its end. *)
Definition clean (b : broker) : bool :=
  match b with ClosingRead c | ClosingWrite c | Done c => c | _ => false end.
Definition in_copy (b : broker) : bool := match b with Copying | Holding _ => true | _ => false end.
Definition finished (b : broker) : bool := match b with Done _ => true | _ => false end.

(** The invariant of one direction, and of the function. *)
Record dir_inv (s : state) (d : side) : Prop := {
  dir_stream : if in_copy (brk s d) then out s (other d) ++ pending (brk s d) ++ inp s d = sent s d
               else out s (other d) `prefix_of` sent s d;
  dir_clean : clean (brk s d) = true -> eof s d = true /\ out s (other d) = sent s d;
  dir_fin : fin s (other d) = finished (brk s d);
  dir_held b : brk s d = Holding b -> b <> [];
}.

Record inv (s : state) : Prop := {
  inv_dir d : dir_inv s d;
  inv_x : is_open s false = match main s with Selecting | ClosingX => true | _ => false end;
  inv_y : is_open s true = match main s with Selecting | ClosingX | ClosingY => true | _ => false end;
  inv_returned : main s = Returned -> finished (brk s false) = true /\ finished (brk s true) = true;
}.

Lemma dir_inv_keep s s' d :
  brk s' d = brk s d -> out s' (other d) = out s (other d) -> inp s' d = inp s d -> sent s' d = sent s d ->
  (eof s d = true -> eof s' d = true) -> fin s' (other d) = fin s (other d) -> dir_inv s d -> dir_inv s' d.
Proof. intros H1 H2 H3 H4 H5 H6 [Hs Hc Hf Hh]. split; rewrite ?H1, ?H2, ?H3, ?H4, ?H6; [done| |done|done]. intros Hcl. destruct (Hc Hcl). auto. Qed.

(** A step of the broker of [d] that leaves the other direction alone. *)
Lemma inv_broker s s' d :
  inv s -> dir_inv s' d ->
  brk s' (other d) = brk s (other d) -> out s' d = out s d -> inp s' (other d) = inp s (other d) ->
  sent s' = sent s -> eof s' = eof s -> fin s' d = fin s d -> is_open s' = is_open s -> main s' = main s ->
  (main s = Returned -> finished (brk s' d) = true) -> inv s'.
Proof.
  intros [Hd Hx Hy Hr] Hd' Hb Ho Hi Hs He Hf Hop Hm Hfin. split; rewrite ?Hop, ?Hm; try done.
  - intros e. destruct (Bool.bool_dec e d) as [->|Hne]; [done|].
    assert (e = other d) as -> by (destruct e, d; done).
    apply (dir_inv_keep s); rewrite ?negb_involutive; try done; [by rewrite Hs|by rewrite He].
  - intros E. destruct (Hr E) as [H1 H2]. specialize (Hfin E). destruct d; cbn in *; rewrite ?Hb; done.
Qed.

Lemma inv_returned_brk s d : inv s -> main s = Returned -> finished (brk s d) = true.
Proof. intros I E. destruct (inv_returned s I E). by destruct d. Qed.

Ltac returned_no := intros; exfalso; match goal with I : inv ?s, E : main ?s = Returned, H : brk ?s ?d = _ |- _ =>
  pose proof (inv_returned_brk s d I E) as Hno; rewrite H in Hno; discriminate end.

(** A broker that gives up after it has written a prefix of what it holds. *)
Lemma give_up_inv s d b1 b2 :
  inv s -> in_copy (brk s d) = true -> pending (brk s d) = b1 ++ b2 ->
  inv (write s d b1 (ClosingRead false)) /\ (b1 = [] -> inv (set_brk s d (ClosingRead false))).
Proof.
  intros I Hb Hp. pose proof (inv_dir s I d) as [Hst _ Hfi _]. rewrite Hb, Hp in Hst.
  assert (finished (brk s d) = false) as Hf by by destruct (brk s d). rewrite Hf in Hfi.
  assert (main s = Returned -> false = true) as Hr.
  { intros E. by rewrite (inv_returned_brk s d I E) in Hf. }
  split; [|intros ->]; apply (inv_broker s _ d); unfold write, set_brk; cbn; rewrite ?upd_here, ?upd_other, ?upd_away; try done;
    split; cbn; rewrite ?upd_here; cbn; try done.
  - exists (b2 ++ inp s d). by rewrite <- Hst, <- !app_assoc.
  - exists (b2 ++ inp s d). by rewrite <- Hst.
Qed.

Lemma main_inv s s' :
  inv s -> (forall d, dir_inv s d -> dir_inv s' d) ->
  is_open s' false = match main s' with Selecting | ClosingX => true | _ => false end ->
  is_open s' true = match main s' with Selecting | ClosingX | ClosingY => true | _ => false end ->
  (main s' = Returned -> finished (brk s' false) = true /\ finished (brk s' true) = true) -> inv s'.
Proof. intros I Hd Hx Hy Hr. split; try done. intros d. apply Hd, I. Qed.

Lemma held_copy b : in_copy (held b) = true.
Proof. by destruct b. Qed.
Lemma held_pending b : pending (held b) = b.
Proof. by destruct b. Qed.

Lemma prog_step_inv s s' : inv s -> prog_step s s' -> inv s'.
Proof.
  intros I Hs. destruct Hs as [d b rest Hb Ho Hi Hne|d Hb Ho Hi He|d Hb Ho|d b b2 Hb Ho Hne Hro|d b Hb Ho|d c Hb|d c Hb
                              |Hm Hq|c c' Hm H1 H2|Hm|Hm|c c' Hm H1 H2].
  3: by apply (give_up_inv s d [] []); [done|rewrite Hb..|].
  4: by apply (give_up_inv s d [] b); [done|rewrite Hb..|].
  6-10: apply (main_inv s); cbn; try done; rewrite ?(inv_x s I), ?(inv_y s I), ?Hm; try done;
    try (by rewrite H1, H2); intros d; by apply (dir_inv_keep s).
  1-5: pose proof (inv_dir s I d) as [Hst Hcl Hfi Hhe]; rewrite Hb in Hst, Hcl, Hfi, Hhe; cbn in Hst, Hcl, Hfi;
    apply (inv_broker s _ d); try done; unfold read, write, set_brk; cbn; rewrite ?upd_here, ?upd_other, ?upd_away; try done;
    try (by returned_no); split; cbn; rewrite ?upd_here, ?upd_other; cbn; try done.
  - by rewrite <- Hi.
  - by intros ? [= <-].
  - rewrite <- Hst, Hi, app_nil_r. done.
  - intros _. split; [done|]. by rewrite <- Hst, Hi, app_nil_r.
  - by rewrite held_copy, held_pending, <- Hst, <- !app_assoc.
  - by destruct b2.
  - by destruct b2.
  - by destruct b2; intros ? [= <-].
Qed.

Lemma env_step_inv s s' : inv s -> env_step s s' -> inv s'.
Proof.
  intros I Hs. destruct Hs as [d b He|d|d n|d Hb|d b1 b2 Hb Ho|].
  - split; cbn; try apply I. intros e. destruct (Bool.bool_dec e d) as [->|Hne].
    + destruct (inv_dir s I d) as [Hst Hcl Hfi Hhe]. split; cbn; rewrite ?upd_here; [| |done|done].
      * destruct (in_copy (brk s d)); [by rewrite <- Hst, <- !app_assoc|]. by apply prefix_app_r.
      * intros Hc. destruct (Hcl Hc). congruence.
    + assert (e = other d) as -> by (destruct e, d; done).
      apply (dir_inv_keep s); cbn; rewrite ?upd_other; try done. apply I.
  - split; cbn; try apply I. intros e. apply (dir_inv_keep s); cbn; try done; [|apply I].
    unfold upd. by destruct (Bool.eqb e d).
  - split; cbn; try apply I. intros e. apply (dir_inv_keep s); try done. apply I.
  - by apply (give_up_inv s d [] []); [done|rewrite Hb..|].
  - by apply (give_up_inv s d b1 b2); [done|rewrite Hb..].
  - split; cbn; try apply I. intros e. apply (dir_inv_keep s); try done. apply I.
Qed.

Lemma bicopy_reachable_inv s : reachable s -> inv s.
Proof.
  induction 1 as [|s s' _ IH Hs|s s' _ IH Hs]; [|by eapply prog_step_inv|by eapply env_step_inv].
  by split.
Qed.

(** ** Every run ends *)

Definition main_left (m : main_state) : nat :=
  match m with Selecting => 4 | ClosingX => 3 | ClosingY => 2 | WaitFinish => 1 | Returned => 0 end%nat.
Definition broker_left (b : broker) : nat :=
  match b with Holding b => 3 + length b | Copying => 3 | ClosingRead _ => 2 | ClosingWrite _ => 1 | Done _ => 0 end%nat.

(** What is left to do: nothing is read once the connection is closed, so a
    broker that copies only fails; before, each read takes a byte at least, and
    each write too. *)
Definition reading (s : state) (d : side) : nat := if is_open s d then 2 * length (inp s d) else 0%nat.
Definition left (s : state) : nat :=
  main_left (main s) + (broker_left (brk s false) + reading s false) + (broker_left (brk s true) + reading s true).

Lemma held_left b : (broker_left (held b) <= 3 + length b)%nat.
Proof. destruct b; cbn; lia. Qed.

Lemma prog_step_left s s' : prog_step s s' -> (left s' < left s)%nat.
Proof.
  intros Hs. destruct Hs as [d b rest Hb Ho Hi Hne|d Hb Ho Hi He|d Hb Ho|d b b2 Hb Ho Hne Hro|d b Hb Ho|d c Hb|d c Hb
                              |Hm Hq|c c' Hm H1 H2|Hm|Hm|c c' Hm H1 H2]; unfold left, reading, read, write, set_brk, set_main, close; cbn.
  1: assert (2 * length (inp s d) = 2 * length b + 2 * length rest)%nat as Hl by (rewrite Hi, length_app; lia);
     assert (1 <= length b)%nat by (destruct b; simpl; [done|lia]).
  4: pose proof (held_left b2); assert (1 <= length b)%nat by (destruct b; simpl; [done|lia]).
  1-7: destruct d; unfold upd; cbn; rewrite ?Hb, ?Ho in *; cbn in *; rewrite ?Hi, ?length_app; cbn; try lia.
  all: rewrite ?Hm, ?H1, ?H2; unfold upd; cbn; repeat case_match; lia.
Qed.

(** The peers, too, bring it closer or leave it, unless they send. *)
Lemma env_step_left s s' : (forall d, eof s d = true \/ is_open s d = false) -> env_step s s' -> (left s' <= left s)%nat.
Proof.
  intros Hd Hs. destruct Hs as [d b He|d|d n|d Hb|d b1 b2 Hb Ho|]; unfold left, reading, write, set_brk; cbn; try lia.
  - destruct (Hd d) as [?|Ho]; [congruence|]. destruct d; unfold upd; cbn; rewrite Ho; lia.
  - destruct d; unfold upd; cbn; rewrite Hb; cbn; lia.
  - destruct d; unfold upd; cbn; rewrite Hb; cbn; lia.
Qed.

(** No step opens a connection or takes back the end of a stream. *)
Lemma step_monotone s s' d :
  step s s' -> (eof s d = true -> eof s' d = true) /\ (is_open s d = false -> is_open s' d = false) /\
  (quit s = true -> quit s' = true) /\ (main_left (main s') <= main_left (main s))%nat.
Proof.
  intros [Hs|Hs]; destruct Hs; cbn; unfold upd; rewrite ?H; cbn; repeat split; try done; try lia;
    try (by destruct (Bool.eqb d d0)); try (by destruct d).
Qed.

(** A broker that is not done can go on when its stream has ended or its
    connection is closed, unless it waits for the other peer to read. *)
Lemma broker_progress s d :
  inv s -> (eof s d = true /\ is_open s d = true \/ is_open s d = false) ->
  finished (brk s d) = true \/ (exists s', prog_step s s') \/ blocked s d.
Proof.
  intros I Ho. destruct (brk s d) as [|b|c|c|c] eqn:Hb; [right; left|right|right; left|right; left|by left].
  - destruct Ho as [[He Ho]|Ho]; [|eexists; by apply (step_read_closed s d)].
    destruct (inp s d) as [|x rest] eqn:Hi; [eexists; by apply (step_eof s d)|].
    eexists. by apply (step_read s d [x] rest).
  - destruct (is_open s (other d)) eqn:Hop; [|left; eexists; by apply (step_write_closed s d b)].
    destruct (room s (other d)) as [|n] eqn:Hro; [right; by exists b|]. left.
    destruct b as [|x b]; [by destruct (dir_held s d (inv_dir s I d) [])|].
    eexists. apply (step_write s d [x] b); [done..|]. rewrite Hro. cbn. lia.
  - eexists. by apply (step_close_read s d c).
  - eexists. by apply (step_close_write s d c).
Qed.

Lemma brokers_progress s :
  inv s -> (forall d, eof s d = true /\ is_open s d = true \/ is_open s d = false) ->
  (exists c c', brk s false = Done c /\ brk s true = Done c') \/ (exists s', prog_step s s') \/ exists d, blocked s d.
Proof.
  intros I Ho. destruct (broker_progress s false I (Ho false)) as [H1|[?|?]]; [|by right; left|by right; right; eexists].
  destruct (broker_progress s true I (Ho true)) as [H2|[?|?]]; [|by right; left|by right; right; eexists].
  left. destruct (brk s false), (brk s true); try done. by eexists _, _.
Qed.

(** After the stop there is always a step to take, whatever the peers do. *)
Lemma stopped_progress s : inv s -> quit s = true -> main s = Returned \/ exists s', prog_step s s'.
Proof.
  intros I Hq. pose proof (inv_x s I) as Hx. pose proof (inv_y s I) as Hy.
  destruct (main s) eqn:Hm; [| | | |by left]; right.
  - eexists. by apply step_quit.
  - eexists. by apply step_close_x.
  - eexists. by apply step_close_y.
  - destruct (brokers_progress s I) as [(c & c' & H1 & H2)|[?|[d (b & _ & Ho & _)]]].
    + intros d. right. by destruct d.
    + eexists. by eapply step_return.
    + done.
    + destruct d; cbn in Ho; congruence.
Qed.

(** After the end of both streams there is, unless a peer does not read. *)
Lemma ended_progress s :
  inv s -> (forall d, eof s d = true) -> main s = Returned \/ (exists s', prog_step s s') \/ exists d, blocked s d.
Proof.
  intros I He. pose proof (inv_x s I) as Hx. pose proof (inv_y s I) as Hy.
  destruct (main s) eqn:Hm; [| | | |by left]; right.
  - destruct (brokers_progress s I) as [(c & c' & H1 & H2)|?]; [intros d; left; split; [done|]; by destruct d| |done].
    left. eexists. by eapply step_finish.
  - left. eexists. by apply step_close_x.
  - left. eexists. by apply step_close_y.
  - destruct (brokers_progress s I) as [(c & c' & H1 & H2)|?]; [intros d; right; by destruct d| |done].
    left. eexists. by eapply step_return.
Qed.

(** In a fair execution the function gets past its calls of [Close]. *)
Lemma fair_closes r n :
  infinite step r -> fair r -> quit (r n) = true -> exists m, (main_left (main (r m)) <= 1)%nat /\ quit (r m) = true.
Proof.
  intros Hr Hf. remember (main_left (main (r n))) as k eqn:Ek. revert n Ek.
  induction k as [k IH] using lt_wf_ind. intros n -> Hq.
  destruct (main_ready (r n)) eqn:E.
  - destruct (proj1 Hf n E) as (m & Hnm & Hm).
    assert (forall j, quit (r (n + j)%nat) = true /\ (main_left (main (r (n + j)%nat)) <= main_left (main (r n)))%nat) as Hj.
    { induction j as [|j [IHq IHm]]; [by rewrite Nat.add_0_r|]. rewrite Nat.add_succ_r.
      destruct (step_monotone _ _ true (Hr (n + j)%nat)) as (_ & _ & H1 & H2). split; [by apply H1|lia]. }
    destruct (Hj (S (m - n))) as [Hq' Hl]. replace (n + S (m - n))%nat with (S m) in * by lia.
    eapply (IH (main_left (main (r (S m))))); [|reflexivity|done].
    assert (main_left (main (r (S m))) <> main_left (main (r n))); [|lia].
    intros Heq. apply Hm. by destruct (main (r (S m))), (main (r n)).
  - exists n. split; [|done]. unfold main_ready in E. destruct (main (r n)); cbn; try lia; congruence.
Qed.

(** And then it returns. *)
Lemma fair_returns r n :
  infinite step r -> fair r -> (forall m, inv (r m)) -> quit (r n) = true -> (main_left (main (r n)) <= 1)%nat ->
  exists m, main (r m) = Returned.
Proof.
  intros Hr Hf Hi. remember (left (r n)) as k eqn:Ek. revert n Ek.
  induction k as [k IH] using lt_wf_ind. intros n -> Hq Hl.
  destruct (stopped_progress _ (Hi n) Hq) as [?|Hp]; [by exists n|].
  destruct (proj2 Hf n Hp) as (m & Hnm & Hs).
  assert (forall j, quit (r (n + j)%nat) = true /\ (main_left (main (r (n + j)%nat)) <= 1)%nat /\ (left (r (n + j)%nat) <= left (r n))%nat) as Hj.
  { induction j as [|j (IHq & IHm & IHl)]; [by rewrite Nat.add_0_r|]. rewrite Nat.add_succ_r.
    destruct (step_monotone _ _ true (Hr (n + j)%nat)) as (_ & _ & H1 & H2). split; [by apply H1|]. split; [lia|].
    destruct (Hr (n + j)%nat) as [Hp'%prog_step_left|He]; [lia|]. etrans; [|exact IHl]. apply env_step_left; [|done].
    intros d. right. pose proof (inv_x _ (Hi (n + j)%nat)) as Hx. pose proof (inv_y _ (Hi (n + j)%nat)) as Hy.
    destruct (main (r (n + j)%nat)); cbn in IHm; try lia; by destruct d. }
  destruct (Hj (m - n)%nat) as (H1 & H2 & H3). replace (n + (m - n))%nat with m in * by lia.
  pose proof (prog_step_left _ _ Hs). destruct (step_monotone _ _ true (Hr m)) as (_ & _ & H4 & H5).
  eapply (IH (left (r (S m)))); [lia|reflexivity|by apply H4|lia].
Qed.

Lemma step_inv s s' : inv s -> step s s' -> inv s'.
Proof. intros I [Hs|Hs]; [by eapply prog_step_inv|by eapply env_step_inv]. Qed.

(** C14: what a client receives is, in order and without anything lost or added
    in between, what the other side has sent: at any time a prefix of it, and
    the whole stream when the copy ended with the end of the stream; the end of
    the stream is passed on only when the copying of that direction is over; when the
    function returns, both connections are closed and both goroutines done. *)
Theorem bicopy_copies s :
  reachable s ->
  (forall d, out s (other d) `prefix_of` sent s d) /\
  (forall d, clean (brk s d) = true -> eof s d = true /\ out s (other d) = sent s d) /\
  (forall d, fin s (other d) = true <-> finished (brk s d) = true) /\
  (main s = Returned -> forall d, is_open s d = false /\ finished (brk s d) = true).
Proof.
  intros I%bicopy_reachable_inv. split; [|split; [|split]].
  - intros d. destruct (inv_dir s I d) as [Hst _ _ _]. destruct (in_copy (brk s d)); [|done].
    rewrite <- Hst. by apply prefix_app_r.
  - intros d. apply (inv_dir s I d).
  - intros d. by rewrite (dir_fin s d (inv_dir s I d)).
  - intros E d. split; [|by apply inv_returned_brk].
    destruct d; [rewrite (inv_y s I)|rewrite (inv_x s I)]; by rewrite E.
Qed.


(** A byte from the client of x, once the server of y takes some. *)
Lemma copied_one : exists s, reachable s /\ out s true = lit "a" /\ sent s false = lit "a".
Proof.
  eexists. split; [|split].
  - eapply reach_prog; [eapply reach_prog; [eapply reach_env; [eapply reach_env; [apply reach_start|]|]|]|].
    + by apply (step_peer_send start false (lit "a")).
    + apply (step_peer_read _ true 8).
    + by apply (step_read _ false (lit "a") []).
    + apply (step_write _ false (lit "a") []); [reflexivity|reflexivity|discriminate|cbn; lia].
  - reflexivity.
  - reflexivity.
Qed.

Theorem bicopy_copies_witness : exists s, reachable s /\ out s true = lit "a" /\ out s true `prefix_of` sent s false.
Proof.
  destruct copied_one as (s & Hr & Ho & _). exists s. split; [exact Hr|]. split; [exact Ho|].
  exact (proj1 (bicopy_copies s Hr) false).
Defined.

(** A port that is stopped while the server of y leaves a byte unread: the
    broker of x waits in its write until the connection is closed. *)
Definition stop_steps : list (state -> state) :=
  [ (fun s => set_main s ClosingX); (fun s => close s false ClosingY); (fun s => close s true WaitFinish);
    (fun s => set_brk s false (ClosingRead false)); (fun s => set_brk s true (ClosingRead false));
    (fun s => set_brk s false (ClosingWrite false)); (fun s => set_brk s true (ClosingWrite false));
    (fun s => mkState (sent s) (eof s) (inp s) (out s) (room s) (upd (fin s) (other false) true) (is_open s)
                (upd (brk s) false (Done false)) (main s) (quit s));
    (fun s => mkState (sent s) (eof s) (inp s) (out s) (room s) (upd (fin s) (other true) true) (is_open s)
                (upd (brk s) true (Done false)) (main s) (quit s));
    (fun s => set_main s Returned) ].

Definition sent_one : state :=
  mkState (upd (sent start) false (lit "a")) (eof start) (upd (inp start) false (lit "a")) (out start) (room start)
    (fin start) (is_open start) (brk start) (main start) (quit start).
Definition unread : state :=
  let s := read sent_one false (lit "a") [] in
  mkState (sent s) (eof s) (inp s) (out s) (room s) (fin s) (is_open s) (brk s) (main s) true.

Definition stopping_run (n : nat) : state := fold_left (fun s f => f s) (take n stop_steps) unread.

Lemma unread_reachable : reachable unread.
Proof.
  eapply reach_env; [|apply (step_stop (read sent_one false (lit "a") []))].
  eapply reach_prog; [eapply reach_env; [apply reach_start|exact (step_peer_send start false (lit "a") eq_refl)]|].
  by apply (step_read sent_one false (lit "a") []).
Qed.

Lemma stopping_run_late n : stopping_run (10 + n) = stopping_run 10.
Proof. unfold stopping_run. by rewrite !take_ge by (cbn; lia). Qed.

(** The steps of the program, up to the return. *)
Lemma stopping_run_prog n : (n < 10)%nat -> prog_step (stopping_run n) (stopping_run (S n)).
Proof.
  intros Hn. destruct n as [|[|[|[|[|[|[|[|[|[|n]]]]]]]]]]; [..|lia]; cbn.
  - by apply step_quit.
  - by apply step_close_x.
  - by apply step_close_y.
  - by apply (step_write_closed _ false (lit "a")).
  - by apply (step_read_closed _ true).
  - by apply (step_close_read _ false false).
  - by apply (step_close_read _ true false).
  - exact (step_close_write (stopping_run 7) false false eq_refl).
  - exact (step_close_write (stopping_run 8) true false eq_refl).
  - by apply (step_return _ false false).
Qed.

Lemma stop_again s : quit s = true -> env_step s s.
Proof. destruct s. cbn. intros ->. by apply (step_stop (mkState _ _ _ _ _ _ _ _ _ true)). Qed.

Lemma stopping_run_infinite : infinite step stopping_run.
Proof.
  intros n. destruct (decide (n < 10)%nat) as [Hn|Hn]; [left; by apply stopping_run_prog|].
  right. replace n with (10 + (n - 10))%nat by lia. rewrite <- Nat.add_succ_r, !stopping_run_late.
  by apply stop_again.
Qed.

Lemma stopping_run_fair : fair stopping_run.
Proof.
  assert (forall n, (10 <= n)%nat -> stopping_run n = stopping_run 10) as Hlate.
  { intros n Hn. replace n with (10 + (n - 10))%nat by lia. apply stopping_run_late. }
  split.
  - intros n Hm. destruct (decide (n < 10)%nat) as [Hn|Hn]; [|rewrite Hlate in Hm by lia; discriminate].
    exists n. split; [done|]. by destruct n as [|[|[|[|[|[|[|[|[|[|n]]]]]]]]]]; [..|lia].
  - intros n [s' Hs]. exists n. split; [done|]. apply stopping_run_prog.
    destruct (decide (n < 10)%nat) as [Hn|Hn]; [done|]. exfalso. rewrite Hlate in Hs by lia.
    inversion Hs as [d|d|d|d|d|d|d| | | | | ]; subst; cbn in *; try discriminate; by destruct d.
Qed.

