(* ===== verification/NetConfig.v ===== *)
(** * The addresses of the network drivers

    pkg/network/iputils, [parseCIDR] of cmd/rootlesskit, and the addresses that
    the drivers derive from the network: child, gateway and DNS.  [net.IPNet]
    and [net.ParseCIDR] are those of Go's library. *)
From S2P Require Import Prelude GoStrings NetIP Messages.
Import messages.

(** [net.IPNet] with a mask of [ones] leading ones *)
Record IPNet : Set := mkIPNet { n_IP : net.IP; n_ones : Z }.

(** byte of the mask of which [n] bits are still to be set *)
Definition mask_byte (n : Z) : Z := if 8 <=? n then 255 else if n <=? 0 then 0 else 256 - 2 ^ (8 - n).

Fixpoint mask_bytes (n : Z) (ip : net.IP) : net.IP :=
  match ip with
  | [] => []
  | b :: ip' => Z.land b (mask_byte n) :: mask_bytes (n - 8) ip'
  end.

(** [net.ParseCIDR] *)
Definition ParseCIDR (s : str) : result (net.IP * IPNet) :=
  match strings.Split s "/"%char with
  | [] | [_] => Err (Extern "invalid CIDR address")
  | a :: rest =>
      let m := strings.Join rest "/" in
      match net.ParseIP a, strconv.parse_digits m with
      | Some ip, Some n =>
          let ip' := if lacks ":"%char a then default ip (net.To4 ip) else ip in
          if Z.of_N n <=? 8 * Z.of_nat (length ip') then Ok (ip, mkIPNet (mask_bytes (Z.of_N n) ip') (Z.of_N n))
          else Err (Extern "invalid CIDR address")
      | _, _ => Err (Extern "invalid CIDR address")
      end
  end.

(** [IPNet.String] *)
Definition IPNet_String (n : IPNet) : str := net.String (n_IP n) ++ lit "/" ++ strconv.Itoa (n_ones n).

Module main_cidr.
(** [parseCIDR] of cmd/rootlesskit/main.go; None is the nil network *)
Definition parseCIDR (s : str) : result (option IPNet) :=
  if bool_decide (s = []) then Ok None
  else
    match ParseCIDR s with
    | Err e => Err e
    | Ok (ip, ipnet) =>
        if negb (net.Equal ip (n_IP ipnet))
        then Err (Errorf "cidr must be like 10.0.2.0/24, not like 10.0.2.100/24" [])
        else Ok (Some ipnet)
    end.
End main_cidr.
Import main_cidr.

Module iputils.
Definition MaxUint32 : Z := 2 ^ 32 - 1.

(** On an address that is not IPv4 the message shows the address after [To4],
    which is nil. *)
Definition AddIPInt (ip : net.IP) (i : Z) : result net.IP :=
  match net.To4 ip with
  | None => Err (Errorf "expected IPv4 address, got %s" [AStr "<nil>"])
  | Some ip =>
      let ui32 := big_endian ip in
      let resInt64 := wrap64 (ui32 + i) in
      if MaxUint32 <? resInt64 then Err (Errorf "%s + %d overflows" [AStr (net.String ip); AInt i])
      else Ok (be_bytes32 (wrap32u resInt64))
  end.
End iputils.
Import iputils.

Example AddIPInt_test :
  map (fun '(a, i) => on_err (ip <-? AddIPInt (default [] (net.ParseIP (lit a))) i ;; Ok (net.String ip)) (fun _ => Extern "err"))
    [("10.0.2.0", 100); ("255.255.255.100", 155); ("255.255.255.100", 156)]%string =
  [Ok (lit "10.0.2.100"); Ok (lit "255.255.255.255"); Err (Extern "err")].
Proof. reflexivity. Qed.

(** A negative offset may go below 0.0.0.0 unnoticed. *)
Example AddIPInt_wraps : AddIPInt [0; 0; 0; 0] (-1) = Ok [255; 255; 255; 255].
Proof. reflexivity. Qed.

Lemma wrap64_small z : - 2 ^ 62 <= z < 2 ^ 62 -> wrap64 z = z.
Proof. intros H. apply wrap64_id. unfold in_int64, int_min, int_max. apply andb_true_iff. rewrite !Z.leb_le. lia. Qed.

Lemma To4_length ip q : net.To4 ip = Some q -> length q = 4%nat.
Proof.
  unfold net.To4. case_bool_decide as H4; [by intros [= <-]|]. case_bool_decide as H16; [|done]. simpl.
  case_bool_decide; [|done]. intros [= <-]. rewrite length_drop. lia.
Qed.

Lemma big_endian4_bound q : length q = 4%nat -> forallb is_byte q = true -> 0 <= big_endian q < 2 ^ 32.
Proof.
  destruct q as [|a [|b [|c [|d [|]]]]]; try discriminate. intros _. rewrite big_endian4. unfold is_byte. simpl.
  rewrite !andb_true_iff, !Z.leb_le. lia.
Qed.

(** The sum, or an error exactly on overflow. *)
Lemma AddIPInt_spec ip q i :
  net.To4 ip = Some q -> forallb is_byte q = true -> 0 <= i < 2 ^ 32 ->
  match AddIPInt ip i with
  | Ok r => length r = 4%nat /\ forallb is_byte r = true /\ big_endian r = big_endian q + i
  | Err _ => 2 ^ 32 <= big_endian q + i
  end.
Proof.
  intros Hq Hb Hi. unfold AddIPInt. rewrite Hq. pose proof (big_endian4_bound q (To4_length _ _ Hq) Hb) as Hv.
  rewrite wrap64_small by lia. unfold MaxUint32. destruct (Z.ltb_spec (2 ^ 32 - 1) (big_endian q + i)); [lia|].
  rewrite wrap32u_id by lia. split; [done|]. split; [apply be_bytes32_bytes|]. apply be_bytes32_value. lia.
Qed.

(** ** Masks and networks *)

(** Masking a byte rounds it down. *)
Lemma land_mask_byte b k :
  0 <= b < 256 -> 0 <= k <= 8 -> Z.land b (mask_byte (8 - k)) = b / 2 ^ k * 2 ^ k.
Proof.
  intros Hb Hk.
  assert (forallb (fun k => forallb (fun b => Z.land b (mask_byte (8 - k)) =? b / 2 ^ k * 2 ^ k)
            (map Z.of_nat (seq 0 256))) (map Z.of_nat (seq 0 9)) = true) as H by (vm_compute; reflexivity).
  rewrite forallb_forall in H. specialize (H k). rewrite forallb_forall in H.
  apply Z.eqb_eq, H; apply in_map_iff.
  - exists (Z.to_nat k). rewrite in_seq. lia.
  - exists (Z.to_nat b). rewrite in_seq. lia.
Qed.

Lemma land_full b n : 0 <= b < 256 -> 8 <= n -> Z.land b (mask_byte n) = b.
Proof.
  intros Hb Hn. unfold mask_byte. destruct (Z.leb_spec 8 n); [|lia].
  change 255 with (Z.ones 8). rewrite Z.land_ones by lia. by apply Z.mod_small.
Qed.

Lemma land_none b n : n <= 0 -> Z.land b (mask_byte n) = 0.
Proof.
  intros Hn. unfold mask_byte. destruct (Z.leb_spec 8 n); [lia|]. destruct (Z.leb_spec n 0); [apply Z.land_0_r|lia].
Qed.

(** Rounding down a number rounds down its last byte. *)
Lemma floor_byte hi x k : 0 <= k <= 8 -> (256 * hi + x) / 2 ^ k * 2 ^ k = 256 * hi + x / 2 ^ k * 2 ^ k.
Proof.
  intros Hk. assert (256 = 2 ^ (8 - k) * 2 ^ k) as -> by (rewrite <- Z.pow_add_r by lia; by replace (8 - k + k) with 8 by lia).
  replace (2 ^ (8 - k) * 2 ^ k * hi + x) with (2 ^ (8 - k) * hi * 2 ^ k + x) by ring.
  rewrite Z.div_add_l by (apply Z.pow_nonzero; lia). ring.
Qed.

Lemma floor_bytes v w k m : 0 <= k -> 0 <= m -> v / 2 ^ m = w -> v / 2 ^ (m + k) * 2 ^ (m + k) = w / 2 ^ k * 2 ^ k * 2 ^ m.
Proof. intros Hk Hm <-. rewrite Z.pow_add_r, <- Z.div_div by lia. ring. Qed.

(** The network of an address, as a number. *)
Lemma mask_bytes_value n q :
  length q = 4%nat -> forallb is_byte q = true -> 0 <= n <= 32 ->
  big_endian (mask_bytes n q) = big_endian q / 2 ^ (32 - n) * 2 ^ (32 - n).
Proof.
  destruct q as [|a [|b [|c [|d [|]]]]]; try discriminate. intros _ Hb Hn. cbn [mask_bytes forallb] in *.
  rewrite !andb_true_iff in Hb. unfold is_byte in Hb. rewrite !andb_true_iff, !Z.leb_le in Hb.
  destruct Hb as (Ha & Hb & Hc & Hd & _). rewrite !big_endian4.
  assert (n <= 8 \/ 8 < n <= 16 \/ 16 < n <= 24 \/ 24 < n) as [H|[H|[H|H]]] by lia.
  - replace n with (8 - (8 - n)) at 1 by lia. rewrite land_mask_byte, !land_none by lia.
    replace (32 - n) with (24 + (8 - n)) by lia. rewrite (floor_bytes _ a) by (try lia; symmetry; apply (Z.div_unique _ _ _ (65536 * b + 256 * c + d)); lia).
    lia.
  - rewrite (land_full a) by lia. replace (n - 8) with (8 - (16 - n)) at 1 by lia. rewrite land_mask_byte, !land_none by lia.
    replace (32 - n) with (16 + (16 - n)) by lia.
    rewrite (floor_bytes _ (256 * a + b)) by (try lia; symmetry; apply (Z.div_unique _ _ _ (256 * c + d)); lia).
    rewrite floor_byte by lia. lia.
  - rewrite (land_full a), (land_full b) by lia. replace (n - 8 - 8) with (8 - (24 - n)) at 1 by lia.
    rewrite land_mask_byte, !land_none by lia. replace (32 - n) with (8 + (24 - n)) by lia.
    rewrite (floor_bytes _ (256 * (256 * a + b) + c)) by (try lia; symmetry; apply (Z.div_unique _ _ _ d); lia).
    rewrite floor_byte by lia. lia.
  - rewrite (land_full a), (land_full b), (land_full c) by lia. replace (n - 8 - 8 - 8) with (8 - (32 - n)) by lia.
    rewrite land_mask_byte by lia. rewrite floor_byte by lia. lia.
Qed.

(** An IPv4 network: its address is a network address. *)
Definition v4_network (n : IPNet) : Prop :=
  length (n_IP n) = 4%nat /\ forallb is_byte (n_IP n) = true /\ 0 <= n_ones n <= 32 /\ mask_bytes (n_ones n) (n_IP n) = n_IP n.

(** [IPNet.Contains] *)
Definition Contains (n : IPNet) (ip : net.IP) : bool := bool_decide (mask_bytes (n_ones n) ip = n_IP n).

Lemma mask_bytes_length n ip : length (mask_bytes n ip) = length ip.
Proof. revert n; induction ip as [|b ip IH]; intros n; simpl; [done|]. by rewrite IH. Qed.

Lemma mask_bytes_bytes n ip : forallb is_byte ip = true -> forallb is_byte (mask_bytes n ip) = true.
Proof.
  revert n; induction ip as [|b ip IH]; intros n; simpl; [done|]. rewrite !andb_true_iff. intros [Hb Hip]. split; [|by apply IH].
  unfold is_byte in *. rewrite andb_true_iff, !Z.leb_le in *.
  destruct (Z.leb_spec 8 n); [by rewrite land_full by lia|]. destruct (Z.leb_spec n 0); [by rewrite land_none by lia|].
  replace n with (8 - (8 - n)) by lia. rewrite land_mask_byte by lia.
  pose proof (Z.mul_div_le b (2 ^ (8 - n)) ltac:(apply Z.pow_pos_nonneg; lia)).
  assert (0 <= b / 2 ^ (8 - n)) by (apply Z.div_pos; [lia|apply Z.pow_pos_nonneg; lia]). nia.
Qed.

Lemma mask_bytes_idem n ip : mask_bytes n (mask_bytes n ip) = mask_bytes n ip.
Proof. revert n; induction ip as [|b ip IH]; intros n; simpl; [done|]. by rewrite IH, <- Z.land_assoc, Z.land_diag. Qed.

(** The address at an offset is in the network exactly when the offset fits. *)
Lemma AddIPInt_Contains n i r :
  v4_network n -> 0 <= i < 2 ^ 32 -> AddIPInt (n_IP n) i = Ok r ->
  Contains n r = true <-> i < 2 ^ (32 - n_ones n).
Proof.
  intros (Hl & Hb & Hn & Hm) Hi Hr.
  assert (net.To4 (n_IP n) = Some (n_IP n)) as H4 by (unfold net.To4; by rewrite bool_decide_eq_true_2).
  pose proof (AddIPInt_spec _ _ i H4 Hb Hi) as Hs. rewrite Hr in Hs. destruct Hs as (Hlr & Hbr & Hv).
  set (K := 2 ^ (32 - n_ones n)). assert (0 < K) as HK by (apply Z.pow_pos_nonneg; lia).
  pose proof (mask_bytes_value (n_ones n) (n_IP n) Hl Hb Hn) as Hmv. rewrite Hm in Hmv. fold K in Hmv.
  pose proof (mask_bytes_value (n_ones n) r Hlr Hbr Hn) as Hrv. fold K in Hrv. rewrite Hv, Hmv in Hrv.
  set (t := big_endian (n_IP n) / K) in *. rewrite Z.div_add_l in Hrv by lia.
  unfold Contains. rewrite bool_decide_eq_true. split.
  - intros E. rewrite E, Hmv in Hrv. assert (i / K = 0) as H0 by nia. apply Z.div_small_iff in H0; lia.
  - intros Hlt. rewrite (Z.div_small i) in Hrv by lia.
    destruct (big_endian_inj (mask_bytes (n_ones n) r) (n_IP n) 0 0) as [_ E]; [|by apply mask_bytes_bytes|done| |done].
    + by rewrite mask_bytes_length, Hlr, Hl.
    + fold (big_endian (mask_bytes (n_ones n) r)) (big_endian (n_IP n)). lia.
Qed.

Lemma parseIPv4_bytes s q : net.parseIPv4 s = Some q -> length q = 4%nat /\ forallb is_byte q = true.
Proof.
  unfold net.parseIPv4. destruct (strings.Split s "."%char) as [|a [|b [|c [|d [|]]]]]; try discriminate.
  assert (forall t v, net.parse_octet t = Some v -> is_byte v = true) as Ho.
  { intros t v. unfold net.parse_octet. destruct t; [discriminate|]. destruct (negb _); [discriminate|].
    destruct (_ && _); [discriminate|]. destruct (Z.ltb_spec 255 (Z.of_N (strconv.dec_val (a0 :: t)))); [discriminate|].
    intros [= <-]. unfold is_byte. apply andb_true_iff. rewrite !Z.leb_le. lia. }
  destruct (net.parse_octet a) eqn:Ea; [|discriminate]. destruct (net.parse_octet b) eqn:Eb; [|discriminate].
  destruct (net.parse_octet c) eqn:Ec; [|discriminate]. destruct (net.parse_octet d) eqn:Ed; [|discriminate].
  intros [= <-]. split; [done|]. simpl. by rewrite (Ho _ _ Ea), (Ho _ _ Eb), (Ho _ _ Ec), (Ho _ _ Ed).
Qed.

Lemma parseIPv6_length s ip : net.parseIPv6 s = Some ip -> (16 <= length ip)%nat.
Proof.
  assert (forall r ip, net.v6_finish r = Some ip -> (16 <= length ip)%nat) as Hf.
  { intros [ip0 e] ip1. unfold net.v6_finish. destruct (Nat.ltb_spec (length ip0) 16).
    - destruct e as [e|]; [|discriminate]. intros [= <-]. rewrite !length_app, length_take, length_replicate, length_drop. lia.
    - destruct e; [discriminate|]. by intros [= <-]. }
  assert (forall m, m ≫= net.v6_finish = Some ip -> (16 <= length ip)%nat) as Hb.
  { intros [r|]; [apply Hf|discriminate]. }
  unfold net.parseIPv6. repeat case_match; try (apply Hb). intros [= <-]. simpl. lia.
Qed.

Lemma lookup_not_lacks c s i : s !! i = Some c -> lacks c s = false.
Proof.
  revert i; induction s as [|x s IH]; intros [|i] H; try discriminate.
  - injection H as ->. simpl. by rewrite bool_decide_eq_true_2.
  - simpl. by rewrite (IH i), andb_false_r.
Qed.

(** What [ParseCIDR] returns for an IPv4 network is a network. *)
Lemma ParseCIDR_network s ip n : ParseCIDR s = Ok (ip, n) -> length (n_IP n) = 4%nat -> v4_network n.
Proof.
  unfold ParseCIDR. destruct (strings.Split s "/"%char) as [|a [|m rest]]; try discriminate.
  destruct (net.ParseIP a) as [ip0|] eqn:Ea; [|discriminate]. destruct (strconv.parse_digits _) as [k|]; [|discriminate].
  set (ip' := if lacks _ a then _ else _). destruct (Z.leb_spec (Z.of_N k) (8 * Z.of_nat (length ip'))) as [Hk|]; [|discriminate].
  intros [= <- <-] Hl. cbn [n_IP n_ones] in *. rewrite mask_bytes_length in Hl.
  assert (forallb is_byte ip' = true) as Hb.
  { revert Ea. unfold net.ParseIP. destruct (find_index _ a) as [i|]; [|discriminate]. simpl.
    destruct (a !! i) as [c|] eqn:Ei; [|discriminate].
    destruct (decide (c = "."%char)) as [->|]; [|destruct (decide (c = ":"%char)) as [->|]].
    - destruct (net.parseIPv4 a) as [q|] eqn:Eq; [|discriminate]. intros [= <-].
      destruct (parseIPv4_bytes _ _ Eq) as [Hq Hqb]. destruct q as [|? [|? [|? [|? [|]]]]]; try discriminate.
      unfold ip' in *. by destruct (lacks _ a).
    - destruct (lacks "%"%char a); [|discriminate]. intros Hv6%parseIPv6_length. unfold ip' in *.
      assert (lacks ":"%char a = false) as E by (by apply (lookup_not_lacks _ _ i)). rewrite E in Hl. lia.
    - intros H. exfalso. revert H. destruct c as [[] [] [] [] [] [] [] []]; done. }
  unfold v4_network. cbn [n_IP n_ones]. rewrite mask_bytes_length.
  split; [done|]. split; [by apply mask_bytes_bytes|]. rewrite Hl in Hk. split; [simpl in Hk; lia|]. apply mask_bytes_idem.
Qed.
