(* ===== verification/NetDrivers.v ===== *)
(** * pkg/network: the network drivers

    [NewParentDriver], [ConfigureNetwork] and [ConfigureNetworkChild] of the
    drivers none, slirp4netns, pasta, lxc-user-nic and vpnkit (gvisor-tap-vsock
    is in GvisorNet.v, the renewal of a DHCP lease in DhcpLease.v), as programs
    over [Sys.sys].  What [ConfigureNetwork]
    returns is the response of the call of the same name that the parent makes;
    the cleanup function that it returns is a program of its own. *)
From S2P Require Import Prelude GoStrings NetIP PortSpec Effects Framing Messages Sessions SubID Sys Child Manager BuiltinParent Api NetConfig.
Import messages.
Import Sys.
Import api main_cidr.

(** What [ConfigureNetwork] returns, and the [Info] of the driver after it. *)
Record configured : Type := mkConfigured {
  c_netmsg : NetMsg;
  c_cleanup : option (io (result unit));   (** None: nil *)
  c_err : option error;
  c_info : option NetworkDriverInfo;       (** None: only the name of the driver *)
}.

Definition nil_cleanup (e : error) : configured := mkConfigured empty_NetMsg None (Some e) None.
Definition failed (cleanups : list (io (result unit))) (e : error) : configured :=
  mkConfigured empty_NetMsg (Some (common.Seq cleanups)) (Some e) None.

(** The text of an address in the API. *)
Definition ip_text (s : str) : str := match net.ParseIP s with Some ip => net.String ip | None => [] end.

Definition static_info (name : str) (m : NetMsg) : NetworkDriverInfo :=
  mkNetworkDriverInfo name (map ip_text (DNS m)) (ip_text (IP m)) false.

(** The [Info] of a driver that remembers what it configured. *)
Definition info_of (name : str) (info : option NetworkDriverInfo) : NetworkDriverInfo :=
  match info with Some i => i | None => mkNetworkDriverInfo name [] [] false end.

Definition close_fd (fd : Z) : io unit := _ <- call (Close fd) ;; Ret tt.

(** ** parentutils *)
Module parentutils.
Definition nsenter (childPID : Z) (childNetNsPath : str) (cmd : list str) : list str :=
  [lit "nsenter"; lit "-t"; strconv.Itoa childPID] ++
  (if bool_decide (childNetNsPath = []) then [lit "-n"] else [lit "-n" ++ childNetNsPath]) ++
  [lit "-m"; lit "-U"; lit "--preserve-credentials"] ++ cmd.

Definition PrepareTap (childPID : Z) (childNetNsPath tap : str) : io (result unit) :=
  wrapping
    (common.Execs
      [nsenter childPID childNetNsPath [lit "ip"; lit "tuntap"; lit "add"; lit "name"; tap; lit "mode"; lit "tap"];
       nsenter childPID childNetNsPath [lit "ip"; lit "link"; lit "set"; tap; lit "up"]])
    (Wrapf "executing %v: %w" []).
End parentutils.
Import parentutils.

(** ** none *)
Module net_none.
Definition ns_cmd (pid : Z) (cmd : list str) : list str :=
  [lit "nsenter"; lit "-t"; strconv.Itoa pid; lit "-n"; lit "-m"; lit "-U"; lit "--no-fork"; lit "--preserve-credentials"] ++ cmd.

(** A process that holds the detached network namespace. *)
Definition sleeper (childPID : Z) (detachedNetNSPath : str) : Cmd :=
  mkCmd [lit "nsenter"; lit "-t"; strconv.Itoa childPID; lit "-n" ++ detachedNetNSPath; lit "-m"; lit "-U";
         lit "--no-fork"; lit "--preserve-credentials"; lit "sleep"; lit "infinity"] None [] 0 0 true false.

Definition ConfigureNetwork (childPID : Z) (detachedNetNSPath : str) : io configured :=
  pid <- (if bool_decide (detachedNetNSPath = []) then Ret (Ok childPID)
          else call (StartCmd (sleeper childPID detachedNetNSPath))) ;;
  match pid with
  | Err e => Ret (nil_cleanup e)
  | Ok pid =>
      r <- common.Execs [ns_cmd pid [lit "ip"; lit "address"; lit "add"; lit "127.0.0.1/8"; lit "dev"; lit "lo"];
                         ns_cmd pid [lit "ip"; lit "link"; lit "set"; lit "lo"; lit "up"]] ;;
      match r with
      | Err e => Ret (nil_cleanup e)
      | Ok _ => Ret (mkConfigured empty_NetMsg (Some (common.Seq [])) None None)
      end
  end.

Definition Info : NetworkDriverInfo := mkNetworkDriverInfo "none" [] [] false.
End net_none.

(** ** slirp4netns *)
Module net_slirp.

Record Features : Set := mkFeatures {
  SupportsEnableIPv6 : bool;
  SupportsCIDR : bool;
  SupportsDisableHostLoopback : bool;
  SupportsAPISocket : bool;
  SupportsEnableSandbox : bool;
  SupportsEnableSeccomp : bool;
  KernelSupportsEnableSeccomp : bool;
}.

Definition DetectFeatures (binary : str) : io (result Features) :=
  if bool_decide (binary = []) then fail (errors_New "got empty slirp4netns binary")
  else
    realBinary <-! wrapping (call (LookPath binary)) (Wrapf "slirp4netns binary %q is not installed: %w" [AStr binary]) ;;
    out <- call (CombinedOutput [realBinary; lit "--help"]) ;;
    let '(s, err) := out in
    match err with
    | Some e =>
        fail (Wrapf (lit "command " ++ quoted "%s --help" ++ lit " failed, make sure slirp4netns v0.4.0+ is installed: %q: %w")
                [AStr realBinary; AStr s] e)
    | None =>
        if negb (strings.Contains s "--netns-type") then fail (errors_New "slirp4netns seems older than v0.4.0")
        else
          get <- call (PrctlSeccomp false) ;;
          kernel <- (if (get : bool) then call (PrctlSeccomp true) else Ret false) ;;
          Ret (Ok (mkFeatures (strings.Contains s "--enable-ipv6") (strings.Contains s "--cidr")
                     (strings.Contains s "--disable-host-loopback") (strings.Contains s "--api-socket")
                     (strings.Contains s "--enable-sandbox") (strings.Contains s "--enable-seccomp") kernel))
    end.

Record parentDriver : Set := mkParentDriver {
  binary : str;
  mtu : Z;
  ipnet : option IPNet;
  disableHostLoopback : bool;
  apiSocketPath : str;
  enableSandbox : bool;
  enableSeccomp : bool;
  enableIPv6 : bool;
  ifname : str;
}.

(** The features that the options need. *)
Definition check_features (f : Features) (d : parentDriver) : result unit :=
  if enableIPv6 d && negb (SupportsEnableIPv6 f) then Err (errors_New "this version of slirp4netns does not support --enable-ipv6")
  else if bool_decide (ipnet d <> None) && negb (SupportsCIDR f) then Err (errors_New "this version of slirp4netns does not support --cidr")
  else if disableHostLoopback d && negb (SupportsDisableHostLoopback f)
  then Err (errors_New "this version of slirp4netns does not support --disable-host-loopback")
  else if negb (bool_decide (apiSocketPath d = [])) && negb (SupportsAPISocket f)
  then Err (errors_New "this version of slirp4netns does not support --api-socket")
  else if enableSandbox d && negb (SupportsEnableSandbox f) then Err (errors_New "this version of slirp4netns does not support --enable-sandbox")
  else if enableSeccomp d && negb (SupportsEnableSeccomp f) then Err (errors_New "this version of slirp4netns does not support --enable-seccomp")
  else if enableSeccomp d && negb (KernelSupportsEnableSeccomp f) then Err (errors_New "kernel does not support seccomp")
  else Ok tt.

Definition NewParentDriver (d : parentDriver) : io (result parentDriver) :=
  if bool_decide (binary d = []) then fail (errors_New "got empty slirp4netns binary")
  else if mtu d <? 0 then fail (errors_New "got negative mtu")
  else
    let d := mkParentDriver (binary d) (if mtu d =? 0 then 65520 else mtu d) (ipnet d) (disableHostLoopback d)
               (apiSocketPath d) (enableSandbox d) (enableSeccomp d) (enableIPv6 d)
               (if bool_decide (ifname d = []) then "tap0" else ifname d) in
    features <-! DetectFeatures (binary d) ;;
    Ret (_ <-? check_features features d ;; Ok d).

Definition flag_if (b : bool) (l : list str) : list str := if b then l else [].

(** The command line of slirp4netns. *)
Definition opts (d : parentDriver) (childPID : Z) (detachedNetNSPath : str) : list str :=
  [lit "--mtu"; strconv.Itoa (mtu d); lit "-r"; lit "3"] ++
  flag_if (disableHostLoopback d) [lit "--disable-host-loopback"] ++
  match ipnet d with Some n => [lit "--cidr"; IPNet_String n] | None => [] end ++
  flag_if (negb (bool_decide (apiSocketPath d = []))) [lit "--api-socket"; apiSocketPath d] ++
  flag_if (enableSandbox d) [lit "--enable-sandbox"] ++
  flag_if (enableSeccomp d) [lit "--enable-seccomp"] ++
  flag_if (enableIPv6 d) [lit "--enable-ipv6"] ++
  (if bool_decide (detachedNetNSPath = []) then [strconv.Itoa childPID]
   else [lit "--userns-path=/proc/" ++ strconv.Itoa childPID ++ lit "/ns/user"; lit "--netns-type=path"; detachedNetNSPath]) ++
  [ifname d].

(** The network message. *)
Definition netmsg (d : parentDriver) : result NetMsg :=
  let dns6 := flag_if (enableIPv6 d) [lit "fd00::3"] in
  match ipnet d with
  | Some n =>
      ip <-? iputils.AddIPInt (n_IP n) 100 ;;
      gw <-? iputils.AddIPInt (n_IP n) 2 ;;
      dns <-? iputils.AddIPInt (n_IP n) 3 ;;
      Ok (mkNetMsg None (ifname d) (net.String ip) (n_ones n) (net.String gw) (net.String dns :: dns6) (mtu d) [])
  | None => Ok (mkNetMsg None (ifname d) "10.0.2.100" 24 "10.0.2.2" (lit "10.0.2.3" :: dns6) (mtu d) [])
  end.

(** [waitForReadyFD]: at most [fuel] polls of one second. *)
Definition still_waiting : error := Extern "slirp4netns is not ready yet".
Fixpoint waitForReadyFD (fuel : nat) (cmdPid r : Z) : io (result unit) :=
  match fuel with
  | O => fail still_waiting
  | S fuel =>
      got <- call (ReadReady r) ;;
      match got with
      | Some (Ok _) => Ret (Ok tt)
      | Some (Err e) => fail (Wrapf "failed to read from slirp4netns sync pipe: %w" [] e)
      | None =>
          w <- call (Wait4NoHang cmdPid) ;;
          match w with
          | Err e => fail (Wrapf "failed to read slirp4netns process status: %w" [] e)
          | Ok (pid, status) =>
              if negb (pid =? cmdPid) then waitForReadyFD fuel cmdPid r
              else if common.Exited status then fail (errors_New "slirp4netns failed")
              else if common.Signaled status then fail (errors_New "slirp4netns killed by signal")
              else waitForReadyFD fuel cmdPid r
          end
      end
  end.

(** The cleanup of a started process. *)
Definition kill_and_wait (pid : Z) : io (result unit) :=
  _ <- call (KillProcess pid) ;;
  _ <- call (WaitCmd pid) ;;
  Ret (Ok tt).

Definition start (fuel : nat) (d : parentDriver) (childPID : Z) (detachedNetNSPath : str) (readyR readyW : Z) : io configured :=
  pid <- call (StartCmd (mkCmd (binary d :: opts d childPID detachedNetNSPath) None [readyW] 0 0 true false)) ;;
  match pid with
  | Err e => Ret (failed [Ret (Ok tt)] (Wrapf "executing %v: %w" [] e))
  | Ok pid =>
      let cleanups := [kill_and_wait pid] in
      ready <- waitForReadyFD fuel pid readyR ;;
      match ready with
      | Err e => Ret (failed cleanups (Wrapf "waiting for ready fd (%v): %w" [] e))
      | Ok _ =>
          match netmsg d with
          | Err e => Ret (failed cleanups e)
          | Ok m => Ret (mkConfigured m (Some (common.Seq cleanups)) None (Some (static_info "slirp4netns" m)))
          end
      end
  end.

Definition ConfigureNetwork (fuel : nat) (d : parentDriver) (childPID : Z) (detachedNetNSPath : str) : io configured :=
  if negb (bool_decide (detachedNetNSPath = [])) && enableSandbox d
  then Ret (nil_cleanup (errors_New "slirp4netns sandbox is not compatible with detach-netns (https://github.com/rootless-containers/slirp4netns/issues/317)"))
  else
    tap <- PrepareTap childPID detachedNetNSPath (ifname d) ;;
    match tap with
    | Err e => Ret (failed [] (Wrapf "setting up tap %s: %w" [AStr (ifname d)] e))
    | Ok _ =>
        pipe <- call OsPipe ;;
        match pipe with
        | Err e => Ret (failed [] e)
        | Ok (readyR, readyW) =>
            defer (close_fd readyR) (defer (close_fd readyW) (start fuel d childPID detachedNetNSPath readyR readyW))
        end
    end.

Definition ConfigureNetworkChild (m : NetMsg) : result str :=
  if bool_decide (Dev m = []) then Err (errors_New "could not determine the preconfigured tap") else Ok (Dev m).
Definition ConfiguresInterface : bool := false.

Definition Info (info : option NetworkDriverInfo) : NetworkDriverInfo := info_of "slirp4netns" info.
End net_slirp.

(** ** pasta *)
Module net_pasta.
Record parentDriver : Set := mkParentDriver {
  binary : str;
  mtu : Z;
  ipnet : IPNet;
  disableHostLoopback : bool;
  enableIPv6 : bool;
  ifname : str;
  implicitPortForwarding : bool;
  HasHostLoToNsLo : bool;
}.

Definition DetectFeatures (binary : str) : io (result bool) :=
  if bool_decide (binary = []) then fail (errors_New "got empty pasta binary")
  else
    realBinary <-! wrapping (call (LookPath binary)) (Wrapf "pasta binary %q is not installed: %w" [AStr binary]) ;;
    out <- call (CombinedOutput [realBinary; lit "--version"]) ;;
    match out.2 with
    | Some e => fail (Wrapf (lit "command " ++ quoted "%s --version" ++ lit " failed, make sure pasta is installed: %q: %w")
                        [AStr realBinary; AStr out.1] e)
    | None =>
        r <- call (RunCmd [realBinary; lit "--host-lo-to-ns-lo"; lit "--version"]) ;;
        Ret (Ok (is_ok r))
    end.

Definition NewParentDriver (binary : str) (mtu : Z) (ipnet : option IPNet) (ifname : str)
    (disableHostLoopback enableIPv6 implicitPortForwarding : bool) : io (result parentDriver) :=
  if bool_decide (binary = []) then fail (errors_New "got empty slirp4netns binary")
  else if mtu <? 0 then fail (errors_New "got negative mtu")
  else
    let mtu := if mtu =? 0 then 65520 else mtu in
    match (match ipnet with Some n => Ok n | None => n <-? ParseCIDR "10.0.2.0/24" ;; Ok n.2 end) with
    | Err e => fail e
    | Ok n =>
        let ifname := if bool_decide (ifname = []) then lit "tap0" else ifname in
        feat <-! DetectFeatures binary ;;
        Ret (Ok (mkParentDriver binary mtu n disableHostLoopback enableIPv6 ifname implicitPortForwarding feat))
    end.

Definition addresses (d : parentDriver) : result (net.IP * net.IP * net.IP) :=
  address <-? iputils.AddIPInt (n_IP (ipnet d)) 100 ;;
  gateway <-? iputils.AddIPInt (n_IP (ipnet d)) 2 ;;
  dns <-? iputils.AddIPInt (n_IP (ipnet d)) 3 ;;
  Ok (address, gateway, dns).

Definition opts (d : parentDriver) (address gateway dns : net.IP) (childPID : Z) (detachedNetNSPath : str) : list str :=
  [lit "--stderr"; lit "--ns-ifname=" ++ ifname d; lit "--mtu=" ++ strconv.Itoa (mtu d); lit "--config-net";
   lit "--address=" ++ net.String address; lit "--netmask=" ++ strconv.Itoa (n_ones (ipnet d));
   lit "--gateway=" ++ net.String gateway; lit "--dns-forward=" ++ net.String dns] ++
  (if disableHostLoopback d then [lit "--no-map-gw"] else []) ++
  (if enableIPv6 d then [] else [lit "--ipv4-only"]) ++
  (if implicitPortForwarding d then [lit "--tcp-ports=auto"; lit "--udp-ports=auto"]
   else [lit "--tcp-ports=none"; lit "--udp-ports=none"]) ++
  (if HasHostLoToNsLo d then [lit "--host-lo-to-ns-lo"] else []) ++
  (if bool_decide (detachedNetNSPath = []) then [strconv.Itoa childPID]
   else [lit "--userns=/proc/" ++ strconv.Itoa childPID ++ lit "/ns/user"; lit "--netns=" ++ detachedNetNSPath]).

Definition ConfigureNetwork (d : parentDriver) (childPID : Z) (detachedNetNSPath : str) : io configured :=
  match addresses d with
  | Err e => Ret (failed [] e)
  | Ok (address, gateway, dns) =>
      out <- call (CombinedOutput (binary d :: opts d address gateway dns childPID detachedNetNSPath)) ;;
      match out.2 with
      | Some (Exit ws) =>
          Ret (failed [] (Errorf "pasta failed with exit code %d" [AInt (common.ExitStatus ws); AStr out.1]))
      | Some e => Ret (failed [] (Wrapf "executing %v: %w" [] e))
      | None =>
          let m := mkNetMsg None (ifname d) (net.String address) (n_ones (ipnet d)) (net.String gateway) [net.String dns] (mtu d) [] in
          Ret (mkConfigured m (Some (common.Seq [])) None (Some (static_info "pasta" m)))
      end
  end.

Definition ConfigureNetworkChild (m : NetMsg) : result str := Ok (Dev m).
Definition ConfiguresInterface : bool := true.

Definition Info (info : option NetworkDriverInfo) : NetworkDriverInfo := info_of "pasta" info.
End net_pasta.

(** ** lxc-user-nic *)
Module net_lxc.
Record parentDriver : Set := mkParentDriver { binary : str; mtu : Z; bridge : str; ifname : str }.

Definition NewParentDriver (binary : str) (mtu : Z) (bridge ifname : str) : result parentDriver :=
  if bool_decide (binary = []) then Err (errors_New "got empty binary")
  else if mtu <? 0 then Err (errors_New "got negative mtu")
  else if bool_decide (bridge = []) then Err (errors_New "got empty bridge")
  else Ok (mkParentDriver binary (if mtu =? 0 then 1500 else mtu) bridge (if bool_decide (ifname = []) then "eth0" else ifname)).

Definition sleeper (childPID : Z) (detachedNetNSPath : str) : Cmd :=
  mkCmd [lit "nsenter"; lit "-t"; strconv.Itoa childPID; lit "-n" ++ detachedNetNSPath; lit "--no-fork"; lit "-m"; lit "-U";
         lit "--preserve-credentials"; lit "sleep"; lit "infinity"] None [] 0 0 true false.

Definition ConfigureNetwork (d : parentDriver) (childPID : Z) (detachedNetNSPath : str) : io configured :=
  pid <- (if bool_decide (detachedNetNSPath = []) then Ret (Ok childPID)
          else call (StartCmd (sleeper childPID detachedNetNSPath))) ;;
  match pid with
  | Err e => Ret (nil_cleanup e)
  | Ok pid =>
      out <- call (CombinedOutput [binary d; lit "create"; lit "/dev/null"; lit "dummy"; strconv.Itoa pid; lit "veth"; bridge d; ifname d]) ;;
      match out.2 with
      | Some e => Ret (failed [] (Wrapf "%s failed: %s: %w" [AStr (binary d); AStr out.1] e))
      | None =>
          Ret (mkConfigured (mkNetMsg None (ifname d) [] 0 [] [] (mtu d) []) (Some (common.Seq [])) None
                 (Some (mkNetworkDriverInfo "lxc-user-nic" [] [] true)))
      end
  end.

(** The exchange inside the namespace, repeated at most [fuel] times while it
    is interrupted. *)
Fixpoint exchange (fuel : nat) (dev : str) : io (result (list DHCPv4)) :=
  match fuel with
  | O => fail (Extern "interrupted system call")
  | S fuel =>
      r <- call (DHCPExchange dev) ;;
      match r with
      | None => exchange fuel dev
      | Some (Err e) => fail (Wrapf "could not exchange DHCP with %s: %w" [AStr dev] e)
      | Some (Ok ps) => Ret (Ok ps)
      end
  end.

Definition ns_path (detachedNetNSPath : str) : str :=
  if bool_decide (detachedNetNSPath = []) then "/proc/self/ns/net" else detachedNetNSPath.

Definition exchangeDHCP (fuel : nat) (dev detachedNetNSPath : str) : io (result DHCPv4) :=
  ps <-! (_ <-! call (InNetNS (ns_path detachedNetNSPath)) ;;
          defer (call LeaveNetNS) (exchange fuel dev)) ;;
  match ps with
  | [] => fail (errors_New "got empty DHCP message")
  | _ =>
      match last (filter (fun p => is_Ack p = true) ps) with
      | None => fail (errors_New "did not get DHCPACK")
      | Some ack => Ret (Ok ack)
      end
  end.

(** [p.IPAddressLeaseTime(def)] *)
Definition IPAddressLeaseTime (p : DHCPv4) (def : Z) : Z := match LeaseTime p with Some d => d | None => def end.
Definition Hour : Z := 3600 * 10 ^ 9.

(** [ip.To4()]; nil is the empty address *)
Definition to4 (ip : net.IP) : net.IP := match net.To4 ip with Some q => q | None => [] end.
(** [ip.To4().String()] *)
Definition to4_string (ip : net.IP) : str := match net.To4 ip with Some q => net.String q | None => "<nil>" end.

Definition ConfigureNetworkChild (fuel : nat) (m : NetMsg) (detachedNetNSPath : str) : io (result (str * NetMsg)) :=
  let dev := Dev m in
  if bool_decide (dev = []) then fail (errors_New "could not determine the dev")
  else
    _ <-! wrapping (common.Execs [[lit "nsenter"; lit "-n" ++ ns_path detachedNetNSPath; lit "ip"; lit "link"; lit "set"; dev; lit "up"]])
            (Wrapf "executing %v: %w" []) ;;
    p <-! exchangeDHCP fuel dev detachedNetNSPath ;;
    if net.Equal (YourIPAddr p) (mkIPv4 0 0 0 0) then fail (errors_New "got zero YourIPAddr")
    else
      match Router p, dhcp_DNS p with
      | [], _ => fail (errors_New "got no Router")
      | _, [] => fail (errors_New "got no DNS")
      | r :: _, dns :: _ =>
          _ <- call (GoDHCPRenew dev (to4 (YourIPAddr p)) (IPAddressLeaseTime p Hour)) ;;
          Ret (Ok (dev, mkNetMsg (Network m) (Dev m) (to4_string (YourIPAddr p)) (SubnetMask_ones p) (to4_string r)
                          [to4_string dns] (MTU m) (NetworkDriverOpaque m)))
      end.
Definition ConfiguresInterface : bool := false.

(** The address is the child's to learn. *)
Definition Info : NetworkDriverInfo := mkNetworkDriverInfo "lxc-user-nic" [] [] true.
End net_lxc.

(** ** vpnkit *)
Module net_vpnkit.
Record parentDriver : Set := mkParentDriver { binary : str; mtu : Z; ifname : str; disableHostLoopback : bool }.

(** It panics on what the callers exclude. *)
Definition NewParentDriver (binary : str) (mtu : Z) (ifname : str) (disableHostLoopback : bool) : result parentDriver :=
  if bool_decide (binary = []) then Err (Panic "got empty vpnkit binary")
  else if mtu <? 0 then Err (Panic "got negative mtu")
  else Ok (mkParentDriver binary (if mtu =? 0 then 1500 else mtu) (if bool_decide (ifname = []) then "tap0" else ifname) disableHostLoopback).

Definition opaqueMAC : str := "vpnkit.mac".
Definition opaqueSocket : str := "vpnkit.socket".
Definition opaqueUUID : str := "vpnkit.uuid".

(** [waitForVPNKit], at most [fuel] attempts; it pauses up to a millisecond
    between them and gives up when its context is done. *)
Definition sleepTime (retried : Z) : Z := Z.rem retried 100 * 10 * 1000.
Fixpoint waitForVPNKit (fuel : nat) (socket : str) (retried : Z) : io (result Z) :=
  match fuel with
  | O => fail (Extern "vpnkit is not ready yet")
  | S fuel =>
      vm <- call (VmnetNew socket) ;;
      match vm with
      | Ok vm => Ret (Ok vm)
      | Err e =>
          ctx_done <- call (DoneWithin (sleepTime retried)) ;;
          if (ctx_done : bool) then fail (Wrapf "last error: %v: %w" [] (Extern "context deadline exceeded"))
          else waitForVPNKit fuel socket (retried + 1)
      end
  end.

Definition start (fuel : nat) (d : parentDriver) (pid : Z) (socket : str) : io configured :=
  let cleanups := [net_slirp.kill_and_wait pid; (_ <- call CancelContext ;; Ret (Ok tt))] in
  vm <- waitForVPNKit fuel socket 0 ;;
  match vm with
  | Err e => Ret (failed cleanups (Wrapf "connecting to %s: %w" [AStr socket] e))
  | Ok vm =>
      let cleanups := cleanups ++ [call (VmnetClose vm)] in
      uuid <- call NewUUID ;;
      vif <- call (VmnetConnect vm uuid) ;;
      match vif with
      | Err e => Ret (failed cleanups (Wrapf "connecting to %s with uuid %s: %w" [AStr socket; AStr uuid] e))
      | Ok (ip, mac) =>
          let m := mkNetMsg None (ifname d) (net.String ip) 24 "192.168.65.1" [lit "192.168.65.1"] (mtu d)
                     [(opaqueMAC, mac); (opaqueSocket, socket); (opaqueUUID, uuid)] in
          Ret (mkConfigured m (Some (common.Seq cleanups)) None (Some (static_info "vpnkit" m)))
      end
  end.

Definition ConfigureNetwork (fuel : nat) (d : parentDriver) (stateDir : str) : io configured :=
  let socket := filepath.Join [stateDir; lit "vpnkit-ethernet.sock"] in
  pid <- call (StartCmd (mkCmd ([binary d; lit "--ethernet"; socket; lit "--mtu"; strconv.Itoa (mtu d)] ++
                                (if disableHostLoopback d then [lit "--host-ip"; lit "0.0.0.0"] else []))
                         None [] 0 0 true false)) ;;
  match pid with
  | Err e => Ret (failed [Ret (Ok tt)] (Wrapf "executing %v: %w" [] e))
  | Ok pid => start fuel d pid socket
  end.

Definition opaque_get (m : NetMsg) (k : str) : str :=
  match List.find (fun kv => bool_decide (kv.1 = k)) (NetworkDriverOpaque m) with Some (_, v) => v | None => [] end.

(** The tap device is made in the namespace; uuid.Parse accepts what
    [NewUUID] printed. *)
Definition startVPNKitRoutines (tapName mac socket uuid detachedNetNSPath : str) : io (result str) :=
  let fn := (_ <-! wrapping (common.Execs [[lit "ip"; lit "tuntap"; lit "add"; lit "name"; tapName; lit "mode"; lit "tap"];
                                           [lit "ip"; lit "link"; lit "set"; tapName; lit "address"; mac]])
                     (Wrapf "executing %v: %w" []) ;;
             wrapping (call (OpenTap tapName)) (Wrapf "creating tap %s: %w" [AStr tapName])) in
  tap <-! (if bool_decide (detachedNetNSPath = []) then fn
           else (_ <-! call (InNetNS detachedNetNSPath) ;; defer (call LeaveNetNS) fn)) ;;
  if negb (bool_decide (tap.2 = tapName)) then fail (Errorf "expected %q, got %q" [AStr tapName; AStr tap.2])
  else
    vm <-! call (VmnetNew socket) ;;
    _ <-! call (VmnetConnect vm uuid) ;;
    _ <- call (GoForward tap.1 vm) ;;
    Ret (Ok tapName).

Definition ConfigureNetworkChild (m : NetMsg) (detachedNetNSPath : str) : io (result str) :=
  let tapName := Dev m in
  if bool_decide (tapName = []) then fail (errors_New "no dev is set")
  else
    let macStr := opaque_get m opaqueMAC in
    let socket := opaque_get m opaqueSocket in
    let uuidStr := opaque_get m opaqueUUID in
    if bool_decide (macStr = []) then fail (errors_New "no VPNKit MAC is set")
    else if bool_decide (socket = []) then fail (errors_New "no VPNKit socket is set")
    else if bool_decide (uuidStr = []) then fail (errors_New "no VPNKit UUID is set")
    else startVPNKitRoutines tapName macStr socket uuidStr detachedNetNSPath.
Definition ConfiguresInterface : bool := false.

(** The two goroutines: the frames that are written and how the loop ends,
    quietly at the end of a stream and with a panic at another error.
    [writes] answers the writes. *)
Definition loop_end (what : string) (e : error) : result unit :=
  if errors_Is e EOF then Ok tt else Err (Panic (lit what)).

Fixpoint copy_frames (name_read name_write : string) (reads : list (result str)) (writes : nat -> result unit) (n : nat)
    : list str * option (result unit) :=
  match reads with
  | [] => ([], None)
  | Err e :: _ => ([], Some (loop_end name_read e))
  | Ok b :: reads' =>
      match writes n with
      | Err e => ([], Some (loop_end name_write e))
      | Ok _ => let r := copy_frames name_read name_write reads' writes (S n) in (b :: r.1, r.2)
      end
  end.
Definition tap2vif := copy_frames "tap2vif: read" "tap2vif: write".
Definition vif2tap := copy_frames "vif2tap: read" "vif2tap: write".

Definition Info (info : option NetworkDriverInfo) : NetworkDriverInfo := info_of "vpnkit" info.
End net_vpnkit.

(** ** Helpers are cleaned up *)

(** The pipe ends that are open, the helper processes that were started and not
    waited for (with whether they were killed), and the connections to vpnkit. *)
Record held : Set := mkHeld { pipes : list Z; procs : list (Z * bool); vmnets : list Z }.
Definition nothing_held : held := mkHeld [] [] [].

(** What was acquired last is released first; only a helper that is held is
    killed, and only one that was killed is waited for. *)
Definition helper_step (s : held) (c : sys) : res c -> option held :=
  match c return res c -> option held with
  | OsPipe => fun r => Some (match r with Ok (a, b) => mkHeld (b :: a :: pipes s) (procs s) (vmnets s) | Err _ => s end)
  | Close fd => fun _ => match pipes s with x :: l => if x =? fd then Some (mkHeld l (procs s) (vmnets s)) else None | [] => None end
  | StartCmd _ => fun r => Some (match r with Ok p => mkHeld (pipes s) ((p, false) :: procs s) (vmnets s) | Err _ => s end)
  | KillProcess p => fun _ =>
      match procs s with
      | (x, _) :: l => if x =? p then Some (mkHeld (pipes s) ((x, true) :: l) (vmnets s)) else None
      | [] => None
      end
  | WaitCmd p => fun _ =>
      match procs s with
      | (x, true) :: l => if x =? p then Some (mkHeld (pipes s) l (vmnets s)) else None
      | _ => None
      end
  | VmnetNew _ => fun r => Some (match r with Ok v => mkHeld (pipes s) (procs s) (v :: vmnets s) | Err _ => s end)
  | VmnetClose v => fun _ => match vmnets s with x :: l => if x =? v then Some (mkHeld (pipes s) (procs s) l) else None | [] => None end
  | _ => fun _ => Some s
  end.

Definition helper_neutral (c : sys) : bool :=
  match c with OsPipe | Close _ | StartCmd _ | KillProcess _ | WaitCmd _ | VmnetNew _ | VmnetClose _ => false | _ => true end.

Lemma tracks_helper_only {A} (p : io A) s (Q : A -> held -> Prop) :
  only helper_neutral p -> (forall a, Q a s) -> tracks helper_step p s Q.
Proof. intros Hp HQ. apply (tracks_only _ helper_neutral); [done| |done]. by intros [] ?. Qed.

(** Running the cleanup function releases what is held; without one nothing is. *)
Definition cleans (c : configured) (s : held) : Prop :=
  match c_cleanup c with
  | Some k => tracks helper_step k s (fun _ s' => s' = nothing_held)
  | None => s = nothing_held
  end.

Lemma PrepareTap_neutral pid ns tap : only helper_neutral (PrepareTap pid ns tap).
Proof. unfold PrepareTap. apply only_wrapping, only_for_each. intros []; [done|]. by split. Qed.

Lemma waitForReadyFD_neutral fuel pid r : only helper_neutral (net_slirp.waitForReadyFD fuel pid r).
Proof.
  induction fuel as [|fuel IH]; simpl; [done|]. split; [done|]. intros [[?|?]|]; [done|done|]. split; [done|].
  intros [[p ws]|?]; [|done]. destruct (negb _); [done|]. destruct (common.Exited ws); [done|]. by destruct (common.Signaled ws).
Qed.

(** Running a cleanup function step by step. *)
Ltac run_cleanup := repeat (cbn -[Z.eqb]; rewrite ?Z.eqb_refl; cbn -[Z.eqb]; first [done | intros []]).

Lemma kill_and_wait_cleans pid : tracks helper_step (common.Seq [net_slirp.kill_and_wait pid]) (mkHeld [] [(pid, false)] [])
  (fun _ s => s = nothing_held).
Proof. run_cleanup. Qed.

Lemma slirp_start_cleans fuel d pid ns r w s0 :
  tracks helper_step (net_slirp.start fuel d pid ns r w) (mkHeld s0 [] [])
    (fun c s => exists l, s = mkHeld s0 l [] /\ cleans c (mkHeld [] l [])).
Proof.
  unfold net_slirp.start. apply tracks_bind. intros [p|e]; cbn [helper_step tracks pipes procs vmnets]; [|by exists []].
  apply tracks_bind, tracks_helper_only; [apply waitForReadyFD_neutral|]. intros [[]|e]; cbn [tracks].
  - destruct (net_slirp.netmsg d) as [m|e]; (exists [(p, false)]; split; [done|]; apply kill_and_wait_cleans).
  - exists [(p, false)]. split; [done|]. apply kill_and_wait_cleans.
Qed.

Lemma slirp_cleans fuel d pid ns :
  tracks helper_step (net_slirp.ConfigureNetwork fuel d pid ns) nothing_held (fun c s => cleans c s).
Proof.
  unfold net_slirp.ConfigureNetwork. destruct (_ && _); [done|].
  apply tracks_bind, tracks_helper_only; [apply PrepareTap_neutral|]. intros [[]|e]; [|done].
  apply tracks_bind. intros [[r w]|e]; cbn [helper_step tracks]; [|done].
  unfold defer. apply tracks_bind, tracks_bind. eapply tracks_mono; [apply (slirp_start_cleans _ _ _ _ _ _ [w; r])|].
  intros c s (l & -> & Hc). unfold close_fd. apply tracks_bind, tracks_bind. intros ?. cbn [helper_step pipes].
  rewrite Z.eqb_refl. cbn [tracks]. apply tracks_bind, tracks_bind. intros ?. cbn [helper_step pipes].
  rewrite Z.eqb_refl. exact Hc.
Qed.

Lemma waitForVPNKit_held fuel socket n p :
  tracks helper_step (net_vpnkit.waitForVPNKit fuel socket n) (mkHeld [] [(p, false)] [])
    (fun r s => s = mkHeld [] [(p, false)] (match r with Ok vm => [vm] | Err _ => [] end)).
Proof.
  revert n; induction fuel as [|fuel IH]; intros n; simpl; [done|]. intros [vm|e]; simpl; [done|]. by intros [].
Qed.

Lemma vpnkit_cleans fuel d dir :
  tracks helper_step (net_vpnkit.ConfigureNetwork fuel d dir) nothing_held (fun c s => cleans c s).
Proof.
  unfold net_vpnkit.ConfigureNetwork. apply tracks_bind. intros [p|e]; cbn [helper_step tracks pipes procs vmnets]; [|done].
  unfold net_vpnkit.start. apply tracks_bind. eapply tracks_mono; [apply waitForVPNKit_held|].
  intros [vm|e] s ->; cbn [tracks].
  - apply tracks_bind, tracks_helper_only; [done|]. intros uuid. apply tracks_bind, tracks_helper_only; [done|].
    assert (tracks helper_step (common.Seq [net_slirp.kill_and_wait p; (_ <- call CancelContext ;; Ret (Ok tt)); call (VmnetClose vm)])
      (mkHeld [] [(p, false)] [vm]) (fun _ s => s = nothing_held)) as Hc.
    { run_cleanup. }
    intros [[ip mac]|e]; exact Hc.
  - unfold cleans. run_cleanup.
Qed.

(** However the set-up of slirp4netns or vpnkit goes, on success and on
    every error, the pipe is closed when [ConfigureNetwork] returns, and the
    cleanup function that it returns kills and waits for exactly the helper
    that was started, and closes the connection to it. *)
Theorem network_helpers_cleaned fuel slirp vpnkit pid ns dir t c t' r :
  (behaves (net_slirp.ConfigureNetwork fuel slirp pid ns) t c \/ behaves (net_vpnkit.ConfigureNetwork fuel vpnkit dir) t c) ->
  match c_cleanup c with
  | Some k => behaves k t' r -> steps helper_step nothing_held (t ++ t') = Some nothing_held
  | None => steps helper_step nothing_held t = Some nothing_held
  end.
Proof.
  intros H. assert (exists s, steps helper_step nothing_held t = Some s /\ cleans c s) as (s & Hs & Hc).
  { destruct H as [H|H]; (eapply tracks_behaves; [|exact H]); [apply slirp_cleans|apply vpnkit_cleans]. }
  unfold cleans in Hc. destruct (c_cleanup c) as [k|]; [|by subst s].
  intros Hk. destruct (tracks_behaves _ _ _ _ _ _ Hc Hk) as (s' & Hs' & ->). by rewrite steps_app, Hs.
Qed.

(** The none driver does not: with a detached namespace it starts a process that
    no cleanup function ends; only the death of the parent does. *)
Lemma none_leaves_sleeper : exists t c,
  behaves (net_none.ConfigureNetwork 42 "/run/netns") t c /\ c_err c = None /\
  steps helper_step nothing_held t = Some (mkHeld [] [(100, false)] []) /\ c_cleanup c = Some (Ret (Ok tt)).
Proof.
  exists [ev (StartCmd (net_none.sleeper 42 "/run/netns")) (Ok 100);
          ev (RunCmd (net_none.ns_cmd 100 [lit "ip"; lit "address"; lit "add"; lit "127.0.0.1/8"; lit "dev"; lit "lo"])) (Ok tt);
          ev (RunCmd (net_none.ns_cmd 100 [lit "ip"; lit "link"; lit "set"; lit "lo"; lit "up"])) (Ok tt)],
    (mkConfigured empty_NetMsg (Some (common.Seq [])) None None).
  split; [|done]. unfold net_none.ConfigureNetwork. change (bool_decide (lit "/run/netns" = [])) with false.
  exists (Ok 100). eexists. split; [done|]. exists (Ok tt). eexists. split; [done|]. exists (Ok tt). eexists. by split.
Qed.

Theorem network_helpers_cleaned_witness :
  let d := net_slirp.mkParentDriver "slirp4netns" 65520 None true [] false false false "tap0" in
  exists t c, behaves (net_slirp.ConfigureNetwork 1 d 42 []) t c /\
    match c_cleanup c with
    | Some k => exists t' r, behaves k t' r /\ steps helper_step nothing_held (t ++ t') = Some nothing_held
    | None => False
    end.
Proof.
  intros d.
  destruct (exec_behaves ok_kernel (net_slirp.ConfigureNetwork 1 d 42 [])) as (t & Hb & _).
  eexists t, _. split; [exact Hb|].
  destruct (exec_behaves ok_kernel (common.Seq [net_slirp.kill_and_wait 100])) as (t' & Hb' & _).
  pose proof (network_helpers_cleaned 1 d (net_vpnkit.mkParentDriver [] 0 [] false) 42 [] [] t _ t' (Ok tt) (or_introl Hb)) as H.
  revert H Hb. set (c := (exec ok_kernel (net_slirp.ConfigureNetwork 1 d 42 [])).1).
  assert (c_cleanup c = Some (common.Seq [net_slirp.kill_and_wait 100])) as -> by reflexivity.
  intros H _. exists t', (Ok tt). split; [exact Hb'|exact (H Hb')].
Defined.

(** ** The addresses of the child *)

Lemma offset_fits i k ones : 0 <= k -> 2 ^ k <= i < 2 ^ (k + 1) -> i < 2 ^ (32 - ones) <-> ones <= 31 - k.
Proof.
  intros Hk Hi. split; intros H.
  - destruct (Z.le_gt_cases ones (31 - k)) as [|Hgt]; [done|].
    assert (2 ^ (32 - ones) <= 2 ^ k) by (destruct (Z.le_gt_cases 0 (32 - ones)); [apply Z.pow_le_mono_r; lia|rewrite Z.pow_neg_r by lia; apply Z.pow_nonneg; lia]).
    lia.
  - assert (2 ^ (k + 1) <= 2 ^ (32 - ones)) by (apply Z.pow_le_mono_r; lia). lia.
Qed.

(** C36: for a network of IPv4 that [parseCIDR] accepts, slirp4netns and pasta
    give the child the same addresses; the gateway and the DNS server are
    addresses of the network when its prefix has at most 30 bits, the address
    of the child only when it has at most 25: a smaller network is accepted,
    and the child is configured with an address outside of it. *)
Theorem child_addresses_fit s n d m pd :
  parseCIDR s = Ok (Some n) -> length (n_IP n) = 4%nat ->
  net_slirp.ipnet d = Some n -> net_slirp.netmsg d = Ok m -> net_pasta.ipnet pd = n ->
  exists ip gw dns, net_pasta.addresses pd = Ok (ip, gw, dns) /\
    IP m = net.String ip /\ Gateway m = net.String gw /\ head (DNS m) = Some (net.String dns) /\ Netmask m = n_ones n /\
    (Contains n ip = true <-> n_ones n <= 25) /\ (Contains n gw = true <-> n_ones n <= 30) /\
    (Contains n dns = true <-> n_ones n <= 30).
Proof.
  intros Hs Hl Hd Hm <-. unfold net_slirp.netmsg in Hm. rewrite Hd in Hm.
  assert (v4_network (net_pasta.ipnet pd)) as Hn.
  { unfold parseCIDR in Hs. case_bool_decide; [discriminate|]. destruct (ParseCIDR s) as [[ip n]|] eqn:E; [|discriminate].
    destruct (negb _); [discriminate|]. injection Hs as ->. by apply (ParseCIDR_network s ip). }
  inv_ok. subst m. exists a, a0, a1. unfold net_pasta.addresses. rewrite E, E0, E1. cbn [rbind head IP Gateway DNS Netmask].
  do 5 (split; [done|]). rewrite (AddIPInt_Contains _ 100 _ Hn ltac:(lia) E), (AddIPInt_Contains _ 2 _ Hn ltac:(lia) E0), (AddIPInt_Contains _ 3 _ Hn ltac:(lia) E1).
  split; [apply (offset_fits 100 6); lia|]. split; [apply (offset_fits 2 1); lia|apply (offset_fits 3 1); lia].
Qed.

Theorem child_addresses_fit_witness :
  let n := mkIPNet [10; 0; 2; 0] 28 in
  let d := net_slirp.mkParentDriver "slirp4netns" 65520 (Some n) true [] false false false "tap0" in
  parseCIDR "10.0.2.0/28" = Ok (Some n) /\ (is_ok (net_slirp.netmsg d) = true) /\
  exists ip : net.IP, Contains n ip = false.
Proof.
  intros n d. split; [vm_compute; reflexivity|]. split; [vm_compute; reflexivity|].
  destruct (child_addresses_fit "10.0.2.0/28" n d
    (mkNetMsg None "tap0" "10.0.2.100" 28 "10.0.2.2" [lit "10.0.2.3"] 65520 [])
    (net_pasta.mkParentDriver "pasta" 65520 n true false "tap0" false false)) as (ip & gw & dns & _ & _ & _ & _ & _ & H & _).
  - vm_compute. reflexivity.
  - reflexivity.
  - reflexivity.
  - vm_compute. reflexivity.
  - reflexivity.
  - exists ip. destruct (Contains n ip); [|reflexivity]. destruct H as [H _]. specialize (H eq_refl). cbn in H. lia.
Defined.
