(* ===== verification/DhcpLease.v ===== *)
(** * pkg/network/lxcusernic: keeping the DHCP lease

    After the child has got its address over DHCP, a goroutine asks for it again
    when nine tenths of the lease have passed.  The time is computed in
    floating point, which [float64] models for the positive numbers that occur
    here. *)
From S2P Require Import Prelude GoStrings NetIP PortSpec Effects Framing Messages Sessions SubID Sys Child Manager BuiltinParent Api NetConfig NetDrivers.
Import messages.
Import Sys.
Import net_lxc.

(** ** Positive numbers of type float64 *)
Module float64.
(** [mant * 2 ^ expo]; a rounded number has at most 53 bits, and the exponents
    that occur are far from the ends of their range. *)
Record t : Set := mk { mant : Z; expo : Z }.

(** [m / 2 ^ k] to the nearest integer, ties to even *)
Definition nearest (m k : Z) : Z :=
  let q := m / 2 ^ k in
  let r := m mod 2 ^ k in
  if (2 * r <? 2 ^ k) || ((2 * r =? 2 ^ k) && Z.even q) then q else q + 1.

(** [m * 2 ^ e] to the nearest number of 53 bits *)
Definition round (m e : Z) : t :=
  let k := Z.max 0 (Z.log2 m + 1 - 53) in
  mk (nearest m k) (e + k).

Definition of_int (n : Z) : t := round n 0.
Definition mul (a b : t) : t := round (mant a * mant b) (expo a + expo b).
(** conversion to an integer discards the fraction *)
Definition to_int (a : t) : Z := Z.shiftl (mant a) (expo a).

(** the constant 0.9 *)
Definition c0_9 : t := mk 8106479329266893 (-53).
End float64.

(** [time.Duration(float64(lease) * 0.9)] *)
Definition renewal_delay (lease : Z) : Z := float64.to_int (float64.mul (float64.of_int lease) float64.c0_9).

(** ** The goroutine: its first [rounds] renewals

    A panic ends the process; [fuel] is that of [exchangeDHCP]. *)
Fixpoint dhcpRenewRoutine (rounds fuel : nat) (dev : str) (initialIP : net.IP) (lease : Z) (detachedNetNSPath : str) : io (result unit) :=
  match rounds with
  | O => Ret (Ok tt)
  | S rounds =>
      if lease <=? 0 then Ret (Ok tt)
      else
        _ <- call (SleepNs (renewal_delay lease)) ;;
        p <- exchangeDHCP fuel dev detachedNetNSPath ;;
        match p with
        | Err e => fail (Panic "exchangeDHCP")
        | Ok p =>
            let ip := to4 (YourIPAddr p) in
            if negb (net.Equal ip initialIP) then fail (Panic "expected to retain the address")
            else dhcpRenewRoutine rounds fuel dev initialIP (IPAddressLeaseTime p lease) detachedNetNSPath
        end
  end.

(** ** Rounding *)
Lemma nearest_spec m k : 0 <= k -> 2 * Z.abs (2 ^ k * float64.nearest m k - m) <= 2 ^ k.
Proof.
  intros Hk. unfold float64.nearest. pose proof (Z.div_mod m (2 ^ k)). pose proof (Z.mod_pos_bound m (2 ^ k)).
  assert (0 < 2 ^ k) by (apply Z.pow_pos_nonneg; lia).
  destruct (Z.ltb_spec (2 * (m mod 2 ^ k)) (2 ^ k)), (Z.eqb_spec (2 * (m mod 2 ^ k)) (2 ^ k)), (Z.even (m / 2 ^ k)); cbn [andb orb]; lia.
Qed.

(** The relative error is at most [2 ^ -53] *)
Lemma round_spec m e : 0 < m ->
  exists k, 0 <= k /\ float64.expo (float64.round m e) = e + k /\
    2 ^ 53 * Z.abs (2 ^ k * float64.mant (float64.round m e) - m) <= m.
Proof.
  intros Hm. exists (Z.max 0 (Z.log2 m + 1 - 53)). split; [lia|]. split; [done|]. cbn [float64.round float64.mant].
  pose proof (nearest_spec m (Z.max 0 (Z.log2 m + 1 - 53)) ltac:(lia)) as H.
  destruct (Z.le_gt_cases (Z.log2 m + 1 - 53) 0) as [Hk|Hk].
  - rewrite Z.max_l in * by done. rewrite Z.pow_0_r in *. lia.
  - rewrite Z.max_r in * by lia. pose proof (Z.log2_spec m Hm) as [Hl _].
    replace (Z.log2 m) with (52 + (Z.log2 m + 1 - 53)) in Hl at 1 by lia. rewrite Z.pow_add_r in Hl by lia. lia.
Qed.

(** Discarding the fraction *)
Lemma to_int_spec m s : 0 <= s -> 
  2 ^ 53 * float64.to_int (float64.mk m (s - 53)) <= m * 2 ^ s < 2 ^ 53 * (float64.to_int (float64.mk m (s - 53)) + 1).
Proof.
  intros Hs. unfold float64.to_int. cbn [float64.mant float64.expo]. destruct (Z.le_gt_cases 53 s) as [H|H].
  - rewrite Z.shiftl_mul_pow2 by lia.
    assert (2 ^ s = 2 ^ (s - 53) * 2 ^ 53) as -> by (rewrite <- Z.pow_add_r by lia; f_equal; lia). lia.
  - replace (s - 53) with (- (53 - s)) by lia. rewrite Z.shiftl_opp_r, Z.shiftr_div_pow2 by lia.
    assert (2 ^ 53 = 2 ^ (53 - s) * 2 ^ s) as -> by (rewrite <- Z.pow_add_r by lia; f_equal; lia).
    assert (0 < 2 ^ s) by (apply Z.pow_pos_nonneg; lia). assert (0 < 2 ^ (53 - s)) by (apply Z.pow_pos_nonneg; lia).
    pose proof (Z.div_mod m (2 ^ (53 - s))). pose proof (Z.mod_pos_bound m (2 ^ (53 - s))). nia.
Qed.

(** The delay is nine tenths of the lease, within a hundredth. *)
Lemma renewal_delay_bounds lease : 0 < lease ->
  89 * lease < 100 * (renewal_delay lease + 1) /\ 100 * renewal_delay lease <= 91 * lease.
Proof.
  intros Hl. unfold renewal_delay, float64.of_int.
  destruct (round_spec lease 0 Hl) as (k1 & Hk1 & He1 & Hr1).
  destruct (float64.round lease 0) as [A e1]. cbn [float64.mant float64.expo] in *. subst e1.
  unfold float64.mul. cbn [float64.mant float64.expo float64.c0_9].
  set (C := 8106479329266893). assert (0 < 2 ^ k1) by (apply Z.pow_pos_nonneg; lia).
  assert (0 < A) as HA by nia. assert (0 < A * C) as HP by (subst C; lia).
  destruct (round_spec (A * C) (0 + k1 + -53) HP) as (k2 & Hk2 & He2 & Hr2).
  destruct (float64.round (A * C) (0 + k1 + -53)) as [B e2]. cbn [float64.mant float64.expo] in *.
  replace (0 + k1 + -53 + k2) with (k1 + k2 - 53) in He2 by lia. subst e2.
  pose proof (to_int_spec B (k1 + k2) ltac:(lia)) as Ht. rewrite Z.pow_add_r in Ht by lia.
  assert (2 ^ 53 * Z.abs (B * (2 ^ k1 * 2 ^ k2) - C * (A * 2 ^ k1)) <= C * (A * 2 ^ k1)) as Hx.
  { replace (B * (2 ^ k1 * 2 ^ k2) - C * (A * 2 ^ k1)) with (2 ^ k1 * (2 ^ k2 * B - A * C)) by lia.
    rewrite Z.abs_mul, (Z.abs_eq (2 ^ k1)) by lia. nia. }
  replace (2 ^ k1 * A) with (A * 2 ^ k1) in Hr1 by lia.
  set (Y := A * 2 ^ k1) in *. set (X := B * (2 ^ k1 * 2 ^ k2)) in *. subst C.
  change (2 ^ 53) with 9007199254740992 in *. lia.
Qed.

(** ** Renewing in time *)

(** What the goroutine holds: a lease; a lease of which it has slept a part;
    nothing any more. *)
Inductive lease_state : Set := Renewing (lease : Z) | Slept (lease : Z) | Lost.

Definition last_ack (ps : list DHCPv4) : option DHCPv4 := last (filter (fun p => is_Ack p = true) ps).

(** The answer to a renewal of a lease of [ip]. *)
Definition answered (ip : net.IP) (l : Z) (ps : list DHCPv4) : lease_state :=
  match last_ack ps with
  | Some p => if net.Equal (to4 (YourIPAddr p)) ip then Renewing (IPAddressLeaseTime p l) else Lost
  | None => Lost
  end.

(** And how many times it has renewed it. *)
Record goroutine : Set := mkGoroutine { holds : lease_state; renewed : nat }.

Definition on_answer (ip : net.IP) (l : Z) (n : nat) (ps : list DHCPv4) : goroutine :=
  let h := answered ip l ps in mkGoroutine h (match h with Renewing _ => S n | _ => n end).

(** It sleeps for nine tenths of the lease, within a hundredth, which is less
    than the lease, and then asks, again only while the exchange is interrupted. *)
Definition in_time (l n : Z) : bool := (n <? l) && (89 * l <? 100 * (n + 1)) && (100 * n <=? 91 * l).
Definition lease_step (ip : net.IP) (s : goroutine) (c : sys) : res c -> option goroutine :=
  match c return res c -> option goroutine with
  | SleepNs n => fun _ =>
      match holds s with Renewing l => if in_time l n then Some (mkGoroutine (Slept l) (renewed s)) else None | _ => None end
  | DHCPExchange _ => fun r =>
      match holds s with
      | Slept l =>
          Some (match r with
                | None => s
                | Some (Err _) => mkGoroutine Lost (renewed s)
                | Some (Ok ps) => on_answer ip l (renewed s) ps
                end)
      | _ => None
      end
  | _ => fun _ => Some s
  end.

(** After [n] renewals it holds no lease that it could go on to renew. *)
Definition gave_up (n : nat) (s : goroutine) : Prop := renewed s = n /\ forall l, holds s <> Renewing l.

Lemma exchange_lease ip fuel dev l n :
  tracks (lease_step ip) (exchange fuel dev) (mkGoroutine (Slept l) n)
    (fun r s => match r with Ok ps => s = on_answer ip l n ps | Err _ => gave_up n s end).
Proof. induction fuel as [|fuel IH]; simpl; [done|]. by intros [[ps|e]|]. Qed.

Lemma exchangeDHCP_lease ip fuel dev ns l n :
  tracks (lease_step ip) (exchangeDHCP fuel dev ns) (mkGoroutine (Slept l) n)
    (fun r s => match r with
                | Ok p => s = if net.Equal (to4 (YourIPAddr p)) ip
                              then mkGoroutine (Renewing (IPAddressLeaseTime p l)) (S n) else mkGoroutine Lost n
                | Err _ => gave_up n s
                end).
Proof.
  unfold exchangeDHCP. apply tracks_bind. apply (tracks_mono _ _ _
    (fun r s => match r with Ok ps => s = on_answer ip l n ps | Err _ => gave_up n s end)).
  - unfold ebind. apply (tracks_call_bind _ (InNetNS _)). intros [[]|e]; [|done]. cbn [lease_step]. unfold defer. apply tracks_bind.
    eapply tracks_mono; [apply exchange_lease|]. intros r s Hs. apply tracks_bind, (tracks_call_bind _ LeaveNetNS). intros ?. by cbn.
  - intros [ps|e] s Hs; [|done]. subst s. unfold on_answer, answered, last_ack. destruct ps as [|p ps]; [done|].
    destruct (last _) as [q|]; [|done]. simpl. by destruct (net.Equal _ ip).
Qed.

Lemma renewal_in_time lease : 0 < lease -> in_time lease (renewal_delay lease) = true.
Proof.
  intros Hl. destruct (renewal_delay_bounds lease Hl). unfold in_time. rewrite !andb_true_iff, !Z.ltb_lt, Z.leb_le. lia.
Qed.

(** The outcome of the first [rounds] rounds. *)
Definition renewals (rounds : nat) (r : result unit) (s : goroutine) : Prop :=
  match r with
  | Ok _ => exists l, holds s = Renewing l /\ (renewed s = rounds \/ (renewed s < rounds)%nat /\ l <= 0)
  | Err _ => exists n, gave_up n s /\ (n < rounds)%nat
  end.

Lemma renew_tracks rounds fuel dev ip lease ns n :
  tracks (lease_step ip) (dhcpRenewRoutine rounds fuel dev ip lease ns) (mkGoroutine (Renewing lease) n)
    (renewals (n + rounds)).
Proof.
  revert lease n; induction rounds as [|rounds IH]; intros lease n; cbn [dhcpRenewRoutine].
  { exists lease. split; [done|]. left. cbn. lia. }
  destruct (Z.leb_spec lease 0) as [Hl|Hl]; [exists lease; split; [done|right; cbn; lia]|].
  apply (tracks_call_bind _ (SleepNs _)). intros ?. cbn [lease_step holds]. rewrite renewal_in_time by done.
  apply tracks_bind. eapply tracks_mono; [apply exchangeDHCP_lease|]. intros [p|e] s Hs; [subst s|].
  - destruct (net.Equal _ ip); [|exists n; split; [done|lia]]. rewrite Nat.add_succ_r. apply (IH _ (S n)).
  - exists n. split; [done|lia].
Qed.

(** What the child configures, and how it starts the goroutine. *)
Lemma lxc_child_starts fuel m ns t dev m' :
  behaves (ConfigureNetworkChild fuel m ns) t (Ok (dev, m')) ->
  exists t0 ip lease, t = t0 ++ [ev (GoDHCPRenew dev ip lease) tt] /\ IP m' = net.String ip.
Proof.
  unfold ConfigureNetworkChild. case_bool_decide; [by intros []|].
  intros (t1 & t2 & [r|e] & -> & _ & H1)%behaves_bind; [|by destruct H1].
  apply behaves_bind in H1 as (t3 & t4 & [p|e] & -> & _ & H2); [|by destruct H2].
  destruct (net.Equal _ _); [by destruct H2|].
  destruct (Router p) as [|rt rts]; [by destruct H2|]. destruct (dhcp_DNS p) as [|dns ds]; [by destruct H2|].
  destruct H2 as ([] & t5 & -> & -> & E). injection E as -> ->. exists (t1 ++ t3), (to4 (YourIPAddr p)), (IPAddressLeaseTime p Hour).
  split; [by rewrite <- app_assoc|]. unfold to4_string, to4. by destruct (net.To4 _).
Qed.

(** C31: the address that the lxc-user-nic driver gives to the child is the one
    that its goroutine keeps.  Each time the goroutine sleeps for nine tenths
    (within a hundredth) of the lease it holds, so that it asks before the lease
    is over, and it asks once but for interruptions.  It goes on: after any number
    of rounds it has renewed the lease of that address as many times and holds it,
    unless it has got a lease of no length, or has ended the process because an
    exchange failed or gave another address. *)
Theorem lxc_lease_renewed fuel m ns t dev m' :
  behaves (ConfigureNetworkChild fuel m ns) t (Ok (dev, m')) ->
  exists t0 ip lease, t = t0 ++ [ev (GoDHCPRenew dev ip lease) tt] /\ IP m' = net.String ip /\
    forall rounds fuel' t' r, behaves (dhcpRenewRoutine rounds fuel' dev ip lease ns) t' r ->
      exists s, steps (lease_step ip) (mkGoroutine (Renewing lease) 0) t' = Some s /\ renewals rounds r s.
Proof.
  intros H. destruct (lxc_child_starts _ _ _ _ _ _ H) as (t0 & ip & lease & Ht & Hip). exists t0, ip, lease.
  split; [done|]. split; [done|]. intros rounds fuel' t' r Hb.
  exact (tracks_behaves _ _ _ _ _ _ (renew_tracks rounds _ _ _ _ _ 0) Hb).
Qed.

(** With a lease of ten minutes, then one of an hour. *)
Theorem lxc_lease_renewed_witness :
  let ack lease := mkDHCPv4 true [10; 0; 3; 20] [[10; 0; 3; 1]] [[10; 0; 3; 1]] 24 (Some lease) in
  let kern lease (c : sys) : res c := match c with DHCPExchange _ => Some (Ok [ack lease]) | c => ok_kernel c end in
  let minute := 60 * 10 ^ 9 in
  let m := mkNetMsg None "eth0" [] 0 [] [] 1500 [] in
  let x := run (fun _ => kern (10 * minute)) (ConfigureNetworkChild 1 m []) [] in
  let y := run (fun _ => kern (60 * minute)) (dhcpRenewRoutine 2 1 "eth0" [10; 0; 3; 20] (10 * minute) []) [] in
  y.1 = Ok tt /\ omap (fun c => match c with SleepNs n => Some n | _ => None end) (calls y.2) = [9 * minute; 54 * minute] /\
  steps (lease_step [10; 0; 3; 20]) (mkGoroutine (Renewing (10 * minute)) 0) y.2 = Some (mkGoroutine (Renewing (60 * minute)) 2).
Proof.
  intros ack kern minute m x y. split; [vm_compute; reflexivity|]. split; [vm_compute; reflexivity|].
  assert (exists m', x.1 = Ok (lit "eth0", m')) as [m' Hx] by (eexists; vm_compute; reflexivity).
  pose proof (run_behaves (fun _ => kern (10 * minute)) (ConfigureNetworkChild 1 m [])) as Hb. fold x in Hb. rewrite Hx in Hb.
  destruct (lxc_lease_renewed 1 m [] x.2 "eth0" m' Hb) as (t0 & ip & lease & Ht & _ & Hr).
  assert (last x.2 = Some (ev (GoDHCPRenew "eth0" [10; 0; 3; 20] (10 * minute)) tt)) as Hl by (vm_compute; reflexivity).
  rewrite Ht, last_snoc in Hl. injection Hl as Hip Hlease. subst ip lease.
  destruct (Hr 2%nat 1%nat y.2 y.1 (run_behaves _ _)) as (s & Hs & _).
  rewrite Hs. revert Hs. vm_compute. congruence.
Defined.
