(* ===== verification/GvisorNet.v ===== *)
(** * pkg/network/gvisortapvsock: the network driver

    The parent makes a virtual network in its own process and listens on a
    socket; the child copies Ethernet frames between its tap device and that
    socket, each behind its length in two little-endian bytes.  The virtual
    network is that of github.com/containers/gvisor-tap-vsock. *)
From S2P Require Import Prelude GoStrings NetIP PortSpec Effects Framing Messages Sessions SubID Sys Child Manager BuiltinParent Api NetConfig NetDrivers.
Import messages.
Import Sys.
Import api main_cidr parentutils.

Module net_gvisor.

Record parentDriver : Set := mkParentDriver {
  mtu : Z;
  ipnet : IPNet;
  ifname : str;
  disableHostLoopback : bool;
  enableIPv6 : bool;
}.

Definition NewParentDriver (mtu : Z) (ipnet : IPNet) (ifname : str) (disableHostLoopback enableIPv6 : bool) : result parentDriver :=
  if mtu <? 0 then Err (errors_New "got negative mtu")
  else Ok (mkParentDriver (if mtu =? 0 then 65520 else mtu) ipnet (if bool_decide (ifname = []) then "tap0" else ifname)
             disableHostLoopback enableIPv6).

(** IP, gateway and netmask *)
Definition setupNetworkConfig (d : parentDriver) : result (str * str * Z) :=
  ipAddr <-? iputils.AddIPInt (n_IP (ipnet d)) 100 ;;
  gw <-? iputils.AddIPInt (n_IP (ipnet d)) 1 ;;
  Ok (net.String ipAddr, net.String gw, n_ones (ipnet d)).

(** The address that stands for the host's loopback is a constant. *)
Definition config (d : parentDriver) (gateway : str) : VNConfig :=
  mkVNConfig (mtu d) (IPNet_String (ipnet d)) gateway
    (if disableHostLoopback d then [] else [(lit "10.0.2.1", lit "127.0.0.1")]).

Definition setupVirtualNetwork (d : parentDriver) (gateway : str) : io (result Z) :=
  wrapping (call (NewVirtualNetwork (config d gateway))) (Wrapf "creating virtual network: %w" []).

Definition setupDNSServers (d : parentDriver) : result (list str) :=
  dnsIP <-? iputils.AddIPInt (n_IP (ipnet d)) 1 ;;
  Ok [net.String dnsIP].

Definition prepareNetworkMessage (d : parentDriver) (vn : Z) (tap ip : str) (netmask : Z) (gateway : str) : result NetMsg :=
  dns <-? setupDNSServers d ;;
  Ok (mkNetMsg (Some vn) tap ip netmask gateway dns (mtu d) []).

Definition setupGvisortapvsockDir (stateDir : str) : io (result str) :=
  let dir := filepath.Join [stateDir; lit "gvisortapvsock"] in
  _ <-! wrapping (call (MkdirAll dir 448)) (Wrapf "creating gvisortapvsock directory: %w" []) ;;
  Ret (Ok dir).

Definition setupSocket (dir : str) : io (result (str * Z)) :=
  let socketPath := filepath.Join [dir; lit "tap.sock"] in
  _ <-! wrapping (call (RemoveAll socketPath)) (Wrapf "removing existing socket: %w" []) ;;
  listener <-! wrapping (call (Listen "unix" socketPath)) (Wrapf "creating unix socket: %w" []) ;;
  _ <- call (GoAcceptConnections listener) ;;
  Ret (Ok (socketPath, listener)).

(** The cleanup function: an error of closing the listener is only logged. *)
Definition cleanup (listener : Z) : io (result unit) :=
  _ <- call CancelContext ;;
  _ <- call (Close listener) ;;
  Ret (Ok tt).

Definition updateDriverInfo (m : NetMsg) : option NetworkDriverInfo := Some (static_info "gvisor-tap-vsock" m).

Definition ConfigureNetwork (d : parentDriver) (childPID : Z) (stateDir detachedNetNSPath : str) : io configured :=
  let tap := ifname d in
  r <- PrepareTap childPID detachedNetNSPath tap ;;
  match r with
  | Err e => Ret (failed [] (Wrapf "setting up tap %s: %w" [AStr tap] e))
  | Ok _ =>
      match setupNetworkConfig d with
      | Err e => Ret (failed [] e)
      | Ok (ip, gateway, netmask) =>
          dir <- setupGvisortapvsockDir stateDir ;;
          match dir with
          | Err e => Ret (failed [] e)
          | Ok dir =>
              sock <- setupSocket dir ;;
              match sock with
              | Err e => Ret (failed [] (Wrapf "setting up socket: %w" [] e))
              | Ok (socketPath, listener) =>
                  vn <- setupVirtualNetwork d gateway ;;
                  match vn with
                  | Err e => Ret (failed [] e)
                  | Ok vn =>
                      match prepareNetworkMessage d vn tap ip netmask gateway with
                      | Err e => Ret (failed [cleanup listener] e)
                      | Ok m =>
                          let m := mkNetMsg (Network m) (Dev m) (IP m) (Netmask m) (Gateway m) (DNS m) (MTU m)
                                     [(lit "socketPath", socketPath)] in
                          Ret (mkConfigured m (Some (common.Seq [cleanup listener])) None (updateDriverInfo m))
                      end
                  end
              end
          end
      end
  end.

(** ** The connections of the child

    [text] is [error.Error].  The loop is followed for [fuel] rounds. *)
Definition is_closed (text : error -> str) (e : error) : bool :=
  errors_Is e EOF || strings.Contains (text e) "use of closed network connection".

Fixpoint acceptConnections (fuel : nat) (text : error -> str) (listener : Z) : io (option unit) :=
  match fuel with
  | O => Ret None
  | S fuel =>
      ctx_done <- call ContextDone ;;
      if (ctx_done : bool) then Ret (Some tt)
      else
        conn <- call (Accept listener) ;;
        match conn with
        | Err e => if is_closed text e then Ret (Some tt) else acceptConnections fuel text listener
        | Ok conn => _ <- call (GoHandleConnection conn) ;; acceptConnections fuel text listener
        end
  end.

Definition handleConnection (conn : Z) : io unit :=
  defer (close_fd conn)
    (vn <- call LoadVN ;;
     match vn with
     | None => Ret tt
     | Some vn => _ <- call (AcceptStdio vn conn) ;; Ret tt
     end).

Definition Info (info : option NetworkDriverInfo) : NetworkDriverInfo := info_of "gvisor-tap-vsock" info.

(** ** The child *)
Definition opaque_socket (m : NetMsg) : str :=
  match List.find (fun kv => bool_decide (kv.1 = lit "socketPath")) (NetworkDriverOpaque m) with Some (_, v) => v | None => [] end.

Definition ConfigureNetworkChild (m : NetMsg) (detachedNetNSPath : str) : io (result str) :=
  let tapName := Dev m in
  if bool_decide (tapName = []) then fail (errors_New "could not determine the preconfigured tap")
  else
    let socketPath := opaque_socket m in
    if bool_decide (socketPath = []) then fail (errors_New "socket path not provided")
    else
      let fn := (tap <-! wrapping (call (OpenTap tapName)) (Wrapf "opening tap device %s: %w" [AStr tapName]) ;;
                 conn <-! wrapping (call (DialUnix socketPath)) (Wrapf "connecting to socket %s: %w" [AStr socketPath]) ;;
                 _ <- call (GoForward tap.1 conn) ;;
                 Ret (Ok tt)) in
      _ <-! (if bool_decide (detachedNetNSPath = []) then fn
             else (_ <-! call (InNetNS detachedNetNSPath) ;; defer (call LeaveNetNS) fn)) ;;
      Ret (Ok tapName).

(** ** The frames *)
Definition MaxUint16 : Z := 65535.

(** [binary.LittleEndian.PutUint16] *)
Definition PutUint16 (v : Z) : str := [byte_of v; byte_of (Z.shiftr v 8)].

(** The loop of [forwardTapToSocket]: what it writes for the frames that it
    reads; [writes] says whether a write succeeds, and it ends at the first
    read or write error. *)
Fixpoint forwardTapToSocket (reads : list (result str)) (writes : nat -> bool) (n : nat) : list str :=
  match reads with
  | [] => []
  | Err _ :: _ => []
  | Ok buf :: reads' =>
      let len := Z.of_nat (length buf) in
      if MaxUint16 <? len then forwardTapToSocket reads' writes n
      else if writes n then (PutUint16 len ++ buf) :: forwardTapToSocket reads' writes (S n)
      else []
  end.

(** [io.ReadFull] on what is left of the stream *)
Definition ReadFull (s : str) (n : nat) : result (str * str) :=
  if (length s <? n)%nat then Err (if (length s =? 0)%nat then EOF else Extern "unexpected EOF")
  else Ok (take n s, drop n s).

(** The loop of [forwardSocketToTap]: the frames that it writes to the tap;
    [writes] says whether a write succeeds, and it ends at the first read or
    write error. *)
Fixpoint forwardSocketToTap (fuel : nat) (s : str) (writes : nat -> bool) (n : nat) : list str :=
  match fuel with
  | O => []
  | S fuel =>
      match ReadFull s 2 with
      | Err _ => []
      | Ok (sizeBuf, s) =>
          let size := Uint_le sizeBuf in
          match ReadFull s (Z.to_nat size) with
          | Err _ => []
          | Ok (buf, s) => if writes n then buf :: forwardSocketToTap fuel s writes (S n) else []
          end
      end
  end.
End net_gvisor.
Import net_gvisor.

Lemma Uint16_PutUint16 v : 0 <= v < 2 ^ 16 -> Uint_le (PutUint16 v) = v.
Proof.
  intros H. unfold PutUint16. cbn [Uint_le]. rewrite !byte_val_of, !Z.shiftr_div_pow2 by lia.
  pose proof (Z.div_mod v 256). rewrite (Z.mod_small (v / 2 ^ 8)); [change (2 ^ 8) with 256; lia|].
  split; [apply Z.div_pos; lia|apply Z.div_lt_upper_bound; lia].
Qed.

Lemma ReadFull_app a s n : length a = n -> ReadFull (a ++ s) n = Ok (a, s).
Proof.
  intros <-. unfold ReadFull. rewrite length_app. destruct (Nat.ltb_spec (length a + length s) (length a)); [lia|].
  by rewrite take_app_length, drop_app_length.
Qed.

(** What the frame length allows. *)
Definition fits (f : str) : bool := negb (MaxUint16 <? Z.of_nat (length f)).

(** A frame with its length, and the frames that are read before an error. *)
Definition frame (f : str) : str := PutUint16 (Z.of_nat (length f)) ++ f.
Fixpoint frames_read (reads : list (result str)) : list str :=
  match reads with Ok f :: reads' => f :: frames_read reads' | _ => [] end.

Lemma frames_read_ok frames : frames_read (map Ok frames) = frames.
Proof. induction frames as [|f frames IH]; [done|]. cbn. by rewrite IH. Qed.

(** What is written to the socket: the frames that fit, up to the first error. *)
Lemma tap_to_socket reads writes n :
  exists fs, forwardTapToSocket reads writes n = map frame fs /\ fs `prefix_of` List.filter fits (frames_read reads) /\
    Forall (fun f => fits f = true) fs /\
    ((forall k, writes k = true) -> fs = List.filter fits (frames_read reads)).
Proof.
  revert n; induction reads as [|[f|e] reads IH]; intros n; cbn [forwardTapToSocket frames_read List.filter];
    [by exists []| |by exists []].
  destruct (fits f) eqn:Hf; unfold fits in Hf; [apply negb_true_iff in Hf|apply negb_false_iff in Hf]; rewrite Hf; [|apply IH].
  destruct (writes n) eqn:Hw; cycle 1.
  { exists []. split; [done|]. split; [apply prefix_nil|]. split; [done|]. intros Ha. by rewrite Ha in Hw. }
  destruct (IH (S n)) as (fs & -> & Hp & Hfs & Hall). exists (f :: fs).
  split; [done|]. split; [by apply prefix_cons|]. split; [constructor; [|done]; unfold fits; by rewrite Hf|].
  intros Ha. by rewrite Hall.
Qed.

Lemma ReadFull_short s n : (length s < n)%nat -> exists e, ReadFull s n = Err e.
Proof. intros H. unfold ReadFull. rewrite (proj2 (Nat.ltb_lt _ _)) by done. by eexists. Qed.

(** What is read from a stream that may be cut anywhere: whole frames. *)
Lemma socket_to_tap fs fuel cut writes n :
  Forall (fun f => fits f = true) fs ->
  forwardSocketToTap fuel (take cut (concat (map frame fs))) writes n `prefix_of` fs.
Proof.
  intros Hfs. revert fuel cut n; induction Hfs as [|f fs Hf _ IH]; intros fuel cut n.
  { destruct fuel; [done|]. cbn [map concat]. rewrite take_nil. apply prefix_nil. }
  destruct fuel as [|fuel]; [apply prefix_nil|]. unfold fits, MaxUint16 in Hf. apply negb_true_iff, Z.ltb_ge in Hf.
  cbn [forwardSocketToTap map concat]. unfold frame at 1. rewrite <- app_assoc.
  destruct (Nat.lt_ge_cases cut 2) as [Hc|Hc].
  { destruct (ReadFull_short (take cut (PutUint16 (Z.of_nat (length f)) ++ f ++ concat (map frame fs))) 2) as [e ->];
      [rewrite length_take; lia|apply prefix_nil]. }
  rewrite take_app_ge by (cbn; lia). rewrite ReadFull_app by done. rewrite Uint16_PutUint16, Nat2Z.id by lia.
  replace (cut - length (PutUint16 (Z.of_nat (length f))))%nat with (cut - 2)%nat by done.
  destruct (Nat.lt_ge_cases (cut - 2) (length f)) as [Hc'|Hc'].
  { destruct (ReadFull_short (take (cut - 2) (f ++ concat (map frame fs))) (length f)) as [e ->];
      [rewrite length_take; lia|apply prefix_nil]. }
  rewrite take_app_ge by done. rewrite ReadFull_app by done.
  destruct (writes n); [apply prefix_cons, IH|apply prefix_nil].
Qed.

(** Nothing is lost without errors. *)
Lemma socket_to_tap_all fs fuel writes n :
  Forall (fun f => fits f = true) fs -> (length fs <= fuel)%nat -> (forall k, writes k = true) ->
  forwardSocketToTap fuel (concat (map frame fs)) writes n = fs.
Proof.
  intros Hfs Hl Hw. revert fuel n Hl; induction Hfs as [|f fs Hf _ IH]; intros fuel n Hl; [by destruct fuel|].
  destruct fuel as [|fuel]; cbn [length] in Hl; [lia|]. unfold fits, MaxUint16 in Hf. apply negb_true_iff, Z.ltb_ge in Hf.
  cbn [forwardSocketToTap map concat]. unfold frame at 1. rewrite <- app_assoc.
  rewrite ReadFull_app by done. rewrite Uint16_PutUint16, Nat2Z.id by lia. rewrite ReadFull_app by done.
  rewrite Hw. f_equal. apply IH. lia.
Qed.

(** C32: the frames that one side reads from its tap device arrive at the tap
    device of the other end of the socket as they were, in order, each as one frame:
    all but those longer than 65535 bytes, which are dropped.  When a read or a
    write fails, or the stream is cut in the middle of a frame, what arrives is
    a prefix of them: never a part of a frame. *)
Theorem frames_roundtrip reads writes writes' cut fuel :
  forwardSocketToTap fuel (take cut (concat (forwardTapToSocket reads writes 0))) writes' 0
    `prefix_of` List.filter fits (frames_read reads) /\
  (forall frames, forwardSocketToTap (length frames) (concat (forwardTapToSocket (map Ok frames) (fun _ => true) 0)) (fun _ => true) 0
    = List.filter fits frames).
Proof.
  split.
  - destruct (tap_to_socket reads writes 0) as (fs & -> & Hp & Hfs & _). etrans; [by apply socket_to_tap|done].
  - intros frames. destruct (tap_to_socket (map Ok frames) (fun _ => true) 0) as (fs & -> & _ & Hfs & Hall).
    rewrite frames_read_ok in Hall. rewrite <- (Hall (fun _ => eq_refl)). apply socket_to_tap_all; [done| |done].
    rewrite (Hall (fun _ => eq_refl)). rewrite List.filter_length_le. done.
Qed.

(** The gateway of a custom network is not the address that is mapped to the
    host's loopback. *)
Lemma gvisor_nat_fixed :
  let d := mkParentDriver 65520 (mkIPNet [10; 1; 0; 0] 24) "tap0" false false in
  setupNetworkConfig d = Ok (lit "10.1.0.100", lit "10.1.0.1", 24) /\
  vn_NAT (config d "10.1.0.1") = [(lit "10.0.2.1", lit "127.0.0.1")].
Proof. split; vm_compute; reflexivity. Qed.

(** When the virtual network cannot be made, the listener stays open: the
    cleanup function does nothing. *)
Lemma gvisor_listener_left :
  let d := mkParentDriver 65520 (mkIPNet [10; 0; 2; 0] 24) "tap0" false false in
  let kern c := match c return res c with NewVirtualNetwork _ => Err (Extern "bad subnet") | c => ok_kernel c end in
  let '(c, calls) := exec kern (net_gvisor.ConfigureNetwork d 42 "/run/rk" []) in
  existsb (fun c => match c with Listen _ _ => true | _ => false end) calls = true /\
  c_cleanup c = Some (Ret (Ok tt)).
Proof. split; vm_compute; reflexivity. Qed.

(** ** The connections of the child *)

(** The connection that was accepted and not yet handed over. *)
Definition accept_step (s : option Z) (c : sys) : res c -> option (option Z) :=
  match c return res c -> option (option Z) with
  | Accept _ => fun r => match s with None => Some (match r with Ok c => Some c | Err _ => None end) | Some _ => None end
  | GoHandleConnection c => fun _ => if bool_decide (s = Some c) then Some None else None
  | Close _ => fun _ => None
  | _ => fun _ => Some s
  end.

Definition is_close (c : sys) : bool := match c with Close _ => true | _ => false end.

(** Every connection that is accepted is given to a goroutine of its own before
    the next one, whatever errors come in between, and the goroutine closes it on
    every path, once and at the end. *)
Theorem gvisor_connections_closed fuel text l conn t r t' :
  behaves (acceptConnections fuel text l) t r -> behaves (handleConnection conn) t' tt ->
  steps accept_step None t = Some None /\
  exists t0, calls t' = t0 ++ [Close conn] /\ Forall (fun c => is_close c = false) t0.
Proof.
  intros Ha Hh. split.
  - assert (tracks accept_step (acceptConnections fuel text l) None (fun _ s => s = None)) as Ht.
    { clear. induction fuel as [|fuel IH]; simpl; [done|]. intros [|]; [done|]. intros [c|e]; simpl.
      - intros _. by rewrite bool_decide_eq_true_2.
      - by destruct (is_closed text e). }
    by destruct (tracks_behaves _ _ _ _ _ _ Ht Ha) as (s & Hs & ->).
  - unfold handleConnection, defer in Hh. simpl in Hh. destruct Hh as ([vn|] & t1 & -> & Hh).
    + destruct Hh as (x & t2 & -> & y & t3 & -> & -> & _). exists [LoadVN; AcceptStdio vn conn]. split; [done|]. by repeat constructor.
    + destruct Hh as (y & t3 & -> & -> & _). exists [LoadVN]. split; [done|]. by repeat constructor.
Qed.
