(* ===== verification/NetInfo.v ===== *)
(** * What the API says of the network

    The drivers remember what they told the child; their [Info] gives it to
    the API. *)
From S2P Require Import Prelude GoStrings NetIP PortSpec Effects Framing Messages Sessions SubID Sys Child Manager BuiltinParent Api NetConfig NetDrivers GvisorNet.
Import messages.
Import Sys.
Import api main_cidr.

(** The text of an IPv4 address is read back and printed as it was. *)
Lemma ip_text_String q : length q = 4%nat -> forallb is_byte q = true -> ip_text (net.String q) = net.String q.
Proof.
  destruct q as [|a [|b [|c [|d [|]]]]]; try discriminate. intros _ Hb. unfold ip_text. cbn [net.String].
  change (match net.To4 [a; b; c; d] with Some q => net.string4 q | None => net.string6 [a; b; c; d] end) with (net.string4 [a; b; c; d]).
  rewrite ParseIP_string4 by done. change (net.String (mkIPv4 a b c d)) with (match net.To4 (mkIPv4 a b c d) with Some q => net.string4 q | None => net.string6 (mkIPv4 a b c d) end).
  by rewrite To4_mkIPv4.
Qed.

Lemma AddIPInt_text n i r :
  v4_network n -> 0 <= i < 2 ^ 32 -> iputils.AddIPInt (n_IP n) i = Ok r -> ip_text (net.String r) = net.String r.
Proof.
  intros (Hl & Hb & _) Hi Hr. pose proof (AddIPInt_spec (n_IP n) (n_IP n) i) as H. rewrite Hr in H.
  destruct H as (? & ? & _); [|done..|by apply ip_text_String]. unfold net.To4. by rewrite bool_decide_eq_true_2.
Qed.

Ltac address_text :=
  match goal with E : iputils.AddIPInt _ ?i = Ok ?r |- ip_text (net.String ?r) = _ => eapply (AddIPInt_text _ i); [eassumption|lia|exact E] end.

(** ** What the drivers report

    [tells name c]: after a configuration that has succeeded the API reports
    what the child is told. *)
Definition tells (name : str) (c : configured) : Prop :=
  c_err c = None ->
  info_of name (c_info c) = mkNetworkDriverInfo name (DNS (c_netmsg c)) (IP (c_netmsg c)) false.

(** A property of every result of a program. *)
Definition gives {A} (p : io A) (Q : A -> Prop) : Prop := forall t a, behaves p t a -> Q a.

Lemma gives_ret {A} (a : A) Q : Q a -> gives (Ret a) Q.
Proof. by intros HQ t b [_ ->]. Qed.

Lemma gives_bind {A B} (p : io A) (f : A -> io B) Q : (forall a, gives (f a) Q) -> gives (bind p f) Q.
Proof. intros Hf t b (t1 & t2 & a & _ & _ & H)%behaves_bind. by apply (Hf a t2). Qed.

Lemma gives_defer {A} d (p : io A) Q : gives p Q -> gives (defer d p) Q.
Proof.
  intros Hp t b (t1 & t2 & a & _ & H1 & H2)%behaves_bind. apply behaves_bind in H2 as (t3 & t4 & u & _ & _ & [_ ->]).
  by apply (Hp t1).
Qed.

Lemma tells_failed name ks e : tells name (failed ks e).
Proof. done. Qed.

Lemma tells_static name m k :
  ip_text (IP m) = IP m -> map ip_text (DNS m) = DNS m -> tells name (mkConfigured m k None (Some (static_info name m))).
Proof. intros Hi Hd _. unfold tells, info_of, static_info. cbn. by rewrite Hi, Hd. Qed.

(** One step of a driver: a call, a deferred call, or a case on a result. *)
Ltac tells_step :=
  first [ apply gives_ret; apply tells_failed
        | apply gives_defer
        | apply gives_bind; intros ?
        | match goal with |- gives (match ?x with _ => _ end) _ => destruct x eqn:? end ].

Lemma slirp_netmsg_text d m :
  (forall n, net_slirp.ipnet d = Some n -> v4_network n) -> net_slirp.netmsg d = Ok m ->
  ip_text (IP m) = IP m /\ map ip_text (DNS m) = DNS m.
Proof.
  intros Hn Hm. unfold net_slirp.netmsg in Hm. destruct (net_slirp.ipnet d) as [n|].
  - inv_ok. subst m. cbn [IP DNS map]. rewrite (AddIPInt_text n 100), (AddIPInt_text n 3) by (eauto; lia).
    by destruct (net_slirp.enableIPv6 d).
  - injection Hm as <-. by destruct (net_slirp.enableIPv6 d).
Qed.

Lemma slirp_tells fuel d pid ns :
  (forall n, net_slirp.ipnet d = Some n -> v4_network n) ->
  gives (net_slirp.ConfigureNetwork fuel d pid ns) (tells "slirp4netns").
Proof.
  intros Hn. unfold net_slirp.ConfigureNetwork, net_slirp.start. repeat tells_step; [by apply gives_ret|].
  match goal with E : net_slirp.netmsg d = Ok ?m |- _ => destruct (slirp_netmsg_text d m Hn E) end. by apply gives_ret, tells_static.
Qed.

Lemma pasta_tells d pid ns :
  v4_network (net_pasta.ipnet d) -> gives (net_pasta.ConfigureNetwork d pid ns) (tells "pasta").
Proof.
  intros Hn. unfold net_pasta.ConfigureNetwork. repeat tells_step.
  apply gives_ret. unfold net_pasta.addresses in *. inv_ok. subst.
  apply tells_static; cbn [IP DNS map]; [|f_equal]; address_text.
Qed.

Lemma gvisor_tells d pid dir ns :
  v4_network (net_gvisor.ipnet d) -> gives (net_gvisor.ConfigureNetwork d pid dir ns) (tells "gvisor-tap-vsock").
Proof.
  intros Hn. unfold net_gvisor.ConfigureNetwork. repeat tells_step.
  apply gives_ret. unfold net_gvisor.prepareNetworkMessage, net_gvisor.setupDNSServers, net_gvisor.setupNetworkConfig in *. inv_ok. subst.
  apply tells_static; cbn [IP DNS map]; [|f_equal]; address_text.
Qed.

(** When slirp4netns, pasta or gvisor-tap-vsock have configured the
    network, what their [Info] tells the API are the address and the name
    servers that the child was told to use, with the name of the driver: the
    texts of the addresses survive being parsed. *)
Theorem network_info_true fuel slirp pasta gvisor pid dir ns t c :
  (forall n, net_slirp.ipnet slirp = Some n -> v4_network n) ->
  v4_network (net_pasta.ipnet pasta) -> v4_network (net_gvisor.ipnet gvisor) -> c_err c = None ->
  let told name := mkNetworkDriverInfo name (DNS (c_netmsg c)) (IP (c_netmsg c)) false in
  (behaves (net_slirp.ConfigureNetwork fuel slirp pid ns) t c -> net_slirp.Info (c_info c) = told "slirp4netns") /\
  (behaves (net_pasta.ConfigureNetwork pasta pid ns) t c -> net_pasta.Info (c_info c) = told "pasta") /\
  (behaves (net_gvisor.ConfigureNetwork gvisor pid dir ns) t c -> net_gvisor.Info (c_info c) = told "gvisor-tap-vsock").
Proof.
  intros Hs Hp Hg He told. split; [|split]; intros Hb.
  - by apply (slirp_tells fuel slirp pid ns Hs t c).
  - by apply (pasta_tells pasta pid ns Hp t c).
  - by apply (gvisor_tells gvisor pid dir ns Hg t c).
Qed.

Theorem network_info_true_witness :
  let n := mkIPNet [10; 0; 3; 0] 24 in
  let slirp := net_slirp.mkParentDriver "slirp4netns" 65520 (Some n) true [] false false true "tap0" in
  let pasta := net_pasta.mkParentDriver "pasta" 65520 n true false "tap0" false false in
  let gvisor := net_gvisor.mkParentDriver 65520 n "tap0" false false in
  let x := run (fun _ => ok_kernel) (net_slirp.ConfigureNetwork 10 slirp 42 []) [] in
  c_err x.1 = None /\
  net_slirp.Info (c_info x.1) = mkNetworkDriverInfo "slirp4netns" [lit "10.0.3.3"; lit "fd00::3"] "10.0.3.100" false.
Proof.
  intros n slirp pasta gvisor x. assert (c_err x.1 = None) as He by (vm_compute; reflexivity). split; [exact He|].
  assert (v4_network n) as Hn by (repeat split; vm_compute; congruence).
  assert (forall n', net_slirp.ipnet slirp = Some n' -> v4_network n') as Hs by (intros n' [= <-]; exact Hn).
  destruct (network_info_true 10 slirp pasta gvisor 42 [] [] x.2 x.1 Hs Hn Hn He) as [H _].
  rewrite (H (run_behaves _ _)). vm_compute. reflexivity.
Defined.
