(* ===== verification/ParentNet.v ===== *)
(** * The parent together with its network driver

    [Parent] calls its network driver through two calls, [ConfigureNetwork] and
    [CleanupNetwork] (the function that the driver returned).  [link] puts the
    programs of a driver in their place, so that the parent and the driver are
    one program.  [HelperDriver] is what a driver promises about the helpers
    that it starts; the drivers of NetDrivers.v keep the promise. *)
From S2P Require Import Prelude GoStrings NetIP PortSpec Effects Framing Messages Sessions SubID Sys Cgroup Parent Child NetConfig NetDrivers.
Import messages.
Import Sys.
Import parent.

(** A driver: its [ConfigureNetwork]. *)
Abbreviation driver := (Z -> str -> str -> io configured).

(** What the caller of [ConfigureNetwork] sees of its results. *)
Definition response (c : configured) : NetMsg * bool * option error :=
  (c_netmsg c, bool_decide (is_Some (c_cleanup c)), c_err c).

(** [cl] is the cleanup function that the driver has returned. *)
Fixpoint link {A} (drv : driver) (cl : option (io (result unit))) (p : io A) : io A :=
  match p with
  | Ret a => Ret a
  | Call c k =>
      match c return (res c -> io A) -> io A with
      | ConfigureNetwork pid stateDir netns => fun k =>
          r <- drv pid stateDir netns ;;
          link drv (c_cleanup r) (k (response r))
      | CleanupNetwork => fun k =>
          match cl with
          | Some f => _ <- f ;; link drv None (k tt)
          | None => link drv None (k tt)
          end
      | c => fun k => Call c (fun r => link drv cl (k r))
      end k
  end.

(** ** The executions of the linked program *)
Section linked.
Context (drv : driver).

Definition network_call (c : sys) : bool :=
  match c with ConfigureNetwork _ _ _ | CleanupNetwork => true | _ => false end.

(** [linked cl ta t td]: [t] is the trace [ta] of the caller with the traces of
    the driver in the place of its two calls; [td] is what the driver and its
    cleanup function did. *)
Inductive linked : option (io (result unit)) -> @trace sys res -> @trace sys res -> @trace sys res -> Prop :=
  | linked_nil cl : linked cl [] [] []
  | linked_call cl c r ta t td :
      network_call c = false -> linked cl ta t td -> linked cl (ev c r :: ta) (ev c r :: t) td
  | linked_configure cl pid stateDir netns tc r ta t td :
      behaves (drv pid stateDir netns) tc r -> linked (c_cleanup r) ta t td ->
      linked cl (ev (ConfigureNetwork pid stateDir netns) (response r) :: ta) (tc ++ t) (tc ++ td)
  | linked_cleanup f tk x ta t td :
      behaves f tk x -> linked None ta t td -> linked (Some f) (ev CleanupNetwork tt :: ta) (tk ++ t) (tk ++ td)
  | linked_no_cleanup ta t td : linked None ta t td -> linked None (ev CleanupNetwork tt :: ta) t td.

Lemma link_behaves {A} cl (p : io A) t a :
  behaves (link drv cl p) t a -> exists ta td, behaves p ta a /\ linked cl ta t td.
Proof.
  revert cl t; induction p as [b|c k IH]; intros cl t.
  { intros [-> ->]. exists [], []. split; [done|constructor]. }
  assert (network_call c = false -> behaves (Call c (fun r => link drv cl (k r))) t a ->
    exists ta td, behaves (Call c k) ta a /\ linked cl ta t td) as Hcall.
  { intros Hc (r & t' & -> & Hb). destruct (IH _ _ _ Hb) as (ta & td & Ha & Hl).
    exists (ev c r :: ta), td. split; [by exists r, ta|by constructor]. }
  destruct c; try exact (Hcall eq_refl); cbn [link]; clear Hcall.
  - intros Hb. apply behaves_bind in Hb as (tc & t' & r & -> & Hc & Hb).
    destruct (IH _ _ _ Hb) as (ta & td & Ha & Hl).
    eexists (ev (ConfigureNetwork pid stateDir netns) (response r) :: ta), (tc ++ td). split; [by exists (response r), ta|by constructor].
  - destruct cl as [f|]; intros Hb.
    + apply behaves_bind in Hb as (tk & t' & x & -> & Hk & Hb). destruct (IH _ _ _ Hb) as (ta & td & Ha & Hl).
      exists (ev CleanupNetwork tt :: ta), (tk ++ td). split; [by exists tt, ta|by econstructor].
    + destruct (IH _ _ _ Hb) as (ta & td & Ha & Hl).
      exists (ev CleanupNetwork tt :: ta), td. split; [by exists tt, ta|by constructor].
Qed.
End linked.

(** ** The parent configures the network once and cleans up once *)

Inductive net_phase : Set := NotConfigured | Configured (has_cleanup : bool) | CleanedUp.

Definition net_step (s : net_phase) (c : sys) : res c -> option net_phase :=
  match c return res c -> option net_phase with
  | ConfigureNetwork _ _ _ => fun r => match s with NotConfigured => Some (Configured r.1.2) | _ => None end
  | CleanupNetwork => fun _ => match s with Configured true => Some CleanedUp | _ => None end
  | _ => fun _ => Some s
  end.

Definition over (s : net_phase) : Prop := match s with Configured true => False | _ => True end.
Definition no_net (c : sys) : bool := negb (network_call c).

Lemma no_net_step s c r : no_net c = true -> net_step s c r = Some s.
Proof. by destruct c. Qed.

Lemma net_seq {A B} (p : io (result A)) (k : A -> io (result B)) s :
  only no_net p -> over s -> (forall a, tracks net_step (k a) s (fun _ => over)) -> tracks net_step (ebind p k) s (fun _ => over).
Proof. intros Hp Hs. apply (tracks_quiet_ebind _ no_net); [apply no_net_step|done|done]. Qed.

Lemma parent_network_once opt pid w : tracks net_step (parent_network opt pid w) NotConfigured (fun _ => over).
Proof.
  assert (forall m s, tracks net_step (parent_ports opt pid w m) s (fun _ s' => s' = s)) as Hports.
  { intros m s. apply (tracks_only _ no_net); [only_tac|apply no_net_step|done]. }
  unfold parent_network. destruct (NetworkDriver opt); [|by eapply tracks_mono; [apply Hports|intros ? ? ->]].
  cbv zeta. apply tracks_call_bind. intros [[m [|]] e]; cbn [net_step fst snd].
  - apply tracks_bind. apply (tracks_mono _ _ _ (fun _ s => s = Configured true)).
    + destruct e; first [apply Hports|reflexivity].
    + by intros a ? ->.
  - destruct e; [exact I|]. eapply tracks_mono; [apply Hports|by intros ? ? ->].
Qed.

Lemma Parent_once opt : tracks net_step (Parent opt) NotConfigured (fun _ => over).
Proof.
  unfold Parent. do 3 (apply net_seq; [only_tac|done|]; intros ?).
  do 2 (apply (tracks_defer _ no_net); [apply no_net_step|only_tac|]). unfold parent_locked.
  do 2 (apply net_seq; [only_tac|done|]; intros ?).
  apply (tracks_quiet_bind _ no_net); [apply no_net_step|only_tac|]. intros cmd.
  apply (tracks_quiet_bind _ no_net); [apply no_net_step|only_tac|].
  intros [pid|e]; [|apply (tracks_only _ no_net); [only_tac|apply no_net_step|done]].
  unfold parent_userns. do 5 (apply net_seq; [only_tac|done|]; intros ?).
  apply (tracks_quiet_bind _ no_net); [apply no_net_step|only_tac|]. intros ?.
  apply (tracks_defer _ no_net); [apply no_net_step|only_tac|].
  apply net_seq; [only_tac|done|]. intros ?. apply parent_network_once.
Qed.

(** ** What a driver promises about its helpers *)

(** From nothing, [ConfigureNetwork] ends with what its cleanup function
    releases. *)
Class HelperDriver (drv : driver) : Prop :=
  helpers_ok pid stateDir netns : tracks helper_step (drv pid stateDir netns) nothing_held (fun c s => cleans c s).

#[export] Instance slirp_HelperDriver fuel d : HelperDriver (fun pid _ netns => net_slirp.ConfigureNetwork fuel d pid netns).
Proof. intros pid dir ns. apply slirp_cleans. Qed.

#[export] Instance vpnkit_HelperDriver fuel d : HelperDriver (fun _ stateDir _ => net_vpnkit.ConfigureNetwork fuel d stateDir).
Proof. intros pid dir ns. apply vpnkit_cleans. Qed.

#[export] Instance pasta_HelperDriver d : HelperDriver (fun pid _ netns => net_pasta.ConfigureNetwork d pid netns).
Proof.
  intros pid dir ns. unfold net_pasta.ConfigureNetwork. destruct (net_pasta.addresses d) as [[[a g] n]|e]; [|done].
  intros [o e]. cbn. by destruct e as [[]|].
Qed.

(** What the helpers need at each phase of the parent. *)
Definition phase_ok (cl : option (io (result unit))) (s : net_phase) (h : held) : Prop :=
  match s with
  | NotConfigured => cl = None /\ h = nothing_held
  | Configured has_cleanup =>
      has_cleanup = bool_decide (is_Some cl) /\
      match cl with
      | Some f => tracks helper_step f h (fun _ s => s = nothing_held)
      | None => h = nothing_held
      end
  | CleanedUp => h = nothing_held
  end.

Lemma linked_released drv `{!HelperDriver drv} cl ta t td s s' h :
  linked drv cl ta t td -> phase_ok cl s h -> steps net_step s ta = Some s' -> over s' ->
  steps helper_step h td = Some nothing_held.
Proof.
  intros Hl. revert s h. induction Hl as [cl|cl c r ta t td Hc Hl IH|cl pid dir ns tc r ta t td Hb Hl IH|f tk x ta t td Hb Hl IH|ta t td Hl IH];
    intros s h Hp; cbn [steps ev].
  - intros [= <-] Ho. cbn. f_equal. destruct s as [|b|]; [by destruct Hp| |done].
    destruct Hp as [-> Hp]. by destruct cl.
  - rewrite no_net_step by (unfold no_net; by rewrite Hc). by apply IH.
  - destruct s; cbn [net_step]; [|done|done]. destruct Hp as [-> ->]. intros Hs Ho.
    destruct (tracks_behaves _ _ _ _ _ _ (helpers_ok pid dir ns) Hb) as (h' & Hh & Hcl).
    rewrite steps_app, Hh. by eapply (IH (Configured (response r).1.2)).
  - destruct s as [|[]|]; cbn [net_step]; try done. destruct Hp as [_ Hp]. intros Hs Ho.
    destruct (tracks_behaves _ _ _ _ _ _ Hp Hb) as (h' & Hh & ->). rewrite steps_app, Hh. by eapply (IH CleanedUp).
  - destruct s as [|[]|]; cbn [net_step]; try done. by destruct Hp.
Qed.

(** C5: the parent and its network driver together.  For a driver that
    keeps the promise of the interface, whatever the kernel answers and wherever the
    parent fails: when it returns, every helper process that the driver has
    started was killed and then waited for, and every pipe and connection that
    it has opened was closed; what the parent does besides is an execution of
    [Parent].  slirp4netns and vpnkit keep the promise, and pasta, which starts no
    process that it holds; none and lxc-user-nic do not when they start a
    process for a detached namespace ([none_leaves_sleeper]). *)
Theorem parent_releases_helpers drv `{!HelperDriver drv} opt t r :
  behaves (link drv None (Parent opt)) t r ->
  exists ta td, behaves (Parent opt) ta r /\ linked drv None ta t td /\
    steps helper_step nothing_held td = Some nothing_held.
Proof.
  intros Hb. destruct (link_behaves drv None _ _ _ Hb) as (ta & td & Ha & Hl). exists ta, td.
  split; [done|]. split; [done|]. destruct (tracks_behaves _ _ _ _ _ _ (Parent_once opt) Ha) as (s' & Hs & Ho).
  by eapply (linked_released drv None ta t td NotConfigured).
Qed.

(** A run with slirp4netns in which the port driver fails at once. *)
Definition linked_kernel (c : sys) : res c :=
  match c return res c with
  | Getpid => 41
  | WaitPortDriver => Some (Err (Extern "port driver"))
  | c => ok_kernel c
  end.

Definition killed (t : @trace sys res) : nat :=
  length (List.filter (fun c => match c with KillProcess _ => true | _ => false end) (calls t)).

Theorem parent_releases_helpers_witness :
  let d := net_slirp.mkParentDriver "slirp4netns" 65520 None true [] false false false "tap0" in
  let drv : driver := fun pid _ netns => net_slirp.ConfigureNetwork 10 d pid netns in
  let opt := parent.mkOpt "P" "A" "/run/rk" "S" true true [] true false false false false [] [] "rprivate" [] "auto" in
  let x := run (fun _ => linked_kernel) (link drv None (Parent opt)) [] in
  killed x.2 = 1%nat /\ x.1 = Err (Extern "port driver") /\
  exists ta td, linked drv None ta x.2 td /\ steps helper_step nothing_held td = Some nothing_held.
Proof.
  intros d drv opt x. split; [vm_compute; reflexivity|]. split; [vm_compute; reflexivity|].
  destruct (parent_releases_helpers drv opt x.2 x.1 (run_behaves _ _)) as (ta & td & _ & Hl & Hs).
  exists ta, td. split; [exact Hl|exact Hs].
Defined.
