(* ===== verification/Disabled.v ===== *)
(** * The drivers that a build leaves out

    A build with one of the tags no_slirp4netns, no_vpnkit, no_lxcusernic and
    no_gvisortapvsock has, in the place of a network or port driver, a stub
    with the same operations, all of which fail.  [stub] is what the files have
    in common. *)
From S2P Require Import Prelude GoStrings NetIP PortSpec Effects Framing Messages Sessions SubID Sys Cgroup Parent Child Manager BuiltinParent Api NetConfig NetDrivers ParentNet.
Import messages.
Import Sys.
Import port api.

(** ** The stubs *)
Module stub.
Section stub.
Context (err : error).   (** what every operation answers *)

(** The network driver.  The cleanup function that comes with the error is not
    nil, and does nothing. *)
Definition Info : result NetworkDriverInfo := Err err.
Definition MTU : Z := 0.
Definition ConfigureNetwork (childPID : Z) (stateDir detachedNetNSPath : str) : io configured :=
  Ret (mkConfigured empty_NetMsg (Some (Ret (Ok tt))) (Some err) None).
Definition ConfiguresInterface : bool := false.
Definition ConfigureNetworkChild (netmsg : NetMsg) (detachedNetNSPath : str) : io (result str) := fail err.

(** The port driver. *)
Definition PortInfo : result PortDriverInfo := Err err.
Definition OpaqueForChild : list (str * str) := [].
Definition RunParentDriver : result unit := Err err.
Definition AddPort (s : unit) (spec : Spec) : unit * result Status := (s, Err err).
Definition ListPorts (s : unit) : unit * result (list Status) := (s, Err err).
Definition RemovePort (s : unit) (id : Z) : unit * result unit := (s, Err err).
Definition RunChildDriver : result unit := Err err.
End stub.
End stub.

(** ** The packages *)

(** pkg/network/slirp4netns *)
Module slirp4netns_disabled.
Definition disabled : error := errors_New "slirp4netns network driver disabled by build tag no_slirp4netns".
Definition DetectFeatures (binary : str) : result net_slirp.Features := Err disabled.
(** The stub comes with an error. *)
Definition NewParentDriver : option error := Some disabled.
Definition Info := stub.Info disabled.
Definition MTU := stub.MTU.
Definition ConfigureNetwork : driver := stub.ConfigureNetwork disabled.
Definition ConfiguresInterface := stub.ConfiguresInterface.
Definition ConfigureNetworkChild := stub.ConfigureNetworkChild disabled.
Definition Available : bool := false.
End slirp4netns_disabled.

(** pkg/network/vpnkit: the only one whose constructor reports no error *)
Module vpnkit_disabled.
Definition disabled : error := errors_New "vpnkit network driver disabled by build tag no_vpnkit".
Definition NewParentDriver : option error := None.
Definition Info := stub.Info disabled.
Definition MTU := stub.MTU.
Definition ConfigureNetwork : driver := stub.ConfigureNetwork disabled.
Definition ConfiguresInterface := stub.ConfiguresInterface.
Definition ConfigureNetworkChild := stub.ConfigureNetworkChild disabled.
Definition Available : bool := false.
End vpnkit_disabled.

(** pkg/network/lxcusernic *)
Module lxcusernic_disabled.
Definition disabled : error := errors_New "lxc-user-nic network driver disabled by build tag no_lxcusernic".
Definition NewParentDriver : option error := Some disabled.
Definition Info := stub.Info disabled.
Definition MTU := stub.MTU.
Definition ConfigureNetwork : driver := stub.ConfigureNetwork disabled.
Definition ConfiguresInterface := stub.ConfiguresInterface.
Definition ConfigureNetworkChild := stub.ConfigureNetworkChild disabled.
Definition Available : bool := false.
End lxcusernic_disabled.

(** pkg/network/gvisortapvsock *)
Module gvisortapvsock_disabled.
Definition disabled : error := errors_New "gvisor-tap-vsock network driver disabled by build tag no_gvisortapvsock".
Definition NewParentDriver : option error := Some disabled.
Definition Info := stub.Info disabled.
Definition MTU := stub.MTU.
Definition ConfigureNetwork : driver := stub.ConfigureNetwork disabled.
Definition ConfiguresInterface := stub.ConfiguresInterface.
Definition ConfigureNetworkChild := stub.ConfigureNetworkChild disabled.
Definition Available : bool := false.
End gvisortapvsock_disabled.

(** pkg/port/slirp4netns *)
Module slirp4netns_port_disabled.
Definition disabled : error := errors_New "slirp4netns port driver disabled by build tag no_slirp4netns".
Definition NewParentDriver : option error := Some disabled.
Definition Info := stub.PortInfo disabled.
Definition OpaqueForChild := stub.OpaqueForChild.
Definition RunParentDriver := stub.RunParentDriver disabled.
Definition AddPort := stub.AddPort disabled.
Definition ListPorts := stub.ListPorts disabled.
Definition RemovePort := stub.RemovePort disabled.
Definition RunChildDriver := stub.RunChildDriver disabled.
Definition Available : bool := false.
End slirp4netns_port_disabled.

(** pkg/port/gvisortapvsock *)
Module gvisortapvsock_port_disabled.
Definition disabled : error := errors_New "gvisor-tap-vsock port driver disabled by build tag no_gvisortapvsock".
Definition NewParentDriver : option error := Some disabled.
Definition Info := stub.PortInfo disabled.
Definition OpaqueForChild := stub.OpaqueForChild.
Definition RunParentDriver := stub.RunParentDriver disabled.
Definition AddPort := stub.AddPort disabled.
Definition ListPorts := stub.ListPorts disabled.
Definition RemovePort := stub.RemovePort disabled.
Definition RunChildDriver := stub.RunChildDriver disabled.
Definition Available : bool := false.
End gvisortapvsock_port_disabled.

(** ** A stub keeps the promises of a driver *)

#[export] Instance stub_HelperDriver err : HelperDriver (stub.ConfigureNetwork err).
Proof. intros pid dir ns. simpl. done. Qed.

(** The table of a stub is empty, whatever is asked. *)
#[export] Instance stub_Manager err : Manager unit := {
  AddPort := stub.AddPort err;
  ListPorts := stub.ListPorts err;
  RemovePort := stub.RemovePort err;
}.

Lemma stub_ManagerSpec err : @ManagerSpec unit (stub_Manager err) (fun _ => True) (fun _ => True) (fun _ => ∅).
Proof. split; try done. intros s id s' e _ [= <- <-]. split; [done|by left]. Qed.

(** ** The parent with a stub *)

(** Whether the network was configured: not asked yet, or the answer. *)
Definition configured_ok (s : option bool) (c : sys) : res c -> option (option bool) :=
  match c return res c -> option (option bool) with
  | ConfigureNetwork _ _ _ => fun r => Some (Some (match r.2 with None => true | Some _ => false end))
  | Send _ m => fun _ =>
      match ParentInitNetworkDriverCompleted (U_of m) with
      | Some _ => if bool_decide (s = Some true) then Some s else None
      | None => Some s
      end
  | _ => fun _ => Some s
  end.

Definition not_network (c : sys) : bool :=
  match c with ConfigureNetwork _ _ _ => false | Send _ m => bool_decide (ParentInitNetworkDriverCompleted (U_of m) = None) | _ => true end.

Lemma not_network_step s c r : not_network c = true -> configured_ok s c r = Some s.
Proof. destruct c; try done. simpl. by intros ->%bool_decide_eq_true. Qed.

(** A run that succeeds has configured the network. *)
Definition needs_network {A} (r : result A) (s : option bool) : Prop := is_ok r = true -> s = Some true.

Abbreviation ctracks := (tracks configured_ok).

Lemma needs_equiet {A B} (p : io (result A)) (k : A -> io (result B)) s :
  only not_network p -> (forall a, ctracks (k a) s needs_network) -> ctracks (ebind p k) s needs_network.
Proof. intros Hp Hk. apply (tracks_quiet_ebind _ not_network); [apply not_network_step|done|by intros e [=]|done]. Qed.

Lemma needs_bquiet {A B} (p : io A) (k : A -> io (result B)) s :
  only not_network p -> (forall a, ctracks (k a) s needs_network) -> ctracks (bind p k) s needs_network.
Proof. intros Hp Hk. apply (tracks_quiet_bind _ not_network); [apply not_network_step|done|done]. Qed.

Lemma needs_defer {A} (d : io unit) (p : io (result A)) s :
  only not_network d -> ctracks p s needs_network -> ctracks (defer d p) s needs_network.
Proof. intros Hd Hp. apply (tracks_defer _ not_network); [apply not_network_step|done|done]. Qed.

Lemma parent_ports_needs opt pid w m : ctracks (parent.parent_ports opt pid w m) (Some true) needs_network.
Proof.
  apply (tracks_call_bind _ (Send _ _)). intros r. cbn [configured_ok network_done U_of ParentInitNetworkDriverCompleted].
  rewrite bool_decide_eq_true_2 by done. destruct r as [[]|e]; [|done].
  apply (tracks_only _ not_network); [only_tac|apply not_network_step|done].
Qed.

Lemma Parent_needs_network opt : parent.NetworkDriver opt = true -> ctracks (parent.Parent opt) None needs_network.
Proof.
  intros Hn. do 3 (apply needs_equiet; [only_tac|]; intros ?). do 2 (apply needs_defer; [only_tac|]).
  do 2 (apply needs_equiet; [only_tac|]; intros ?). do 2 (apply needs_bquiet; [only_tac|]; intros ?).
  destruct a5 as [pid|e]; [|by apply needs_bquiet; [only_tac|]].
  do 5 (apply needs_equiet; [only_tac|]; intros ?). apply needs_bquiet; [only_tac|]. intros _.
  apply needs_defer; [only_tac|]. apply needs_equiet; [only_tac|]. intros _. unfold parent.parent_network. rewrite Hn.
  apply (tracks_call_bind _ (ConfigureNetwork _ _ _)). intros [[m [|]] [e|]]; [|apply needs_defer; [only_tac|]|..]; try done.
  all: apply parent_ports_needs.
Qed.

Lemma stub_never_configures err cl ta t td s s' :
  linked (stub.ConfigureNetwork err) cl ta t td -> (cl = None \/ cl = Some (Ret (Ok tt))) -> s <> Some true ->
  steps configured_ok s ta = Some s' ->
  s' <> Some true /\ (forall fd m, Send fd m ∈ calls t -> ParentInitNetworkDriverCompleted (U_of m) = None).
Proof.
  intros Hl. revert s. induction Hl as [cl|cl c r ta t td Hc Hl IH|cl pid dir ns tc r ta t td Hb Hl IH|f tk x ta t td Hb Hl IH|ta t td Hl IH];
    intros s Hcl Hs.
  - intros [= <-]. split; [done|]. by intros fd m ?%elem_of_nil.
  - cbn [steps ev calls map projT1]. destruct (configured_ok s c r) as [s1|] eqn:E; [|done]. intros H.
    assert (Hs1 : s1 = s /\ forall fd m, c = Send fd m -> ParentInitNetworkDriverCompleted (U_of m) = None).
    { destruct c; try discriminate Hc; simpl in E; try (injection E as <-; done).
      destruct (ParentInitNetworkDriverCompleted (U_of m)) eqn:Em.
      - by rewrite bool_decide_eq_false_2 in E.
      - injection E as <-. split; [done|]. by intros fd' m' [= <- <-]. }
    destruct Hs1 as [-> Hm]. destruct (IH s Hcl Hs H) as [H1 H2]. split; [done|].
    intros fd m [E'|Hin]%elem_of_cons; [by eapply Hm|by eapply H2].
  - destruct Hb as [-> ->]. apply (IH (Some false)); [by right|done].
  - destruct Hcl as [|[= ->]]; [done|]. destruct Hb as [-> _]. apply (IH s); [by left|done].
  - by apply (IH s).
Qed.

(** With a network driver that the build has left out, the parent always
    fails: in no execution does it return without an error, or say to the
    child that the network is configured. *)
Theorem disabled_network_fails err opt t r :
  parent.NetworkDriver opt = true -> behaves (link (stub.ConfigureNetwork err) None (parent.Parent opt)) t r ->
  is_ok r = false /\ (forall fd m, Send fd m ∈ calls t -> ParentInitNetworkDriverCompleted (U_of m) = None).
Proof.
  intros Hn Hb. destruct (link_behaves _ None _ _ _ Hb) as (ta & td & Ha & Hl).
  destruct (tracks_behaves _ _ _ _ _ _ (Parent_needs_network opt Hn) Ha) as (s & Hs & Hq).
  destruct (stub_never_configures err None ta t td None s Hl) as [H1 H2]; [by left|done|done|]. split; [|exact H2].
  destruct (is_ok r) eqn:E; [|done]. by rewrite Hq in H1.
Qed.

(** The build has no vpnkit: the constructor accepts, and the parent fails once
    the child has its id maps. *)
Theorem disabled_network_fails_witness :
  let opt := parent.mkOpt "P" "A" "/run/rk" "S" true true [] true false false false false [] [] "rprivate" [] "auto" in
  let x := run (fun _ => linked_kernel) (link vpnkit_disabled.ConfigureNetwork None (parent.Parent opt)) [] in
  vpnkit_disabled.NewParentDriver = None /\
  x.1 = Err (Wrapf "failed to setup network %+v: %w" [] vpnkit_disabled.disabled) /\ is_ok x.1 = false.
Proof.
  intros opt x. split; [reflexivity|]. split; [vm_compute; reflexivity|].
  exact (proj1 (disabled_network_fails vpnkit_disabled.disabled opt x.2 x.1 eq_refl (run_behaves _ _))).
Defined.
