(* ===== verification/Cli.v ===== *)
(** * cmd/rootlesskit: the command line

    The flags, the options of the parent and of the child that are made from
    them, the choice of the role of the process, and its exit status.  The
    parsing of the command line into flags (github.com/urfave/cli) is a
    parameter of [main]. *)
From S2P Require Import Prelude GoStrings NetIP PortSpec Effects Framing Messages Sessions SubID Sys Cgroup Parent Child Manager BuiltinParent SlirpPort GvisorPort Api NetConfig NetDrivers GvisorNet.
Import messages.
Import Sys.
Import main_cidr.

(** ** The flags, and what they are when they are not given *)
Record Flags : Set := mkFlags {
  f_net : str;
  f_port_driver : str;
  f_state_dir : str;
  f_pasta_binary : str;
  f_slirp4netns_binary : str;
  f_slirp4netns_sandbox : str;
  f_slirp4netns_seccomp : str;
  f_vpnkit_binary : str;
  f_lxc_user_nic_binary : str;
  f_lxc_user_nic_bridge : str;
  f_mtu : Z;
  f_cidr : str;
  f_ifname : str;
  f_disable_host_loopback : bool;
  f_ipv6 : bool;
  f_copy_up : list str;
  f_copy_up_mode : str;
  f_publish : list str;
  f_source_ip_transparent : bool;
  f_pidns : bool;
  f_cgroupns : bool;
  f_utsns : bool;
  f_ipcns : bool;
  f_detach_netns : bool;
  f_propagation : str;
  f_reaper : str;
  f_evacuate_cgroup2 : str;
  f_subid_source : str;
  f_print_semver : str;
  f_args : list str;
}.

Definition default_flags (lxcUserNicBin : str) (args : list str) : Flags :=
  mkFlags "host" "none" [] "pasta" "slirp4netns" "false" "false" "vpnkit" lxcUserNicBin "lxcbr0" 0 [] [] false false
    [] "tmpfs+symlink" [] true false false false false false "rprivate" "auto" [] "auto" [] args.

(** ** The drivers: the interface values of [parent.Opt] *)
Inductive NetworkDriver : Set :=
  | NetNil
  | NetNone
  | NetPasta (d : net_pasta.parentDriver)
  | NetSlirp (d : net_slirp.parentDriver)
  | NetVPNKit (d : net_vpnkit.parentDriver)
  | NetLXC (d : net_lxc.parentDriver)
  | NetGvisor (d : net_gvisor.parentDriver).

Inductive PortDriver : Set :=
  | PortNil
  | PortSlirp (d : slirp4netns.driver)
  | PortBuiltin (d : builtin.driver)
  | PortGvisor (d : gvisortapvsock.driver).

Definition net_set (d : NetworkDriver) : bool := match d with NetNil => false | _ => true end.
Definition port_set (d : PortDriver) : bool := match d with PortNil => false | _ => true end.

(** [NewParentDriver] of the builtin port driver. *)
Definition builtin_NewDriver (stateDir : str) (sourceIPTransparent : bool) : io (result builtin.driver) :=
  let d := builtin.NewDriver stateDir sourceIPTransparent in
  let childReadyPipePath := builtin.childReadyPipePath d in
  _ <-! wrapping (call (RemoveAll childReadyPipePath)) (Wrapf "cannot remove %s: %w" [AStr childReadyPipePath]) ;;
  _ <-! wrapping (call (Mkfifo childReadyPipePath 384)) (Wrapf "cannot mkfifo %s: %w" [AStr childReadyPipePath]) ;;
  Ret (Ok d).

(** [filepath.Abs] *)
Definition filepath_Abs (path : str) : io (result str) :=
  if filepath.IsAbs path then Ret (Ok (filepath.Clean path))
  else wd <-! call Getwd ;; Ret (Ok (filepath.Join [wd; path])).

Module cli.

Definition pipeFDEnvKey : str := "_ROOTLESSKIT_PIPEFD_UNDOCUMENTED".
Definition childUseActivationEnvKey : str := "_ROOTLESSKIT_SYSTEMD_ACTIVATION_CHILD_USE_UNDOCUMENTED".
Definition runActivationHelperEnvKey : str := "_ROOTLESSKIT_SYSTEMD_ACTIVATION_RUN_HELPER_UNDOCUMENTED".
Definition stateDirEnvKey : str := "ROOTLESSKIT_STATE_DIR".
Definition parentEUIDEnvKey : str := "ROOTLESSKIT_PARENT_EUID".
Definition parentEGIDEnvKey : str := "ROOTLESSKIT_PARENT_EGID".

Definition eqs (s : str) (l : string) : bool := bool_decide (s = lit l).

(** ** The options of the parent *)
Definition check_evacuate (f : Flags) : result unit :=
  if bool_decide (f_evacuate_cgroup2 f = []) then Ok tt
  else if negb (f_cgroupns f) then Err (errors_New "evacuate-cgroup2 requires --cgroupns")
  else if negb (f_pidns f) then Err (errors_New "evacuate-cgroup2 requires --pidns")
  else Ok tt.

(** A new state directory, or the given one emptied. *)
Definition state_dir (f : Flags) : io (result str) :=
  if bool_decide (f_state_dir f = [])
  then wrapping (call (MkdirTemp [] "rootlesskit")) (Wrapf "creating a state directory: %w" [])
  else
    dir <-! filepath_Abs (f_state_dir f) ;;
    _ <-! parent.InitStateDir dir ;;
    Ret (Ok dir).

Definition check_mtu (f : Flags) : result unit :=
  if (f_mtu f <? 0) || (65521 <? f_mtu f) then Err (Errorf "mtu must be <= 65521, got %d" [AInt (f_mtu f)]) else Ok tt.

Definition check_ifname (f : Flags) : result unit :=
  if strings.Contains (f_ifname f) "/" then Err (errors_New (lit "ifname must not contain " ++ quoted "/")) else Ok tt.

Definition slirp_api_socket (f : Flags) (dir : str) : str :=
  if eqs (f_port_driver f) "slirp4netns" then filepath.Join [dir; lit ".s4nn.sock"] else [].

(** [exec.LookPath], for its error *)
Definition look (binary : str) : io (result unit) := _ <-! call (LookPath binary) ;; Ret (Ok tt).

Definition no_cidr_ifname (f : Flags) (ipnet : option IPNet) (net : string) : result unit :=
  guard? negb (bool_decide (is_Some ipnet)) orelse
    errors_New (lit "custom cidr is not supported for --net=" ++ lit net) ;;
  guard? bool_decide (f_ifname f = []) orelse
    errors_New (lit "ifname cannot be specified for --net=" ++ lit net) ;;
  Ok tt.

Definition slirp_sandbox (f : Flags) (feat : net_slirp.Features) : result bool :=
  let s := f_slirp4netns_sandbox f in
  if eqs s "auto" then Ok (net_slirp.SupportsEnableSandbox feat && negb (f_detach_netns f))
  else if eqs s "true" then
    if negb (net_slirp.SupportsEnableSandbox feat)
    then Err (errors_New "unsupported slirp4netns version: lacks SupportsEnableSandbox")
    else if f_detach_netns f
    then Err (errors_New "--slirp4netns-sandbox conflicts with --detach-netns (https://github.com/rootless-containers/slirp4netns/issues/317)")
    else Ok true
  else if eqs s "false" || bool_decide (s = []) then Ok false
  else Err (Errorf "unsupported slirp4netns-sandbox mode: %q" [AStr s]).

Definition slirp_seccomp (f : Flags) (feat : net_slirp.Features) : result bool :=
  let s := f_slirp4netns_seccomp f in
  if eqs s "auto" then Ok (net_slirp.SupportsEnableSeccomp feat && net_slirp.KernelSupportsEnableSeccomp feat)
  else if eqs s "true" then
    if negb (net_slirp.SupportsEnableSeccomp feat)
    then Err (errors_New "unsupported slirp4netns version: lacks SupportsEnableSeccomp")
    else if negb (net_slirp.KernelSupportsEnableSeccomp feat) then Err (errors_New "kernel doesn't support seccomp")
    else Ok true
  else if eqs s "false" || bool_decide (s = []) then Ok false
  else Err (Errorf "unsupported slirp4netns-seccomp mode: %q" [AStr s]).

(** One function per case of the [switch] on --net. *)
Definition net_host (f : Flags) (ipnet : option IPNet) : io (result NetworkDriver) :=
  Ret (_ <-? no_cidr_ifname f ipnet "host" ;; Ok NetNil).

Definition net_none (f : Flags) (ipnet : option IPNet) : io (result NetworkDriver) :=
  Ret (_ <-? no_cidr_ifname f ipnet "none" ;;
       guard? eqs (f_port_driver f) "none" || eqs (f_port_driver f) "builtin" orelse
         errors_New (lit "network " ++ quoted "none" ++ lit " requires either port driver " ++ quoted "none" ++ lit " or " ++ quoted "builtin") ;;
       Ok NetNone).

Definition net_pasta (f : Flags) (ipnet : option IPNet) : io (result NetworkDriver) :=
  _ <-! look (f_pasta_binary f) ;;
  if negb (eqs (f_port_driver f) "none" || eqs (f_port_driver f) "implicit")
  then fail (errors_New (lit "network " ++ quoted "pasta" ++ lit " requires port driver " ++ quoted "none" ++ lit " or " ++ quoted "implicit"))
  else
    d <-! net_pasta.NewParentDriver (f_pasta_binary f) (f_mtu f) ipnet (f_ifname f) (f_disable_host_loopback f)
            (f_ipv6 f) (eqs (f_port_driver f) "implicit") ;;
    Ret (Ok (NetPasta d)).

Definition net_slirp (f : Flags) (ipnet : option IPNet) (apiSocket : str) : io (result NetworkDriver) :=
  _ <-! look (f_slirp4netns_binary f) ;;
  feat <-! net_slirp.DetectFeatures (f_slirp4netns_binary f) ;;
  if f_disable_host_loopback f && negb (net_slirp.SupportsDisableHostLoopback feat)
  then fail (errors_New "unsupported slirp4netns version: lacks SupportsDisableHostLoopback")
  else if negb (bool_decide (apiSocket = [])) && negb (net_slirp.SupportsAPISocket feat)
  then fail (errors_New "unsupported slirp4netns version: lacks SupportsAPISocket")
  else
    sandbox <-! Ret (slirp_sandbox f feat) ;;
    seccomp <-! Ret (slirp_seccomp f feat) ;;
    d <-! net_slirp.NewParentDriver (net_slirp.mkParentDriver (f_slirp4netns_binary f) (f_mtu f) ipnet
            (f_disable_host_loopback f) apiSocket sandbox seccomp (f_ipv6 f) (f_ifname f)) ;;
    Ret (Ok (NetSlirp d)).

Definition net_vpnkit (f : Flags) (ipnet : option IPNet) : io (result NetworkDriver) :=
  if bool_decide (is_Some ipnet) then fail (errors_New "custom cidr is not supported for --net=vpnkit")
  else
    _ <-! look (f_vpnkit_binary f) ;;
    d <-! Ret (net_vpnkit.NewParentDriver (f_vpnkit_binary f) (f_mtu f) (f_ifname f) (f_disable_host_loopback f)) ;;
    Ret (Ok (NetVPNKit d)).

Definition net_lxc (f : Flags) (ipnet : option IPNet) : io (result NetworkDriver) :=
  if bool_decide (is_Some ipnet) then fail (errors_New "custom cidr is not supported for --net=lxc-user-nic")
  else
    _ <-! look (f_lxc_user_nic_binary f) ;;
    d <-! Ret (net_lxc.NewParentDriver (f_lxc_user_nic_binary f) (f_mtu f) (f_lxc_user_nic_bridge f) (f_ifname f)) ;;
    Ret (Ok (NetLXC d)).

(** The network when --cidr is not given *)
Definition gvisor_cidr (f : Flags) : result IPNet :=
  if negb (bool_decide (f_cidr f = [])) then
    n <-? parseCIDR (f_cidr f) ;;
    match n with Some n => Ok n | None => Err (Panic "nil network") end
  else n <-? ParseCIDR "10.0.2.0/24" ;; Ok n.2.

Definition net_gvisor (f : Flags) : io (result NetworkDriver) :=
  ipnet <-! Ret (gvisor_cidr f) ;;
  if f_ipv6 f then fail (errors_New "--ipv6 is not supported for gvisor-tap-vsock")
  else
    d <-! Ret (net_gvisor.NewParentDriver (f_mtu f) ipnet (f_ifname f) (f_disable_host_loopback f) (f_ipv6 f)) ;;
    Ret (Ok (NetGvisor d)).

Definition choose_net (f : Flags) (ipnet : option IPNet) (apiSocket : str) : io (result NetworkDriver) :=
  let s := f_net f in
  if eqs s "host" then net_host f ipnet
  else if eqs s "none" then net_none f ipnet
  else if eqs s "pasta" then net_pasta f ipnet
  else if eqs s "slirp4netns" then net_slirp f ipnet apiSocket
  else if eqs s "vpnkit" then net_vpnkit f ipnet
  else if eqs s "lxc-user-nic" then net_lxc f ipnet
  else if eqs s "gvisor-tap-vsock" then net_gvisor f
  else fail (Errorf "unknown network mode: %s" [AStr s]).

Definition choose_port (f : Flags) (net : NetworkDriver) (dir apiSocket : str) : io (result PortDriver) :=
  let s := f_port_driver f in
  if eqs s "none" then
    if bool_decide (f_publish f = []) then Ret (Ok PortNil)
    else fail (Errorf "port driver %q does not support publishing ports" [AStr s])
  else if eqs s "implicit" then
    if eqs (f_net f) "pasta" then Ret (Ok PortNil) else fail (errors_New "port driver requires pasta network")
  else if eqs s "slirp4netns" then
    if eqs (f_net f) "slirp4netns" then
      d <-! Ret (slirp4netns.NewParentDriver apiSocket) ;; Ret (Ok (PortSlirp d))
    else fail (errors_New "port driver requires slirp4netns network")
  else if eqs s "builtin" then
    if net_set net then
      d <-! builtin_NewDriver dir (f_source_ip_transparent f) ;; Ret (Ok (PortBuiltin d))
    else fail (errors_New "port driver requires non-host network")
  else if eqs s "gvisor-tap-vsock" then
    if net_set net then Ret (Ok (PortGvisor gvisortapvsock.NewParentDriver))
    else fail (errors_New "port driver requires non-host network")
  else fail (Errorf "unknown port driver: %s" [AStr s]).

(** The ports to publish. *)
Fixpoint publish_specs (l : list str) : result (list port.Spec) :=
  match l with
  | [] => Ok []
  | s :: l' =>
      spec <-? portutil.ParsePortSpec s ;;
      _ <-? portutil.ValidatePortSpec spec [] ;;
      specs <-? publish_specs l' ;;
      Ok (spec :: specs)
  end.

Definition createParentOpt (f : Flags) : io (result (parent.Opt * NetworkDriver * PortDriver)) :=
  _ <-! Ret (check_evacuate f) ;;
  dir <-! state_dir f ;;
  _ <-! Ret (check_mtu f) ;;
  ipnet <-! Ret (parseCIDR (f_cidr f)) ;;
  _ <-! Ret (check_ifname f) ;;
  let apiSocket := slirp_api_socket f dir in
  net <-! choose_net f ipnet apiSocket ;;
  port <-! choose_port f net dir apiSocket ;;
  specs <-! Ret (publish_specs (f_publish f)) ;;
  Ret (Ok (parent.mkOpt pipeFDEnvKey childUseActivationEnvKey dir stateDirEnvKey (net_set net) (port_set port) specs
             (f_pidns f) (f_cgroupns f) (f_utsns f) (f_ipcns f) (f_detach_netns f) parentEUIDEnvKey parentEGIDEnvKey
             (f_propagation f) (f_evacuate_cgroup2 f) (f_subid_source f), net, port)).

(** ** The options of the child *)
Definition child_reaper (f : Flags) : result bool :=
  let s := f_reaper f in
  if eqs s "auto" then Ok (f_pidns f)
  else if eqs s "true" then
    if f_pidns f then Ok true else Err (errors_New "reaper requires --pidns")
  else if eqs s "false" then Ok false
  else Err (Errorf "unknown reaper mode: %s" [AStr s]).

(** Whether there is a network driver in the child. *)
Definition child_net (f : Flags) : result bool :=
  let s := f_net f in
  if eqs s "host" || eqs s "none" then Ok false
  else if eqs s "pasta" || eqs s "slirp4netns" || eqs s "vpnkit" || eqs s "lxc-user-nic" || eqs s "gvisor-tap-vsock" then Ok true
  else Err (Errorf "unknown network mode: %s" [AStr s]).

Definition child_copy_up (f : Flags) : result bool :=
  let s := f_copy_up_mode f in
  if eqs s "tmpfs+symlink" then
    if negb (bool_decide (f_copy_up f = [])) && (eqs (f_propagation f) "rshared" || eqs (f_propagation f) "shared")
    then Err (Errorf "propagation %s does not support copy-up driver %s" [AStr (f_propagation f); AStr s])
    else Ok true
  else Err (Errorf "unknown copy-up mode: %s" [AStr s]).

Definition child_port (f : Flags) : result bool :=
  let s := f_port_driver f in
  if eqs s "none" || eqs s "implicit" then Ok false
  else if eqs s "slirp4netns" || eqs s "builtin" || eqs s "gvisor-tap-vsock" then Ok true
  else Err (Errorf "unknown port driver: %s" [AStr s]).

Definition createChildOpt (f : Flags) : result child.Opt :=
  reaper <-? child_reaper f ;;
  net <-? child_net f ;;
  copy <-? child_copy_up f ;;
  port <-? child_port f ;;
  Ok (child.mkOpt pipeFDEnvKey runActivationHelperEnvKey childUseActivationEnvKey stateDirEnvKey (f_args f)
        net copy (f_copy_up f) (f_detach_netns f) port (f_pidns f) (f_propagation f) reaper
        (negb (bool_decide (f_evacuate_cgroup2 f = [])))).

(** ** The role of the process *)
Definition checkUnshareHelper (args : list str) : bool :=
  match args with a :: _ => bool_decide (filepath.Base a = lit "unshare") | [] => false end.

Definition checkActivationHelper : io (result bool) :=
  v <- call (LookupEnv runActivationHelperEnvKey) ;;
  match v with
  | None => Ret (Ok false)
  | Some s =>
      match strconv.ParseBool s with
      | Ok b => Ret (Ok b)
      | Err _ => fail (Panic (lit "Env variable [" ++ runActivationHelperEnvKey ++ lit "] is set to [" ++ s ++ lit "] and cannot be parsed"))
      end
  end.

Definition unameM : io (result str) :=
  m <- call UnameMachine ;;
  match m with
  | Ok s => Ret (Ok (filter (fun c => c <> "000"%char) s))
  | Err _ => fail (Panic "uname")
  end.

Fixpoint first_stat (paths : list str) : io str :=
  match paths with
  | [] => Ret []
  | p :: paths' => r <- call (Stat p) ;; match r with Ok _ => Ret p | Err _ => first_stat paths' end
  end.

Definition lxcUserNicBin : io (result str) :=
  m <-! unameM ;;
  p <- first_stat [lit "/usr/libexec/lxc/lxc-user-nic";
                   lit "/usr/lib/" ++ m ++ lit "-linux-gnu/lxc/lxc-user-nic";
                   lit "/usr/lib/lxc/lxc-user-nic"] ;;
  Ret (Ok p).

(** pkg/systemd/activation *)
Definition ActivationHelper (runActivationHelperEnvKey : str) (TargetCmd : list str) : io (result unit) :=
  pid <- call Getpid ;;
  _ <- call (Unsetenv runActivationHelperEnvKey) ;;
  _ <- call (Setenv "LISTEN_PID" (strconv.Itoa pid)) ;;
  match TargetCmd with
  | [] => fail (Panic "index out of range")
  | cmd :: _ =>
      execPath <-! call (LookPath cmd) ;;
      env <- call Environ ;;
      call (Execve execPath TargetCmd env)
  end.

(** [--print-semver] *)
Definition print_semver (version s : str) : io (result unit) :=
  sv <-! wrapping (call (ParseSemver version)) (Wrapf "failed to parse version %q: %w" [AStr version]) ;;
  let '(major, minor, patch) := (sv : Z * Z * Z) in
  if eqs s "major" then _ <- call (Println (strconv.Itoa major)) ;; Ret (Ok tt)
  else if eqs s "minor" then _ <- call (Println (strconv.Itoa minor)) ;; Ret (Ok tt)
  else if eqs s "patch" then _ <- call (Println (strconv.Itoa patch)) ;; Ret (Ok tt)
  else fail (Errorf "expected --print-semver=(major|minor|patch), got %q" [AStr s]).

(** [app.Action] *)
Definition Action (fuel zombies : nat) (version : str) (iAmActivationHelper iAmChild : bool) (f : Flags) : io (result unit) :=
  if negb (bool_decide (f_print_semver f = [])) then print_semver version (f_print_semver f)
  else if bool_decide (f_args f = []) then fail (errors_New "no command specified")
  else if iAmActivationHelper then ActivationHelper runActivationHelperEnvKey (f_args f)
  else if iAmChild then
    opt <-! Ret (createChildOpt f) ;;
    _ <-! child.Child fuel zombies opt ;; Ret (Ok tt)
  else
    o <-! createParentOpt f ;;
    parent.Parent (o : parent.Opt * NetworkDriver * PortDriver).1.1.

(** The exit status of [main]. *)
Definition exit_code (r : result unit) : Z :=
  match r with
  | Ok _ => 0
  | Err e => default 1 (common.GetExecExitStatus e)
  end.

(** [unshare.Main] *)
Definition unshare_action (netns : bool) (args : list str) : io (result unit) :=
  match args with
  | [] => fail (errors_New "no command specified")
  | _ =>
      pid <-! call (StartCmd (mkCmd args None [] (if netns then CLONE_NEWNET else 0) 0 false false)) ;;
      call (WaitCmd pid)
  end.

(** [main]: [parse] reads the command line into flags, given the default of
    --lxc-user-nic-binary; [parse_unshare] that of the unshare helper.  The
    result is the exit status, a panic in a helper ends with status 2. *)
Definition main (fuel zombies : nat) (version : str) (parse : str -> list str -> result Flags)
    (parse_unshare : list str -> result (bool * list str)) : io Z :=
  args <- call OsArgs ;;
  if checkUnshareHelper args then
    r <- match parse_unshare args with Ok (n, a) => unshare_action n a | Err e => fail e end ;;
    Ret (exit_code r)
  else
    h <- checkActivationHelper ;;
    match h with
    | Err _ => Ret 2
    | Ok iAmActivationHelper =>
        pipefd <- call (Getenv pipeFDEnvKey) ;;
        bin <- lxcUserNicBin ;;
        match bin with
        | Err _ => Ret 2
        | Ok bin =>
            r <- match parse bin args with
                 | Ok f => Action fuel zombies version iAmActivationHelper (negb (bool_decide (pipefd = []))) f
                 | Err e => fail e
                 end ;;
            Ret (exit_code r)
        end
    end.

End cli.
Import cli.

(** ** What the options of the two processes have in common *)

Lemma eqs_true s l : eqs s l = true -> s = lit l.
Proof. apply bool_decide_eq_true_1. Qed.

(** Cases on the choice of a driver by name. *)
Ltac case_eqs :=
  match goal with
  | |- context [eqs ?s ?l] => let E := fresh "E" in destruct (eqs s l) eqn:E
  end.

(** The value of --net that selects a driver. *)
Definition net_name (d : NetworkDriver) : str :=
  match d with
  | NetNil => "host" | NetNone => "none" | NetPasta _ => "pasta" | NetSlirp _ => "slirp4netns"
  | NetVPNKit _ => "vpnkit" | NetLXC _ => "lxc-user-nic" | NetGvisor _ => "gvisor-tap-vsock"
  end.

(** And the values of --port-driver. *)
Definition port_names (d : PortDriver) : list str :=
  match d with
  | PortNil => [lit "none"; lit "implicit"] | PortSlirp _ => [lit "slirp4netns"]
  | PortBuiltin _ => [lit "builtin"] | PortGvisor _ => [lit "gvisor-tap-vsock"]
  end.

(** Which values of --port-driver are accepted with a network. *)
Definition port_drivers_of (net : NetworkDriver) : list str :=
  match net with
  | NetNil => [lit "none"]
  | NetNone => [lit "none"; lit "builtin"]
  | NetPasta _ => [lit "none"; lit "implicit"]
  | NetSlirp _ => [lit "none"; lit "slirp4netns"; lit "builtin"; lit "gvisor-tap-vsock"]
  | NetVPNKit _ | NetLXC _ | NetGvisor _ => [lit "none"; lit "builtin"; lit "gvisor-tap-vsock"]
  end.

(** A list of strings, one by one. *)
Ltac in_list := repeat (apply list_elem_of_here || apply list_elem_of_further).

Ltac kind_of f E := unfold child_net; apply eqs_true in E; rewrite E; reflexivity.

(** What the choice of the network driver guarantees. *)
Record net_ok (f : Flags) (apiSocket : str) (d : NetworkDriver) : Prop := {
  net_ok_child : child_net f = Ok (match d with NetNil | NetNone => false | _ => true end);
  net_ok_name : f_net f = net_name d;
  net_ok_slirp : if eqs (f_net f) "slirp4netns"
                 then exists n, d = NetSlirp n /\ net_slirp.apiSocketPath n = apiSocket /\
                        (net_slirp.enableSandbox n = true -> f_detach_netns f = false)
                 else forall n, d <> NetSlirp n;
  net_ok_port : match d with
                | NetPasta p => net_pasta.implicitPortForwarding p = eqs (f_port_driver f) "implicit" /\
                    (f_port_driver f = lit "none" \/ f_port_driver f = lit "implicit")
                | NetNone => f_net f = lit "none" /\ (f_port_driver f = lit "none" \/ f_port_driver f = lit "builtin")
                | _ => True
                end;
  net_ok_mtu : match d with
               | NetNil | NetNone => True
               | NetPasta p => 0 < net_pasta.mtu p <= 65521
               | NetSlirp p => 0 < net_slirp.mtu p <= 65521
               | NetVPNKit p => 0 < net_vpnkit.mtu p <= 65521
               | NetLXC p => 0 < net_lxc.mtu p <= 65521
               | NetGvisor p => 0 < net_gvisor.mtu p <= 65521
               end;
}.

Definition default_mtu (mtu def : Z) : Z := if mtu =? 0 then def else mtu.

Lemma pasta_New binary mtu ipnet ifname dhl v6 implicit :
  returns (net_pasta.NewParentDriver binary mtu ipnet ifname dhl v6 implicit)
    (fun p => net_pasta.implicitPortForwarding p = implicit /\ net_pasta.mtu p = default_mtu mtu 65520).
Proof.
  unfold net_pasta.NewParentDriver. case_bool_decide; [done|]. destruct (mtu <? 0); [done|].
  destruct (match ipnet with Some n => Ok n | None => _ end) as [n|e]; [|done].
  apply returns_seq. intros feat. done.
Qed.

Lemma slirp_New d :
  returns (net_slirp.NewParentDriver d)
    (fun p => net_slirp.apiSocketPath p = net_slirp.apiSocketPath d /\
       net_slirp.enableSandbox p = net_slirp.enableSandbox d /\
       net_slirp.mtu p = default_mtu (net_slirp.mtu d) 65520).
Proof.
  unfold net_slirp.NewParentDriver. case_bool_decide; [done|]. destruct (net_slirp.mtu d <? 0); [done|].
  apply returns_seq. intros feat. simpl. destruct (net_slirp.check_features _ _) as [[]|e]; simpl; done.
Qed.

Lemma check_mtu_ok f : check_mtu f = Ok tt -> 0 <= f_mtu f <= 65521.
Proof.
  unfold check_mtu. destruct (Z.ltb_spec (f_mtu f) 0); [discriminate|]. simpl.
  destruct (Z.ltb_spec 65521 (f_mtu f)); [discriminate|]. lia.
Qed.

Lemma default_mtu_range f def :
  check_mtu f = Ok tt -> 0 < def <= 65521 -> 0 < default_mtu (f_mtu f) def <= 65521.
Proof. intros H%check_mtu_ok Hd. unfold default_mtu. destruct (Z.eqb_spec (f_mtu f) 0); lia. Qed.

Lemma slirp_sandbox_ok f feat b : slirp_sandbox f feat = Ok b -> b = true -> f_detach_netns f = false.
Proof.
  unfold slirp_sandbox. case_eqs; [by intros [= <-] [_ H%negb_true_iff]%andb_true_iff|].
  case_eqs. { destruct (negb _); [done|]. destruct (f_detach_netns f); done. }
  destruct (_ || _); [by intros [= <-]|done].
Qed.

Lemma choose_net_ok f ipnet apiSocket :
  check_mtu f = Ok tt -> returns (choose_net f ipnet apiSocket) (net_ok f apiSocket).
Proof.
  intros Hm. pose proof (default_mtu_range f) as Hmtu.
  assert (forall def, 0 < def <= 65521 -> 0 < default_mtu (f_mtu f) def <= 65521) as Hd by auto. clear Hmtu.
  unfold choose_net. cbv zeta.
  case_eqs. { unfold net_host. destruct (no_cidr_ifname _ _ _); [|done]. simpl. split; try done; try (by apply eqs_true); [kind_of f E|].
    by rewrite (eqs_true _ _ E). }
  case_eqs. { unfold net_none. destruct (no_cidr_ifname _ _ _); [|done]. simpl.
    destruct (eqs (f_port_driver f) "none" || eqs (f_port_driver f) "builtin") eqn:Ep; [|done]. simpl. split; try done; try (by apply eqs_true).
    - kind_of f E0.
    - by rewrite (eqs_true _ _ E0).
    - split; [by apply eqs_true|]. apply orb_true_iff in Ep as [H|H]; apply eqs_true in H; auto. }
  case_eqs. { unfold net_pasta. apply returns_seq. intros _.
    destruct (eqs (f_port_driver f) "none" || eqs (f_port_driver f) "implicit") eqn:Ep; [|done]. cbn [negb].
    apply returns_ebind. eapply returns_mono; [apply pasta_New|]. intros d [Hi Hmtu]. split; try done; try (by apply eqs_true).
    - kind_of f E1.
    - by rewrite (eqs_true _ _ E1).
    - split; [done|]. apply orb_true_iff in Ep as [H|H]; apply eqs_true in H; auto.
    - cbn. rewrite Hmtu. by apply Hd. }
  case_eqs. { unfold net_slirp. apply returns_seq. intros _. apply returns_seq. intros feat.
    destruct (_ && _); [done|]. destruct (_ && _); [done|].
    apply returns_ret. intros sb Hsb. apply returns_ret. intros sc _.
    apply returns_ebind. eapply returns_mono; [apply slirp_New|]. intros d (Ha & Hs & Hmtu). split; try done; try (by apply eqs_true).
    - kind_of f E2.
    - rewrite E2. exists d. split; [done|]. split; [done|]. rewrite Hs. by eapply slirp_sandbox_ok.
    - cbn. rewrite Hmtu. by apply Hd. }
  case_eqs. { unfold net_vpnkit. destruct (bool_decide _); [done|]. apply returns_seq. intros _.
    apply returns_ret. unfold net_vpnkit.NewParentDriver. case_bool_decide; [done|]. destruct (_ <? 0); [done|].
    intros d [= <-]. split; try done; try (by apply eqs_true); [kind_of f E3| |by apply Hd]. by rewrite E2. }
  case_eqs. { unfold net_lxc. destruct (bool_decide _); [done|]. apply returns_seq. intros _.
    apply returns_ret. unfold net_lxc.NewParentDriver. case_bool_decide; [done|]. destruct (_ <? 0); [done|].
    case_bool_decide; [done|].
    intros d [= <-]. split; try done; try (by apply eqs_true); [kind_of f E4| |by apply Hd]. by rewrite E2. }
  case_eqs; [|done]. unfold net_gvisor. apply returns_ret. intros n _. destruct (f_ipv6 f); [done|].
  apply returns_ret. unfold net_gvisor.NewParentDriver. destruct (_ <? 0); [done|].
  intros d [= <-]. split; try done; try (by apply eqs_true); [kind_of f E5| |by apply Hd]. by rewrite E2.
Qed.

(** What the choice of the port driver guarantees. *)
Record port_ok (f : Flags) (net : NetworkDriver) (dir apiSocket : str) (d : PortDriver) : Prop := {
  port_ok_child : child_port f = Ok (port_set d);
  port_ok_name : f_port_driver f ∈ port_names d;
  port_ok_net : f_port_driver f ∈ port_drivers_of net;
  port_ok_kind : match d with
                 | PortNil => f_publish f = [] \/ f_port_driver f = lit "implicit" /\ f_net f = lit "pasta"
                 | PortSlirp p => f_net f = lit "slirp4netns" /\ f_port_driver f = lit "slirp4netns" /\
                     slirp4netns.apiSocketPath p = apiSocket /\ apiSocket <> []
                 | PortBuiltin p => p = builtin.NewDriver dir (f_source_ip_transparent f)
                 | PortGvisor p => p = gvisortapvsock.NewParentDriver
                 end;
}.

Ltac port_child E := unfold child_port; rewrite E; reflexivity.

Lemma choose_port_ok f net dir apiSocket apiSocket' :
  net_ok f apiSocket' net -> returns (choose_port f net dir apiSocket) (port_ok f net dir apiSocket).
Proof.
  intros Hn. pose proof (net_ok_port _ _ _ Hn) as Hp. pose proof (net_ok_name _ _ _ Hn) as Hname. clear Hn.
  unfold choose_port. cbv zeta.
  case_eqs. { case_bool_decide; [|done]. apply eqs_true in E. split; try (by left); rewrite ?E; try port_child E.
    - in_list.
    - destruct net; in_list. }
  case_eqs. { case_eqs; [|done]. apply eqs_true in E0, E1. split; try (by right); rewrite ?E0; try port_child E0.
    - in_list.
    - rewrite E1 in Hname. destruct net; try discriminate. in_list. }
  case_eqs. { case_eqs; [|done]. apply returns_ret. intros d. unfold slirp4netns.NewParentDriver.
    case_bool_decide; [done|]. intros [= <-]. apply eqs_true in E1, E2. split; rewrite ?E1; try done; try port_child E1.
    - in_list.
    - rewrite E2 in Hname. destruct net; try discriminate. in_list. }
  case_eqs. { destruct (net_set net) eqn:En; [|done]. apply eqs_true in E2. apply returns_ebind.
    unfold builtin_NewDriver. cbv zeta. apply returns_seq. intros _. apply returns_seq. intros _.
    split; rewrite ?E2; try done; try port_child E2.
    - in_list.
    - destruct net as [| |p|p|p|p|p]; try discriminate; try in_list.
      by destruct Hp as [_ [H|H]]; rewrite H in E2. }
  case_eqs; [|done]. destruct (net_set net) eqn:En; [|done]. apply eqs_true in E3.
  split; rewrite ?E3; try done; try port_child E3.
  - in_list.
  - destruct net as [| |p|p|p|p|p]; try discriminate; try in_list;
      by destruct Hp as [_ [H|H]]; rewrite H in E3.
Qed.

Lemma publish_specs_valid l specs :
  publish_specs l = Ok specs ->
  Forall (fun p => portutil.ValidatePortSpec p [] = Ok tt) specs /\ Forall2 (fun s p => portutil.ParsePortSpec s = Ok p) l specs.
Proof.
  revert specs; induction l as [|s l IH]; intros specs; simpl; [by intros [= <-]|].
  destruct (portutil.ParsePortSpec s) as [p|e] eqn:Ep; simpl; [|done].
  destruct (portutil.ValidatePortSpec p []) as [[]|e] eqn:Ev; simpl; [|done].
  destruct (publish_specs l) as [ps|e]; simpl; [|done]. intros [= <-].
  destruct (IH ps eq_refl). split; by constructor.
Qed.

(** What holds of the options of an accepted command line. *)
Record parent_options (f : Flags) (opt : parent.Opt) (net : NetworkDriver) (port : PortDriver) : Prop := {
  po_mtu : check_mtu f = Ok tt;
  po_evac : check_evacuate f = Ok tt;
  po_net : net_ok f (slirp_api_socket f (parent.StateDir opt)) net;
  po_port : port_ok f net (parent.StateDir opt) (slirp_api_socket f (parent.StateDir opt)) port;
  po_specs : publish_specs (f_publish f) = Ok (parent.PublishPorts opt);
  po_opt : opt = parent.mkOpt pipeFDEnvKey childUseActivationEnvKey (parent.StateDir opt) stateDirEnvKey
             (net_set net) (port_set port) (parent.PublishPorts opt)
             (f_pidns f) (f_cgroupns f) (f_utsns f) (f_ipcns f) (f_detach_netns f) parentEUIDEnvKey parentEGIDEnvKey
             (f_propagation f) (f_evacuate_cgroup2 f) (f_subid_source f);
}.

Lemma createParentOpt_ok f :
  returns (createParentOpt f) (fun o => parent_options f o.1.1 o.1.2 o.2).
Proof.
  unfold createParentOpt. apply returns_ret. intros [] He. apply returns_seq. intros dir.
  apply returns_ret. intros [] Hm. apply returns_ret. intros ipnet _. apply returns_ret. intros [] _.
  apply returns_ebind. eapply returns_mono; [by apply choose_net_ok|]. intros net Hnet.
  apply returns_ebind. eapply returns_mono; [by eapply choose_port_ok|]. intros pd Hport.
  apply returns_ret. intros specs Hs. by split.
Qed.

(** The child has a network driver unless the network is that of the host or
    the driver is [none]. *)
Lemma net_ok_agrees f apiSocket d :
  net_ok f apiSocket d ->
  child_net f = Ok (net_set d && negb (eqs (f_net f) "none")).
Proof.
  intros [Hc _ _ Hp _]. rewrite Hc. f_equal. destruct (eqs (f_net f) "none") eqn:E.
  - apply eqs_true in E. unfold child_net in Hc. rewrite E in Hc. cbn in Hc. injection Hc as <-. by rewrite andb_false_r.
  - rewrite andb_true_r. destruct d; try done. destruct Hp as [Hn _]. unfold eqs in E. by rewrite Hn in E.
Qed.

(** C8: the options that the parent and the child make from the same flags
    agree wherever they must: the environment variables have the same names,
    the child has a port driver exactly when the parent has one, and a network
    driver exactly when the parent has one other than the driver [none]; the
    child mounts procfs if and only if a PID namespace is created, reaps only
    then, and evacuates its cgroup exactly when the parent does.  When the
    child rejects flags that the parent has accepted, it is because of the
    reaper or the copy-up mode. *)
Theorem cli_options_agree f t opt net port :
  behaves (createParentOpt f) t (Ok (opt, net, port)) ->
  match createChildOpt f with
  | Ok copt =>
      child.PipeFDEnvKey copt = parent.PipeFDEnvKey opt /\
      child.StateDirEnvKey copt = parent.StateDirEnvKey opt /\
      child.ChildUseActivationEnvKey copt = parent.ChildUseActivationEnvKey opt /\
      child.PortDriver copt = parent.PortDriver opt /\
      child.NetworkDriver copt = (parent.NetworkDriver opt && negb (eqs (f_net f) "none")) /\
      child.DetachNetNS copt = parent.DetachNetNS opt /\
      child.Propagation copt = parent.Propagation opt /\
      child.MountProcfs copt = parent.CreatePIDNS opt /\
      (child.Reaper copt = true -> parent.CreatePIDNS opt = true) /\
      (child.EvacuateCgroup2 copt = true <-> parent.EvacuateCgroup2 opt <> []) /\
      child.TargetCmd copt = f_args f
  | Err _ => is_ok (child_reaper f) = false \/ is_ok (child_copy_up f) = false
  end.
Proof.
  intros Hb. destruct (returns_behaves _ _ _ _ (createParentOpt_ok f) Hb) as [_ _ Hnet Hport _ Ho].
  cbn [fst snd] in *. pose proof (net_ok_agrees _ _ _ Hnet) as Hcn. pose proof (port_ok_child _ _ _ _ _ Hport) as Hcp.
  unfold createChildOpt. rewrite Hcn, Hcp. cbn [rbind].
  destruct (child_reaper f) as [rp|e] eqn:Er; [|by left].
  destruct (child_copy_up f) as [cu|e] eqn:Ec; [|by right]. cbn. rewrite Ho. cbn.
  repeat split; try done.
  - unfold child_reaper in Er. revert Er. case_eqs; [by intros [= <-]|]. case_eqs; [by destruct (f_pidns f)|].
    case_eqs; [|done]. by intros [= <-].
  - intros H E. rewrite E in H. done.
  - intros H. by apply negb_true_iff, bool_decide_eq_false_2.
Qed.

(** C18: which drivers a command line selects.  When it is accepted, the network
    driver is the one that --net names and the port driver the one that
    --port-driver names, none for [none] and [implicit]; the two are one of the
    pairs of [port_drivers_of], in particular a port driver comes with a network
    driver, the port driver slirp4netns with the network of that name, and
    [implicit] with pasta, which then forwards ports by itself; the port driver
    gvisor-tap-vsock is accepted with networks of other names, too.  The
    slirp4netns port driver talks to the API socket of its network driver;
    slirp4netns runs in its sandbox only without --detach-netns; every driver
    gets an MTU between 1 and 65521; evacuating the cgroup comes with a PID and a
    cgroup namespace; the published ports are the valid ones of the command
    line, in order, of which there are none with [none] (with [implicit] they
    are accepted without a driver to publish them). *)
Theorem cli_drivers_accepted f t opt net port :
  behaves (createParentOpt f) t (Ok (opt, net, port)) ->
  f_net f = net_name net /\ f_port_driver f ∈ port_names port /\ f_port_driver f ∈ port_drivers_of net /\
  parent.NetworkDriver opt = net_set net /\ parent.PortDriver opt = port_set port /\
  match port with
  | PortNil => f_port_driver f = lit "none" -> parent.PublishPorts opt = []
  | PortSlirp p => exists n, net = NetSlirp n /\ slirp4netns.apiSocketPath p = net_slirp.apiSocketPath n /\
      slirp4netns.apiSocketPath p <> []
  | PortBuiltin p => p = builtin.NewDriver (parent.StateDir opt) (f_source_ip_transparent f)
  | PortGvisor p => p = gvisortapvsock.NewParentDriver
  end /\
  match net with
  | NetNil | NetNone => True
  | NetPasta p => 0 < net_pasta.mtu p <= 65521 /\
      net_pasta.implicitPortForwarding p = eqs (f_port_driver f) "implicit"
  | NetSlirp p => 0 < net_slirp.mtu p <= 65521 /\
      (net_slirp.enableSandbox p = true -> parent.DetachNetNS opt = false)
  | NetVPNKit p => 0 < net_vpnkit.mtu p <= 65521
  | NetLXC p => 0 < net_lxc.mtu p <= 65521
  | NetGvisor p => 0 < net_gvisor.mtu p <= 65521
  end /\
  (parent.EvacuateCgroup2 opt <> [] -> parent.CreatePIDNS opt = true /\ parent.CreateCgroupNS opt = true) /\
  Forall (fun p => portutil.ValidatePortSpec p [] = Ok tt) (parent.PublishPorts opt) /\
  Forall2 (fun s p => portutil.ParsePortSpec s = Ok p) (f_publish f) (parent.PublishPorts opt).
Proof.
  intros Hb. destruct (returns_behaves _ _ _ _ (createParentOpt_ok f) Hb) as [_ He Hnet Hport Hs Ho].
  cbn [fst snd] in *. apply publish_specs_valid in Hs as [Hv Hp].
  destruct Hnet as [_ Hnm Hsl Hnp Hmtu]. destruct Hport as [_ Hpn Hpd Hpk].
  split_and!; [done|done|done|by rewrite Ho|by rewrite Ho| | | |done..].
  - destruct port as [|p|p|p]; [| |done..].
    + intros E. destruct Hpk as [Hpk|[Hpk _]]; [|by rewrite E in Hpk]. rewrite Hpk in Hp. by inversion Hp.
    + destruct Hpk as (Hn & _ & Ha & Hne). rewrite Hn in Hsl. destruct Hsl as (n & -> & Han & _).
      exists n. split; [done|]. split; [congruence|]. by rewrite Ha.
  - destruct net as [| |p|p|p|p|p]; try done.
    + split; [done|]. by destruct Hnp.
    + split; [done|]. rewrite Ho. cbn. destruct (eqs (f_net f) "slirp4netns").
      * destruct Hsl as (n & [= <-] & _ & Hsb). done.
      * by destruct (Hsl p).
  - rewrite Ho. cbn. intros Hne. unfold check_evacuate in He. rewrite bool_decide_eq_false_2 in He by done.
    destruct (f_cgroupns f), (f_pidns f); done.
Qed.

(** A command line with the slirp4netns drivers, and a kernel that accepts it. *)
Definition test_flags : Flags :=
  mkFlags "slirp4netns" "slirp4netns" [] "pasta" "slirp4netns" "auto" "false" "vpnkit" [] "lxcbr0" 0 [] [] false false
    [lit "/etc"] "tmpfs+symlink" [lit "127.0.0.1:8080:80/tcp"] true true true false false false "rprivate" "auto" "evac" "auto" []
    [lit "sh"].

Definition cli_kernel (c : sys) : res c :=
  match c return res c with
  | MkdirTemp _ _ => Ok (lit "/tmp/rootlesskit1")
  | CombinedOutput _ => (lit "--netns-type --cidr --disable-host-loopback --api-socket --enable-sandbox --enable-seccomp", None)
  | c => ok_kernel c
  end.

Theorem cli_options_agree_witness :
  match createChildOpt test_flags, (exec cli_kernel (createParentOpt test_flags)).1 with
  | Ok copt, Ok (opt, _, _) =>
      child.PortDriver copt = parent.PortDriver opt /\ parent.PortDriver opt = true /\ child.Reaper copt = true
  | _, _ => False
  end.
Proof.
  destruct (exec_behaves cli_kernel (createParentOpt test_flags)) as (t & Hb & _).
  destruct (exec cli_kernel (createParentOpt test_flags)).1 as [[[opt net] port]|e] eqn:E; [|vm_compute in E; discriminate].
  pose proof (cli_options_agree _ _ _ _ _ Hb) as H.
  destruct (createChildOpt test_flags) as [copt|e] eqn:Ec; [|vm_compute in Ec; discriminate].
  destruct H as (_ & _ & _ & Hp & _). split; [exact Hp|].
  vm_compute in E. injection E as <- <- <-. vm_compute in Ec. injection Ec as <-. split; reflexivity.
Defined.

Theorem cli_drivers_accepted_witness :
  match (exec cli_kernel (createParentOpt test_flags)).1 with
  | Ok (opt, net, PortSlirp p) =>
      exists n, net = NetSlirp n /\ slirp4netns.apiSocketPath p = net_slirp.apiSocketPath n /\
        net_slirp.enableSandbox n = true /\ length (parent.PublishPorts opt) = 1%nat
  | _ => False
  end.
Proof.
  destruct (exec_behaves cli_kernel (createParentOpt test_flags)) as (t & Hb & _).
  destruct (exec cli_kernel (createParentOpt test_flags)).1 as [[[opt net] port]|e] eqn:E; [|vm_compute in E; discriminate].
  destruct (cli_drivers_accepted _ _ _ _ _ Hb) as (_ & _ & _ & _ & _ & Hp & _). vm_compute in E. injection E as <- <- <-.
  destruct Hp as (n & Hn & Ha & _). exists n. split; [exact Hn|]. split; [exact Ha|]. injection Hn as <-. split; reflexivity.
Defined.

(** All pairs of [port_drivers_of] are accepted, if with a CIDR or a binary that
    the driver needs. *)
Definition pair_flags (net driver : str) : Flags :=
  mkFlags net driver "slirp4netns" "pasta" "slirp4netns" "auto" "auto" "vpnkit" "lxc-user-nic" "lxcbr0" 0 [] [] false false
    [] "tmpfs+symlink" [] true false false false false false "rprivate" "auto" [] "auto" [] [lit "sh"].

Lemma accepted_pairs :
  Forall (fun p => match (exec cli_kernel (createParentOpt (pair_flags p.1 p.2))).1 with
                   | Ok (_, net, _) => net_name net = p.1 /\ p.2 ∈ port_drivers_of net
                   | Err _ => False
                   end)
    (map (pair (lit "host")) [lit "none"] ++ map (pair (lit "none")) [lit "none"; lit "builtin"] ++
     map (pair (lit "pasta")) [lit "none"; lit "implicit"] ++
     map (pair (lit "slirp4netns")) [lit "none"; lit "slirp4netns"; lit "builtin"; lit "gvisor-tap-vsock"] ++
     n ← [lit "vpnkit"; lit "lxc-user-nic"; lit "gvisor-tap-vsock"];
     map (pair n) [lit "none"; lit "builtin"; lit "gvisor-tap-vsock"]).
Proof. vm_compute. repeat constructor. Qed.

(** A flag that is rejected after the state directory has been made leaves it
    behind: nothing removes it. *)
Lemma rejected_leaves_state_dir :
  let f := mkFlags "host" "none" [] [] [] [] [] [] [] [] 70000 [] [] false false [] "tmpfs+symlink" [] true
             false false false false false "rprivate" "auto" [] "auto" [] [lit "sh"] in
  exec ok_kernel (Action 10 10 "3.0.0" false false f) =
  (Err (Errorf "mtu must be <= 65521, got %d" [AInt 70000]), [MkdirTemp [] "rootlesskit"]).
Proof. reflexivity. Qed.

(** With the port driver [implicit] the published ports are accepted, and never
    published. *)
Lemma implicit_ignores_publish :
  let f := mkFlags "pasta" "implicit" [] "pasta" [] [] [] [] [] [] 0 [] [] false false [] "tmpfs+symlink"
             [lit "127.0.0.1:8080:80/tcp"] true false false false false false "rprivate" "auto" [] "auto" [] [lit "sh"] in
  match (exec cli_kernel (createParentOpt f)).1 with
  | Ok (opt, _, _) => length (parent.PublishPorts opt) = 1%nat /\ parent.PortDriver opt = false
  | Err _ => False
  end.
Proof. vm_compute. split; reflexivity. Qed.
