(* ===== verification/ExitStatus.v ===== *)
(** * The exit status of the target command

    The status of the target command is the exit status of the child process,
    and that of the child the exit status of the parent: [rootlesskit CMD] ends
    with the status of CMD.  [target] reads what a process was told of the one it
    started, and of its own shutdown, off its trace. *)
From S2P Require Import Prelude GoStrings NetIP PortSpec Effects Framing Messages Sessions SubID Sys Cgroup Parent Child Cli.
Import messages.
Import Sys.
Import cli.

(** A wait status that is not success: the process was killed, or exited with
    another status than 0. *)
Definition failed (ws : WaitStatus) : bool := negb (common.Exited ws && (common.ExitStatus ws =? 0)).

(** The process that was started last, the wait status reported for it, and the
    error of the first step of the shutdown that failed after it: closing the
    API server, or the port driver.  [Wait] of a command is without an error
    just when the status is 0.  [no_driver] says that the parent's port driver
    returned before it was ready. *)
Record waiting : Set := mkWaiting
  { started : option Z; status : option WaitStatus; later : option error; no_driver : bool }.

Definition reported (s : waiting) (ws : WaitStatus) : waiting := mkWaiting (started s) (Some ws) (later s) (no_driver s).

Definition shutdown_step (s : waiting) (r : result unit) : waiting :=
  match status s, later s, r with
  | Some _, None, Err e => mkWaiting (started s) (status s) (Some e) (no_driver s)
  | _, _, _ => s
  end.

Definition status_step (s : waiting) (c : sys) : res c -> option waiting :=
  match c return res c -> option waiting with
  | StartCmd _ => fun r =>
      match r with Ok pid => Some (mkWaiting (Some pid) None None false) | Err _ => Some s end
  | WaitCmd pid => fun r =>
      match r with
      | Ok _ => Some (reported s 0)
      | Err (Exit ws) => Some (if failed ws then reported s ws else s)
      | Err _ => Some s
      end
  | Wait4 => fun r =>
      match r with
      | Ok (pid, ws) =>
          if (0 <? pid) && bool_decide (started s = Some pid) then Some (reported s ws) else Some s
      | Err _ => Some s
      end
  | CloseServer => fun r => Some (shutdown_step s r)
  | PortDriverErr => fun r => Some (shutdown_step s r)
  | WaitPortDriver => fun r =>
      match r with
      | Some _ => Some (mkWaiting (started s) (status s) (later s) true)
      | None => Some s
      end
  | _ => fun _ => Some s
  end.

Definition nothing_started : waiting := mkWaiting None None None false.

(** What the calls of a process say of the process it has started. *)
Definition target (t : @trace sys res) : waiting := default nothing_started (steps status_step nothing_started t).

(** The result of the process: the status of a failed target; after a status
    of 0 success, or the error of the step of the shutdown that failed; an
    error when the target was started and its status was not learnt, unless the
    port driver of the parent returned early. *)
Definition carries {A} (r : result A) (s : waiting) : Prop :=
  match status s with
  | None => started s = None \/ no_driver s = true \/ exists e, r = Err e
  | Some ws =>
      if failed ws then exists e, r = Err e /\ errors_Unwrap e = Some (Exit ws)
      else match later s with
           | None => exists a, r = Ok a
           | Some e => exists e', r = Err e' /\ (e' = e \/ errors_Unwrap e' = Some e)
           end
  end.

Definition no_wait (c : sys) : bool :=
  match c with StartCmd _ | WaitCmd _ | Wait4 | CloseServer | PortDriverErr | WaitPortDriver => false | _ => true end.

Abbreviation stracks := (tracks status_step).

Lemma no_wait_status s c r : no_wait c = true -> status_step s c r = Some s.
Proof. by destruct c. Qed.

Lemma carries_err {A} e s : status s = None -> carries (Err e : result A) s.
Proof. intros Hs. unfold carries. rewrite Hs. do 2 right. by eexists. Qed.

Lemma stracks_quiet {A} (p : io A) s (Q : A -> waiting -> Prop) :
  only no_wait p -> (forall a, Q a s) -> stracks p s Q.
Proof. intros Hp. by apply (tracks_only _ no_wait); [|apply no_wait_status]. Qed.

Lemma stracks_seq {A B} (p : io (result A)) (k : A -> io (result B)) s :
  only no_wait p -> status s = None -> (forall a, stracks (k a) s carries) -> stracks (ebind p k) s carries.
Proof.
  intros Hp Hs. apply (tracks_quiet_ebind _ no_wait); [apply no_wait_status|done|]. intros e. by apply carries_err.
Qed.

Lemma stracks_step {A B} (p : io A) (k : A -> io (result B)) s :
  only no_wait p -> (forall a, stracks (k a) s carries) -> stracks (bind p k) s carries.
Proof. by apply (tracks_quiet_bind _ no_wait), no_wait_status. Qed.

Lemma stracks_fail {A} (e : error) s : status s = None -> stracks (fail e : io (result A)) s carries.
Proof. apply carries_err. Qed.

(** ** The child *)

(** The result is the status. *)
Definition direct (r : result unit) (s : waiting) : Prop :=
  later s = None /\
  match status s with
  | None => exists e, r = Err e
  | Some ws => r = child.reap_result ws
  end.

Lemma reap_result_failed ws : child.reap_result ws = if failed ws then Err (Exit ws) else Ok tt.
Proof. unfold child.reap_result, failed. by destruct (_ && _). Qed.

Lemma direct_err e s : later s = None -> status s = None -> direct (Err e) s.
Proof. intros Hl Hs. split; [done|]. rewrite Hs. by eexists. Qed.

Lemma stracks_reap fuel pid s :
  started s = Some pid -> later s = None ->
  stracks (child.reap fuel pid (status s)) s
    (fun r s' => started s' = Some pid /\ later s' = None /\ status s' = r).
Proof.
  revert s; induction fuel as [|fuel IH]; intros s Hs Hl; simpl; [done|].
  intros [[q ws]|e]; simpl; [|done]. destruct (Z.ltb_spec 0 q) as [Hq|Hq]; simpl.
  - rewrite (proj2 (Z.leb_gt q 0)) by lia. rewrite Hs. case_bool_decide as E; simpl.
    + injection E as ->. rewrite Z.eqb_refl. by apply (IH (reported s ws)).
    + rewrite (proj2 (Z.eqb_neq q pid)) by congruence. by apply IH.
  - rewrite (proj2 (Z.leb_le q 0)) by lia. done.
Qed.

Lemma stracks_reaper fuel zombies pid s :
  started s = Some pid -> later s = None -> status s = None -> stracks (child.reaper fuel zombies pid) s direct.
Proof.
  revert s; induction fuel as [|fuel IH]; intros s Hs Hl Hn; simpl; [by apply direct_err|].
  intros ?. apply tracks_bind. rewrite <- Hn at 1. eapply tracks_mono; [by apply stracks_reap|].
  intros [ws'|] s' (Hs' & Hl' & Hr); [|by apply IH]. simpl. split; [done|]. by rewrite Hr.
Qed.

Lemma stracks_defer {A} (p : io A) (d : io unit) s Q :
  only no_wait d -> stracks p s Q -> stracks (defer d p) s Q.
Proof. apply (tracks_defer _ no_wait), no_wait_status. Qed.

Lemma stracks_wait pid s : later s = None -> status s = None -> stracks (call (WaitCmd pid)) s direct.
Proof.
  intros Hl Hn. intros [[]|e]; cbn.
  - by split.
  - destruct e as [f a|f a e|e|ws|e]; try (by apply direct_err).
    cbn. destruct (failed ws) eqn:E; [|by apply direct_err]. split; [done|]. cbn. by rewrite reap_result_failed, E.
Qed.

Lemma stracks_run (reap : bool) fuel zombies cmd s :
  later s = None -> status s = None ->
  stracks (if reap then child.runAndReap fuel zombies cmd else child.runWithoutReap cmd) s direct.
Proof.
  intros Hl Hs. destruct reap.
  - intros ?. cbn. intros [pid|e]; cbn; [|by apply direct_err].
    intros ?. apply (stracks_defer (child.reaper fuel zombies pid)); [only_tac|]. by apply stracks_reaper.
  - cbn. intros [pid|e]; cbn; [|by apply direct_err].
    intros _. change (stracks (defer (call StopCatch) (call (WaitCmd pid))) (mkWaiting (Some pid) None None false) direct).
    apply stracks_defer; [only_tac|]. by apply stracks_wait.
Qed.

(** The port driver of either process, after the target. *)
Lemma stracks_port_driver {A} (a : A) s ws :
  status s = Some ws -> failed ws = false -> later s = None ->
  stracks (_ <-! call PortDriverErr ;; Ret (Ok a)) s carries.
Proof.
  intros Hs Hf Hl. cbn. unfold shutdown_step. rewrite Hs, Hl. intros [[]|e]; cbn; unfold carries; cbn.
  - rewrite Hs, Hf, Hl. by eexists.
  - rewrite Hf. eexists. split; [done|by left].
Qed.

Lemma stracks_child_run fuel zombies opt s :
  later s = None -> status s = None -> stracks (child.child_run fuel zombies opt) s carries.
Proof.
  intros Hl Hs. unfold child.child_run. apply stracks_seq; [only_tac|done|]. intros cmd.
  unfold ebind at 1. apply <- (@tracks_bind sys res). unfold wrapping. apply <- (@tracks_bind sys res).
  intros [[]|e]; cbn -[child.runAndReap child.runWithoutReap]; [|by apply carries_err].
  eapply tracks_mono; [by apply stracks_run|]. intros r s' [Hl' Hd].
  destruct (status s') as [ws|] eqn:Es; [|destruct Hd as [e ->]; by apply carries_err].
  rewrite Hd, reap_result_failed. destruct (failed ws) eqn:E.
  - cbn. unfold carries. rewrite Es, E. eexists. by split.
  - cbn -[ebind]. destruct (child.PortDriver opt); [intros ?; by apply (stracks_port_driver _ _ ws)|].
    cbn. unfold carries. rewrite Es, E, Hl'. by eexists.
Qed.

(** ** Before the target command, and the parent *)

Lemma copy_dirs_no_wait bind0 dirs copied : only no_wait (tmpfssymlink.copy_dirs bind0 dirs copied).
Proof. apply copy_dirs_only. only_tac. Qed.
#[local] Hint Resolve copy_dirs_no_wait : only.

Lemma stracks_Child fuel zombies opt :
  stracks (child.Child fuel zombies opt) nothing_started carries.
Proof.
  unfold child.Child. case_bool_decide; [by apply stracks_fail|]. apply stracks_step; [only_tac|]. intros v.
  case_bool_decide; [by apply stracks_fail|]. apply stracks_seq; [only_tac|done|]. intros [r w].
  apply stracks_step; [only_tac|]. intros d. destruct (bool_decide (d = [])); [by apply stracks_fail|].
  apply stracks_seq; [only_tac|done|]. intros [|].
  - unfold child.child_with_caps. cbv zeta.
    do 6 (apply stracks_seq; [only_tac|done|]; intros ?). by apply stracks_child_run.
  - apply stracks_quiet; [only_tac|]. intros a. by left.
Qed.

Lemma stracks_shutdown opt s ws :
  status s = Some ws -> failed ws = false -> later s = None ->
  stracks (_ <-! wrapping (call CloseServer)
             (Wrapf "failed to close %s: %w" [AStr (parent.state_file (parent.StateDir opt) parent.StateFileAPISock)]) ;;
           if parent.PortDriver opt then _ <- call QuitPortDriver ;; call PortDriverErr else Ret (Ok tt)) s carries.
Proof.
  intros Hs Hf Hl. cbn. unfold shutdown_step. rewrite Hs, Hl. intros [[]|e]; cbn; unfold carries; cbn.
  - destruct (parent.PortDriver opt); cbn.
    + intros _. unfold shutdown_step. rewrite Hs, Hl. intros [[]|e]; cbn; [rewrite Hs|]; rewrite Hf.
      * rewrite Hl. by eexists.
      * eexists. split; [done|by left].
    + rewrite Hs, Hf, Hl. by eexists.
  - rewrite Hf. eexists. split; [done|by right].
Qed.

Lemma stracks_serve opt pid s : later s = None -> status s = None -> stracks (parent.parent_serve opt pid) s carries.
Proof.
  intros Hl Hs. unfold parent.parent_serve. cbv zeta.
  apply stracks_seq; [only_tac|done|]. intros ?. apply stracks_seq; [only_tac|done|]. intros ?.
  apply <- (@tracks_bind sys res). unfold wrapping at 1. apply <- (@tracks_bind sys res).
  eapply tracks_mono; [by apply stracks_wait|]. intros r s' [Hl' Hd].
  destruct (status s') as [ws|] eqn:Es; [|destruct Hd as [e ->]; by apply carries_err].
  rewrite Hd, reap_result_failed. destruct (failed ws) eqn:E.
  - cbn. unfold carries. rewrite Es, E. eexists. by split.
  - by apply (stracks_shutdown _ _ ws).
Qed.

Lemma stracks_publish opt pid s : later s = None -> status s = None -> stracks (parent.parent_publish opt pid) s carries.
Proof.
  intros Hl Hs. unfold parent.parent_publish. destruct (parent.PortDriver opt); [|by apply stracks_serve].
  intros [r|]; [cbn; unfold carries; cbn; rewrite Hs; right; by left|].
  apply stracks_seq; [only_tac|done|]. intros _. by apply stracks_serve.
Qed.

Lemma stracks_ports opt pid w m s : later s = None -> status s = None -> stracks (parent.parent_ports opt pid w m) s carries.
Proof.
  intros Hl Hs. unfold parent.parent_ports. apply stracks_seq; [only_tac|done|]. intros _.
  apply stracks_step; [only_tac|]. intros o. apply stracks_seq; [only_tac|done|]. intros _.
  apply stracks_seq; [only_tac|done|]. intros _. by apply stracks_publish.
Qed.

Lemma stracks_network opt pid w s : later s = None -> status s = None -> stracks (parent.parent_network opt pid w) s carries.
Proof.
  intros Hl Hs. unfold parent.parent_network. destruct (parent.NetworkDriver opt); [|by apply stracks_ports].
  cbv zeta. intros [[m c] [e|]]; cbn [status_step].
  - destruct c; [apply stracks_defer; [only_tac|]|]; by apply stracks_fail.
  - destruct c; [apply stracks_defer; [only_tac|]|]; by apply stracks_ports.
Qed.

Lemma stracks_Parent opt : stracks (parent.Parent opt) nothing_started carries.
Proof.
  unfold parent.Parent. do 3 (apply stracks_seq; [only_tac|done|]; intros ?).
  do 2 (apply stracks_defer; [only_tac|]). unfold parent.parent_locked.
  do 2 (apply stracks_seq; [only_tac|done|]; intros ?). apply stracks_step; [only_tac|]. intros cmd.
  apply tracks_call_bind. intros [pid|e]; cbn [status_step]; [|apply stracks_step; [only_tac|]; intros ?; by apply stracks_fail].
  unfold parent.parent_userns. do 5 (apply stracks_seq; [only_tac|done|]; intros ?).
  apply stracks_step; [only_tac|]. intros ?. apply stracks_defer; [only_tac|].
  apply stracks_seq; [only_tac|done|]. intros ?. by apply stracks_network.
Qed.

(** ** The theorem *)

Lemma ExitStatus_shift n : 0 <= n < 256 -> common.Exited (Z.shiftl n 8) = true /\ common.ExitStatus (Z.shiftl n 8) = n.
Proof.
  intros Hn.
  assert (forallb (fun n => common.Exited (Z.shiftl n 8) && (common.ExitStatus (Z.shiftl n 8) =? n)) (map Z.of_nat (seq 0 256)) = true)
    as H by (vm_compute; reflexivity).
  rewrite forallb_forall in H. specialize (H n). rewrite andb_true_iff, Z.eqb_eq in H. apply H.
  apply in_map_iff. exists (Z.to_nat n). rewrite in_seq. lia.
Qed.

Lemma stracks_Action fuel zombies version iAmChild f :
  stracks (Action fuel zombies version false iAmChild f) nothing_started carries.
Proof.
  unfold Action. case_bool_decide; cbn [negb].
  - case_bool_decide; [by apply stracks_fail|]. destruct iAmChild.
    + apply stracks_seq; [only_tac|done|]. intros opt. apply tracks_bind.
      eapply tracks_mono; [apply stracks_Child|]. intros [o|e] s; cbn; unfold carries.
      * destruct (status s) as [ws|]; [destruct (failed ws); [|destruct (later s)]|]; naive_solver.
      * destruct (status s) as [ws|]; [destruct (failed ws); [|destruct (later s)]|]; naive_solver.
    + apply stracks_seq; [only_tac|done|]. intros o. apply stracks_Parent.
  - apply stracks_quiet; [only_tac|]. intros a. by left.
Qed.

(** C6: the status of the target command becomes that of rootlesskit.  Let the
    parent or the child run, with any flags and whatever the kernel answers, and
    let [target] be what it was told of the process it started (the child, or
    the target command, with or without the reaper).  If that process failed
    with a wait status, the run ends with the exit status in it; if its status
    was 0 and no later step of the shutdown (closing the API server, the port
    driver) failed, with 0; if such a step failed, with the error of that step.
    So a status [n] from 0 to 255 becomes [n], for 0 when the shutdown does not
    fail; and a run that started a process ends without an error only after that
    process succeeded, or when the parent's port driver returned early. *)
Theorem exit_status_propagates fuel zombies version iAmChild f t r :
  behaves (Action fuel zombies version false iAmChild f) t r ->
  (forall ws, status (target t) = Some ws ->
    if failed ws then exit_code r = common.ExitStatus ws
    else match later (target t) with
         | None => r = Ok tt
         | Some e => exists e', r = Err e' /\ (e' = e \/ errors_Unwrap e' = Some e)
         end) /\
  (forall n, 0 <= n < 256 -> status (target t) = Some (Z.shiftl n 8) -> n <> 0 \/ later (target t) = None ->
    exit_code r = n) /\
  (r = Ok tt -> started (target t) <> None -> no_driver (target t) = false ->
    exists ws, status (target t) = Some ws /\ failed ws = false /\ later (target t) = None).
Proof.
  intros Hb. destruct (tracks_behaves _ _ _ _ _ _ (stracks_Action fuel zombies version iAmChild f) Hb) as (s & E & Hc).
  assert (target t = s) as -> by (unfold target; by rewrite E). clear E Hb. unfold carries in Hc.
  assert (forall ws, status s = Some ws ->
    if failed ws then exit_code r = common.ExitStatus ws
    else match later s with
         | None => r = Ok tt
         | Some e => exists e', r = Err e' /\ (e' = e \/ errors_Unwrap e' = Some e)
         end) as Hall.
  { intros ws Hs. rewrite Hs in Hc. destruct (failed ws).
    - destruct Hc as (e & -> & He). unfold exit_code, common.GetExecExitStatus. by rewrite He.
    - destruct (later s); [done|]. by destruct Hc as [[] ->]. }
  split; [exact Hall|]. split.
  - intros n Hn Hs Hor. specialize (Hall _ Hs). destruct (ExitStatus_shift n Hn) as [Hx He].
    unfold failed in Hall. rewrite Hx, He in Hall. destruct (n =? 0) eqn:En; cbn [negb andb] in Hall; [|done].
    apply Z.eqb_eq in En as ->. destruct Hor as [?|Hl]; [done|]. rewrite Hl in Hall. by rewrite Hall.
  - intros -> Hst Hnd. destruct (status s) as [ws|] eqn:Es.
    + exists ws. destruct (failed ws); [by destruct Hc as (? & ? & ?)|].
      destruct (later s); [by destruct Hc as (? & ? & ?)|]. done.
    + destruct Hc as [?|[Hn|[e ?]]]; [done|congruence|done].
Qed.

(** [rootlesskit --pidns sh -c 'exit 42'] *)
Definition sh_flags : Flags :=
  mkFlags "host" "none" [] [] [] [] [] [] [] [] 0 [] [] false false [] "tmpfs+symlink" [] true
    true false false false false "rprivate" "auto" [] "auto" [] [lit "sh"; lit "-c"; lit "exit 42"].

Definition exit_kernel (n : Z) (c : sys) : res c :=
  match c return res c with
  | Getenv k =>
      if bool_decide (k = pipeFDEnvKey) then lit "3,4" else if bool_decide (k = stateDirEnvKey) then lit "/tmp/rk" else []
  | MkdirTemp _ _ => Ok (lit "/tmp/rk")
  | Wait4 => Ok (100, Z.shiftl n 8)
  | WaitCmd _ => if n =? 0 then Ok tt else Err (Exit (Z.shiftl n 8))
  | c => ok_kernel c
  end.

(** Both processes after [exit 42]; the child runs the command under the
    reaper.  The parent after [exit 0]. *)
Theorem exit_status_propagates_witness :
  let parent_run n := run (fun _ => exit_kernel n) (Action 10 10 "3.0.0" false false sh_flags) [] in
  let child_run n := run (fun _ => exit_kernel n) (Action 10 10 "3.0.0" false true sh_flags) [] in
  exit_code (parent_run 42).1 = 42 /\ exit_code (child_run 42).1 = 42 /\ exit_code (parent_run 0).1 = 0.
Proof.
  cbv zeta. split; [|split].
  - destruct (exit_status_propagates 10 10 "3.0.0" false sh_flags _ _
      (run_behaves (fun _ => exit_kernel 42) (Action 10 10 "3.0.0" false false sh_flags))) as (_ & H & _).
    apply (H 42); [lia|vm_compute; reflexivity|by left].
  - destruct (exit_status_propagates 10 10 "3.0.0" true sh_flags _ _
      (run_behaves (fun _ => exit_kernel 42) (Action 10 10 "3.0.0" false true sh_flags))) as (_ & H & _).
    apply (H 42); [lia|vm_compute; reflexivity|by left].
  - destruct (exit_status_propagates 10 10 "3.0.0" false sh_flags _ _
      (run_behaves (fun _ => exit_kernel 0) (Action 10 10 "3.0.0" false false sh_flags))) as (_ & H & _).
    apply (H 0); [lia|vm_compute; reflexivity|right; vm_compute; reflexivity].
Defined.
