(* ===== verification/Ctl.v ===== *)
(** * cmd/rootlessctl and cmd/rootlesskit-docker-proxy: the clients of the API

    The two programs that call the REST API, over a signature of their own.
    The client of the API is one call per operation here ([Api.v] models what
    the calls do).  The parsing of the command line is left to the libraries
    of the program: the arguments and flags are parameters. *)
From S2P Require Import Prelude GoStrings NetIP PortSpec Effects Framing Manager BuiltinParent Api.
Import port.
Import api.

(** What is printed: a status in JSON, an ID, a row of the table, the
    header, the info in JSON, a line. *)
Inductive output : Set :=
  | OutJSON (s : Status) | OutID (id : Z) | OutHeader | OutRow (s : Status)
  | OutInfoJSON (i : Info) | OutLine (l : str) (args : list str).

Inductive ctl : Set :=
  | CGetenv (k : str) | CNewClient (socketPath : str)
  | CInfo | CAddPort (p : Spec) | CListPorts | CRemovePort (id : Z)
  | CPrint (o : output) | CWarn (e : error)
  | CLookPath (file : str) | COsArgs | CExec (path : str) (argv : list str)
  | CStart (argv : list str) | CNotifyInterrupt | CWaitInterrupt | CKill
  | CTellParent (s : str).

(** [CExec] only returns [Err]; [CTellParent] writes to the inherited file 3. *)
Definition cres (c : ctl) : Type :=
  match c with
  | CGetenv _ => str
  | CNewClient _ => result unit
  | CInfo => result Info
  | CAddPort _ => result Status
  | CListPorts => result (list Status)
  | CRemovePort _ => result unit
  | CLookPath _ => result str
  | COsArgs => list str
  | CExec _ _ | CStart _ | CKill => result unit
  | CPrint _ | CWarn _ | CNotifyInterrupt | CWaitInterrupt | CTellParent _ => unit
  end.

Abbreviation cio := (prog cres).
Abbreviation ccall := (@Effects.call ctl cres).
Definition cfail {A} (e : error) : cio (result A) := Ret (Err e).

(** ** cmd/rootlessctl *)
Module rootlessctl.

(** [newClient]; [socket] is the flag *)
Definition newClient (socket : str) : cio (result unit) :=
  if bool_decide (socket = []) then
    stateDir <- ccall (CGetenv "ROOTLESSKIT_STATE_DIR") ;;
    if bool_decide (stateDir = [])
    then cfail (errors_New "please specify --socket or set $ROOTLESSKIT_STATE_DIR")
    else ccall (CNewClient (filepath.Join [stateDir; lit "api.sock"]))
  else ccall (CNewClient socket).

Definition print (o : output) : cio (result unit) := _ <- ccall (CPrint o) ;; Ret (Ok tt).

Definition listPortsAction (socket : str) (json : bool) : cio (result unit) :=
  _ <-! newClient socket ;;
  portStatuses <-! ccall CListPorts ;;
  if json then for_each portStatuses (fun p => print (OutJSON p))
  else
    _ <-! print OutHeader ;;
    for_each portStatuses (fun p => print (OutRow p)).

(** All results, or the first error. *)
Fixpoint map_results {A B} (f : A -> result B) (l : list A) : result (list B) :=
  match l with
  | [] => Ok []
  | a :: l' => b <-? f a ;; bs <-? map_results f l' ;; Ok (b :: bs)
  end.

Definition add_one (json : bool) (sp : Spec) : cio (result unit) :=
  portStatus <-! ccall (CAddPort sp) ;;
  print (if json then OutJSON portStatus else OutID (ID portStatus)).

Definition addPortsAction (socket : str) (json : bool) (args : list str) : cio (result unit) :=
  if bool_decide (args = []) then cfail (errors_New "no port specified")
  else
    portSpecs <-! Ret (map_results portutil.ParsePortSpec args) ;;
    _ <-! newClient socket ;;
    for_each portSpecs (add_one json).

Definition remove_one (id : Z) : cio (result unit) :=
  _ <-! ccall (CRemovePort id) ;;
  print (OutID id).

Definition removePortsAction (socket : str) (args : list str) : cio (result unit) :=
  if bool_decide (args = []) then cfail (errors_New "no ID specified")
  else
    ids <-! Ret (map_results strconv.Atoi args) ;;
    _ <-! newClient socket ;;
    for_each ids remove_one.

(** The lines of [info] for people. *)
Definition info_lines (info : Info) : list output :=
  [OutLine "- REST API version: %s" [APIVersion info];
   OutLine "- Implementation version: %s" [info_Version info];
   OutLine "- State Directory: %s" [info_StateDir info];
   OutLine "- Child PID: %d" [strconv.Itoa (info_ChildPID info)]] ++
  match info_NetworkDriver info with
  | Some n =>
      [OutLine "- Network Driver: %s" [nd_Driver n]; OutLine "  - DNS: %v" (nd_DNS n)] ++
      (if bool_decide (nd_ChildIP n = []) then [] else [OutLine "  - IP: %v" [nd_ChildIP n]])
  | None => []
  end ++
  match info_PortDriver info with
  | Some p => [OutLine "- Port Driver: %s" [pd_Driver p]; OutLine "  - Supported protocols: %v" (pd_Protos p)]
  | None => []
  end.

Definition infoAction (socket : str) (json : bool) : cio (result unit) :=
  _ <-! newClient socket ;;
  info <-! ccall CInfo ;;
  if json then print (OutInfoJSON info) else for_each (info_lines info) print.

(** The commands, with their flags and arguments. *)
Inductive command : Set :=
  | list_ports (json : bool) | add_ports (json : bool) (args : list str) | remove_ports (args : list str) | show_info (json : bool).

Definition action (socket : str) (c : command) : cio (result unit) :=
  match c with
  | list_ports json => listPortsAction socket json
  | add_ports json args => addPortsAction socket json args
  | remove_ports args => removePortsAction socket args
  | show_info json => infoAction socket json
  end.

(** An error is printed, and the exit status says that there was one. *)
Definition main (socket : str) (c : command) : cio Z :=
  r <- action socket c ;;
  match r with
  | Ok _ => Ret 0
  | Err e => _ <- ccall (CWarn e) ;; Ret 1
  end.

End rootlessctl.

(** ** cmd/rootlesskit-docker-proxy *)
Module docker_proxy.

Definition isIPv6 (ipStr : str) : bool :=
  match net.ParseIP ipStr with
  | None => false
  | Some ip => bool_decide (net.To4 ip = None)
  end.

Definition getPortDriverProtos (info : Info) : result (str * list str) :=
  match info_PortDriver info with
  | None => Err (errors_New "no port driver is available")
  | Some p => Ok (pd_Driver p, pd_Protos p)
  end.

(** The two kinds of errors of [callRootlessKitAPI]: [protocolUnsupportedError]
    and the others. *)
Inductive api_error : Set :=
  | Unsupported (apiProto portDriverName hostIP : str) (hostPort : Z)
  | Other (e : error).

(** The protocol of the API: with the version of the address. *)
Definition api_proto (dockerProxyProto hostIP : str) : str :=
  if negb (strings.HasSuffix dockerProxyProto "4") && negb (strings.HasSuffix dockerProxyProto "6")
  then dockerProxyProto ++ (if isIPv6 hostIP then lit "6" else lit "4")
  else dockerProxyProto.

(** The ID of the new port, for the function that removes it. *)
Definition callRootlessKitAPI (info : Info) (hostIP : str) (hostPort : Z) (dockerProxyProto childIP : str)
    : cio (api_error + Z) :=
  let apiProto := api_proto dockerProxyProto hostIP in
  match getPortDriverProtos info with
  | Err e => Ret (inl (Other e))
  | Ok (portDriverName, apiProtos) =>
      if negb (bool_decide (apiProto ∈ apiProtos))
      then Ret (inl (Unsupported apiProto portDriverName hostIP hostPort))
      else
        st <- ccall (CAddPort (mkSpec apiProto hostIP hostPort hostPort childIP)) ;;
        match st with
        | Err e => Ret (inl (Other (Wrapf "error while calling PortManager.AddPort(): %w" [] e)))
        | Ok st => Ret (inr (ID st))
        end
  end.

(** [deferFunc] and its caller: the message has the error of the enclosing
    function, which is nil. *)
Definition remove (id : Z) : cio unit :=
  r <- ccall (CRemovePort id) ;;
  match r with
  | Ok _ => Ret tt
  | Err _ => ccall (CWarn (Errorf "error while calling PortManager.RemovePort(): %!w(<nil>)" []))
  end.

Record flags : Set := mkFlags {
  containerIP : str;
  containerPort : Z;
  hostIP : str;
  hostPort : Z;
  proto : str;
}.

Definition realProxy : str := "docker-proxy".

Definition proxy_argv (fl : flags) (childIP : str) : list str :=
  [realProxy; lit "-container-ip"; containerIP fl; lit "-container-port"; strconv.Itoa (containerPort fl);
   lit "-host-ip"; childIP; lit "-host-port"; strconv.Itoa (hostPort fl); lit "-proto"; proto fl].

(** The real proxy, until an interrupt. *)
Definition run_proxy (fl : flags) (childIP : str) : cio (result unit) :=
  _ <-! wrapping (ccall (CStart (proxy_argv fl childIP))) (Wrapf "error while starting %s: %w" [AStr realProxy]) ;;
  _ <- ccall CNotifyInterrupt ;;
  _ <- ccall CWaitInterrupt ;;
  wrapping (ccall CKill) (Wrapf "error while killing %s: %w" [AStr realProxy]).

(** The child address of the forwarding: loopback, or that of the network. *)
Definition child_ip (info : Info) (pd : PortDriverInfo) (hostIP : str) : result str :=
  if pd_DisallowLoopbackChildIP pd then
    match info_NetworkDriver info with
    | None => Err (Panic "nil pointer dereference")
    | Some nd =>
        if bool_decide (nd_ChildIP nd = [])
        then Err (Errorf "port driver (%q) does not allow loopback child IP, but network driver (%q) has no non-loopback IP"
                    [AStr (pd_Driver pd); AStr (nd_Driver nd)])
        else Ok (nd_ChildIP nd)
    end
  else Ok (if isIPv6 hostIP then lit "::1" else lit "127.0.0.1").

Definition xmain (fl : flags) : cio (result unit) :=
  stateDir <- ccall (CGetenv "ROOTLESSKIT_STATE_DIR") ;;
  if bool_decide (stateDir = []) then cfail (errors_New "$ROOTLESSKIT_STATE_DIR needs to be set")
  else
    let socketPath := filepath.Join [stateDir; lit "api.sock"] in
    _ <-! wrapping (ccall (CNewClient socketPath)) (Wrapf "error while connecting to RootlessKit API socket: %w" []) ;;
    info <-! wrapping (ccall CInfo)
      (Wrapf "failed to call info API, probably RootlessKit binary is too old (needs to be v0.14.0 or later): %w" []) ;;
    let exec_real :=
      realProxyExe <-! ccall (CLookPath realProxy) ;;
      args <- ccall COsArgs ;;
      ccall (CExec realProxyExe (realProxy :: tail args)) in
    match info_PortDriver info with
    | None => exec_real
    | Some pd =>
        if bool_decide (pd_Driver pd = lit "none") || bool_decide (pd_Driver pd = lit "implicit") then exec_real
        else
          childIP <-! Ret (child_ip info pd (hostIP fl)) ;;
          r <- callRootlessKitAPI info (hostIP fl) (hostPort fl) (proto fl) childIP ;;
          match r with
          | inl (Unsupported apiProto name ip port) =>
              _ <- ccall (CWarn (Errorf "protocol %q is not supported by the RootlessKit port driver %q, discarding request for %q"
                                   [AStr apiProto; AStr name; AStr (net.JoinHostPort ip (strconv.Itoa port))])) ;;
              _ <- ccall (CTellParent (lit "0" ++ ["010"%char])) ;;
              Ret (Ok tt)
          | inl (Other e) => cfail e
          | inr id => defer (remove id) (run_proxy fl childIP)
          end
    end.

(** The exit status. *)
Definition main (fl : flags) : cio Z :=
  r <- xmain fl ;;
  match r with
  | Ok _ => Ret 0
  | Err e => _ <- ccall (CTellParent (lit "1" ++ ["010"%char] ++ Error e)) ;; Ret 1
  end.

End docker_proxy.

(** ** rootlessctl adds and removes in order, and prints what it has done *)
Import rootlessctl.

Definition added (t : @trace ctl cres) : list (Spec * Status) :=
  omap (fun e : @event ctl cres => match e with existT (CAddPort p) (Ok st) => Some (p, st) | _ => None end) t.
Definition removed (t : @trace ctl cres) : list Z :=
  omap (fun e : @event ctl cres => match e with existT (CRemovePort id) (Ok _) => Some id | _ => None end) t.
Definition printed (t : @trace ctl cres) : list output :=
  omap (fun e : @event ctl cres => match e with existT (CPrint o) _ => Some o | _ => None end) t.
(** the calls that change the port table, with or without success *)
Definition attempts (t : @trace ctl cres) : nat :=
  length (List.filter (fun c => match c with CAddPort _ | CRemovePort _ => true | _ => false end) (calls t)).

Lemma calls_app (t1 t2 : @trace ctl cres) : calls (t1 ++ t2) = calls t1 ++ calls t2.
Proof. apply map_app. Qed.
Lemma attempts_app t1 t2 : attempts (t1 ++ t2) = (attempts t1 + attempts t2)%nat.
Proof. unfold attempts. by rewrite calls_app, List.filter_app, length_app. Qed.
Lemma added_app t1 t2 : added (t1 ++ t2) = added t1 ++ added t2.
Proof. apply omap_app. Qed.
Lemma removed_app t1 t2 : removed (t1 ++ t2) = removed t1 ++ removed t2.
Proof. apply omap_app. Qed.
Lemma printed_app t1 t2 : printed (t1 ++ t2) = printed t1 ++ printed t2.
Proof. apply omap_app. Qed.

(** The loop over the parsed arguments: what was done is a prefix, in order;
    all of it when there is no error; and the first error ends the loop. *)
Record did {X Y} (todo : list X) (key : Y -> X) (out : Y -> output) (ys : list Y) (t : @trace ctl cres) (r : result unit) : Prop := {
  did_prefix : map key ys `prefix_of` todo;
  did_printed : printed t = map out ys;
  did_all : r = Ok tt -> map key ys = todo /\ attempts t = length todo;
  did_stop : r <> Ok tt -> attempts t = S (length ys) /\ (length ys < length todo)%nat;
}.

(** One argument. *)
Record did_one {X Y} (x : X) (key : Y -> X) (out : Y -> output) (ys : list Y) (t : @trace ctl cres) (r : result unit) : Prop := {
  one_attempt : attempts t = 1%nat;
  one_done : (exists y, r = Ok tt /\ key y = x /\ ys = [y] /\ printed t = [out y]) \/
             (r <> Ok tt /\ ys = [] /\ printed t = []);
}.

Lemma loop_did {X Y} (body : X -> cio (result unit)) (key : Y -> X) (out : Y -> output) (ys : @trace ctl cres -> list Y) :
  ys [] = [] -> (forall t1 t2, ys (t1 ++ t2) = ys t1 ++ ys t2) ->
  (forall x t r, behaves (body x) t r -> did_one x key out (ys t) t r) ->
  forall todo t r, behaves (for_each todo body) t r -> did todo key out (ys t) t r.
Proof.
  intros Hnil Happ Hone todo. induction todo as [|x todo IH]; intros t r.
  { simpl. intros [-> ->]. rewrite Hnil. by split. }
  cbn [for_each]. intros Hb. apply behaves_bind in Hb as (t1 & t2 & r1 & -> & H1 & H2).
  destruct (Hone _ _ _ H1) as [Hn [(y & -> & Hk & Hy & Hpr)|(Hr & Hy & Hpr)]].
  - destruct (IH _ _ H2) as [Ip Ipr Ia Is]. rewrite Happ, Hy. split; cbn.
    + rewrite Hk. by apply prefix_cons.
    + by rewrite printed_app, Hpr, Ipr.
    + intros Hr. destruct (Ia Hr) as [? Hm]. rewrite attempts_app, Hn, Hm. split; [by f_equal|done].
    + intros Hr. destruct (Is Hr) as [Hm Hl]. rewrite attempts_app, Hn, Hm. split; [done|lia].
  - destruct r1 as [[]|e]; [done|]. destruct H2 as [-> ->]. rewrite app_nil_r, Hy. split; cbn; try done.
    + apply prefix_nil.
    + intros _. split; [done|lia].
Qed.

Lemma add_loop json specs t r :
  behaves (for_each specs (add_one json)) t r ->
  did specs fst (fun x : Spec * Status => if json then OutJSON x.2 else OutID (ID x.2)) (added t) t r.
Proof.
  apply loop_did; [done|apply added_app|]. intros p t' r' ([st|e] & t1 & -> & H).
  - destruct H as ([] & t2 & -> & -> & ->). split; [done|]. left. by exists (p, st).
  - destruct H as [-> ->]. split; [done|]. by right.
Qed.

Lemma remove_loop ids t r :
  behaves (for_each ids remove_one) t r -> did ids id OutID (removed t) t r.
Proof.
  apply loop_did; [done|apply removed_app|]. intros i t' r' ([[]|e] & t1 & -> & H).
  - destruct H as ([] & t2 & -> & -> & ->). split; [done|]. left. by exists i.
  - destruct H as [-> ->]. split; [done|]. by right.
Qed.

Lemma map_results_ok {A B} (f : A -> result B) l bs :
  map_results f l = Ok bs <-> Forall2 (fun a b => f a = Ok b) l bs.
Proof.
  revert bs; induction l as [|a l IH]; intros bs; simpl.
  { split; [intros [= <-]; constructor|]. by inversion 1. }
  split.
  - destruct (f a) as [b|e] eqn:E; simpl; [|done]. destruct (map_results f l) as [bs'|e]; simpl; [|done].
    intros [= <-]. constructor; [done|]. by apply IH.
  - inversion 1 as [|? b ? bs' Hb Hbs]; subst. rewrite Hb. simpl. by rewrite (proj2 (IH bs') Hbs).
Qed.

Definition no_ports (c : ctl) : bool :=
  match c with CAddPort _ | CRemovePort _ | CPrint _ => false | _ => true end.

(** Before the loop nothing is changed or printed. *)
Lemma quiet_trace {A} (p : cio A) t a :
  only no_ports p -> behaves p t a -> added t = [] /\ removed t = [] /\ printed t = [] /\ attempts t = 0%nat.
Proof.
  revert t; induction p as [b|c k IH]; intros t; simpl.
  - intros _ [-> _]. done.
  - intros [Hc Hk] (x & t' & -> & Hb). destruct (IH x t' (Hk x) Hb) as (Ha & Hr & Hp & Hn).
    unfold attempts. by destruct c.
Qed.

Lemma newClient_quiet socket : only no_ports (newClient socket).
Proof. only_tac. Qed.

(** The action of a command that parses its arguments and then does one after
    the other. *)
Lemma action_did {A X Y} (parse : A -> result X) (args : list A) none socket (body : X -> cio (result unit))
    (key : Y -> X) out (ys : @trace ctl cres -> list Y) t r :
  ys [] = [] -> (forall t1 t2, ys (t1 ++ t2) = ys t1 ++ ys t2) ->
  (forall (p : cio (result unit)) t a, only no_ports p -> behaves p t a -> ys t = []) ->
  (forall todo t r, behaves (for_each todo body) t r -> did todo key out (ys t) t r) ->
  behaves (if bool_decide (args = []) then cfail none
           else todo <-! Ret (map_results parse args) ;; _ <-! newClient socket ;; for_each todo body) t r ->
  (r <> Ok tt /\ attempts t = 0%nat /\ ys t = [] /\ printed t = []) \/
  (exists todo, args <> [] /\ Forall2 (fun a x => parse a = Ok x) args todo /\ did todo key out (ys t) t r).
Proof.
  intros Hnil Happ Hq Hloop. case_bool_decide as Ha.
  { intros [-> ->]. left. by rewrite Hnil. }
  destruct (map_results parse args) as [todo|e] eqn:E; cycle 1.
  { intros [-> ->]. left. by rewrite Hnil. }
  apply map_results_ok in E. intros Hb. apply (behaves_bind (newClient socket)) in Hb as (t1 & t2 & c & -> & H1 & H2).
  destruct (quiet_trace _ _ _ (newClient_quiet socket) H1) as (_ & _ & Hp & Hn).
  pose proof (Hq _ _ _ (newClient_quiet socket) H1) as Hy. destruct c as [[]|e].
  - right. exists todo. split; [done|]. split; [done|].
    destruct (Hloop _ _ _ H2) as [? ? ? ?]. rewrite Happ, Hy. split; rewrite ?printed_app, ?attempts_app, ?Hp, ?Hn; done.
  - destruct H2 as [-> ->]. rewrite app_nil_r. left. done.
Qed.

(** rootlessctl add-ports and remove-ports look at all their arguments
    before they call the API; then they go through them in order, print each
    port that was added (or removed) as it is, and stop at the first error: what was
    done is a prefix of the arguments, and all of them when the command
    succeeds. *)
Theorem rootlessctl_in_order socket json args t r :
  (behaves (addPortsAction socket json args) t r ->
   (r <> Ok tt /\ attempts t = 0%nat /\ added t = [] /\ printed t = []) \/
   (exists specs, args <> [] /\ Forall2 (fun a p => portutil.ParsePortSpec a = Ok p) args specs /\
      did specs fst (fun x : Spec * Status => if json then OutJSON x.2 else OutID (ID x.2)) (added t) t r)) /\
  (behaves (removePortsAction socket args) t r ->
   (r <> Ok tt /\ attempts t = 0%nat /\ removed t = [] /\ printed t = []) \/
   (exists ids, args <> [] /\ Forall2 (fun a i => strconv.Atoi a = Ok i) args ids /\
      did ids id OutID (removed t) t r)).
Proof.
  split.
  - apply (action_did _ _ _ _ (add_one json)); [done|apply added_app| |apply add_loop].
    intros p t' a Hp Hb. by destruct (quiet_trace p t' a Hp Hb).
  - apply (action_did _ _ _ _ remove_one); [done|apply removed_app| |apply remove_loop].
    intros p t' a Hp Hb. by destruct (quiet_trace p t' a Hp Hb) as (_ & ? & _).
Qed.

(** Two ports, of which the second cannot be added. *)
Definition ctl_kernel (c : ctl) : cres c :=
  match c return cres c with
  | CGetenv _ => lit "/run/rk"
  | CNewClient _ => Ok tt
  | CInfo => Ok (mkInfo "1.1.1" "3.0.0" "/run/rk" 100 None (Some builtin_Info))
  | CAddPort p => if ParentPort p =? 80 then Err (Extern "permission denied") else Ok (mkStatus 1 p)
  | CListPorts => Ok []
  | CRemovePort _ => Ok tt
  | CLookPath f => Ok f
  | COsArgs => []
  | CExec _ _ | CStart _ | CKill => Ok tt
  | CPrint _ | CWarn _ | CNotifyInterrupt | CWaitInterrupt | CTellParent _ => tt
  end.

Theorem rootlessctl_in_order_witness :
  let t := (run (fun _ => ctl_kernel) (addPortsAction [] false [lit "127.0.0.1:8080:80/tcp"; lit "0.0.0.0:80:80/tcp"]) []).2 in
  printed t = [OutID 1] /\ attempts t = 2%nat /\ length (added t) = 1%nat.
Proof.
  pose proof (run_behaves (fun _ => ctl_kernel)
    (addPortsAction [] false [lit "127.0.0.1:8080:80/tcp"; lit "0.0.0.0:80:80/tcp"])) as Hb.
  destruct (proj1 (rootlessctl_in_order _ _ _ _ _) Hb) as [(_ & _ & Ha & _)|(specs & _ & _ & [_ Hp _ Hs])].
  - vm_compute in Ha. discriminate.
  - cbv zeta. split; [rewrite Hp; vm_compute; reflexivity|].
    destruct Hs as [Hn _]; [vm_compute; discriminate|]. rewrite Hn. split; vm_compute; reflexivity.
Defined.

(** ** The port of docker-proxy lives as long as the real proxy *)
Import docker_proxy.

Inductive phase : Set := NotStarted | Running | Killed.

(** What the program may do next: nothing is exposed yet (with the answer of
    the info call), a port is exposed, it is removed. *)
Inductive proxy_state : Set :=
  | Start (info : option Info)
  | Exposed (p : Spec) (id : Z) (ph : phase)
  | Gone.

(** The port for these flags and this port driver: its protocol is one that the
    driver lists and says the IP version; the child address is that of
    the network when the driver asks for it, and otherwise a loopback
    address of the same version as the host address. *)
Definition spec_ok (info : Info) (fl : flags) (p : Spec) : bool :=
  match info_PortDriver info with
  | None => false
  | Some pd =>
      bool_decide (Proto p ∈ pd_Protos pd) &&
      (strings.HasSuffix (Proto p) "4" || strings.HasSuffix (Proto p) "6") &&
      bool_decide (ParentIP p = hostIP fl) && (ParentPort p =? hostPort fl) && (ChildPort p =? hostPort fl) &&
      (if pd_DisallowLoopbackChildIP pd
       then match info_NetworkDriver info with
            | Some nd => bool_decide (ChildIP p = nd_ChildIP nd) && negb (bool_decide (ChildIP p = []))
            | None => false
            end
       else (bool_decide (ChildIP p = lit "127.0.0.1") || bool_decide (ChildIP p = lit "::1")) &&
            bool_decide (isIPv6 (ChildIP p) = isIPv6 (hostIP fl)))
  end.

Definition proxy_step (fl : flags) (s : proxy_state) (c : ctl) : cres c -> option proxy_state :=
  match c return cres c -> option proxy_state with
  | CInfo => fun r => match s, r with Start _, Ok i => Some (Start (Some i)) | _, _ => Some s end
  | CAddPort p => fun r =>
      match s with
      | Start (Some info) =>
          if spec_ok info fl p then match r with Ok st => Some (Exposed p (ID st) NotStarted) | Err _ => Some s end else None
      | _ => None
      end
  | CStart argv => fun r =>
      match s with
      | Exposed p id NotStarted =>
          if bool_decide (argv = proxy_argv fl (ChildIP p))
          then Some (if is_ok r then Exposed p id Running else s) else None
      | _ => None
      end
  | CKill => fun _ => match s with Exposed p id Running => Some (Exposed p id Killed) | _ => None end
  | CRemovePort i => fun _ =>
      match s with
      | Exposed _ id NotStarted | Exposed _ id Killed => if i =? id then Some Gone else None
      | _ => None
      end
  | CExec _ _ => fun _ => match s with Start _ => Some s | _ => None end
  | _ => fun _ => Some s
  end.

Definition settled (s : proxy_state) : Prop := match s with Exposed _ _ _ => False | _ => True end.

Abbreviation dtracks fl := (tracks (proxy_step fl)).

Lemma api_proto_suffix p ip :
  strings.HasSuffix (api_proto p ip) "4" || strings.HasSuffix (api_proto p ip) "6" = true.
Proof.
  unfold api_proto. destruct (strings.HasSuffix p "4") eqn:E4; [cbn [negb andb]; by rewrite E4|].
  destruct (strings.HasSuffix p "6") eqn:E6; [cbn [negb andb]; by rewrite E4, E6|]. cbn [negb andb].
  unfold strings.HasSuffix. by destruct (isIPv6 ip); rewrite rev_app_distr; cbn.
Qed.

Lemma child_ip_ok info pd fl ip :
  info_PortDriver info = Some pd -> child_ip info pd (hostIP fl) = Ok ip ->
  forall proto, proto ∈ pd_Protos pd -> strings.HasSuffix proto "4" || strings.HasSuffix proto "6" = true ->
  spec_ok info fl (mkSpec proto (hostIP fl) (hostPort fl) (hostPort fl) ip) = true.
Proof.
  intros Hpd Hip proto Hin Hsuf. unfold spec_ok. rewrite Hpd. cbn [Proto ParentIP ParentPort ChildPort ChildIP].
  rewrite Hsuf, !Z.eqb_refl, (bool_decide_eq_true_2 (proto ∈ _)), (bool_decide_eq_true_2 (hostIP fl = _)) by done.
  cbn [andb]. revert Hip. unfold child_ip.
  destruct (pd_DisallowLoopbackChildIP pd).
  - destruct (info_NetworkDriver info) as [nd|]; [|done]. case_bool_decide; [done|]. intros [= <-].
    by rewrite bool_decide_eq_true_2, bool_decide_eq_false_2.
  - destruct (isIPv6 (hostIP fl)); by intros [= <-].
Qed.

Definition no_port_call (c : ctl) : bool :=
  match c with CInfo | CAddPort _ | CRemovePort _ | CStart _ | CKill | CExec _ _ => false | _ => true end.

Lemma dtracks_only {A} fl (p : cio A) s (Q : A -> proxy_state -> Prop) :
  only no_port_call p -> (forall a, Q a s) -> dtracks fl p s Q.
Proof. intros Hp HQ. apply (tracks_only _ no_port_call); [done| |done]. intros c r. by destruct c. Qed.

(** From the exposed port to the end. *)
Lemma dtracks_exposed fl p id :
  dtracks fl (defer (remove id) (run_proxy fl (ChildIP p))) (Exposed p id NotStarted) (fun _ => settled).
Proof.
  assert (forall ph a, ph <> Running -> dtracks fl (bind (remove id) (fun _ => Ret (a : result unit))) (Exposed p id ph) (fun _ => settled)) as Hrm.
  { intros ph a Hph r. destruct ph; try done; cbn; rewrite Z.eqb_refl; destruct r as [[]|e]; cbn; done. }
  unfold defer. intros r. cbn [proxy_step]. rewrite bool_decide_eq_true_2 by done.
  destruct r as [[]|e]; cbn [is_ok]; [|by apply Hrm].
  intros ? ? r. cbn [proxy_step]. destruct r as [[]|e]; by apply Hrm.
Qed.

Lemma dtracks_xmain fl : dtracks fl (xmain fl) (Start None) (fun _ => settled).
Proof.
  intros d. cbn [proxy_step bind]. destruct (bool_decide (d = [])); [exact I|].
  intros [[]|e]; [|exact I]. intros [info|e]; [|exact I]. cbn [proxy_step bind on_err].
  assert (dtracks fl (realProxyExe <-! ccall (CLookPath realProxy) ;; args <- ccall COsArgs ;;
     ccall (CExec realProxyExe (realProxy :: tail args))) (Start (Some info)) (fun _ => settled)) as Hexec.
  { intros [exe|e]; [|exact I]. intros args r. done. }
  destruct (info_PortDriver info) as [pd|] eqn:Epd; [|exact Hexec].
  cbn [on_err]. destruct (_ || _); [exact Hexec|].
  destruct (child_ip info pd (hostIP fl)) as [ip|e] eqn:Eip; [|exact I].
  unfold callRootlessKitAPI, getPortDriverProtos. rewrite Epd. case_bool_decide as Hin; cbn [negb]; [|by apply dtracks_only].
  intros st. cbn [proxy_step]. rewrite (child_ip_ok _ _ _ _ Epd Eip _ Hin (api_proto_suffix _ _)).
  destruct st as [st|e]; [|exact I]. apply (dtracks_exposed fl (mkSpec _ _ _ _ ip)).
Qed.

(** C19: in every execution of docker-proxy, whatever the server and the kernel
    answer: it asks for a port only as [spec_ok] says, with a protocol that the
    driver lists; it starts the real proxy only while that port is exposed
    and for its child address; and a port that was exposed is removed, once,
    before the program ends, after the real proxy was killed if it was started. *)
Theorem docker_proxy_port_lifetime fl t r :
  behaves (xmain fl) t r ->
  exists s, steps (proxy_step fl) (Start None) t = Some s /\ settled s.
Proof. intros Hb. exact (tracks_behaves _ _ _ _ _ _ (dtracks_xmain fl) Hb). Qed.

Definition proxy_flags : flags := docker_proxy.mkFlags "172.17.0.2" 80 "0.0.0.0" 8080 "tcp".

Theorem docker_proxy_port_lifetime_witness :
  exists s, steps (proxy_step proxy_flags) (Start None) (run (fun _ => ctl_kernel) (xmain proxy_flags) []).2 = Some s /\
    settled s /\ s = Gone.
Proof.
  destruct (docker_proxy_port_lifetime proxy_flags _ _ (run_behaves (fun _ => ctl_kernel) (xmain proxy_flags))) as (s & E & Hs).
  exists s. split; [exact E|]. split; [exact Hs|]. vm_compute in E. by injection E as <-.
Defined.
