(* ===== verification/SigProxy.v ===== *)
(** * pkg/sigproxy: forwarding signals to the child

    The table of signals that are caught, and the goroutine that sends each
    signal it receives to the child process. *)
From S2P Require Import Prelude Effects Sys.
Import Sys.

Module signal.

(** The files signal_linux.go and signal_linux_mipsx.go: one of them is in a
    build.  The numbers of the signals are the kernel's (asm-generic and mips). *)
Definition sigrtmin : Z := 34.

(** The real-time signals that have a name. *)
Definition realtime (sigrtmax : Z) : list (str * Z) :=
  [(lit "RTMIN", sigrtmin); (lit "RTMIN+1", sigrtmin + 1); (lit "RTMIN+2", sigrtmin + 2); (lit "RTMIN+3", sigrtmin + 3);
   (lit "RTMIN+4", sigrtmin + 4); (lit "RTMIN+5", sigrtmin + 5); (lit "RTMIN+6", sigrtmin + 6); (lit "RTMIN+7", sigrtmin + 7);
   (lit "RTMIN+8", sigrtmin + 8); (lit "RTMIN+9", sigrtmin + 9); (lit "RTMIN+10", sigrtmin + 10);
   (lit "RTMIN+11", sigrtmin + 11); (lit "RTMIN+12", sigrtmin + 12); (lit "RTMIN+13", sigrtmin + 13);
   (lit "RTMIN+14", sigrtmin + 14); (lit "RTMIN+15", sigrtmin + 15);
   (lit "RTMAX-14", sigrtmax - 14); (lit "RTMAX-13", sigrtmax - 13); (lit "RTMAX-12", sigrtmax - 12);
   (lit "RTMAX-11", sigrtmax - 11); (lit "RTMAX-10", sigrtmax - 10); (lit "RTMAX-9", sigrtmax - 9);
   (lit "RTMAX-8", sigrtmax - 8); (lit "RTMAX-7", sigrtmax - 7); (lit "RTMAX-6", sigrtmax - 6);
   (lit "RTMAX-5", sigrtmax - 5); (lit "RTMAX-4", sigrtmax - 4); (lit "RTMAX-3", sigrtmax - 3);
   (lit "RTMAX-2", sigrtmax - 2); (lit "RTMAX-1", sigrtmax - 1); (lit "RTMAX", sigrtmax)].

Definition sigrtmax : Z := 64.

Definition SignalMap : list (str * Z) :=
  [(lit "ABRT", 6); (lit "ALRM", 14); (lit "BUS", 7); (lit "CHLD", 17); (lit "CLD", 17); (lit "CONT", 18); (lit "FPE", 8);
   (lit "HUP", 1); (lit "ILL", 4); (lit "INT", 2); (lit "IO", 29); (lit "IOT", 6); (lit "KILL", 9); (lit "PIPE", 13);
   (lit "POLL", 29); (lit "PROF", 27); (lit "PWR", 30); (lit "QUIT", 3); (lit "SEGV", 11); (lit "STKFLT", 16);
   (lit "STOP", 19); (lit "SYS", 31); (lit "TERM", 15); (lit "TRAP", 5); (lit "TSTP", 20); (lit "TTIN", 21);
   (lit "TTOU", 22); (lit "URG", 23); (lit "USR1", 10); (lit "USR2", 12); (lit "VTALRM", 26); (lit "WINCH", 28);
   (lit "XCPU", 24); (lit "XFSZ", 25)] ++ realtime sigrtmax.

Definition sigrtmax_mips : Z := 127.

Definition SignalMap_mips : list (str * Z) :=
  [(lit "ABRT", 6); (lit "ALRM", 14); (lit "BUS", 10); (lit "CHLD", 18); (lit "CLD", 18); (lit "CONT", 25); (lit "FPE", 8);
   (lit "HUP", 1); (lit "ILL", 4); (lit "INT", 2); (lit "IO", 22); (lit "IOT", 6); (lit "KILL", 9); (lit "PIPE", 13);
   (lit "POLL", 22); (lit "PROF", 29); (lit "PWR", 19); (lit "QUIT", 3); (lit "SEGV", 11); (lit "EMT", 7);
   (lit "STOP", 23); (lit "SYS", 12); (lit "TERM", 15); (lit "TRAP", 5); (lit "TSTP", 24); (lit "TTIN", 26);
   (lit "TTOU", 27); (lit "URG", 21); (lit "USR1", 16); (lit "USR2", 17); (lit "VTALRM", 28); (lit "WINCH", 20);
   (lit "XCPU", 30); (lit "XFSZ", 31)] ++ realtime sigrtmax_mips.

(** What a build knows of the signals. *)
Record build : Type := mkBuild { signals : list (str * Z); SIGCHLD : Z; SIGPIPE : Z; SIGURG : Z }.
Definition linux : build := mkBuild SignalMap 17 13 23.
Definition linux_mips : build := mkBuild SignalMap_mips 18 13 21.

(** [signal.Notify] with the values of the map *)
Definition CatchAll (b : build) : io unit := call (NotifySignals (map snd (signals b))).

End signal.
Import signal.

Module sigproxy.

Definition skipped (b : build) (s : Z) : bool := (s =? SIGCHLD b) || (s =? SIGPIPE b) || (s =? SIGURG b).

(** One signal from the channel; the error of kill(2) is only logged. *)
Definition forward (b : build) (pid s : Z) : io unit :=
  if skipped b s then Ret tt
  else _ <- call (Kill pid s) ;; Ret tt.

(** [ForwardAllSignals] and the signals that it then reads from the channel. *)
Definition ForwardAllSignals (b : build) (pid : Z) (sigs : list Z) : io unit :=
  _ <- CatchAll b ;;
  for_all sigs (forward b pid).

End sigproxy.
Import sigproxy.

(** The signals of Linux: the standard ones and the real-time ones that the C
    library does not keep for itself.  On mips there are 127. *)
Definition linux_signal (n : Z) : bool := ((1 <=? n) && (n <=? 31)) || ((34 <=? n) && (n <=? 64)).
Definition mips_signal (n : Z) : bool := ((1 <=? n) && (n <=? 31)) || ((34 <=? n) && (n <=? 127)).
(** Between RTMIN+15 and RTMAX-14 the map of mips has a gap. *)
Definition mips_gap (n : Z) : bool := (50 <=? n) && (n <=? 112).

(** A finite table has the values that a test below 128 says. *)
Lemma table_values (l : list Z) (P : Z -> bool) :
  (forall n, P n = true -> 0 <= n < 128) ->
  forallb P l = true -> forallb (fun n => implb (P n) (bool_decide (n ∈ l))) (map Z.of_nat (seq 0 128)) = true ->
  forall n, n ∈ l <-> P n = true.
Proof.
  intros Hb H1 H2 n. rewrite forallb_forall in H1, H2. split.
  - intros Hn. by apply H1, list_elem_of_In.
  - intros Hn. specialize (H2 n). rewrite Hn in H2. eapply bool_decide_eq_true_1, H2.
    apply in_map_iff. exists (Z.to_nat n). specialize (Hb n Hn). rewrite in_seq. lia.
Qed.

Lemma SignalMap_complete n : n ∈ map snd SignalMap <-> linux_signal n = true.
Proof.
  apply table_values; [|vm_compute; reflexivity..]. intros m. unfold linux_signal.
  rewrite orb_true_iff, !andb_true_iff, !Z.leb_le. lia.
Qed.

Lemma SignalMap_mips_values n : n ∈ map snd SignalMap_mips <-> mips_signal n && negb (mips_gap n) = true.
Proof.
  apply (table_values _ (fun n => mips_signal n && negb (mips_gap n))); [|vm_compute; reflexivity..]. intros m.
  unfold mips_signal. rewrite andb_true_iff, orb_true_iff, !andb_true_iff, !Z.leb_le. lia.
Qed.

Lemma forward_calls kern b pid sigs :
  (exec kern (ForwardAllSignals b pid sigs)).2 =
  NotifySignals (map snd (signals b)) :: map (Kill pid) (List.filter (fun s => negb (skipped b s)) sigs).
Proof.
  unfold ForwardAllSignals. rewrite exec_bind. cbn [CatchAll exec call fst snd app].
  f_equal. rewrite exec_for_all. induction sigs as [|s sigs IH]; [done|]. cbn [map concat List.filter]. rewrite IH.
  unfold forward. by destruct (skipped b s).
Qed.

(** Every signal of Linux is caught (on mips: all but those in the gap), and
    those that are received are sent to the child, each once and in order, but
    SIGCHLD, SIGPIPE and SIGURG, whatever kill(2) answers. *)
Theorem signals_forwarded kern b pid sigs :
  (b = linux \/ b = linux_mips) ->
  exists caught, (exec kern (ForwardAllSignals b pid sigs)).2 =
    NotifySignals caught :: map (Kill pid) (List.filter (fun s => negb (skipped b s)) sigs) /\
  forall n, n ∈ caught <->
    (b = linux /\ linux_signal n = true \/ b = linux_mips /\ mips_signal n = true /\ mips_gap n = false).
Proof.
  intros Hb. exists (map snd (signals b)). split; [apply forward_calls|]. intros n. destruct Hb as [-> | ->].
  - rewrite SignalMap_complete. split; [by left|]. by intros [[_ H]|[[=] _]].
  - rewrite SignalMap_mips_values, andb_true_iff, negb_true_iff. split; [by right|]. by intros [[[=] _]|[_ H]].
Qed.
