(* ===== verification/Help.v ===== *)
(** * cmd/rootlesskit: the options in the help text

    [formatFlags] groups the flags by category.  The groups are a Go map, whose
    iteration order is not specified: it is a parameter, any order of the keys.
    A flag is its own text ([String]) and its category; the flags themselves are
    those of github.com/urfave/cli. *)
From stdpp Require Import gmap sorting.
From S2P Require Import Prelude GoStrings.

Module category.

(** [category] is None for a flag that is not a [CategorizedFlag]. *)
Record flag : Set := mkFlag { text : str; category : option str }.

Definition CategoryState : str := "State".
Definition CategoryNetwork : str := "Network".
Definition CategoryPasta : str := "Network [pasta]".
Definition CategorySlirp4netns : str := "Network [slirp4netns]".
Definition CategoryVPNKit : str := "Network [vpnkit]".
Definition CategoryLXCUserNic : str := "Network [lxc-user-nic]".
Definition CategoryPort : str := "Port".
Definition CategoryMount : str := "Mount".
Definition CategoryProcess : str := "Process".
Definition CategorySubID : str := "SubID".
Definition CategoryMisc : str := "Misc".

Definition Categorize (f : flag) (category : str) : flag := mkFlag (text f) (Some category).

Definition cat_of (f : flag) : str :=
  match category f with
  | Some c => if bool_decide (c = []) then "(Uncategorized)" else c
  | None => "(Uncategorized)"
  end.

(** The first loop. *)
Definition add_flag (m : gmap str (list flag)) (f : flag) : gmap str (list flag) :=
  <[cat_of f := default [] (m !! cat_of f) ++ [f]]> m.
Definition group (flags : list flag) : gmap str (list flag) := fold_left add_flag flags ∅.

(** [sort.Strings]: by bytes *)
Definition str_le (a b : str) : Prop := String.le (String.string_of_list_ascii a) (String.string_of_list_ascii b).
#[export] Instance str_le_dec : RelDecision str_le.
Proof. intros a b. unfold str_le. apply _. Defined.
Definition sort_Strings : list str -> list str := merge_sort str_le.

Definition flag_line (f : flag) : str := lit "    " ++ text f ++ ["010"%char].
Definition block (cat : str) (fs : list flag) : str :=
  lit "  " ++ cat ++ lit ":" ++ ["009"%char; "010"%char] ++ concat (map flag_line fs) ++ lit "  " ++ ["009"%char; "010"%char].

(** [keys m] is the order in which the map is iterated. *)
Definition formatFlags (keys : gmap str (list flag) -> list str) (flags : list flag) : str :=
  let m := group flags in
  let catList := sort_Strings (keys m) in
  concat (map (fun cat => match m !! cat with Some fs => block cat fs | None => [] end) catList).

End category.
Import category.

(** ** The order of strings *)

Lemma string_of_list_inj a b : String.string_of_list_ascii a = String.string_of_list_ascii b -> a = b.
Proof. intros H. rewrite <- (String.list_ascii_of_string_of_list_ascii a), H. apply String.list_ascii_of_string_of_list_ascii. Qed.

#[export] Instance str_le_trans : Transitive str_le.
Proof. intros a b c. unfold str_le. by etrans. Qed.
#[export] Instance str_le_antisym : AntiSymm (=) str_le.
Proof. intros a b H1 H2. apply string_of_list_inj. by apply (anti_symm String.le). Qed.
#[export] Instance str_le_total : Total str_le.
Proof. intros a b. apply (total String.le). Qed.

(** Sorting does not see the order it is given. *)
Lemma sort_Strings_Permutation l1 l2 : l1 ≡ₚ l2 -> sort_Strings l1 = sort_Strings l2.
Proof.
  intros H. apply (StronglySorted_unique str_le); [apply (StronglySorted_merge_sort str_le)..|].
  unfold sort_Strings. by rewrite !merge_sort_Permutation.
Qed.

(** ** The groups *)

(** The flags of a category, in the order of the list. *)
Definition of_cat (c : str) (flags : list flag) : list flag := filter (fun f => cat_of f = c) flags.
Definition cats (flags : list flag) : list str := remove_dups (map cat_of flags).

Lemma of_cat_app c l1 l2 : of_cat c (l1 ++ l2) = of_cat c l1 ++ of_cat c l2.
Proof. apply filter_app. Qed.

Lemma group_snoc flags f : group (flags ++ [f]) = add_flag (group flags) f.
Proof. unfold group. by rewrite fold_left_app. Qed.

Lemma group_lookup flags c : group flags !! c = match of_cat c flags with [] => None | fs => Some fs end.
Proof.
  induction flags as [|f flags IH] using rev_ind; [apply lookup_empty|].
  rewrite group_snoc, of_cat_app. unfold add_flag, of_cat at 2. rewrite filter_cons, filter_nil.
  destruct (decide (cat_of f = c)) as [<-|Hne].
  - rewrite lookup_insert_eq, IH. by destruct (of_cat _ flags).
  - by rewrite lookup_insert_ne, IH, app_nil_r.
Qed.

Lemma group_keys flags : (map_to_list (group flags)).*1 ≡ₚ cats flags.
Proof.
  apply NoDup_Permutation; [apply NoDup_fst_map_to_list|apply NoDup_remove_dups|].
  intros c. unfold cats. rewrite elem_of_remove_dups, list_elem_of_fmap. split.
  - intros ([c' fs] & -> & H%elem_of_map_to_list). cbn. rewrite group_lookup in H.
    destruct (of_cat c' flags) as [|f l] eqn:E; [done|].
    assert (f ∈ of_cat c' flags) as [<- Hf]%list_elem_of_filter by (rewrite E; left). apply list_elem_of_fmap. eauto.
  - intros (f & -> & Hf)%list_elem_of_fmap. exists (cat_of f, of_cat (cat_of f) flags). split; [done|].
    apply elem_of_map_to_list. rewrite group_lookup. destruct (of_cat (cat_of f) flags) eqn:E; [|done].
    assert (f ∈ of_cat (cat_of f) flags) as H by (by apply list_elem_of_filter). rewrite E in H. by apply elem_of_nil in H.
Qed.

(** Every flag is in one group. *)
Lemma cats_partition flags l : NoDup l -> (forall f, f ∈ flags -> cat_of f ∈ l) -> concat (map (fun c => of_cat c flags) l) ≡ₚ flags.
Proof.
  intros Hl. induction flags as [|f flags IH]; intros Hc.
  { clear. induction l as [|c l IH]; [done|]. cbn. by rewrite IH. }
  trans (f :: concat (map (fun c => of_cat c flags) l)); [|apply perm_skip, IH; intros g Hg; apply Hc; by right].
  specialize (Hc f ltac:(left)). clear IH.
  apply list_elem_of_split in Hc as (l1 & l2 & ->). apply NoDup_app in Hl as (_ & Hd & [Hn _]%NoDup_cons).
  assert (forall (c : str) (l : list str), cat_of f ∉ l -> c ∈ l -> of_cat c (f :: flags) = of_cat c flags) as Hother.
  { intros c l Hnl Hcl. unfold of_cat. rewrite filter_cons_False; [done|]. intros <-. done. }
  rewrite !map_app, !concat_app. cbn [map concat]. unfold of_cat at 2. rewrite filter_cons_True by done.
  rewrite (map_ext_in (fun c => of_cat c (f :: flags)) (fun c => of_cat c flags) l1),
    (map_ext_in (fun c => of_cat c (f :: flags)) (fun c => of_cat c flags) l2).
  - cbn. symmetry. apply Permutation_middle.
  - intros c Hc%list_elem_of_In. by apply (Hother c l2).
  - intros c Hc%list_elem_of_In. apply (Hother c l1); [|done]. intros H. apply (Hd _ H). left.
Qed.

(** ** The help text *)

(** The list of options in the help text does not depend on the order in
    which Go iterates over the map: it is, for each category that occurs, in the
    order of their names, the category and its flags in the order in which they
    were declared; every flag is listed, once. *)
Theorem formatFlags_grouped keys flags :
  (forall m : gmap str (list flag), keys m ≡ₚ (map_to_list m).*1) ->
  let order := sort_Strings (cats flags) in
  formatFlags keys flags = concat (map (fun c => block c (of_cat c flags)) order) /\
  StronglySorted str_le order /\ NoDup order /\
  concat (map (fun c => of_cat c flags) order) ≡ₚ flags.
Proof.
  intros Hk order. assert (sort_Strings (keys (group flags)) = order) as Ho.
  { apply sort_Strings_Permutation. by rewrite Hk, group_keys. }
  assert (order ≡ₚ cats flags) as Hp by apply merge_sort_Permutation.
  assert (NoDup order) as Hn by (rewrite Hp; apply NoDup_remove_dups).
  assert (forall c, c ∈ order -> of_cat c flags <> []) as Hne.
  { intros c Hc E. rewrite Hp in Hc. unfold cats in Hc. apply elem_of_remove_dups, list_elem_of_fmap in Hc as (f & -> & Hf).
    assert (f ∈ of_cat (cat_of f) flags) as H by (by apply list_elem_of_filter). rewrite E in H. by apply elem_of_nil in H. }
  split; [|split; [apply (StronglySorted_merge_sort str_le)|split; [done|]]].
  - unfold formatFlags. rewrite Ho. f_equal. apply map_ext_in. intros c Hc%list_elem_of_In. rewrite group_lookup.
    specialize (Hne c Hc). by destruct (of_cat c flags).
  - apply cats_partition; [done|]. intros f Hf. rewrite Hp. apply elem_of_remove_dups, list_elem_of_fmap. eauto.
Qed.

Theorem formatFlags_grouped_witness :
  let flags := [Categorize (mkFlag "--net" None) CategoryNetwork; mkFlag "--debug" None;
                Categorize (mkFlag "--cidr" None) CategoryNetwork; Categorize (mkFlag "--copy-up" None) CategoryMount] in
  let keys (m : gmap str (list flag)) := (map_to_list m).*1 in
  formatFlags keys flags = formatFlags (fun m => rev (keys m)) flags /\
  sort_Strings (cats flags) = [lit "(Uncategorized)"; lit "Mount"; lit "Network"].
Proof.
  intros flags keys. split; [|vm_compute; reflexivity].
  destruct (formatFlags_grouped keys flags (fun m => reflexivity _)) as [-> _].
  destruct (formatFlags_grouped (fun m => rev (keys m)) flags) as [-> _]; [|reflexivity].
  intros m. symmetry. apply Permutation_rev.
Defined.

(** ** The drivers of the help text (main.go) *)
Module driver_help.

(** The drivers that are compiled in: the constants [Available]. *)
Record build : Set := mkBuild {
  with_slirp4netns : bool; with_vpnkit : bool; with_lxcusernic : bool; with_gvisor : bool;
  with_slirp4netns_port : bool; with_gvisor_port : bool;
}.

Definition when (b : bool) (s : str) : list str := if b then [s] else [].

Definition drivers (b : build) : list str :=
  [lit "host"; lit "none"; lit "pasta(experimental)"] ++ when (with_slirp4netns b) "slirp4netns" ++
  when (with_vpnkit b) "vpnkit" ++ when (with_lxcusernic b) "lxc-user-nic(experimental)" ++
  when (with_gvisor b) "gvisor-tap-vsock(experimental)".
Definition netDriversHelp (b : build) : str := strings.Join (drivers b) ", ".

Definition portDrivers (b : build) : list str :=
  [lit "none"; lit "implicit (for pasta)"; lit "builtin"] ++ when (with_slirp4netns_port b) "slirp4netns" ++
  when (with_gvisor_port b) "gvisor-tap-vsock(experimental)".
Definition portDriversHelp (b : build) : str := strings.Join (portDrivers b) ", ".

(** The prefix of the lines of the log, and the log of the helpers. *)
Definition logrusFormatter_Format (id message : str) : str := lit "[rootlesskit:" ++ id ++ lit "] " ++ message.
Definition logrusDebugWriter_Write (label p : str) : str * Z :=
  let s := strings.TrimSuffix p ["010"%char] in
  (if bool_decide (label = []) then s else label ++ lit ": " ++ s, Z.of_nat (length p)).

End driver_help.
Import driver_help.

(** The name of a driver: up to the remark in parentheses. *)
Definition driver_name (s : str) : str :=
  match find_index (fun c => bool_decide (c = "("%char)) s with
  | Some i => strings.TrimSpace (take i s)
  | None => s
  end.

(** The two lists name distinct drivers; nothing that is not compiled in is
    listed, and everything else always is. *)
Lemma help_names b :
  NoDup (map driver_name (drivers b)) /\ NoDup (map driver_name (portDrivers b)) /\
  (forall s, s ∈ map driver_name (drivers b) <->
     s ∈ map lit ["host"; "none"; "pasta"]%string \/ (s = lit "slirp4netns" /\ with_slirp4netns b = true) \/
     (s = lit "vpnkit" /\ with_vpnkit b = true) \/ (s = lit "lxc-user-nic" /\ with_lxcusernic b = true) \/
     (s = lit "gvisor-tap-vsock" /\ with_gvisor b = true)).
Proof.
  destruct b as [b1 b2 b3 b4 b5 b6]. split; [|split].
  - apply (bool_decide_eq_true (NoDup _)). destruct b1, b2, b3, b4; vm_compute; reflexivity.
  - apply (bool_decide_eq_true (NoDup _)). destruct b5, b6; vm_compute; reflexivity.
  - intros s. unfold drivers. simpl with_slirp4netns. simpl with_vpnkit. simpl with_lxcusernic. simpl with_gvisor.
    rewrite !map_app, !elem_of_app.
    assert (W : forall b x, s ∈ map driver_name (when b x) <-> s = driver_name x /\ b = true).
    { intros [] x; simpl; [rewrite list_elem_of_singleton|rewrite elem_of_nil]; naive_solver. }
    rewrite !W. done.
Qed.
