(* ===== verification/TestSuite.v ===== *)
(** * pkg/port/testsuite: the conformance tests of the port drivers

    The package is part of the program (it is not a _test.go file): a driver's
    tests call [Run].  A test makes a child process in new user and network
    namespaces, runs the parent driver, exposes ports and sends data through
    them.  A test function ends normally, with [t.Fatal] or [t.Skip] (which run
    the deferred functions), with a panic, or with the process. *)
From stdpp Require Import gmultiset.
From S2P Require Import Prelude GoStrings NetIP PortSpec Effects Parallel Framing Sys.
Import port.

(** ** Calls *)

Record Iface : Set := mkIface { if_name : str; if_flags : Z }.
(** [net.Addr]: an [*net.IPNet] or another one *)
Inductive Addr : Set := IPNet (ip : net.IP) | OtherAddr.

(** [exec.Cmd], with the id maps; all of them have [Pdeathsig: SIGKILL]. *)
Record tcmd : Set := mkTCmd {
  t_argv : list str;
  t_env : option (list str);
  t_files : list Z;
  t_cloneflags : Z;
  t_uidmap : list (Z * Z * Z);   (** container id, host id, size *)
  t_gidmap : list (Z * Z * Z);
}.

Inductive tsys : Set :=
  (* package testing *)
  | MRun | Logf (s : str) | TErrorf (s : str)
  (* the environment *)
  | TGetenv (k : str) | TEnviron | TGeteuid | TGetegid | TExecutable | TLookPath (f : str)
  (* files and processes *)
  | TPipe | TClose (fd : Z) | TReadAll (fd : Z) | ScanLine (fd : Z) | Println (s : str) | SleepMs (ms : Z)
  | StdoutRead (n : Z)
  | Start (c : tcmd) | TKill (pid : Z) | TWait (pid : Z) | TCombined (argv : list str)
  (* the driver of the child, in a goroutine *)
  | GoChildDriver (opaque : list (str * str)) | QuitChild | ChildErr
  (* the driver of the parent *)
  | TOpaqueForChild | GoParentDriver (cc : ChildContext) | AwaitInit | QuitParent | ParentErr
  | TAddPort (s : Spec) | TRemovePort (id : Z)
  (* package net *)
  | TListen (network addr : str) | ResolveUDPAddr (network addr : str) | ListenUDP (network addr : str)
  | TAccept (l : Z) | ReadFromUDP (c n : Z) | WriteToUDP (c : Z) (data addr : str)
  | TDial (network addr : str) | TWrite (c : Z) (data : str) | TRead (c n : Z) | TCloseWrite (c : Z)
  | TCloseConn (c : Z) | LocalAddr (c : Z) | SetReadDeadline (c ns : Z) | Discard (c : Z)
  | Interfaces | Addrs (i : Iface).

(** [Start] is [cmd.Start] with the pid; [TListen] and [ListenUDP] give the
    socket and its port; [TAccept] the connection and its remote address;
    [AwaitInit] is the [select] on the two channels: [None] when the driver is
    ready.  A driver may return a nil status. *)
Definition tres (c : tsys) : Type :=
  match c with
  | MRun | TGeteuid | TGetegid => Z
  | TGetenv _ | LocalAddr _ => str
  | TEnviron => list str
  | TExecutable | TLookPath _ | TReadAll _ | StdoutRead _ | TRead _ _ | ResolveUDPAddr _ _ => result str
  | TPipe | TListen _ _ | ListenUDP _ _ => result (Z * Z)
  | ScanLine _ => option str
  | Start _ | TDial _ _ => result Z
  | TAccept _ => result (Z * str)
  | ReadFromUDP _ _ => result (str * str)
  | TKill _ | TWait _ | ChildErr | ParentErr | TRemovePort _ | TWrite _ _ | TCloseWrite _ | TCloseConn _
  | SetReadDeadline _ _ | WriteToUDP _ _ _ => result unit
  | TCombined _ => str * option error
  | TOpaqueForChild => list (str * str)
  | AwaitInit => option (result unit)
  | TAddPort _ => result (option Status)
  | Interfaces => result (list Iface)
  | Addrs _ => result (list Addr)
  | _ => unit
  end.

Abbreviation test := (prog tres).
Abbreviation do := (@Effects.call tsys tres).

(** ** How a test function ends *)
Inductive stop : Set :=
  | Fatal (e : error)        (** [t.Fatal]: [runtime.Goexit] *)
  | Skipped (why : error)    (** [t.Skip] *)
  | Panicked (e : error)
  | Crashed (e : error)      (** a panic of another goroutine *)
  | Exited (code : Z).       (** [os.Exit] *)

Inductive out (A : Type) : Type :=
  | Fine (a : A)
  | Stop (s : stop).
Arguments Fine {A} a.
Arguments Stop {A} s.

Definition tbind {A B} (p : test (out A)) (f : A -> test (out B)) : test (out B) :=
  bind p (fun r => match r with Fine a => f a | Stop s => Ret (Stop s) end).

Notation "x <-t p ;; q" := (tbind p (fun x => q))
  (at level 100, p at next level, right associativity) : go_scope.

Definition halt {A} (s : stop) : test (out A) := Ret (Stop s).
(** a call that cannot fail *)
Definition fine {A} (p : test A) : test (out A) := bind p (fun a => Ret (Fine a)).
(** [if err != nil { t.Fatal(err) }], [if err != nil { panic(err) }] *)
Definition or_stop (f : error -> stop) {A} (p : test (result A)) : test (out A) :=
  bind p (fun r => Ret match r with Ok a => Fine a | Err e => Stop (f e) end).
Abbreviation or_fatal := (or_stop Fatal).
Abbreviation or_panic := (or_stop Panicked).
(** the result is dropped *)
Definition ignore {A} (p : test A) : test (out unit) := bind p (fun _ => Ret (Fine tt)).

(** Nothing runs any more. *)
Definition gone (s : stop) : bool := match s with Crashed _ | Exited _ => true | _ => false end.

(** [defer d]: it also runs after [t.Fatal], [t.Skip] and a panic. *)
Definition tdefer {A} (d : test (out unit)) (p : test (out A)) : test (out A) :=
  bind p (fun r =>
    match r with
    | Stop s => if gone s then Ret r else bind d (fun r' => Ret match r' with Fine _ => r | Stop s' => Stop s' end)
    | Fine _ => bind d (fun r' => Ret match r' with Fine _ => r | Stop s' => Stop s' end)
    end).

(** What kills the process when it comes from a goroutine. *)
Definition dies {A} (r : out A) : option error :=
  match r with Stop (Panicked e) => Some e | _ => None end.

(** ** testsuite.go *)
Module testsuite.
Section testsuite.
Context `{JO : JsonCodec (list (str * str))}.
(** [err.Error()]: Prelude.v keeps only a part of it. *)
Context (Error : error -> str).

Definition reexecKeyMode : str := "rootlesskit-port-testsuite.mode".
Definition reexecKeyOpaque : str := "rootlesskit-port-testsuite.opaque".
Definition reexecKeyQuitFD : str := "rootlesskit-port-testsuite.quitfd".
Definition reexecKeyEchoPort : str := "rootlesskit-port-testsuite.echoport".

Definition EADDRINUSE : error := Extern "address already in use".

Definition ensureDeps (deps : list str) : test (out unit) :=
  foldr (fun dep rest =>
    _ <-t or_stop (fun e => Skipped (Wrapf "%q not found: %v" [AStr dep] e)) (do (TLookPath dep)) ;;
    rest) (Ret (Fine tt)) deps.

Definition isAddrInUse (err : error) : bool :=
  errors_Is err EADDRINUSE ||
  strings.Contains (Error err) "address already in use" || strings.Contains (Error err) "port is busy".

Definition is_tcp (proto : str) : bool := bool_decide (proto = lit "tcp") || bool_decide (proto = lit "tcp4").
Definition is_udp (proto : str) : bool := bool_decide (proto = lit "udp") || bool_decide (proto = lit "udp4").

(** The port is free again when it is returned. *)
Definition allocateAvailablePort (proto : str) : test (result Z) :=
  if is_tcp proto then
    ln <-! do (TListen proto "127.0.0.1:0") ;;
    defer (_ <- do (TClose ln.1) ;; Ret tt) (Ret (Ok ln.2))
  else if is_udp proto then
    addr <-! do (ResolveUDPAddr proto "127.0.0.1:0") ;;
    conn <-! do (ListenUDP proto addr) ;;
    defer (_ <- do (TCloseConn conn.1) ;; Ret tt) (Ret (Ok conn.2))
  else Ret (Err (Errorf "unsupported proto %q" [AStr proto])).

(** The first IPv4 address of a list. *)
Fixpoint first_ipv4 (addrs : list Addr) : option str :=
  match addrs with
  | [] => None
  | IPNet ip :: addrs' => match net.To4 ip with Some ip4 => Some (net.String ip4) | None => first_ipv4 addrs' end
  | OtherAddr :: addrs' => first_ipv4 addrs'
  end.

Definition FlagUp : Z := 1.
Definition FlagLoopback : Z := 4.

Fixpoint scan_ifaces (ifaces : list Iface) : test (result str) :=
  match ifaces with
  | [] => Ret (Err (Errorf "no non-loopback IPv4 address found" []))
  | iface :: ifaces' =>
      if negb (Z.land (if_flags iface) FlagLoopback =? 0) || (Z.land (if_flags iface) FlagUp =? 0)
      then scan_ifaces ifaces'
      else
        addrs <- do (Addrs iface) ;;
        match addrs with
        | Err _ => scan_ifaces ifaces'
        | Ok addrs => match first_ipv4 addrs with Some ip => Ret (Ok ip) | None => scan_ifaces ifaces' end
        end
  end.

Definition nonLoopbackIPv4 : test (result str) :=
  ifaces <-! do Interfaces ;;
  scan_ifaces ifaces.

(** *** The re-exec modes *)

Definition runEchoServer : test (out unit) :=
  portStr <-t fine (do (TGetenv reexecKeyEchoPort)) ;;
  if bool_decide (portStr = []) then halt (Panicked (Extern (lit "echoserver: missing " ++ reexecKeyEchoPort)))
  else
    ln <-t or_stop (fun e => Panicked (Wrapf "echoserver: listen: %w" [] e)) (do (TListen "tcp" (lit "127.0.0.1:" ++ portStr))) ;;
    tdefer (ignore (do (TClose ln.1)))
      (_ <-t ignore (do (TClose 3)) ;;
       conn <-t or_stop (fun e => Panicked (Wrapf "echoserver: accept: %w" [] e)) (do (TAccept ln.1)) ;;
       tdefer (ignore (do (TCloseConn conn.1)))
         (_ <-t ignore (do (Println conn.2)) ;;
          ignore (do (Discard conn.1)))).

Definition runUDPEchoServer : test (out unit) :=
  portStr <-t fine (do (TGetenv reexecKeyEchoPort)) ;;
  if bool_decide (portStr = []) then halt (Panicked (Extern (lit "udpechoserver: missing " ++ reexecKeyEchoPort)))
  else
    addr <-t or_stop (fun e => Panicked (Wrapf "udpechoserver: resolve: %w" [] e))
               (do (ResolveUDPAddr "udp" (lit "127.0.0.1:" ++ portStr))) ;;
    conn <-t or_stop (fun e => Panicked (Wrapf "udpechoserver: listen: %w" [] e)) (do (ListenUDP "udp" addr)) ;;
    tdefer (ignore (do (TCloseConn conn.1)))
      (_ <-t ignore (do (TClose 3)) ;;
       r <-t or_stop (fun e => Panicked (Wrapf "udpechoserver: read: %w" [] e)) (do (ReadFromUDP conn.1 65507)) ;;
       _ <-t ignore (do (Println r.2)) ;;
       ignore (do (WriteToUDP conn.1 r.1 r.2))).

(** The child process: it runs the driver of the child until the pipe is closed. *)
Definition main_child : test (out unit) :=
  js <-t fine (do (TGetenv reexecKeyOpaque)) ;;
  opaque <-t or_panic (Ret (json_Unmarshal js)) ;;
  _ <-t ignore (do (GoChildDriver opaque)) ;;
  fdS <-t fine (do (TGetenv reexecKeyQuitFD)) ;;
  quitFD <-t or_panic (Ret (strconv.Atoi fdS)) ;;
  tdefer (ignore (do (TClose quitFD)))
    (_ <-t or_panic (do (TReadAll quitFD)) ;;
     _ <-t ignore (do QuitChild) ;;
     or_panic (do ChildErr)).

Definition Main : test (out unit) :=
  mode <-t fine (do (TGetenv reexecKeyMode)) ;;
  if bool_decide (mode = []) then code <-t fine (do MRun) ;; halt (Exited code)
  else if bool_decide (mode = lit "child") then main_child
  else if bool_decide (mode = lit "echoserver") then _ <-t runEchoServer ;; halt (Exited 0)
  else if bool_decide (mode = lit "udpechoserver") then _ <-t runUDPEchoServer ;; halt (Exited 0)
  else halt (Panicked (Errorf "unknown mode: %q" [AStr mode])).

(** *** Ports *)

Definition maxAttempts : nat := 10.

(** [d.AddPort], with another port when the one that was free is not any more;
    the status and the port that was added. *)
Fixpoint add_port (f : error -> stop) (proto parentIP : str) (childP : Z) (attempts : nat) (current : Z) :
    test (out (option Status * Z)) :=
  match attempts with
  | O => Ret (Fine (None, current))
  | S attempts =>
      r <- do (TAddPort (mkSpec proto parentIP current childP [])) ;;
      match r with
      | Ok st => Ret (Fine (st, current))
      | Err e =>
          if bool_decide (attempts = O) || negb (isAddrInUse e) then halt (f e)
          else p <-t or_stop f (allocateAvailablePort proto) ;; add_port f proto parentIP childP attempts p
      end
  end.

(** Dials up to [n] times more; the last failure is a panic. *)
Fixpoint dial (proto addr : str) (n : nat) (i : Z) : test (out Z) :=
  match n with
  | O => halt (Panicked (Panic "nil pointer dereference"))
  | S n =>
      r <- do (TDial proto addr) ;;
      match r with
      | Ok conn => Ret (Fine conn)
      | Err e =>
          if i =? 4 then halt (Panicked e)
          else _ <- do (SleepMs (5 * i)) ;; dial proto addr n (i + 1)
      end
  end.

Definition nsenter_argv (pid : Z) (cmd : list str) : list str :=
  map lit ["nsenter"; "-U"; "--preserve-credential"; "-n"; "-t"]%string ++ [strconv.Itoa pid] ++ cmd.

Definition nsenterExec (pid : Z) (cmd : list str) : test (str * option error) := do (TCombined (nsenter_argv pid cmd)).

Definition test_data (proto : str) (childPID childP parentP : Z) : str :=
  lit "test-" ++ proto ++ lit "-" ++ strconv.Itoa childPID ++ lit "-" ++ strconv.Itoa childP ++ lit "-" ++ strconv.Itoa parentP.

(** [rBytes] after one [Read] that got [s]: the rest stays zero. *)
Definition read_buffer (n : nat) (s : str) : str := take n s ++ replicate (n - length s) zero.

(** Data through the port: [pid] is nc, in the namespace. *)
Definition exchange (proto : str) (pid childPID childP parentP : Z) : test (out unit) :=
  _ <-t (if is_udp proto then ignore (do (SleepMs 1000)) else Ret (Fine tt)) ;;
  conn <-t dial proto (lit "127.0.0.1:" ++ strconv.Itoa parentP) 5 0 ;;
  let wBytes := test_data proto childPID childP parentP in
  _ <-t or_panic (do (TWrite conn wBytes)) ;;
  _ <-t (if is_tcp proto then or_panic (do (TCloseWrite conn)) else or_panic (do (TCloseConn conn))) ;;
  s <-t or_panic (do (StdoutRead (Z.of_nat (length wBytes)))) ;;
  let rBytes := read_buffer (length wBytes) s in
  if bool_decide (wBytes <> rBytes)
  then halt (Panicked (Errorf "expected %q, got %q" [AStr wBytes; AStr rBytes]))
  else if is_tcp proto then
    _ <-t or_panic (do (TCloseConn conn)) ;;
    or_panic (do (TWait pid))
  else ignore (do (TKill pid)).

(** The part of [testProtoRoutine] that has nc to kill. *)
Definition with_port (proto : str) (pid childPID childP parentP : Z) : test (out unit) :=
  r <-t add_port Panicked proto "127.0.0.1" childP maxAttempts parentP ;;
  match r with
  | (None, _) => halt (Panicked (Extern "AddPort never succeeded"))
  | (Some portStatus, parentP) =>
      tdefer (_ <-t or_panic (do (TRemovePort (ID portStatus))) ;; ignore (do (Logf "closed port ID")))
        (_ <-t ignore (do (Logf "opened port")) ;;
         exchange proto pid childPID childP parentP)
  end.

Definition testProtoRoutine (proto : str) (childPID childP parentP : Z) : test (out unit) :=
  if negb (is_tcp proto || is_udp proto) then halt (Panicked (Extern "invalid proto"))
  else
    let ncFlags := if is_udp proto then [lit "-u"] else [] in
    let argv := nsenter_argv childPID ([lit "nc"] ++ ncFlags ++ [lit "-l"; strconv.Itoa childP]) in
    pid <-t or_panic (do (Start (mkTCmd argv None [] 0 [] []))) ;;
    tdefer (ignore (do (TKill pid))) (with_port proto pid childPID childP parentP).

(** The two goroutines: [sched] is how they are interleaved, and [swap] the
    order in which the map of the ports is ranged over. *)
Definition routines (swap : bool) (sched : list bool) (proto : str) (childPID p80 p8080 : Z) : test (out unit) :=
  let r80 := testProtoRoutine proto childPID 80 p80 in
  let r8080 := testProtoRoutine proto childPID 8080 p8080 in
  r <- (if swap then par dies dies sched r8080 r80 else par dies dies sched r80 r8080) ;;
  Ret match r with inl _ => Fine tt | inr e => Stop (Crashed e) end.

(** [d.RunParentDriver] in a goroutine, until it is ready *)
Definition start_driver : test (out unit) :=
  _ <-t ignore (do (GoParentDriver (mkChildContext None None None))) ;;
  ready <-t fine (do AwaitInit) ;;
  match ready with
  | None => Ret (Fine tt)
  | Some (Err e) => halt (Fatal e)
  | Some (Ok _) => halt (Fatal (Extern "<nil>"))
  end.

Definition stop_driver : test (out unit) :=
  _ <-t ignore (do QuitParent) ;;
  or_fatal (do ParentErr).

Definition free_port (proto : str) : test (out Z) :=
  or_stop (fun e => Fatal (Wrapf "failed to allocate parent port for %s: %v" [AStr proto] e)) (allocateAvailablePort proto).

Definition testProtoWithPID (swap : bool) (sched : list bool) (proto : str) (childPID : Z) : test (out unit) :=
  _ <-t ensureDeps (map lit ["nsenter"; "ip"; "nc"]%string) ;;
  p80 <-t free_port proto ;;
  p8080 <-t free_port proto ;;
  _ <-t ignore (do (Logf "namespace pid")) ;;
  _ <-t start_driver ;;
  _ <-t routines swap sched proto childPID p80 p8080 ;;
  stop_driver.

(** The environment of the child process. *)
Definition child_env (opaqueJSON : str) (environ : list str) : list str :=
  [reexecKeyMode ++ lit "=child"; reexecKeyOpaque ++ lit "=" ++ opaqueJSON; reexecKeyQuitFD ++ lit "=3"] ++ environ.

(** The child process in its namespaces; it ends when the pipe is closed. *)
Definition in_namespaces (body : Z -> test (out unit)) : test (out unit) :=
  _ <-t ensureDeps [lit "nsenter"] ;;
  _ <-t ignore (do (Logf "creating USER+NET namespace")) ;;
  opaque <-t fine (do TOpaqueForChild) ;;
  opaqueJSON <-t or_fatal (Ret (json_Marshal opaque)) ;;
  pipe <-t or_fatal (do TPipe) ;;
  environ <-t fine (do TEnviron) ;;
  euid <-t fine (do TGeteuid) ;;
  egid <-t fine (do TGetegid) ;;
  pid <-t or_fatal (do (Start (mkTCmd [lit "/proc/self/exe"] (Some (child_env opaqueJSON environ)) [pipe.1]
                                 (Z.lor CLONE_NEWUSER CLONE_NEWNET) [(0, euid, 1)] [(0, egid, 1)]))) ;;
  tdefer (_ <-t ignore (do (TClose pipe.2)) ;; ignore (do (TWait pid)))
    (out <-t fine (nsenterExec pid (map lit ["ip"; "link"; "set"; "lo"; "up"]%string)) ;;
     match out with
     | (o, Some e) => halt (Fatal (Wrapf "%v, out=%s" [AStr o] e))
     | (_, None) => body pid
     end).

Definition TestProto (swap : bool) (sched : list bool) (proto : str) : test (out unit) :=
  in_namespaces (testProtoWithPID swap sched proto).

(** *** The transparent mode *)

(** Dials up to [n] times, and sleeps after every failure. *)
Fixpoint dial_sleeping (addr : str) (n : nat) (i : Z) (last : error) : test (out Z) :=
  match n with
  | O => halt (Fatal last)
  | S n =>
      r <- do (TDial "tcp" addr) ;;
      match r with
      | Ok conn => Ret (Fine conn)
      | Err e => _ <- do (SleepMs (5 * i)) ;; dial_sleeping addr n (i + 1) e
      end
  end.

Definition transparentTCPDialAndSend (parentAddr : str) : test (out str) :=
  conn <-t dial_sleeping parentAddr 5 0 (Extern "") ;;
  clientAddr <-t fine (do (LocalAddr conn)) ;;
  _ <-t or_fatal (do (TWrite conn "hello")) ;;
  _ <-t or_fatal (do (TCloseWrite conn)) ;;
  _ <-t ignore (do (TCloseConn conn)) ;;
  Ret (Fine clientAddr).

Definition transparentUDPDialAndSend (parentAddr : str) : test (out str) :=
  conn <-t or_fatal (do (TDial "udp" parentAddr)) ;;
  tdefer (ignore (do (TCloseConn conn)))
    (clientAddr <-t fine (do (LocalAddr conn)) ;;
     _ <-t or_fatal (do (TWrite conn "hello")) ;;
     _ <-t or_fatal (do (SetReadDeadline conn 5000000000)) ;;
     got <-t or_stop (fun e => Fatal (Wrapf "did not receive UDP echo reply (issue #592 return-path regression): %v" [] e))
               (do (TRead conn 64)) ;;
     if bool_decide (got <> lit "hello") then halt (Fatal (Errorf "unexpected UDP echo reply: %q" [AStr got]))
     else Ret (Fine clientAddr)).

(** The environment of the echo server. *)
Definition echo_env (echoMode : str) (childPort : Z) (environ : list str) : list str :=
  [reexecKeyMode ++ lit "=" ++ echoMode; reexecKeyEchoPort ++ lit "=" ++ strconv.Itoa childPort] ++ environ.

Definition split_or_fatal (what addr : str) : test (out str) :=
  r <-t or_stop (fun e => Fatal (Wrapf (lit "failed to parse " ++ what ++ lit " address %q: %v") [AStr addr] e))
          (Ret (net.SplitHostPort addr)) ;;
  Ret (Fine (fst r)).

(** What the server has seen must be the address of the client for TCP, and
    must not be for UDP. *)
Definition compare_hosts (proto clientHost serverHost : str) : test (out unit) :=
  if bool_decide (proto = lit "tcp") then
    if bool_decide (clientHost <> serverHost) then ignore (do (TErrorf "IP mismatch")) else Ret (Fine tt)
  else if bool_decide (clientHost = serverHost) then ignore (do (TErrorf "expected UDP source IP not to be preserved"))
  else Ret (Fine tt).

(** From the running echo server to the end of the driver. *)
Definition transparent_exchange (proto parentIP : str) (pid stdoutR : Z) : test (out unit) :=
  parentPort <-t or_fatal (allocateAvailablePort proto) ;;
  r <-t add_port Fatal proto parentIP 80 maxAttempts parentPort ;;
  let '(portStatus, parentPort) := r in
  _ <-t ignore (do (Logf "opened port")) ;;
  _ <-t (if bool_decide (proto = lit "udp") then ignore (do (SleepMs 500)) else Ret (Fine tt)) ;;
  let parentAddr := net.JoinHostPort parentIP (strconv.Itoa parentPort) in
  clientAddr <-t (if bool_decide (proto = lit "tcp") then transparentTCPDialAndSend parentAddr
                  else transparentUDPDialAndSend parentAddr) ;;
  _ <-t ignore (do (Logf "client local address")) ;;
  line <-t fine (do (ScanLine stdoutR)) ;;
  match line with
  | None => halt (Fatal (Extern "failed to read remote address from echo server"))
  | Some serverSawAddr =>
      _ <-t ignore (do (Logf "server saw remote address")) ;;
      _ <-t ignore (do (TWait pid)) ;;
      clientHost <-t split_or_fatal "client" clientAddr ;;
      serverHost <-t split_or_fatal "server-seen" serverSawAddr ;;
      _ <-t compare_hosts proto clientHost serverHost ;;
      match portStatus with
      | None => halt (Panicked (Panic "nil pointer dereference"))
      | Some st => _ <-t or_fatal (do (TRemovePort (ID st))) ;; stop_driver
      end
  end.

Definition testTransparentWithPID (proto : str) (childPID : Z) : test (out unit) :=
  _ <-t ensureDeps [lit "nsenter"] ;;
  if negb (bool_decide (proto = lit "tcp") || bool_decide (proto = lit "udp"))
  then halt (Fatal (Errorf "unsupported proto for transparent test: %s" [AStr proto]))
  else
    let echoMode := if bool_decide (proto = lit "tcp") then lit "echoserver" else lit "udpechoserver" in
    parentIP <-t or_stop (fun e => Skipped (Wrapf "no non-loopback IPv4 address available: " [] e)) nonLoopbackIPv4 ;;
    _ <-t ignore (do (Logf "using non-loopback parent IP")) ;;
    _ <-t start_driver ;;
    exe <-t or_fatal (do TExecutable) ;;
    ready <-t or_fatal (do TPipe) ;;
    stdout <-t or_fatal (do TPipe) ;;
    environ <-t fine (do TEnviron) ;;
    pid <-t or_fatal (do (Start (mkTCmd (nsenter_argv childPID [exe]) (Some (echo_env echoMode 80 environ)) [ready.2] 0 [] []))) ;;
    tdefer (ignore (do (TKill pid)))
      (_ <-t ignore (do (TClose ready.2)) ;;
       _ <-t ignore (do (TReadAll ready.1)) ;;
       _ <-t ignore (do (TClose ready.1)) ;;
       _ <-t ignore (do (TClose stdout.2)) ;;
       transparent_exchange proto parentIP pid stdout.1).

Definition TestTCPTransparent : test (out unit) := in_namespaces (testTransparentWithPID "tcp").
Definition TestUDPTransparent : test (out unit) := in_namespaces (testTransparentWithPID "udp").

(** [Run]: the subtests, by name.  [t.Run] runs a test in a goroutine of its own
    and waits for it; its failure is not that of the others. *)
Definition RunTCP swap sched : str * test (out unit) := (lit "TestTCP", TestProto swap sched "tcp").
Definition RunTCP4 swap sched : str * test (out unit) := (lit "TestTCP4", TestProto swap sched "tcp4").
Definition RunUDP swap sched : str * test (out unit) := (lit "TestUDP", TestProto swap sched "udp").
Definition RunUDP4 swap sched : str * test (out unit) := (lit "TestUDP4", TestProto swap sched "udp4").
Definition RunTCPTransparent : str * test (out unit) := (lit "TestTCPTransparent", TestTCPTransparent).
Definition RunUDPTransparent : str * test (out unit) := (lit "TestUDPTransparent", TestUDPTransparent).

(** One subtest after the other, up to a crash of the process. *)
Fixpoint run_all (tests : list (str * test (out unit))) : test (out (list (str * bool))) :=
  match tests with
  | [] => Ret (Fine [])
  | (name, p) :: tests =>
      r <- p ;;
      match r with
      | Stop (Panicked e | Crashed e) => halt (Crashed e)
      | Stop (Exited c) => halt (Exited c)
      | _ =>
          rest <-t run_all tests ;;
          Ret (Fine ((name, match r with Stop (Fatal _) => false | _ => true end) :: rest))
      end
  end.

Definition Run (swap : bool) (sched : list bool) : test (out (list (str * bool))) :=
  run_all [RunTCP swap sched; RunTCP4 swap sched; RunUDP swap sched; RunUDP4 swap sched].

(** [TLogWriter]: a line of a log *)
Definition tLogWriter_Write (s p : str) : test Z :=
  _ <- do (Logf (s ++ lit ": " ++ strings.TrimSuffix p ["010"%char])) ;;
  Ret (Z.of_nat (length p)).
End testsuite.
End testsuite.
Import testsuite.

(** ** What a test leaves behind

    The protocol of a test: a port is only added while the driver runs, and
    only removed when it is there; a process is only killed or awaited by the
    one that has started it; the driver is only told to quit when no port is
    left. *)
Record left_behind : Type := mkLeft {
  ports : gmultiset Z;      (** the ports that are exposed, by id *)
  started : gset Z;         (** the processes that were started *)
  ended : gset Z;           (** those that were killed or awaited *)
  ready : bool;             (** the driver of the parent runs *)
}.

Definition suite (s : left_behind) (c : tsys) : tres c -> option left_behind :=
  match c return tres c -> option left_behind with
  | TAddPort _ => fun r =>
      if ready s then
        Some match r with Ok (Some st) => mkLeft (ports s ⊎ {[+ ID st +]}) (started s) (ended s) (ready s) | _ => s end
      else None
  | TRemovePort id => fun _ =>
      if bool_decide (id ∈ ports s) then Some (mkLeft (ports s ∖ {[+ id +]}) (started s) (ended s) (ready s)) else None
  | Start _ => fun r =>
      Some match r with Ok pid => mkLeft (ports s) (started s ∪ {[ pid ]}) (ended s) (ready s) | Err _ => s end
  | TKill pid => fun _ =>
      if bool_decide (pid ∈ started s) then Some (mkLeft (ports s) (started s) (ended s ∪ {[ pid ]}) (ready s)) else None
  | TWait pid => fun _ =>
      if bool_decide (pid ∈ started s) then Some (mkLeft (ports s) (started s) (ended s ∪ {[ pid ]}) (ready s)) else None
  | AwaitInit => fun r =>
      Some match r with None => mkLeft (ports s) (started s) (ended s) true | Some _ => s end
  | QuitParent => fun _ =>
      if ready s && bool_decide (ports s = ∅) then Some (mkLeft (ports s) (started s) (ended s) false) else None
  | _ => fun _ => Some s
  end.

Definition no_suite (c : tsys) : bool :=
  match c with
  | TAddPort _ | TRemovePort _ | Start _ | TKill _ | TWait _ | AwaitInit | QuitParent => false
  | _ => true
  end.

(** The calls of the goroutines. *)
Definition in_routine (c : tsys) : bool := match c with AwaitInit | QuitParent => false | _ => true end.

(** Both goroutines, each with what it leaves behind. *)
Definition beside (s f : left_behind) : left_behind :=
  mkLeft (ports s ⊎ ports f) (started s ∪ started f) (ended s ∪ ended f) (ready s || ready f).

#[export] Instance suite_framed : Framed suite beside in_routine.
Proof.
  split.
  - intros [p1 s1 e1 r1] [p2 s2 e2 r2]. unfold beside. simpl.
    f_equal; [multiset_solver|set_solver|set_solver|apply orb_comm].
  - intros [p1 s1 e1 r1] [p2 s2 e2 r2] c r s' Hc. unfold beside. destruct c; try done; simpl; try (intros [= <-]; done).
    + intros [= <-]. destruct r; [|done]. simpl. do 2 f_equal. set_solver.
    + case_bool_decide; [|done]. intros [= <-]. rewrite bool_decide_eq_true_2 by set_solver. simpl. do 2 f_equal. set_solver.
    + case_bool_decide; [|done]. intros [= <-]. rewrite bool_decide_eq_true_2 by set_solver. simpl. do 2 f_equal. set_solver.
    + destruct r1; [|done]. simpl. intros [= <-]. destruct r as [[st|]|]; [|done..]. simpl. do 2 f_equal. multiset_solver.
    + case_bool_decide; [|done]. intros [= <-]. rewrite bool_decide_eq_true_2 by multiset_solver. simpl. do 2 f_equal.
      multiset_solver.
Qed.

Abbreviation stracks := (tracks suite).

Lemma no_suite_step s c r : no_suite c = true -> suite s c r = Some s.
Proof. by destruct c. Qed.

Lemma suite_quiet {A} (p : test A) s (Q : A -> left_behind -> Prop) :
  only no_suite p -> (forall a, Q a s) -> stracks p s Q.
Proof. intros Hp HQ. by apply (tracks_only _ no_suite); [|apply no_suite_step|]. Qed.

Lemma suite_tbind {A B} (p : test (out A)) (f : A -> test (out B)) s Q :
  stracks p s (fun r s' => match r with Fine a => stracks (f a) s' Q | Stop x => Q (Stop x) s' end) ->
  stracks (tbind p f) s Q.
Proof. intros H. apply tracks_bind. eapply tracks_mono; [exact H|]. by intros [a|x] s'. Qed.

Definition is_gone {A} (r : out A) : bool := match r with Stop x => gone x | Fine _ => false end.

(** A deferred function, unless the process is gone. *)
Lemma suite_tdefer {A} (d : test (out unit)) (p : test (out A)) s Q :
  stracks p s (fun r s' => if is_gone r then Q r s'
    else stracks d s' (fun r' s'' => Q (match r' with Fine _ => r | Stop x => Stop x end) s'')) ->
  stracks (tdefer d p) s Q.
Proof.
  intros H. apply tracks_bind. eapply tracks_mono; [exact H|]. intros [a|x] s' H'; simpl in H'.
  - by apply tracks_bind.
  - destruct (gone x); [exact H'|]. by apply tracks_bind.
Qed.

(** A part of a test that makes calls of a class, and leaves the process alive. *)
Fixpoint mild {A} (P : tsys -> bool) (p : test (out A)) : Prop :=
  match p with
  | Ret r => is_gone r = false
  | Call c k => P c = true /\ forall r, mild P (k r)
  end.

Section mild.
Context (P : tsys -> bool).

Lemma mild_bind {A B} (p : test A) (f : A -> test (out B)) :
  only P p -> (forall a, mild P (f a)) -> mild P (bind p f).
Proof. intros Hp Hf. induction p as [a|c k IH]; simpl in *; [apply Hf|]. split; [apply Hp|]. intros r. by apply IH, Hp. Qed.

Lemma mild_out {A B} (p : test (out A)) (f : out A -> test (out B)) :
  mild P p -> (forall r, is_gone r = false -> mild P (f r)) -> mild P (bind p f).
Proof. intros Hp Hf. induction p as [a|c k IH]; simpl in *; [by apply Hf|]. split; [apply Hp|]. intros r. by apply IH, Hp. Qed.

Lemma mild_tbind {A B} (p : test (out A)) (f : A -> test (out B)) :
  mild P p -> (forall a, mild P (f a)) -> mild P (tbind p f).
Proof. intros Hp Hf. apply mild_out; [done|]. intros [a|s] H; [apply Hf|exact H]. Qed.

Lemma mild_tdefer {A} (d : test (out unit)) (p : test (out A)) : mild P d -> mild P p -> mild P (tdefer d p).
Proof.
  intros Hd Hp. apply mild_out; [done|].
  intros [a|s] H; [|simpl in H; rewrite H]; (apply mild_out; [done|]); by intros [[]|s'] H'.
Qed.

Lemma mild_or_stop {A} f (p : test (result A)) :
  (forall e, gone (f e) = false) -> only P p -> mild P (or_stop f p).
Proof. intros Hf Hp. apply mild_bind; [done|]. intros [a|e]; [done|apply Hf]. Qed.

Lemma mild_fine {A} (p : test A) : only P p -> mild P (fine p).
Proof. intros Hp. by apply mild_bind. Qed.

Lemma mild_ignore {A} (p : test A) : only P p -> mild P (ignore p).
Proof. intros Hp. by apply mild_bind. Qed.

Lemma mild_if {A} (b : bool) (p q : test (out A)) : mild P p -> mild P q -> mild P (if b then p else q).
Proof. by destruct b. Qed.
End mild.

Lemma mild_only {A} P (p : test (out A)) : mild P p -> only P p.
Proof. induction p as [r|c k IH]; simpl; [done|]. intros [Hc Hk]. split; [done|]. intros r. by apply IH. Qed.

(** A part that the protocol does not see. *)
Lemma suite_mild {A} (p : test (out A)) s (Q : out A -> left_behind -> Prop) :
  mild no_suite p -> (forall r, is_gone r = false -> Q r s) -> stracks p s Q.
Proof.
  intros Hp HQ. induction p as [r|c k IH]; simpl in *; [by apply HQ|]. intros r.
  rewrite no_suite_step by apply Hp. by apply IH, Hp.
Qed.

Lemma suite_tquiet {A B} (p : test (out A)) (f : A -> test (out B)) s (Q : out B -> left_behind -> Prop) :
  mild no_suite p -> (forall x, gone x = false -> Q (Stop x) s) -> (forall a, stracks (f a) s Q) ->
  stracks (tbind p f) s Q.
Proof. intros Hp Hs Hf. apply suite_tbind, suite_mild; [done|]. intros [a|x] H; [apply Hf|by apply Hs]. Qed.

Create HintDb mild discriminated.

(** [mild_tac] follows the structure of a part of a test. *)
Ltac mild_step :=
  lazymatch goal with
  | |- forall _, _ => intros ?
  | |- mild _ (tbind _ _) => apply mild_tbind
  | |- mild _ (tdefer _ _) => apply mild_tdefer
  | |- mild _ (or_stop _ _) => apply mild_or_stop; [done|]
  | |- mild _ (fine _) => apply mild_fine
  | |- mild _ (ignore _) => apply mild_ignore
  | |- mild _ (halt _) => reflexivity
  | |- mild _ (Ret _) => reflexivity
  | |- mild _ (if _ then _ else _) => apply mild_if
  | |- mild _ (match ?x with _ => _ end) => destruct x
  | |- mild _ (let '_ := _ in _) => cbv zeta
  | |- mild _ ?p => let h := head_of p in unfold h; cbv zeta
  | |- only _ _ => only_tac
  end.
Ltac mild_tac := repeat (first [solve [eauto with mild] | mild_step]).

Section left_behind.
Context `{JO : JsonCodec (list (str * str))} (Error : error -> str).

Lemma allocate_only P proto :
  (forall n a, P (TListen n a) = true) -> (forall fd, P (TClose fd) = true) -> (forall n a, P (ResolveUDPAddr n a) = true) ->
  (forall n a, P (ListenUDP n a) = true) -> (forall c, P (TCloseConn c) = true) ->
  only P (allocateAvailablePort proto).
Proof.
  intros H1 H2 H3 H4 H5. unfold allocateAvailablePort. destruct (is_tcp proto); [|destruct (is_udp proto); [|done]].
  - split; [apply H1|]. intros [ln|e]; [|done]. split; [apply H2|]. done.
  - split; [apply H3|]. intros [a|e]; [|done]. split; [apply H4|]. intros [c|e]; [|done]. split; [apply H5|]. done.
Qed.

Lemma allocate_quiet proto : only no_suite (allocateAvailablePort proto).
Proof. by apply allocate_only. Qed.
#[local] Hint Resolve allocate_quiet : only.

Lemma dial_mild P proto addr n i :
  (forall n a, P (TDial n a) = true) -> (forall ms, P (SleepMs ms) = true) -> mild P (dial proto addr n i).
Proof.
  intros H1 H2. revert i. induction n as [|n IH]; intros i; simpl; [done|]. split; [apply H1|]. intros [c|e]; [done|].
  destruct (i =? 4); [done|]. split; [apply H2|]. intros _. apply IH.
Qed.

Lemma dial_quiet proto addr n i : mild no_suite (dial proto addr n i).
Proof. by apply dial_mild. Qed.
#[local] Hint Resolve dial_quiet : mild.

(** What a part of a test leaves as it was. *)
Definition steady (s : left_behind) {A} (r : out A) (s' : left_behind) : Prop :=
  is_gone r = false /\
  ports s' = ports s /\ started s' = started s /\ ended s ⊆ ended s' /\ ready s' = ready s.

Lemma steady_refl s {A} (r : out A) : is_gone r = false -> steady s r s.
Proof. done. Qed.
#[local] Hint Resolve steady_refl : core.

(** A process that was started can be killed and awaited. *)
Lemma suite_ends {A} (c : tsys) (k : tres c -> test A) s pid Q :
  c = TKill pid \/ c = TWait pid -> pid ∈ started s ->
  (forall r, stracks (k r) (mkLeft (ports s) (started s) (ended s ∪ {[ pid ]}) (ready s)) Q) -> stracks (Call c k) s Q.
Proof. by intros [-> | ->] Hp Hk r; simpl; rewrite bool_decide_eq_true_2. Qed.

Lemma exchange_steady proto pid childPID childP parentP s :
  pid ∈ started s -> stracks (exchange proto pid childPID childP parentP) s (steady s).
Proof.
  intros Hp. unfold exchange. apply suite_tquiet; [mild_tac|done|]. intros _.
  apply suite_tquiet; [mild_tac|done|]. intros conn. apply suite_tquiet; [mild_tac|done|]. intros _.
  apply suite_tquiet; [mild_tac|done|]. intros _. apply suite_tquiet; [mild_tac|done|]. intros got.
  case_bool_decide; [done|]. destruct (is_tcp proto).
  - apply suite_tquiet; [mild_tac|done|]. intros _. apply (suite_ends _ _ _ pid); [by right|done|].
    intros r. repeat split; [by destruct r|]. simpl. set_solver.
  - apply (suite_ends _ _ _ pid); [by left|done|]. intros r. repeat split. simpl. set_solver.
Qed.

(** [add_port]: the port that was added, or no change. *)
Definition added (s : left_behind) (r : out (option Status * Z)) (s' : left_behind) : Prop :=
  match r with
  | Fine (Some st, _) => s' = mkLeft (ports s ⊎ {[+ ID st +]}) (started s) (ended s) (ready s)
  | _ => is_gone r = false /\ s' = s
  end.

Lemma add_port_added f proto ip childP n p s :
  (forall e, gone (f e) = false) -> ready s = true -> stracks (add_port Error f proto ip childP n p) s (added s).
Proof.
  intros Hf Hr. revert p. induction n as [|n IH]; intros p; [done|]. intros r. simpl. rewrite Hr.
  destruct r as [[st|]|e]; [by rewrite <- Hr|done|]. destruct (_ || _); [by split; [apply Hf|]|].
  apply suite_tquiet; [|done|intros q; apply IH]. apply mild_or_stop; [done|only_tac].
Qed.

(** The deferred [RemovePort] comes after everything else. *)
Lemma with_port_steady proto pid childPID childP parentP s :
  pid ∈ started s -> ready s = true -> stracks (with_port Error proto pid childPID childP parentP) s (steady s).
Proof.
  intros Hp Hr. apply suite_tbind. eapply tracks_mono; [by apply add_port_added|].
  intros [[[st|] q]|x] s1 Hs; simpl in Hs; [subst s1|by destruct Hs as [_ ->]|by destruct Hs as [Hx ->]].
  apply suite_tdefer. set (s1 := mkLeft _ _ _ _). apply (tracks_mono _ _ _ (steady s1)).
  { apply suite_tquiet; [mild_tac|done|]. intros _. by apply exchange_steady. }
  intros r s2 (Hg & Hpo & Hst & Hen & Hre). rewrite Hg. intros x. simpl.
  rewrite bool_decide_eq_true_2 by (rewrite Hpo; simpl; multiset_solver).
  set (s3 := mkLeft _ _ _ _). assert (H3 : forall x : out unit, is_gone x = false -> steady s x s3).
  { intros x' Hx'. split; [done|]. unfold s3. simpl. rewrite Hpo, Hst, Hre. simpl. repeat split; [multiset_solver|].
    etransitivity; [|exact Hen]. done. }
  destruct x as [[]|e]; simpl; [intros _; by apply H3|by apply H3].
Qed.

(** A goroutine: no port is left, and nc has been killed. *)
Definition cleaned (s : left_behind) {A} (r : out A) (s' : left_behind) : Prop :=
  is_gone r = false /\ ports s' = ports s /\ started s ⊆ started s' /\ started s' ⊆ started s ∪ ended s' /\
  ended s ⊆ ended s' /\ ready s' = ready s.

Lemma testProtoRoutine_cleaned proto childPID childP parentP s :
  ready s = true -> stracks (testProtoRoutine Error proto childPID childP parentP) s (cleaned s).
Proof.
  intros Hr. unfold testProtoRoutine. assert (Hc : forall r : out unit, is_gone r = false -> cleaned s r s).
  { intros r Hg. repeat split; set_solver. }
  destruct (negb _); [by apply Hc|]. intros r. destruct r as [pid|e]; [|by apply Hc].
  apply suite_tdefer. set (s1 := mkLeft _ _ _ _). assert (pid ∈ started s1) by (simpl; set_solver).
  eapply tracks_mono; [by apply with_port_steady|]. intros r s2 (Hg & Hpo & Hst & Hen & Hre). rewrite Hg.
  apply (suite_ends _ _ _ pid); [by left|by rewrite Hst|]. intros _. split; [done|]. simpl.
  rewrite Hpo, Hst, Hre. simpl in *. repeat split; set_solver.
Qed.

(** ** The two goroutines *)

Lemma allocate_in_routine proto : only in_routine (allocateAvailablePort proto).
Proof. by apply allocate_only. Qed.
#[local] Hint Resolve allocate_in_routine : only.

Lemma dial_in_routine proto addr n i : mild in_routine (dial proto addr n i).
Proof. by apply dial_mild. Qed.
#[local] Hint Resolve dial_in_routine : mild.

Lemma add_port_in_routine f proto ip childP n p :
  (forall e, gone (f e) = false) -> mild in_routine (add_port Error f proto ip childP n p).
Proof.
  intros Hf. revert p. induction n as [|n IH]; intros p; simpl; [done|]. split; [done|]. intros [st|e]; [done|].
  destruct (_ || _); [apply Hf|]. apply mild_tbind; [|apply IH]. apply mild_or_stop; [done|only_tac].
Qed.

Lemma routine_in_routine proto childPID childP parentP :
  only in_routine (testProtoRoutine Error proto childPID childP parentP).
Proof.
  apply mild_only. unfold testProtoRoutine. destruct (negb _); [done|]. cbv zeta. apply mild_tbind; [mild_tac|]. intros pid.
  apply mild_tdefer; [mild_tac|]. apply mild_tbind; [by apply add_port_in_routine|]. intros [[st|] p]; [|done].
  apply mild_tdefer; [mild_tac|]. mild_tac.
Qed.

Lemma routines_cleaned swap sched proto childPID p80 p8080 s :
  ready s = true ->
  stracks (routines Error swap sched proto childPID p80 p8080) s
    (fun r s' => (exists e, r = Stop (Crashed e)) \/ (r = Fine tt /\ cleaned s r s')).
Proof.
  intros Hr. set (s0 := mkLeft ∅ ∅ ∅ true). assert (Es : s = beside s s0).
  { destruct s as [p st en r]. unfold beside. simpl in *. f_equal; [multiset_solver|set_solver|set_solver|by subst]. }
  assert (H : forall a pa b pb, stracks
    (r <- par dies dies sched (testProtoRoutine Error proto childPID a pa) (testProtoRoutine Error proto childPID b pb) ;;
     Ret match r with inl _ => Fine tt | inr e => Stop (Crashed e) end) s
    (fun r s' => (exists e, r = Stop (Crashed e)) \/ (r = Fine tt /\ cleaned s r s'))).
  { intros a pa b pb. apply tracks_bind. rewrite Es at 1. eapply tracks_mono.
    - apply (tracks_par dies dies suite beside in_routine); [apply routine_in_routine..|by apply testProtoRoutine_cleaned|].
      by apply testProtoRoutine_cleaned.
    - intros [[r1 r2]|e] s'; [|by left; eexists]. intros (s1 & s2 & -> & H1 & H2). right. split; [done|].
      destruct H1 as (_ & P1 & S1 & E1 & N1 & R1), H2 as (_ & P2 & S2 & E2 & N2 & R2). unfold beside. split; [done|]. simpl in *.
      rewrite P1, P2, R1, R2, Hr. repeat split; [multiset_solver|set_solver..]. }
  unfold routines. destruct swap; apply H.
Qed.

(** ** A whole test *)

Definition is_fine {A} (r : out A) : bool := match r with Fine _ => true | Stop _ => false end.

(** Unless the test process is gone: every process that was started has ended;
    no port is left, in any case ([strict]) or when the test goes to its end;
    and then the driver does not run any more either. *)
Definition all_clean (strict : bool) (s : left_behind) {A} (r : out A) (s' : left_behind) : Prop :=
  is_gone r = false ->
  (strict || is_fine r = true -> ports s' = ∅) /\ (is_fine r = true -> ready s' = false) /\ started s ⊆ started s' /\ started s' ⊆ started s ∪ ended s'.

Lemma all_clean_refl strict s {A} x : ports s = ∅ -> all_clean strict s (Stop x : out A) s.
Proof. intros H _. repeat split; try done; set_solver. Qed.
#[local] Hint Resolve all_clean_refl : core.

Lemma start_driver_ready s (f : unit -> test (out unit)) Q :
  (forall x, gone x = false -> Q (Stop x) s) ->
  stracks (f tt) (mkLeft (ports s) (started s) (ended s) true) Q -> stracks (tbind start_driver f) s Q.
Proof.
  intros HQ Hf. apply suite_tbind. intros u. simpl. intros [[[]|e]|]; simpl; [by apply HQ..|]. exact Hf.
Qed.

Lemma stop_driver_clean s Q :
  ready s = true -> ports s = ∅ ->
  (forall r, is_gone r = false -> Q r (mkLeft (ports s) (started s) (ended s) false)) -> stracks stop_driver s Q.
Proof.
  intros Hr Hp HQ u. simpl. rewrite Hr, bool_decide_eq_true_2 by done. simpl. intros [[]|e]; by apply HQ.
Qed.

Lemma ensureDeps_quiet deps : mild no_suite (ensureDeps deps).
Proof. induction deps as [|d deps IH]; [done|]. apply mild_tbind; [mild_tac|done]. Qed.
#[local] Hint Resolve ensureDeps_quiet : mild.

Lemma testProtoWithPID_clean swap sched proto childPID s :
  ports s = ∅ -> stracks (testProtoWithPID Error swap sched proto childPID) s (all_clean true s).
Proof.
  intros Hp. do 4 (apply suite_tquiet; [mild_tac|intros; by apply all_clean_refl|]; intros ?).
  apply start_driver_ready; [intros; by apply all_clean_refl|]. set (s1 := mkLeft _ _ _ _). apply suite_tbind.
  eapply tracks_mono; [by apply routines_cleaned|]. intros r s2 [[e ->]|[-> Hc]]; [done|].
  destruct Hc as (_ & P & S1 & S2 & _ & R). simpl in *. apply stop_driver_clean; [done|by rewrite P|].
  intros r Hg _. simpl. rewrite P. repeat split; try done; set_solver.
Qed.

Lemma in_namespaces_clean strict body s :
  ports s = ∅ -> (forall pid s, ports s = ∅ -> stracks (body pid) s (all_clean strict s)) ->
  stracks (in_namespaces body) s (all_clean strict s).
Proof.
  intros Hp Hb. do 8 (apply suite_tquiet; [mild_tac|intros; by apply all_clean_refl|]; intros ?).
  apply suite_tbind. intros r. destruct r as [pid|e]; [|by apply all_clean_refl].
  apply suite_tdefer. set (s1 := mkLeft _ _ _ _). apply (tracks_mono _ _ _ (all_clean strict s1)).
  { apply suite_tquiet; [mild_tac|intros x _; by apply all_clean_refl|].
    intros [o [e|]]; [by refine (all_clean_refl _ _ _ _)|]. by apply Hb. }
  intros r s2 H. destruct (is_gone r) eqn:Hg; [by intros Hx; rewrite Hg in Hx|]. destruct (H Hg) as (P & R & S1 & S2).
  simpl in *. intros u. simpl. intros v. simpl. rewrite bool_decide_eq_true_2 by set_solver. intros _. simpl.
  split; [exact P|split; [exact R|split; set_solver]].
Qed.

Lemma dial_sleeping_quiet addr n i last : mild no_suite (dial_sleeping addr n i last).
Proof.
  revert i last. induction n as [|n IH]; intros i last; simpl; [done|]. split; [done|]. intros [c|e]; [done|].
  split; [done|]. intros _. apply IH.
Qed.
#[local] Hint Resolve dial_sleeping_quiet : mild.

(** The transparent test removes its port when it comes to its end. *)
Definition exchanged (s : left_behind) {A} (r : out A) (s' : left_behind) : Prop :=
  is_gone r = false /\ started s' = started s /\ ended s ⊆ ended s' /\
  (is_fine r = true -> ports s' = ports s /\ ready s' = false).

Lemma transparent_exchange_clean proto parentIP pid fd s :
  pid ∈ started s -> ready s = true -> ports s = ∅ ->
  stracks (transparent_exchange Error proto parentIP pid fd) s (exchanged s).
Proof.
  intros Hs Hr Hp. apply suite_tquiet; [mild_tac|done|]. intros p0. apply suite_tbind.
  eapply tracks_mono; [by apply add_port_added|]. intros [[st p]|x] s1 H1; [|by destruct H1 as [? ->]].
  assert (E1 : started s1 = started s /\ ended s1 = ended s /\ ready s1 = true) by (destruct st; simpl in H1; [by subst s1|by destruct H1 as [_ ->]]).
  destruct E1 as (Es & Ee & Er). assert (Hx : forall x, gone x = false -> exchanged s (Stop x : out unit) s1).
  { intros x Hx. repeat split; try done. by rewrite Ee. }
  do 4 (apply suite_tquiet; [mild_tac|exact Hx|]; intros ?). apply suite_tquiet; [mild_tac|exact Hx|].
  intros [line|]; [|by apply Hx].
  apply suite_tquiet; [mild_tac|exact Hx|]. intros _. apply suite_tbind.
  apply (suite_ends _ _ _ pid); [by right|by rewrite Es|]. intros r. set (s2 := mkLeft _ _ _ _).
  assert (Hx2 : forall x, gone x = false -> exchanged s (Stop x : out unit) s2).
  { intros x Hx2. repeat split; try done. simpl. rewrite Ee. set_solver. }
  do 3 (apply suite_tquiet; [mild_tac|exact Hx2|]; intros ?).
  destruct st as [st|]; [|by apply Hx2]. simpl in H1. intros rm. simpl.
  rewrite H1. simpl. rewrite bool_decide_eq_true_2 by multiset_solver. destruct rm as [[]|e].
  - apply stop_driver_clean; [done|simpl; rewrite Hp; multiset_solver|]. intros q Hq. simpl.
    repeat split; simpl; try done; [set_solver|multiset_solver].
  - repeat split; try done. simpl. set_solver.
Qed.

Lemma scan_ifaces_quiet ifaces : only no_suite (scan_ifaces ifaces).
Proof.
  induction ifaces as [|i l IH]; simpl; [done|]. destruct (_ || _); [done|]. split; [done|]. intros [a|e]; [|done].
  by destruct (first_ipv4 a).
Qed.
#[local] Hint Resolve scan_ifaces_quiet : only.

Lemma testTransparentWithPID_clean proto childPID s :
  ports s = ∅ -> stracks (testTransparentWithPID Error proto childPID) s (all_clean false s).
Proof.
  intros Hp. apply suite_tquiet; [mild_tac|intros; by apply all_clean_refl|]. intros _.
  destruct (negb _); [by refine (all_clean_refl _ _ _ _)|]. cbv zeta.
  do 2 (apply suite_tquiet; [mild_tac|intros; by apply all_clean_refl|]; intros ?).
  apply start_driver_ready; [intros; by apply all_clean_refl|]. set (s1 := mkLeft _ _ _ _).
  assert (Hs : forall x, gone x = false -> all_clean false s (Stop x : out unit) s1).
  { intros x Hx _. simpl. repeat split; try done; set_solver. }
  do 4 (apply suite_tquiet; [mild_tac|exact Hs|]; intros ?). apply suite_tbind. intros [pid|e]; [|by apply Hs].
  apply suite_tdefer. set (s2 := mkLeft _ _ _ _). apply (tracks_mono _ _ _ (exchanged s2)).
  { do 4 (apply suite_tquiet; [mild_tac|by intros|]; intros ?). apply transparent_exchange_clean; simpl; [set_solver|done..]. }
  intros r s3 (Hg & Hst & Hen & Hpo). rewrite Hg. simpl in *. intros u. simpl.
  rewrite bool_decide_eq_true_2 by set_solver. intros _. simpl. split; [|split; [|split; set_solver]]; intros Hf; destruct (Hpo Hf) as [Hp2 Hr2]; [by rewrite Hp2|done].
Qed.
End left_behind.

Section theorems.
Context `{JO : JsonCodec (list (str * str))} (Error : error -> str).

Definition nothing_left : left_behind := mkLeft ∅ ∅ ∅ false.

(** C26: what the tests of the port drivers leave behind, whatever the kernel and
    the driver answer and however the two goroutines are interleaved.  A port is
    only added while the driver runs and only removed when it is there, a
    process is only killed or awaited by the test that has started it, and the
    driver is told to quit when no port is left.  At the end, unless a panic in a
    goroutine or an exit has ended the test process: every process that was
    started was killed or awaited; when the test goes to its end, the driver has
    been told to quit and no port is left; when it ends early, by t.Fatal or a
    panic, no port is left by [TestProto], while the transparent tests may leave
    theirs, and either may leave the driver running. *)
Theorem tests_clean_up :
  (forall swap sched proto,
     tracks suite (TestProto Error swap sched proto) nothing_left (all_clean true nothing_left)) /\
  tracks suite (TestTCPTransparent Error) nothing_left (all_clean false nothing_left) /\
  tracks suite (TestUDPTransparent Error) nothing_left (all_clean false nothing_left).
Proof.
  split; [|split]; intros; apply in_namespaces_clean; try done; intros pid s Hs.
  - by apply testProtoWithPID_clean.
  - by apply testTransparentWithPID_clean.
  - by apply testTransparentWithPID_clean.
Qed.

(** ** The attempts of [AddPort] *)

Record tries : Type := mkTries {
  tried : nat;
  last_try : option (Z * result (option Status));   (** the port and the answer *)
  found : option (result Z);   (** what looking for a free port has given since then *)
}.

(** At most ten attempts; after the first one, only when the port was in use,
    and with a port that has been found free since. *)
Definition attempt (first : Z) (s : tries) (c : tsys) : tres c -> option tries :=
  let seen r := Some (mkTries (tried s) (last_try s) (Some r)) in
  match c return tres c -> option tries with
  | TListen _ _ => fun r => seen (match r with Ok l => Ok l.2 | Err e => Err e end)
  | ListenUDP _ _ => fun r => seen (match r with Ok l => Ok l.2 | Err e => Err e end)
  | ResolveUDPAddr _ _ => fun r => match r with Ok _ => Some s | Err e => seen (Err e) end
  | TAddPort spec => fun r =>
      if bool_decide (tried s < 10)%nat &&
         match last_try s with
         | None => bool_decide (ParentPort spec = first)
         | Some (_, Err e) => isAddrInUse Error e && bool_decide (found s = Some (Ok (ParentPort spec)))
         | Some (_, Ok _) => false
         end
      then Some (mkTries (S (tried s)) (Some (ParentPort spec, r)) None) else None
  | _ => fun _ => Some s
  end.

(** The error of looking for a port; there is no call for a protocol that is
    neither of TCP nor of UDP. *)
Definition search_failed (proto : str) (s : tries) (e : error) : Prop :=
  found s = Some (Err e) \/
  (is_tcp proto = false /\ is_udp proto = false /\ found s = None /\ e = Errorf "unsupported proto %q" [AStr proto]).

(** [add_port] gives what the last attempt gave: its status and port, or its
    error when there are no attempts left or the port was not in use; or else
    the error of looking for another port. *)
Definition told_of (f : error -> stop) (proto : str) (r : out (option Status * Z)) (s : tries) : Prop :=
  match r with
  | Fine (st, p) => last_try s = Some (p, Ok st)
  | Stop x => exists p e, last_try s = Some (p, Err e) /\
      if (tried s =? 10)%nat || negb (isAddrInUse Error e) then x = f e
      else exists e', x = f e' /\ search_failed proto s e'
  end.

Lemma allocate_tries first proto s (Q : result Z -> tries -> Prop) :
  (forall p, Q (Ok p) (mkTries (tried s) (last_try s) (Some (Ok p)))) ->
  (forall e s', tried s' = tried s -> last_try s' = last_try s -> search_failed proto s' e -> Q (Err e) s') ->
  found s = None -> tracks (attempt first) (allocateAvailablePort proto) s Q.
Proof.
  intros H1 H2 Hs. unfold allocateAvailablePort. destruct (is_tcp proto) eqn:Et; [|destruct (is_udp proto) eqn:Eu].
  - intros [l|e]; simpl; [intros _; apply H1|]. apply H2; [done..|by left].
  - intros [a|e]; simpl; [|apply H2; [done..|by left]]. intros [l|e]; simpl; [intros _; apply H1|].
    apply H2; [done..|by left].
  - apply H2; [done..|by right].
Qed.

(** C37: [AddPort] is tried at most ten times, and again only when the port was
    in use, each time with a port that has just been found free.  [add_port]
    returns the status and the port of the last attempt when it succeeded; when
    it failed and was the tenth, or failed for another reason, it reports its
    error; otherwise the search for another port has failed, and its error is
    reported. *)
Theorem add_port_attempts f proto ip childP first :
  tracks (attempt first) (add_port Error f proto ip childP maxAttempts first) (mkTries 0 None None) (told_of f proto).
Proof.
  assert (H : forall n s p, (tried s + n = 10)%nat -> (0 < n)%nat ->
    match last_try s with
    | None => p = first
    | Some (_, Err e) => isAddrInUse Error e = true /\ found s = Some (Ok p)
    | Some (_, Ok _) => False
    end -> tracks (attempt first) (add_port Error f proto ip childP n p) s (told_of f proto)).
  { induction n as [|n IH]; intros s p Hn H0 Hl; [lia|]. intros r. simpl. rewrite bool_decide_eq_true_2 by lia. simpl.
    replace (match last_try s with None => _ | _ => _ end) with true.
    2:{ destruct (last_try s) as [[q [st|e]]|]; [done| |by rewrite bool_decide_eq_true_2].
        destruct Hl as [-> ->]. by rewrite bool_decide_eq_true_2. }
    destruct r as [st|e]; [done|]. case_bool_decide as En; simpl.
    { exists p, e. split; [done|]. simpl. replace (tried s) with 9%nat by lia. done. }
    destruct (isAddrInUse Error e) eqn:Eu; simpl.
    2:{ exists p, e. split; [done|]. simpl. by rewrite Eu, orb_true_r. }
    apply tracks_bind, tracks_bind, allocate_tries; [| |done].
    - intros q. apply IH; simpl; [lia|lia|done].
    - intros e' s' H1 H2 H3. simpl in *. exists p, e. split; [done|]. rewrite H1, Eu.
      destruct (Nat.eqb_spec (S (tried s)) 10); [lia|]. simpl. by exists e'. }
  apply H; [done|unfold maxAttempts; lia|done].
Qed.

(** ** The address of the host *)

(** Every non-loopback IPv4 address of the interfaces that are up, in order. *)
Definition ipv4_of (a : Addr) : option net.IP := match a with IPNet ip => net.To4 ip | OtherAddr => None end.
Definition candidates (kern : forall c, tres c) (ifaces : list Iface) : list net.IP :=
  i ← ifaces;
  if (Z.land (if_flags i) FlagLoopback =? 0) && negb (Z.land (if_flags i) FlagUp =? 0)
  then match kern (Addrs i) with Ok addrs => omap ipv4_of addrs | Err _ => [] end
  else [].

Lemma first_ipv4_head addrs : first_ipv4 addrs = net.String <$> head (omap ipv4_of addrs).
Proof. induction addrs as [|[ip|] l IH]; simpl; [done| |exact IH]. by destruct (net.To4 ip). Qed.

(** The address that the transparent tests use is the first of the
    non-loopback IPv4 addresses of the interfaces that are up; interfaces whose
    addresses cannot be read are passed over, and there is an error only when
    there is no such address (or no list of interfaces). *)
Theorem nonLoopbackIPv4_first (kern : forall c, tres c) :
  (exec kern nonLoopbackIPv4).1 =
  match kern Interfaces with
  | Err e => Err e
  | Ok ifaces =>
      match head (candidates kern ifaces) with
      | Some ip => Ok (net.String ip)
      | None => Err (Errorf "no non-loopback IPv4 address found" [])
      end
  end.
Proof.
  unfold nonLoopbackIPv4. unfold ebind. rewrite exec_bind. simpl. destruct (kern Interfaces) as [ifaces|e]; [|done].
  induction ifaces as [|i l IH]; [done|].
  change (candidates kern (i :: l)) with
    ((if (Z.land (if_flags i) FlagLoopback =? 0) && negb (Z.land (if_flags i) FlagUp =? 0)
      then match kern (Addrs i) with Ok addrs => omap ipv4_of addrs | Err _ => [] end else []) ++ candidates kern l).
  simpl scan_ifaces. destruct (Z.land (if_flags i) FlagLoopback =? 0), (Z.land (if_flags i) FlagUp =? 0); try exact IH.
  unfold negb, orb, andb. cbv beta iota. simpl. destruct (kern (Addrs i)) as [addrs|e]; [rewrite first_ipv4_head|].
  - destruct (omap ipv4_of addrs) as [|ip ips]; simpl; [|done]. destruct (exec kern (scan_ifaces l)). exact IH.
  - destruct (exec kern (scan_ifaces l)). exact IH.
Qed.

(** ** The child process of a test *)

(** A variable of the environment: os/exec keeps the last of the same name. *)
Definition key_value (k kv : str) : option str :=
  if strings.HasPrefix kv (k ++ lit "=") then Some (drop (S (length k)) kv) else None.
Definition env_lookup (env : list str) (k : str) : str := default [] (last (omap (key_value k) env)).

(** None of the variables of the package. *)
Definition no_test_vars (env : list str) : Prop :=
  forall kv, kv ∈ env -> strings.HasPrefix kv (lit "rootlesskit-port-testsuite.") = false.

Lemma lookup_no_test_vars env k :
  no_test_vars env -> strings.HasPrefix k (lit "rootlesskit-port-testsuite.") = true -> omap (key_value k) env = [].
Proof.
  intros H [r ->]%HasPrefix_spec. induction env as [|kv env IH]; [done|].
  assert (E : key_value (lit "rootlesskit-port-testsuite." ++ r) kv = None).
  { unfold key_value. destruct (strings.HasPrefix kv _) eqn:E; [|done].
    apply HasPrefix_spec in E as [t ->]. rewrite <- !app_assoc in H. exfalso.
    specialize (H _ (list_elem_of_here _ _)). by rewrite HasPrefix_app in H. }
  cbn [omap list_omap]. rewrite E. apply IH. intros kv' Hkv. apply H. by right.
Qed.

Lemma lookup_child_env js env :
  no_test_vars env ->
  env_lookup (child_env js env) reexecKeyMode = lit "child" /\
  env_lookup (child_env js env) reexecKeyOpaque = js /\
  env_lookup (child_env js env) reexecKeyQuitFD = lit "3".
Proof.
  intros H. unfold env_lookup, child_env. rewrite !omap_app, !(lookup_no_test_vars env), !app_nil_r by done. done.
Qed.

(** The child process of a test gets the opaque data of the parent driver:
    in the environment that the test gives it, [Main] runs the driver of the
    child with what [OpaqueForChild] said (as it survives JSON), waits for the
    pipe that it was given as its first extra file, tells the driver to quit
    and panics with the driver's error. *)
Theorem child_gets_opaque (kern : forall c, tres c) opaque js environ :
  json_Marshal opaque = Ok js -> no_test_vars environ ->
  (forall k, kern (TGetenv k) = env_lookup (child_env js environ) k) ->
  (exists s, kern (TReadAll 3) = Ok s) ->
  exec kern Main =
  (match kern ChildErr with Ok _ => Fine tt | Err e => Stop (Panicked e) end,
   [TGetenv reexecKeyMode; TGetenv reexecKeyOpaque; GoChildDriver (json_norm opaque); TGetenv reexecKeyQuitFD;
    TReadAll 3; QuitChild; ChildErr; TClose 3]).
Proof.
  intros Hj Hv Hg [s Hs]. destruct (lookup_child_env js environ Hv) as (Em & Eo & Eq).
  unfold Main, tbind, fine. rewrite !exec_bind. simpl. rewrite !Hg, Em. simpl.
  rewrite !Hg, Eo, (json_roundtrip _ _ Hj). simpl. rewrite !Hg, Eq. change (strconv.Atoi (lit "3")) with (Ok 3). simpl.
  rewrite Hs. simpl. by destruct (kern ChildErr) as [[]|e].
Qed.
End theorems.

(** ** Concrete runs *)

(** A codec that knows one value: what the builtin driver gives its child. *)
Definition test_opaque : list (str * str) := [(lit "builtin.socketpath", lit "/tmp/s")].
Definition test_json : str := lit "{" ++ quoted "builtin.socketpath" ++ lit ":" ++ quoted "/tmp/s" ++ lit "}".

#[local] Program Instance test_codec : JsonCodec (list (str * str)) := {|
  json_Marshal l := if bool_decide (l = test_opaque) then Ok test_json else Err (Extern "json");
  json_Unmarshal s := if bool_decide (s = test_json) then Ok test_opaque else Err (Extern "json");
  json_norm l := l;
|}.
Next Obligation. intros x b. simpl. case_bool_decide; [|done]. intros [= <-]. by subst. Qed.
Next Obligation. intros x b. simpl. case_bool_decide; [|done]. by intros [= <-]. Qed.

(** Everything succeeds; the child process is asked for its variables. *)
Definition suite_kernel (c : tsys) : tres c :=
  match c return tres c with
  | MRun => 0
  | TGeteuid | TGetegid => 1000
  | TGetenv k => env_lookup (child_env test_json [lit "PATH=/bin"]) k
  | LocalAddr _ => lit "192.168.1.2:4000"
  | TEnviron => [lit "PATH=/bin"]
  | TExecutable | TLookPath _ | TReadAll _ => Ok []
  | ResolveUDPAddr _ a => Ok a
  | StdoutRead n => Ok (replicate (Z.to_nat n) "x"%char)
  | TRead _ _ => Ok (lit "hello")
  | TPipe => Ok (5, 6)
  | TListen _ _ | ListenUDP _ _ => Ok (7, 40000)
  | ScanLine _ => Some (lit "192.168.1.2:4000")
  | Start _ => Ok 100
  | TDial _ _ => Ok 8
  | TAccept _ => Ok (9, lit "192.168.1.2:4000")
  | ReadFromUDP _ _ => Ok (lit "hello", lit "192.168.1.2:4000")
  | TKill _ | TWait _ | ChildErr | ParentErr | TRemovePort _ | TWrite _ _ | TCloseWrite _ | TCloseConn _
  | SetReadDeadline _ _ | WriteToUDP _ _ _ => Ok tt
  | TCombined _ => ([], None)
  | TOpaqueForChild => test_opaque
  | AwaitInit => None
  | TAddPort s => Ok (Some (mkStatus 1 s))
  | Interfaces => Ok [mkIface "lo" 5; mkIface "eth1" 0; mkIface "eth0" 1]
  | Addrs _ => Ok [OtherAddr; IPNet (mkIPv4 192 168 1 2)]
  | Logf _ | TErrorf _ | TClose _ | Println _ | SleepMs _ | GoChildDriver _ | QuitChild | GoParentDriver _ | QuitParent
  | Discard _ => tt
  end.

Definition no_text (e : error) : str := [].

Theorem child_gets_opaque_witness :
  exec suite_kernel Main =
  (Fine tt,
   [TGetenv reexecKeyMode; TGetenv reexecKeyOpaque; GoChildDriver test_opaque; TGetenv reexecKeyQuitFD;
    TReadAll 3; QuitChild; ChildErr; TClose 3]).
Proof.
  apply (child_gets_opaque (JO := test_codec) suite_kernel test_opaque test_json [lit "PATH=/bin"]).
  - reflexivity.
  - intros kv ->%list_elem_of_singleton. reflexivity.
  - reflexivity.
  - by eexists.
Defined.

(** The transparent test over TCP, to its end. *)
Example transparent_run :
  (exec suite_kernel (TestTCPTransparent no_text)).1 = Fine tt /\
  List.filter (fun c => negb (no_suite c)) (exec suite_kernel (TestTCPTransparent no_text)).2 =
  [Start (mkTCmd [lit "/proc/self/exe"] (Some (child_env test_json [lit "PATH=/bin"])) [5] 1342177280 [(0, 1000, 1)] [(0, 1000, 1)]);
   AwaitInit;
   Start (mkTCmd (nsenter_argv 100 [[]]) (Some (echo_env "echoserver" 80 [lit "PATH=/bin"])) [6] 0 [] []);
   TAddPort (mkSpec "tcp" "192.168.1.2" 40000 80 []); TWait 100; TRemovePort 1; QuitParent; TKill 100; TWait 100].
Proof. split; vm_compute; reflexivity. Qed.

(** ** A short read *)

Lemma exec_tbind {A B} kern (p : test (out A)) (f : A -> test (out B)) :
  (exec kern (tbind p f)).1 = match (exec kern p).1 with Fine a => (exec kern (f a)).1 | Stop s => Stop s end.
Proof. unfold tbind. rewrite exec_bind. simpl. by destruct (exec kern p).1. Qed.

Lemma exec_tbind_stop {A B} kern (p : test (out A)) (f : A -> test (out B)) :
  (forall a, is_fine (exec kern (f a)).1 = false) -> is_fine (exec kern (tbind p f)).1 = false.
Proof. intros H. rewrite exec_tbind. by destruct (exec kern p).1. Qed.

(** One [Read] may return less than what was sent, for the data goes through
    nc and two pipes: the routine fails then, with a working driver. *)
Lemma short_read_fails (kern : forall c, tres c) proto pid childPID childP parentP s :
  (forall n, kern (StdoutRead n) = Ok s) -> (length s < length (test_data proto childPID childP parentP))%nat ->
  last (test_data proto childPID childP parentP) <> Some zero ->
  is_fine (exec kern (exchange proto pid childPID childP parentP)).1 = false.
Proof.
  intros Hs Hl Hz. unfold exchange. generalize dependent (test_data proto childPID childP parentP). intros w Hl Hz.
  do 4 (apply exec_tbind_stop; intros ?). rewrite exec_tbind. simpl. rewrite Hs. simpl.
  rewrite bool_decide_eq_true_2; [done|]. intros E. apply Hz. rewrite E. unfold read_buffer.
  destruct (Nat.le_exists_sub (S (length s)) (length w)) as (n & -> & _); [done|].
  replace (n + S (length s) - length s)%nat with (S n) by lia. by rewrite replicate_S_end, app_assoc, last_snoc.
Qed.
